(* ===== verification/_CoqProject ===== *)
-Q . S2P
Prelude.v
CString.v
Str.v
StrProps.v
Base64.v
Base64Props.v
Tokens.v
Buffer.v
Config.v
ConfigProps.v
RqParser.v
RqSpec.v
RqProps.v
WsMessage.v
WsFrameSpec.v
WsMessageSpec.v
Rfc6455.v
Assembly.v
WsMessageProps.v
WsTake.v
BufferProps.v
WsFrame.v
WsFrameProps.v
Expat.v
StreamParse.v
Framer.v
FramerSpec.v
FramerProps.v
Libevent.v
WsServer.v
CManager.v
WsConn.v
WsEvents.v
WsReads.v
WsHandshake.v
ManagerClient.v
WsConnProps.v
Termination.v
Upstream.v
Relay.v
RelayProps.v
Gateway.v
Main.v
Heap.v
Memory.v
MemorySpec.v
MemoryConn.v
MemoryProps.v
