(* ===== verification/Prelude.v ===== *)
(** * jabsocket: a verification development

    jabsocket is a gateway in C between browsers that speak XMPP over WebSocket
    and an XMPP server.  For each browser it accepts a socket, does the HTTP
    upgrade, assembles WebSocket frames into messages, finds in the first
    message the name of the server, connects to it and forwards the messages;
    in the other direction it cuts the server's XML stream into stanzas and
    sends each of them as one text message.  Everything runs in the callbacks
    of one libevent loop.

    ** The parts

    - util.c: CString.v has the C library's string functions, Str.v and StrProps.v the
      fixed strings [str_t], Buffer.v the growing buffers [buffer_t], the arrays
      [data_t] and [unmask]; Tokens.v says what [strtok_r] computes, BufferProps.v
      that a buffer is a bounded queue.
    - base64.c: Base64.v, Base64Props.v.
    - parseconfig.c: Config.v has the walk over libyaml's tokens and the origin
      check, ConfigProps.v the documents it reads.
    - rqparser.c: RqParser.v; RqSpec.v is the same parser on texts and lists
      and the proof that the C code computes it, RqProps.v the verdict, the
      response and the inputs on which the C code is undefined.
    - wsmessage.c: WsMessage.v; WsFrameSpec.v has the reference decoder for frame
      headers, [decode_header], and what the code reads instead, [read_header], Rfc6455.v a reference encoder, WsMessageSpec.v the abstract machine
      [asm] that the component refines, Assembly.v follows it through messages in
      any chunks, WsMessageProps.v has the theorems.
    - wsserver.c: WsFrame.v and WsFrameProps.v are the frames it writes; WsServer.v
      has the connections with all their callbacks, for a client of any
      type.  WsConn.v states the contract [WsClient] between the server and its
      client and the invariant [conn_inv]; WsEvents.v proves it for any sequence
      of events, WsTake.v and WsReads.v say what a read of frames does,
      WsHandshake.v what the reads of a request do; WsConnProps.v has the theorems,
      Termination.v those about its loops.
    - streamparse.c: StreamParse.v.
    - framer.c: Framer.v; FramerSpec.v says which bytes of a stream its handlers
      select, FramerProps.v has the theorems.
    - cmanager.c: CManager.v, the client of the server; ManagerClient.v proves that
      it keeps [WsClient], Upstream.v follows messages from the browser to the
      XMPP server, Relay.v and RelayProps.v the stream from the XMPP server to the
      browser.  Gateway.v puts all of it together: accept, upgrade, first
      messages, then both directions at once, and the end.
    - main.c: Main.v, from the options to the event loop, and the program as a whole.
    - log.c and libevent: Libevent.v; Expat: Expat.v.
    - Ownership, across all of these files: Heap.v has a heap of blocks and a linear separation
      logic for it; Memory.v has every function that allocates, links or frees (the
      constructors and destructors, the linked lists, the handlers that replace a
      pointer) on blocks with pointers in them; MemorySpec.v says who owns what in buffers,
      requests, message objects, framers, stream parsers and managers, MemoryConn.v in
      connections; MemoryProps.v has the theorems.

    A structure of the source is a record with the source's members, an
    operation a definition with its name.  Where a caller passes a pointer
    that is written through, the model takes the object and returns it; the
    callbacks of [cmanager.c] reach the browser's connection through [cm->conn],
    so they are functions on that connection, whose [custom_ctx] is the manager.

    ** Memory and undefined behaviour

    Bytes are integers from 0 to 255 and arrays lists of them.  A computation
    of the monad [M] below reads a tape on which the environment says of each
    allocation whether it succeeds and what the fresh memory holds; its result
    [None] is undefined behaviour.  [wp e m Q] says that [m] is free of it,
    returns, and ends in [Q], in environment [e]: [Benign] (allocations succeed,
    fresh memory is zero), [Garbage] (fresh memory is arbitrary) or [Hostile]
    (allocations also fail).  Theorems say which of them they need; [runs m a], that [m] yields [a]
    in the first one.  [size_t] has
    64 bits, [int] 32, and the host is little-endian; arithmetic that can wrap
    is written with its wrap-around.

    ** Fuel

    Loops of the source that are not structural take fuel, and running out of it
    is undefined behaviour, so that [wp] proves that the fuel is enough: a pass of
    the frame loops takes at least two bytes out of the receive buffer or
    clears a pending flag ([wsmsg_process], [frame_fuel]), of [read_lines] at
    least one byte of the input, of [readcb_loop] up to 1024 bytes, of
    [forward_loop] one frame of the list.  A loop over a linked list of the heap has
    as many passes as the heap has blocks, plus one ([h_loop]).

    ** The heap

    In all files but those of the last part a structure is a value and a freed
    object a flag.  The last part looks at the same functions from the other
    side: a structure is a block that holds pointers, [free] of what is not
    allocated and any use of a freed or unwritten block are undefined, and an
    assertion describes exactly the blocks it owns, so that a theorem about what is left
    when an object is deleted counts every block.  Its functions are called
    [heap_f] where another file has [f].  What they compute from data is the other
    files' subject, so it is an argument here: the key and value of a header
    line, the outcome of a frame, the events of Expat; theorems hold for all of
    them.  An object of libevent or Expat is one block, which only its own functions
    make and free.

    ** The theorems

    - The gateway ([gateway_correct], [gateway_ends]): from the accepted socket on,
      whatever the order in which messages and pings of the browser and reads from
      the server arrive, the server that the browser has named gets what the browser has
      sent, and the browser what that server has sent, whole and in order,
      with no undefined behaviour; and when the browser closes or the server's
      connection fails, the connection is freed.  [jabsocket_correct] starts at the
      command line and the configuration file; [main_correct] has the ways in which the
      start can end when the files hold well-formed documents.
    - Messages: memory safety of wsmessage.c for [max_frame_size] between 14 and 114
      and its failure outside that range; delivery of messages in any fragments
      and chunks; interleaved control frames; refinement of the abstract machine;
      frame decoding as in RFC 6455; what happens at the limits.
    - Connections: a bound on the passes of the loops; the invariant of the life of a connection under every sequence
      of events; the handshake over the wire; answers to control frames; the
      close handshake ends with the connection freed; end of file leaks it.
    - Both directions separately: messages to the XMPP server, stanzas to the browser, and the
      stanzas that are too long for the frames written.
    - The heap: from acceptance to the end of a connection no block is used after it is freed or
      freed twice, and what is left is listed, block for block ([connection_memory]); the linked lists of
      the request and of the framer are the lists of the other files ([request_memory],
      [framer_queue_refines]); what a configuration leaves ([config_memory]), and what
      objects leave that could not be made ([failed_allocations]).
    - The request parser, the configuration, base64, buffers and the framer: functional
      correctness on every input outside the stated undefined ones, round
      trips, and the inputs on which the code does not do what it means to.

    Conditions that several theorems share.  The limits are the safe ones ([conf_small]):
    [max_frame_size] from 14 to 114, [max_message_size] from 1 to [INT_MAX].  Each
    text message comes in reads of its own, of at most [max_frame_size - 13] bytes each,
    cut anywhere; a ping comes in one read; a longer read loses bytes and one that
    holds two messages is an error, and both have their theorems.  The end of a connection is
    only defined when messages of priority [LOG_INFO] are masked, since [wsconn_delete]
    logs names out of the structure it has freed, so theorems about the end, or about any
    socket event, have [logged conf LOG_INFO = false] as a hypothesis ([verbose_log_ub],
    [connection_log_ub]); those about the traffic before it have not.  The
    functions of <ctype.h> are given negative numbers for bytes from 128 up; the model has
    glibc's answers.

    A theorem about libraries takes them as parameters: [SHA1] and [fnmatch] are
    functions, Expat is class [Expat] with its documented behaviour
    [expat_reads], libevent's buffers class [Evbuffer] with [EvbufferLaws]; each has
    a concrete instance, which the witnesses use.  The resolver, what [getopt_long] yields
    and the contents of files are arguments of [main].

    ** Not modelled

    The signal handlers of [main], which log and exit; the text of log
    messages, of which only matters whether formatting them is defined; [show_bytes]
    and [base64_cleanup], which are never called; libevent's own
    allocations, which are taken to succeed, but where the heap model lets the
    creation of an object fail; the unit tests and the vendored test framework, which
    call the program and are not part of it.  The theorem on the memory of a
    connection assumes that allocations succeed: when they fail, the paths on which the
    program does not test for it are undefined ([cm_create], the copy of a header's
    value). *)

From stdpp Require Export prelude list strings numbers.

#[global] Open Scope Z_scope.

(** ** Machine integers

    [size_t] is 64 bits wide, [int] is 32 bits wide (LP64). *)

Definition szt (z : Z) : Z := z mod 2 ^ 64.
Definition u32 (z : Z) : Z := z mod 2 ^ 32.
Definition u16 (z : Z) : Z := z mod 2 ^ 16.
Definition u8 (z : Z) : Z := z mod 2 ^ 8.
Definition INT_MAX : Z := 2 ^ 31 - 1.
Definition PTRDIFF_MAX : Z := 2 ^ 63 - 1.

(** A byte of memory is an integer between 0 and 255. *)
Definition is_byte (z : Z) : Prop := 0 <= z < 256.
#[export] Instance is_byte_dec z : Decision (is_byte z).
Proof. unfold is_byte. apply _. Defined.

Definition zlen {A} (l : list A) : Z := Z.of_nat (length l).
Definition ztake {A} (n : Z) (l : list A) : list A := take (Z.to_nat n) l.
Definition zdrop {A} (n : Z) (l : list A) : list A := drop (Z.to_nat n) l.
Definition znth {A} (l : list A) (i : Z) : option A :=
  if i <? 0 then None else l !! Z.to_nat i.

(** The characters of a string constant of the source. *)
Definition bs (s : string) : list Z :=
  (λ a, Z.of_N (Ascii.N_of_ascii a)) <$> String.list_ascii_of_string s.

Definition CRLF : list Z := [13; 10].

(** ** The monad of the C code

    A computation consumes a tape of answers of the environment: each request
    for uninitialised memory (a heap allocation, a local array) takes one
    answer, which says whether the allocation succeeds and what the fresh
    memory holds.  The empty tape stands for "every allocation succeeds and
    fresh memory is zero".  The result [None] is undefined behaviour: an access
    outside an object, an access to a freed object, a bad format string. *)

Definition answer : Type := option (nat → Z).
Definition tape : Type := list answer.
Definition M (A : Type) : Type := tape → option (A * tape).

#[export] Instance M_ret : MRet M := λ A a t, Some (a, t).
#[export] Instance M_bind : MBind M := λ A B f m t,
  match m t with Some (a, t') => f a t' | None => None end.

Definition ub {A} : M A := λ _, None.
Definition opt {A} (o : option A) : M A :=
  match o with Some a => mret a | None => ub end.

Definition next_answer : M answer := λ t,
  match t with [] => Some (Some (λ _, 0), []) | a :: t' => Some (a, t') end.

Definition fresh (f : nat → Z) (n : Z) : list Z :=
  (λ i, f i mod 256) <$> seq 0 (Z.to_nat n).

(** [malloc(n)] yields [None] for the null pointer. *)
Definition malloc (n : Z) : M (option (list Z)) :=
  a ← next_answer;
  mret (if PTRDIFF_MAX <? n then None else (λ f, fresh f n) <$> a).

(** [realloc(old, n)] keeps the old bytes; on failure the old block stays. *)
Definition realloc (old : list Z) (n : Z) : M (option (list Z)) :=
  r ← malloc n;
  mret ((λ new, ztake n old ++ zdrop (zlen old) new) <$> r).

(** An allocation whose contents the source never reads before writing. *)
Definition malloc_ok (n : Z) : M bool :=
  r ← malloc n; mret (if r is Some _ then true else false).

(** An automatic array of [n] uninitialised bytes. *)
Definition local_array (n : Z) : M (list Z) :=
  a ← next_answer; mret (fresh (default (λ _, 0) a) n).

(** [memcpy] and friends: reading and writing a range of an object. *)
Definition mem_read (a : list Z) (off n : Z) : option (list Z) :=
  if (0 <=? off) && (0 <=? n) && (off + n <=? zlen a)
  then Some (ztake n (zdrop off a)) else None.
Definition mem_write (a : list Z) (off : Z) (d : list Z) : option (list Z) :=
  if (0 <=? off) && (off + zlen d <=? zlen a)
  then Some (ztake off a ++ d ++ zdrop (off + zlen d) a) else None.

(** ** Reasoning about computations

    [wp e m Q]: [m] has no undefined behaviour, returns, and its result
    satisfies [Q], in the environment [e].  [Benign]: every allocation succeeds
    and fresh memory is zero.  [Garbage]: every allocation succeeds, fresh memory
    is arbitrary.  [Hostile]: allocations may fail as well. *)

Inductive env := Benign | Garbage | Hostile.
#[export] Instance env_eq_dec : EqDecision env.
Proof. solve_decision. Defined.

Definition wp {A} (e : env) (m : M A) (Q : A → Prop) : Prop :=
  match e with
  | Benign => ∃ a, m [] = Some (a, []) ∧ Q a
  | Garbage => ∀ t, Forall is_Some t → ∃ a t', m t = Some (a, t') ∧ Q a ∧ Forall is_Some t'
  | Hostile => ∀ t, ∃ a t', m t = Some (a, t') ∧ Q a
  end.
Definition runs {A} (m : M A) (a : A) : Prop := m [] = Some (a, []).

Section monad.
Context {A B : Type} (e : env).
Implicit Types (m : M A) (f : A → M B).

Lemma wp_ret (a : A) (Q : A → Prop) : Q a → wp e (mret a) Q.
Proof.
  intros HQ. destruct e; [by exists a|intros t ?; by exists a, t|intros t; by exists a, t].
Qed.

Lemma wp_bind m f (Q : B → Prop) :
  wp e m (λ a, wp e (f a) Q) → wp e (m ≫= f) Q.
Proof.
  unfold mbind, M_bind. destruct e; simpl.
  - intros (a & -> & Hf). apply Hf.
  - intros Hm t Ht. destruct (Hm t Ht) as (a & t' & -> & Hf & Ht'). by apply Hf.
  - intros Hm t. destruct (Hm t) as (a & t' & -> & Hf). apply Hf.
Qed.

Lemma wp_mono m (P Q : A → Prop) : wp e m P → (∀ a, P a → Q a) → wp e m Q.
Proof.
  destruct e; simpl; [intros (a & ? & ?); eauto| |].
  - intros Hm HPQ t Ht. destruct (Hm t Ht) as (a & t' & E & HP & ?). eauto 10.
  - intros Hm HPQ t. destruct (Hm t) as (a & t' & E & HP). eauto 10.
Qed.

Lemma wp_opt (o : option A) a (Q : A → Prop) : o = Some a → Q a → wp e (opt o) Q.
Proof. intros -> HQ. by apply wp_ret. Qed.

Lemma wp_opt' (o : option A) (Q : A → Prop) :
  is_Some o → (∀ a, o = Some a → Q a) → wp e (opt o) Q.
Proof. intros [a Ha] HQ. eapply wp_opt; eauto. Qed.

(** [wp] is defined behaviour on the empty tape in either environment. *)
Lemma wp_nil m (Q : A → Prop) : wp e m Q → ∃ a t', m [] = Some (a, t') ∧ Q a.
Proof.
  destruct e; simpl; [intros (a & ? & ?); eauto|intros Hm|auto].
  destruct (Hm [] (Forall_nil_2 _)) as (a & t' & ? & ? & _). eauto.
Qed.

Lemma wp_and m (P Q : A → Prop) : wp e m P → wp e m Q → wp e m (λ a, P a ∧ Q a).
Proof.
  destruct e; simpl.
  - intros (a & E & ?) (a' & E' & ?). rewrite E in E'. simplify_eq. eauto.
  - intros HP HQ t Ht. destruct (HP t Ht) as (a & t' & E & ? & ?).
    destruct (HQ t Ht) as (a' & t'' & E' & ? & _). rewrite E in E'. simplify_eq. eauto 10.
  - intros HP HQ t. destruct (HP t) as (a & t' & E & ?).
    destruct (HQ t) as (a' & t'' & E' & ?). rewrite E in E'. simplify_eq. eauto 10.
Qed.

(** A further result that only some environments grant. *)
Lemma wp_and_if m (P Q : A → Prop) (φ : Prop) `{!Decision φ} :
  wp e m P → (φ → wp e m Q) → wp e m (λ a, P a ∧ (φ → Q a)).
Proof.
  intros HP HQ. destruct (decide φ) as [Hφ|]; [|by eapply wp_mono].
  eapply wp_mono; [by apply wp_and; [|apply HQ]|]. intros a [? ?]. auto.
Qed.

Lemma runs_wp m a (Q : A → Prop) : wp e m Q → runs m a → Q a.
Proof.
  intros Hm Hr. destruct (wp_nil _ _ Hm) as (a' & t' & E & ?).
  unfold runs in Hr. by rewrite Hr in E; simplify_eq.
Qed.
End monad.

Lemma wp_benign_runs {A} (m : M A) Q : wp Benign m Q → ∃ a, runs m a ∧ Q a.
Proof. done. Qed.

(** Undefined behaviour of a step is undefined behaviour of the program. *)
Lemma bind_ub {A B} (m : M A) (f : A → M B) t : m t = None → (m ≫= f) t = None.
Proof. unfold mbind, M_bind. by intros ->. Qed.

(** ** Lists indexed by [Z] *)

Create HintDb zlist.
Create Rewrite HintDb zlist.

Section zlist.
Context {A : Type}.
Implicit Types (l : list A) (n m : Z).

Lemma zlen_nonneg l : 0 <= zlen l.
Proof. unfold zlen. lia. Qed.
Lemma zlen_nil : zlen (@nil A) = 0.
Proof. done. Qed.
Lemma zlen_cons (x : A) l : zlen (x :: l) = 1 + zlen l.
Proof. unfold zlen. cbn [length]. lia. Qed.
Lemma zlen_app l1 l2 : zlen (l1 ++ l2) = zlen l1 + zlen l2.
Proof. unfold zlen. rewrite length_app. lia. Qed.
Lemma zlen_ztake_min n l : 0 <= n → zlen (ztake n l) = Z.min n (zlen l).
Proof. intros. unfold zlen, ztake. rewrite length_take. lia. Qed.
Lemma zlen_ztake n l : 0 <= n <= zlen l → zlen (ztake n l) = n.
Proof. intros. rewrite zlen_ztake_min; lia. Qed.
Lemma zlen_zdrop n l : 0 <= n <= zlen l → zlen (zdrop n l) = zlen l - n.
Proof. intros. unfold zlen, zdrop in *. rewrite length_drop. lia. Qed.
Lemma zlen_slice off n l :
  0 <= off → 0 <= n → off + n <= zlen l → zlen (ztake n (zdrop off l)) = n.
Proof. intros. apply zlen_ztake. rewrite zlen_zdrop; lia. Qed.
Lemma zlen_0_nil l : zlen l = 0 → l = [].
Proof. unfold zlen. destruct l; cbn [length]; [done|lia]. Qed.

Lemma ztake_0 l : ztake 0 l = [].
Proof. done. Qed.
Lemma zdrop_0 l : zdrop 0 l = l.
Proof. done. Qed.
Lemma ztake_ge n l : zlen l <= n → ztake n l = l.
Proof. intros. unfold ztake, zlen in *. apply take_ge. lia. Qed.
Lemma zdrop_ge n l : zlen l <= n → zdrop n l = [].
Proof. intros. unfold zdrop, zlen in *. apply drop_ge. lia. Qed.
Lemma ztake_all l : ztake (zlen l) l = l.
Proof. apply ztake_ge. lia. Qed.
Lemma zdrop_all l : zdrop (zlen l) l = [].
Proof. apply zdrop_ge. lia. Qed.
Lemma ztake_zdrop n l : ztake n l ++ zdrop n l = l.
Proof. apply take_drop. Qed.
Lemma ztake_app_le n l1 l2 : n <= zlen l1 → ztake n (l1 ++ l2) = ztake n l1.
Proof. intros. unfold ztake, zlen in *. rewrite take_app_le; [done|lia]. Qed.
Lemma ztake_app_ge n l1 l2 :
  zlen l1 <= n → ztake n (l1 ++ l2) = l1 ++ ztake (n - zlen l1) l2.
Proof.
  intros. unfold ztake, zlen in *. rewrite take_app_ge by lia. do 2 f_equal. lia.
Qed.
Lemma ztake_app_exact n l1 l2 : n = zlen l1 → ztake n (l1 ++ l2) = l1.
Proof. intros ->. rewrite ztake_app_le by lia. apply ztake_all. Qed.
Lemma zdrop_app_le n l1 l2 :
  n <= zlen l1 → zdrop n (l1 ++ l2) = zdrop n l1 ++ l2.
Proof. intros. unfold zdrop, zlen in *. rewrite drop_app_le; [done|lia]. Qed.
Lemma zdrop_app_ge n l1 l2 :
  zlen l1 <= n → zdrop n (l1 ++ l2) = zdrop (n - zlen l1) l2.
Proof.
  intros. unfold zdrop, zlen in *. rewrite drop_app_ge by lia. f_equal. lia.
Qed.
Lemma zdrop_app_exact n l1 l2 : n = zlen l1 → zdrop n (l1 ++ l2) = l2.
Proof. intros ->. rewrite zdrop_app_ge by lia. by rewrite Z.sub_diag. Qed.
Lemma ztake_ztake n m l : 0 <= n <= m → ztake n (ztake m l) = ztake n l.
Proof. intros. unfold ztake. rewrite take_take. f_equal. lia. Qed.
Lemma zdrop_zdrop n m l : 0 <= n → 0 <= m → zdrop n (zdrop m l) = zdrop (m + n) l.
Proof. intros. unfold zdrop. rewrite drop_drop. f_equal. lia. Qed.
Lemma ztake_zdrop_comm n m l :
  0 <= n → 0 <= m → ztake n (zdrop m l) = zdrop m (ztake (m + n) l).
Proof.
  intros. unfold ztake, zdrop. rewrite take_drop_commute. do 2 f_equal. lia.
Qed.

Lemma znth_lookup l n : 0 <= n → znth l n = l !! Z.to_nat n.
Proof. intros. unfold znth. destruct (Z.ltb_spec n 0); [lia|done]. Qed.
Lemma znth_lt_is_Some l n : 0 <= n < zlen l → is_Some (znth l n).
Proof.
  intros. rewrite znth_lookup by lia. apply lookup_lt_is_Some. unfold zlen in *. lia.
Qed.
Lemma znth_app_l n l1 l2 : n < zlen l1 → znth (l1 ++ l2) n = znth l1 n.
Proof.
  intros. unfold znth, zlen in *. destruct (Z.ltb_spec n 0); [done|].
  rewrite lookup_app_l; [done|lia].
Qed.
Lemma znth_ztake n m l : n < m → znth (ztake m l) n = znth l n.
Proof.
  intros. unfold znth, ztake. destruct (Z.ltb_spec n 0); [done|].
  rewrite lookup_take_lt; [done|lia].
Qed.

Lemma zdrop_znth l i x : znth l i = Some x → zdrop i l = x :: zdrop (i + 1) l.
Proof.
  unfold znth. destruct (Z.ltb_spec i 0); [done|]. intros. unfold zdrop.
  rewrite (drop_S l x (Z.to_nat i)) by done. do 2 f_equal. lia.
Qed.
Lemma ztake_cons n x l : 0 < n → ztake n (x :: l) = x :: ztake (n - 1) l.
Proof.
  intros. unfold ztake. replace (Z.to_nat n) with (S (Z.to_nat (n - 1))) by lia. done.
Qed.
Lemma zdrop_cons n x l : 0 < n → zdrop n (x :: l) = zdrop (n - 1) l.
Proof.
  intros. unfold zdrop. replace (Z.to_nat n) with (S (Z.to_nat (n - 1))) by lia. done.
Qed.

Lemma Forall_ztake (P : A → Prop) n l : Forall P l → Forall P (ztake n l).
Proof. apply Forall_take. Qed.
Lemma Forall_zdrop (P : A → Prop) n l : Forall P l → Forall P (zdrop n l).
Proof. apply Forall_drop. Qed.
Lemma Forall_znth (P : A → Prop) l n x : Forall P l → znth l n = Some x → P x.
Proof.
  unfold znth. destruct (n <? 0); [done|]. rewrite Forall_lookup. eauto.
Qed.
End zlist.

Arguments ztake : simpl never.
Arguments zdrop : simpl never.
Arguments zlen : simpl never.

#[export] Hint Resolve zlen_nonneg : zlist.
#[export] Hint Resolve Forall_ztake Forall_zdrop : zlist.
#[export] Hint Rewrite @zlen_nil @zlen_cons @zlen_app : zlist.
#[export] Hint Rewrite @ztake_0 @zdrop_0 @ztake_all @zdrop_all : zlist.
#[export] Hint Rewrite @zlen_slice @zlen_ztake @zlen_zdrop using lia : zlist.

(** [zl] normalises lengths and calls [lia], knowing lengths are not negative. *)
Ltac zlen_pos :=
  repeat match goal with
  | |- context [zlen ?l] =>
      lazymatch goal with H : 0 <= zlen l |- _ => fail | _ => pose proof (zlen_nonneg l) end
  | _ : context [zlen ?l] |- _ =>
      lazymatch goal with H : 0 <= zlen l |- _ => fail | _ => pose proof (zlen_nonneg l) end
  end.
Ltac zl := autorewrite with zlist in *; zlen_pos; lia.

(** Boolean comparisons of the code as propositions. *)
Ltac bcase :=
  match goal with
  | |- context [?a <? ?b] => destruct (Z.ltb_spec a b)
  | |- context [?a <=? ?b] => destruct (Z.leb_spec a b)
  | |- context [?a =? ?b] => destruct (Z.eqb_spec a b)
  end.

(** Closed decidable facts, by evaluation. *)
Ltac decided :=
  match goal with |- ?P => refine (bool_decide_unpack P _); vm_compute; exact I end.

(** A [Forall] over an explicit list, element by element. *)
Ltac each := repeat first [apply Forall_nil_2 | apply Forall_cons_2].

(** ** Ranges of memory *)

Lemma mem_read_Some a off n :
  0 <= off → 0 <= n → off + n <= zlen a →
  mem_read a off n = Some (ztake n (zdrop off a)).
Proof. intros. unfold mem_read. repeat (bcase; simpl); done || lia. Qed.

Lemma mem_read_None a off n : 0 <= off → zlen a < off + n → mem_read a off n = None.
Proof. intros. unfold mem_read. repeat (bcase; simpl); done || lia. Qed.

Lemma mem_read_inv a off n d :
  mem_read a off n = Some d →
  0 <= off ∧ 0 <= n ∧ off + n <= zlen a ∧ d = ztake n (zdrop off a).
Proof. unfold mem_read. repeat (bcase; simpl); intros; simplify_eq; auto. Qed.

Lemma mem_read_app d rest off n :
  0 <= off → 0 <= n → off + n <= zlen d →
  mem_read (d ++ rest) off n = mem_read d off n.
Proof.
  intros. rewrite !mem_read_Some by zl.
  rewrite zdrop_app_le by lia. rewrite ztake_app_le; [done|zl].
Qed.

Lemma mem_read_all a : mem_read a 0 (zlen a) = Some a.
Proof. rewrite mem_read_Some by zl. by rewrite zdrop_0, ztake_all. Qed.

Lemma mem_write_Some a off d :
  0 <= off → off + zlen d <= zlen a →
  mem_write a off d = Some (ztake off a ++ d ++ zdrop (off + zlen d) a).
Proof. intros. unfold mem_write. repeat (bcase; simpl); done || lia. Qed.

Lemma mem_write_inv a off d a' :
  mem_write a off d = Some a' →
  0 <= off ∧ off + zlen d <= zlen a ∧ zlen a' = zlen a ∧
  a' = ztake off a ++ d ++ zdrop (off + zlen d) a.
Proof.
  unfold mem_write. repeat (bcase; simpl); intros; simplify_eq.
  zlen_pos. split_and!; try done. autorewrite with zlist. zl.
Qed.

(** ** The allocator *)

Lemma zlen_fresh f n : 0 <= n → zlen (fresh f n) = n.
Proof. intros. unfold zlen, fresh. rewrite length_fmap, length_seq. lia. Qed.

Lemma fresh_bytes f n : Forall is_byte (fresh f n).
Proof.
  unfold fresh. apply Forall_fmap, Forall_true. intros i. simpl.
  unfold is_byte. apply Z.mod_pos_bound. lia.
Qed.
#[export] Hint Resolve fresh_bytes : zlist.

Section alloc.
Context (e : env).

Lemma wp_malloc n (Q : option (list Z) → Prop) :
  0 <= n → (e = Hostile ∨ PTRDIFF_MAX < n → Q None) →
  (∀ a, zlen a = n → Forall is_byte a → n <= PTRDIFF_MAX → Q (Some a)) →
  wp e (malloc n) Q.
Proof.
  intros Hn HN HS.
  assert (∀ f, Q (if PTRDIFF_MAX <? n then None else Some (fresh f n))) as HQ.
  { intros f. bcase; [auto|]. apply HS; [by apply zlen_fresh|apply fresh_bytes|lia]. }
  unfold malloc, mbind, M_bind, next_answer, mret, M_ret.
  destruct e; simpl; [eexists; split; [done|]; apply HQ| |].
  { intros [|o t] Ht; [eexists _, _; split; [done|]; split; [apply HQ|done]|].
    apply Forall_cons_iff in Ht as [[f ->] Ht]. eexists _, _. split; [done|].
    split; [|done]. simpl. specialize (HQ f). by bcase. }
  assert (Q None) by auto.
  intros [|[f|] t]; eexists _, _; (split; [done|]); simpl; auto.
  by bcase.
Qed.

Lemma wp_malloc_ok n (Q : bool → Prop) :
  0 <= n → (e = Hostile ∨ PTRDIFF_MAX < n → Q false) → Q true → wp e (malloc_ok n) Q.
Proof. intros. apply wp_bind, wp_malloc; intros; try apply wp_ret; auto. Qed.

Lemma wp_realloc old n (Q : option (list Z) → Prop) :
  zlen old <= n → (e = Hostile ∨ PTRDIFF_MAX < n → Q None) →
  (∀ a, zlen a = n - zlen old → Forall is_byte a → n <= PTRDIFF_MAX → Q (Some (old ++ a))) →
  wp e (realloc old n) Q.
Proof.
  intros Hn HN HS. zlen_pos. apply wp_bind, wp_malloc; [lia|intros; apply wp_ret; auto|].
  intros a Ha Hb ?. apply wp_ret. simpl. rewrite ztake_ge by lia.
  apply HS; auto with zlist. zl.
Qed.

Lemma wp_local_array n (Q : list Z → Prop) :
  0 <= n → (∀ a, zlen a = n → Forall is_byte a → Q a) → wp e (local_array n) Q.
Proof.
  intros Hn HQ. unfold local_array, mbind, M_bind, next_answer, mret, M_ret.
  assert (∀ f, Q (fresh f n)) by auto using zlen_fresh, fresh_bytes.
  destruct e; simpl; [eexists; split; [done|auto]| |].
  - intros [|o t] Ht; eexists _, _; (split; [done|]); split; auto.
    by apply Forall_cons_iff in Ht as [_ ?].
  - intros [|o t]; eexists _, _; (split; [done|auto]).
Qed.
End alloc.

(** When allocations are granted. *)
Lemma wp_alloc_ok e n (Q : bool → Prop) :
  e ≠ Hostile → 0 <= n <= PTRDIFF_MAX → Q true → wp e (malloc_ok n) Q.
Proof. intros ? ? HQ. apply wp_malloc_ok; [lia|intros [?|?]; [done|lia]|done]. Qed.

Create HintDb wpdb.
#[export] Hint Resolve wp_ret wp_bind : wpdb.

(** One step of symbolic execution of a computation under [wp]. *)
Ltac wstep :=
  lazymatch goal with
  | |- wp _ (_ ≫= _) _ => apply wp_bind
  | |- wp _ (mret _) _ => apply wp_ret
  | |- wp _ (let (_, _) := ?p in _) _ => destruct p
  end.
Ltac wsteps := repeat wstep.

Lemma szt_small z : 0 <= z < 2 ^ 64 → szt z = z.
Proof. intros. unfold szt. apply Z.mod_small. lia. Qed.

(** Joining bit fields is addition. *)
Lemma lor_add_low hi lo n : 0 <= n → 0 <= lo < 2 ^ n → Z.lor (Z.shiftl hi n) lo = hi * 2 ^ n + lo.
Proof.
  intros Hn Hlo. rewrite <-Z.shiftl_mul_pow2 by lia. symmetry.
  apply Z.add_nocarry_lor, Z.bits_inj'. intros i Hi.
  rewrite Z.land_spec, Z.bits_0. destruct (Z.ltb_spec i n).
  - by rewrite Z.shiftl_spec_low.
  - destruct (Z.eq_dec lo 0) as [->|]; [by rewrite Z.bits_0, andb_false_r|].
    rewrite (Z.bits_above_log2 lo i); [apply andb_false_r|lia|].
    apply Z.log2_lt_pow2; [lia|]. eapply Z.lt_le_trans; [apply Hlo|].
    apply Z.pow_le_mono_r; lia.
Qed.

(** ** Conversions to [int] *)

Definition INT_MIN : Z := - 2 ^ 31.
(** An integer stored in an [int]. *)
Definition to_int (z : Z) : Z := (z + 2 ^ 31) mod 2 ^ 32 - 2 ^ 31.
(** The result of an [int] operation, undefined when it overflows. *)
Definition int_op (z : Z) : option Z :=
  if (INT_MIN <=? z) && (z <=? INT_MAX) then Some z else None.

Lemma to_int_small z : INT_MIN <= z <= INT_MAX → to_int z = z.
Proof. unfold to_int, INT_MIN, INT_MAX. intros. rewrite Z.mod_small; lia. Qed.
Lemma int_op_small z : INT_MIN <= z <= INT_MAX → int_op z = Some z.
Proof. intros. unfold int_op. by repeat (bcase; simpl; try lia). Qed.
