(* ===== verification/CString.v ===== *)
(** * The C library's string functions

    What jabsocket uses of [<string.h>], [<strings.h>], [<ctype.h>], [<stdio.h>]
    and [<stdlib.h>], in the "C" locale (the program never calls
    [setlocale]).  A character is its code between 0 and 255; [schar] is its value as a [char],
    which is what [isspace] and [tolower] are given.  A C string that
    is only read is the list of its characters without the terminator; a
    string that lives in an array the program writes is that array, a list that
    holds the terminator. *)

From S2P Require Import Prelude.

(** ** Character classes *)

(** [isspace] and [tolower] take an [int].  The program gives them plain [char]s, which
    are signed, so that a character of 128 or more arrives as a negative number: ISO C
    leaves this undefined, and these are the answers of glibc, whose tables begin at
    -128.  [schar c]: the character with code [c] as an [int]. *)
Definition schar (c : Z) : Z := if c <? 128 then c else c - 256.
Definition isspace (i : Z) : bool := (i =? 32) || ((9 <=? i) && (i <=? 13)).
Definition tolower (i : Z) : Z := if (65 <=? i) && (i <=? 90) then i + 32 else i.
(** The character that replaces [c] when a string is lowered in place. *)
Definition lower_char (c : Z) : Z := u8 (tolower (schar c)).
Definition isdigit (c : Z) : bool := (48 <=? c) && (c <=? 57).

(** A well-formed string value: bytes, none of them the terminator. *)
Definition is_char (c : Z) : Prop := 0 < c < 256.
Definition cstring (s : list Z) : Prop := Forall is_char s.
#[export] Instance is_char_dec c : Decision (is_char c).
Proof. unfold is_char. apply _. Defined.

(** ** Strings in arrays *)

(** The characters before the first terminator; [None] when the array has no
    terminator, so that a reader runs past its end. *)
Fixpoint until_nul (l : list Z) : option (list Z) :=
  match l with
  | [] => None
  | c :: l' => if c =? 0 then Some [] else (λ s, c :: s) <$> until_nul l'
  end.

Definition cstr (a : list Z) (off : Z) : option (list Z) :=
  if (0 <=? off) && (off <=? zlen a) then until_nul (zdrop off a) else None.

(** ** Comparison and search *)

Definition strcmp_eq (a b : list Z) : bool := bool_decide (a = b).
(** [strcasecmp] compares the codes as [unsigned char]s. *)
Definition strcasecmp_eq (a b : list Z) : bool :=
  bool_decide (tolower <$> a = tolower <$> b).

Fixpoint strchr (s : list Z) (c : Z) : option Z :=
  match s with
  | [] => None
  | d :: s' => if d =? c then Some 0 else Z.succ <$> strchr s' c
  end.

Definition mem_char (c : Z) (set : list Z) : bool := bool_decide (c ∈ set).

(** Length of the initial segment made of characters (not) in a set. *)
Fixpoint strspn (s set : list Z) : Z :=
  match s with
  | c :: s' => if mem_char c set then 1 + strspn s' set else 0
  | [] => 0
  end.
Fixpoint strcspn (s set : list Z) : Z :=
  match s with
  | c :: s' => if mem_char c set then 0 else 1 + strcspn s' set
  | [] => 0
  end.

(** [strtok_r] on the array [a] from offset [pos]: the token's offset (or the
    null pointer), the new save pointer, the array with the delimiter that ends
    the token overwritten. *)
Definition strtok_r (a : list Z) (pos : Z) (delim : list Z)
    : option (option Z * Z * list Z) :=
  s ← cstr a pos;
  let tok := pos + strspn s delim in
  s' ← cstr a tok;
  match s' with
  | [] => Some (None, tok, a)
  | _ :: _ =>
      let n := strcspn s' delim in
      if n =? zlen s' then Some (Some tok, tok + n, a)
      else a' ← mem_write a (tok + n) [0]; Some (Some tok, tok + n + 1, a')
  end.

(** [strncpy(a + off, s, n)]: copies at most [n] characters, pads with zeros up
    to [n], and leaves no terminator when [s] has [n] characters or more. *)
Definition strncpy (a : list Z) (off : Z) (s : list Z) (n : Z) : option (list Z) :=
  mem_write a off (ztake n s ++ replicate (Z.to_nat (n - zlen s)) 0).

(** ** Formatted output

    [%s] takes the next argument and [%%] is a percent sign.  Every other
    conversion specification needs an argument that the callers of the program
    never supply, or is malformed: undefined behaviour. *)
Fixpoint fmt_expand (fmt : list Z) (args : list (list Z)) : option (list Z) :=
  match fmt with
  | [] => Some []
  | 37 :: 115 :: fmt' =>
      match args with
      | a :: args' => (λ s, a ++ s) <$> fmt_expand fmt' args'
      | [] => None
      end
  | 37 :: 37 :: fmt' => (λ s, 37 :: s) <$> fmt_expand fmt' args
  | 37 :: _ => None
  | c :: fmt' => (λ s, c :: s) <$> fmt_expand fmt' args
  end.

(** [vsnprintf(buf, cap, fmt, ap)]. *)
Definition snprintf (buf : list Z) (cap : Z) (fmt : list Z) (args : list (list Z))
    : option (list Z) :=
  out ← fmt_expand fmt args;
  if cap =? 0 then Some buf else mem_write buf 0 (ztake (cap - 1) out ++ [0]).

(** ** Conversion *)

Fixpoint skip_space (s : list Z) : list Z :=
  match s with
  | c :: s' => if isspace (schar c) then skip_space s' else s
  | [] => []
  end.

Fixpoint digits (acc : Z) (s : list Z) : Z :=
  match s with
  | c :: s' => if isdigit c then digits (10 * acc + (c - 48)) s' else acc
  | [] => acc
  end.

(** [atoi]; a value that is not representable in an [int] is undefined
    behaviour. *)
Definition atoi (s : list Z) : option Z :=
  let v := match skip_space s with
           | 45 :: s' => - digits 0 s'
           | 43 :: s' => digits 0 s'
           | s' => digits 0 s'
           end in
  if (- INT_MAX - 1 <=? v) && (v <=? INT_MAX) then Some v else None.

(** ** Lemmas *)

Create HintDb cstr.

Lemma until_nul_app s rest : cstring s → until_nul (s ++ 0 :: rest) = Some s.
Proof.
  induction 1 as [|c s Hc Hs IH]; simpl; [done|].
  unfold is_char in Hc. destruct (Z.eqb_spec c 0); [lia|]. by rewrite IH.
Qed.

Lemma until_nul_inv l s :
  until_nul l = Some s → ∃ rest, l = s ++ 0 :: rest ∧ Forall (λ c, c ≠ 0) s.
Proof.
  revert s. induction l as [|c l IH]; intros s; simpl; [done|].
  destruct (Z.eqb_spec c 0) as [->|]; [intros [= <-]; eauto|].
  intros (s' & Hs & ->)%fmap_Some. destruct (IH _ Hs) as (rest & -> & ?).
  exists rest. auto.
Qed.

Lemma until_nul_None l : Forall (λ c, c ≠ 0) l → until_nul l = None.
Proof.
  induction 1 as [|c l Hc Hl IH]; simpl; [done|].
  destruct (Z.eqb_spec c 0); [done|]. by rewrite IH.
Qed.

Lemma cstr_app s rest : cstring s → cstr (s ++ 0 :: rest) 0 = Some s.
Proof.
  intros. unfold cstr. repeat (bcase; simpl); try (zl || lia).
  by apply until_nul_app.
Qed.

Lemma cstr_inv a s :
  cstr a 0 = Some s → ∃ rest, a = s ++ 0 :: rest ∧ Forall (λ c, c ≠ 0) s.
Proof. unfold cstr. destruct (_ && _); [|done]. apply until_nul_inv. Qed.

Lemma cstr_cstring a s : Forall is_byte a → cstr a 0 = Some s → cstring s.
Proof.
  intros Ha (rest & -> & Hs)%cstr_inv. apply Forall_app in Ha as [Ha _].
  unfold cstring. rewrite !Forall_forall in *. intros c Hc.
  specialize (Ha c Hc). specialize (Hs c Hc). unfold is_byte, is_char in *. lia.
Qed.

Lemma cstr_len a s : cstr a 0 = Some s → zlen s < zlen a.
Proof. intros (rest & -> & _)%cstr_inv. zl. Qed.

Lemma cstring_bytes s : cstring s → Forall is_byte s.
Proof. apply Forall_impl. unfold is_char, is_byte. lia. Qed.

Lemma cstring_take n s : cstring s → cstring (ztake n s).
Proof. apply Forall_take. Qed.
Lemma cstring_drop n s : cstring s → cstring (zdrop n s).
Proof. apply Forall_drop. Qed.
Lemma cstring_app s t : cstring s → cstring t → cstring (s ++ t).
Proof. intros. by apply Forall_app. Qed.
#[export] Hint Resolve cstring_bytes cstring_take cstring_drop cstring_app : cstr.

(** Text without a percent sign is copied by a formatted print. *)
Definition no_percent (s : list Z) : Prop := 37 ∉ s.

Lemma fmt_expand_plain s args : no_percent s → fmt_expand s args = Some s.
Proof.
  unfold no_percent. induction s as [|c s IH]; intros Hs; [done|].
  rewrite not_elem_of_cons in Hs. destruct Hs as [Hc Hs]. simpl.
  rewrite (IH Hs).
  destruct c as [|p|p]; try done.
  do 6 (destruct p as [p|p|]; try done).
Qed.

Lemma snprintf_Some buf cap fmt args out :
  0 < cap <= zlen buf → fmt_expand fmt args = Some out →
  snprintf buf cap fmt args =
    Some ((ztake (cap - 1) out ++ [0]) ++
          zdrop (zlen (ztake (cap - 1) out ++ [0])) buf).
Proof.
  intros Hcap Hf. unfold snprintf. rewrite Hf. simpl.
  destruct (Z.eqb_spec cap 0); [lia|].
  rewrite mem_write_Some; rewrite ?ztake_0; [by rewrite Z.add_0_l|lia|].
  rewrite zlen_app, zlen_ztake_min by lia. zl.
Qed.

Lemma strcasecmp_eq_spec (a b : list Z) : strcasecmp_eq a b = true ↔ tolower <$> a = tolower <$> b.
Proof. apply bool_decide_eq_true. Qed.

Lemma tolower_idemp c : tolower (tolower c) = tolower c.
Proof.
  unfold tolower. destruct ((65 <=? c) && (c <=? 90)) eqn:E; [|by rewrite E].
  bcase; simpl; [|done]. bcase; [lia|done].
Qed.

Lemma tolower_fmap_idemp (s : list Z) : tolower <$> (tolower <$> s) = tolower <$> s.
Proof. rewrite <-list_fmap_compose. apply list_fmap_ext. intros. apply tolower_idemp. Qed.

Lemma tolower_char c : is_char c → is_char (tolower c).
Proof. unfold is_char, tolower. repeat (bcase; simpl); lia. Qed.
#[export] Hint Resolve tolower_char : cstr.

Lemma tolower_cstring (s : list Z) : cstring s → cstring (tolower <$> s).
Proof. intros Hs. apply Forall_fmap. eapply Forall_impl; [|exact Hs]. exact tolower_char. Qed.
#[export] Hint Resolve tolower_cstring : cstr.

Lemma lower_char_byte c : is_byte c → lower_char c = tolower c.
Proof.
  unfold is_byte, lower_char, schar, tolower, u8. intros Hc. change (2 ^ 8) with 256.
  repeat (bcase; simpl); rewrite ?Z.mod_small by lia; try lia.
  rewrite <-(Z.mod_add (c - 256) 1), Z.mod_small by lia. lia.
Qed.

Lemma lower_text (s : list Z) : Forall is_byte s → lower_char <$> s = tolower <$> s.
Proof. induction 1 as [|c s Hc _ IH]; [done|]. by rewrite !fmap_cons, IH, lower_char_byte. Qed.

(** ** Copies on the heap *)

Definition strdup (s : list Z) : M (option (list Z)) :=
  ok ← malloc_ok (zlen s + 1); mret (if (ok : bool) then Some s else None).

Lemma wp_strdup e s (Q : option (list Z) → Prop) :
  e ≠ Hostile → zlen s < PTRDIFF_MAX → Q (Some s) → wp e (strdup s) Q.
Proof.
  intros ? ? HQ. unfold strdup. apply wp_bind. zlen_pos. apply wp_alloc_ok; [done|lia|].
  by apply wp_ret.
Qed.
