(* ===== verification/Str.v ===== *)
(** * String buffers: the first half of [util.c]

    A [str_t] is a string in an array of fixed size, with its length.  No
    operation allocates; [None] is undefined behaviour. *)

From S2P Require Import Prelude CString.

Record str_t := Str {
  s_buffer : list Z;
  s_length : Z;
  s_capacity : Z }.

Definition str_init (buffer : list Z) (size : Z) : option str_t :=
  b ← mem_write buffer 0 [0]; Some (Str b 0 size).

Definition str_clear (s : str_t) : option str_t :=
  b ← mem_write (s_buffer s) 0 [0]; Some (Str b 0 (s_capacity s)).

Definition str_get_length (s : str_t) : Z := s_length s.
Definition str_get_capacity (s : str_t) : Z := s_capacity s.
Definition str_get_string (s : str_t) : option (list Z) := cstr (s_buffer s) 0.

(** [str_set_string(str, fmt, ...)] and [str_set_vstring]: the text is a format
    string. *)
Definition str_set_vstring (s : str_t) (fmt : list Z) (ap : list (list Z)) : option str_t :=
  b ← snprintf (s_buffer s) (s_capacity s) fmt ap;
  text ← cstr b 0;
  Some (Str b (zlen text) (s_capacity s)).
Definition str_set_string (s : str_t) (fmt : list Z) (args : list (list Z)) : option str_t :=
  str_set_vstring s fmt args.

(** The copy loop of [str_setn_string]: stops at the terminator or after [n]
    characters, then writes the terminator. *)
Fixpoint setn_loop (n : nat) (i : Z) (str_in buffer : list Z) : option (list Z * Z) :=
  match n, str_in with
  | S n', c :: str_in' => b ← mem_write buffer i [c]; setn_loop n' (i + 1) str_in' b
  | _, _ => b ← mem_write buffer i [0]; Some (b, i)
  end.

Definition str_setn_string (s : str_t) (str_in : list Z) (maxsize : Z) : option str_t :=
  let maxsize := if s_capacity s <=? maxsize then szt (s_capacity s - 1) else maxsize in
  '(b, i) ← setn_loop (Z.to_nat maxsize) 0 str_in (s_buffer s);
  Some (Str b i (s_capacity s)).

Definition str_copy_string (dst src : str_t) : option str_t :=
  text ← str_get_string src; str_set_string dst text [].

Definition str_trim_beginning (s : str_t) (str_in : list Z) : option str_t :=
  str_set_string s (skip_space str_in) [].

(** The scan for the first and the last character that is no white space:
    offsets in the string. *)
Fixpoint trim_loop (str_in : list Z) (i : Z) (first last : option Z) : option Z * option Z :=
  match str_in with
  | [] => (first, last)
  | c :: str_in' =>
      if isspace (schar c) then trim_loop str_in' (i + 1) first last
      else trim_loop str_in' (i + 1) (match first with None => Some i | _ => first end) (Some i)
  end.

Definition str_trim_whitespace (s : str_t) (str_in : list Z) : option str_t :=
  match trim_loop str_in 0 None None with
  | (Some first, Some last) => str_setn_string s (zdrop first str_in) (last - first + 1)
  | _ => str_set_string s [] []
  end.

Definition str_append_char (s : str_t) (ch : Z) : option str_t :=
  if s_length s + 1 =? s_capacity s then Some s else
  b ← mem_write (s_buffer s) (s_length s) [ch];
  b ← mem_write b (s_length s + 1) [0];
  Some (Str b (s_length s + 1) (s_capacity s)).

Definition str_tolower (s : str_t) : option str_t :=
  d ← mem_read (s_buffer s) 0 (s_length s);
  b ← mem_write (s_buffer s) 0 (lower_char <$> d);
  Some (Str b (s_length s) (s_capacity s)).

Definition str_is_equal_nocase (s : str_t) (other : list Z) : option bool :=
  text ← str_get_string s; Some (strcasecmp_eq text other).

(** ** The abstract view: a string with a capacity *)

(** An array of the right size, whatever it holds: what assigning to a string
    needs. *)
Record str_raw (cap : Z) (s : str_t) : Prop := {
  sr_capacity : s_capacity s = cap;
  sr_bound : 0 < cap <= 2 ^ 32;
  sr_buffer : zlen (s_buffer s) = cap;
  sr_bytes : Forall is_byte (s_buffer s) }.

(** [str_holds cap text s]: the array holds the terminated string [text];
    [str_is]: and the length is right. *)
Definition str_holds (cap : Z) (text : list Z) (s : str_t) : Prop :=
  str_raw cap s ∧ cstr (s_buffer s) 0 = Some text.
Definition str_is (cap : Z) (text : list Z) (s : str_t) : Prop :=
  str_holds cap text s ∧ s_length s = zlen text.

Lemma str_holds_text cap text s : str_holds cap text s → zlen text < cap ∧ cstring text.
Proof.
  intros ([_ _ Hb Hby] & E). split; [|by eapply cstr_cstring]. rewrite <-Hb. by apply cstr_len.
Qed.

Lemma str_holds_get cap text s : str_holds cap text s → str_get_string s = Some text.
Proof. by intros [_ ?]. Qed.

Lemma str_is_length cap text s : str_is cap text s →
  s_length s = zlen text ∧ zlen text < cap ∧ cstring text ∧ text = ztake (s_length s) (s_buffer s).
Proof.
  intros [Hh Hl]. destruct (str_holds_text _ _ _ Hh). destruct Hh as [_ E].
  split_and!; try done. apply cstr_inv in E as (rest & -> & _). by rewrite ztake_app_exact.
Qed.

Lemma str_is_holds cap text s : str_is cap text s → str_holds cap text s.
Proof. by intros []. Qed.
Lemma str_is_raw cap text s : str_is cap text s → str_raw cap s.
Proof. by intros [[]]. Qed.
Lemma str_holds_raw cap text s : str_holds cap text s → str_raw cap s.
Proof. by intros []. Qed.
#[export] Hint Resolve str_is_holds str_is_raw str_holds_raw : cstr.

(** Writing a string and its terminator at the front of an array. *)
Lemma str_is_build cap text rest :
  cstring text → Forall is_byte rest → cap = zlen text + 1 + zlen rest → cap <= 2 ^ 32 →
  str_is cap text (Str (text ++ 0 :: rest) (zlen text) cap).
Proof.
  intros Ht Hr -> Hcap. zlen_pos. split; [|done]. split; [|by apply cstr_app].
  split; simpl; try lia; [zl|].
  apply Forall_app. split; [by apply cstring_bytes|]. by constructor.
Qed.

Lemma str_init_spec buffer size :
  zlen buffer = size → 0 < size <= 2 ^ 32 → Forall is_byte buffer →
  ∃ s, str_init buffer size = Some s ∧ str_is size [] s.
Proof.
  intros <- Hs Hb. unfold str_init. rewrite mem_write_Some by (zl || done). simpl.
  eexists. split; [done|]. apply (str_is_build _ []); [constructor|auto with zlist|zl|lia].
Qed.

Lemma str_clear_spec cap s : str_raw cap s →
  ∃ s', str_clear s = Some s' ∧ str_is cap [] s'.
Proof.
  intros [<- Hc Hb Hby]. unfold str_clear. rewrite mem_write_Some by zl. simpl.
  eexists. split; [done|]. apply (str_is_build _ []); [constructor|auto with zlist|zl|lia].
Qed.

(** The text an expanded format leaves in the buffer. *)
Lemma str_set_vstring_spec cap s fmt args out :
  str_raw cap s → fmt_expand fmt args = Some out → cstring out →
  ∃ s', str_set_vstring s fmt args = Some s' ∧ str_is cap (ztake (cap - 1) out) s'.
Proof.
  intros [<- Hc Hb Hby] Hf Ho. unfold str_set_vstring.
  rewrite (snprintf_Some _ _ _ _ out) by (auto; lia). simpl.
  set (t := ztake (s_capacity s - 1) out).
  assert (zlen t <= s_capacity s - 1) by (unfold t; rewrite zlen_ztake_min; lia).
  assert (cstring t) by (unfold t; auto with cstr).
  rewrite <-app_assoc. simpl. rewrite cstr_app by done. simpl. eexists. split; [done|].
  rewrite zlen_app. change (zlen [0]) with 1. pose proof (zlen_nonneg t).
  apply str_is_build; auto with zlist; [rewrite zlen_zdrop; lia|lia].
Qed.

(** Text without a percent sign is stored as it is, cut to the capacity. *)
Lemma str_set_string_spec cap s new :
  str_raw cap s → cstring new → no_percent new →
  ∃ s', str_set_string s new [] = Some s' ∧ str_is cap (ztake (cap - 1) new) s'.
Proof. intros Hs Hn Hp. eapply str_set_vstring_spec; eauto using fmt_expand_plain. Qed.

Lemma app_cons_comm {A} (l : list A) c rest : l ++ c :: rest = (l ++ [c]) ++ rest.
Proof. by rewrite <-app_assoc. Qed.

Lemma zlen_cons_pos {A} (x : A) l : 0 < zlen (x :: l).
Proof. rewrite zlen_cons. pose proof (zlen_nonneg l). lia. Qed.

Lemma mem_write_here pre rest c :
  0 < zlen rest → mem_write (pre ++ rest) (zlen pre) [c] = Some (pre ++ c :: zdrop 1 rest).
Proof.
  intros Hr. zlen_pos. rewrite mem_write_Some by (rewrite ?zlen_app; change (zlen [c]) with 1; lia).
  rewrite ztake_app_exact, zdrop_app_ge by (change (zlen [c]) with 1; lia).
  change (zlen [c]) with 1. by replace (zlen pre + 1 - zlen pre) with 1 by lia.
Qed.

Lemma setn_loop_spec n str_in pre rest :
  Z.min (Z.of_nat n) (zlen str_in) < zlen rest →
  setn_loop n (zlen pre) str_in (pre ++ rest) =
    Some (let t := take n str_in in
          (pre ++ t ++ 0 :: zdrop (zlen t + 1) rest, zlen pre + zlen t)).
Proof.
  revert str_in pre rest. induction n as [|n IH]; intros str_in pre rest Hl;
    pose proof (zlen_nonneg str_in).
  { cbn [setn_loop take]. rewrite mem_write_here by lia. by rewrite Z.add_0_r. }
  destruct str_in as [|c str_in]; cbn [setn_loop take].
  { change (zlen []) with 0 in *. rewrite mem_write_here by lia. by rewrite Z.add_0_r. }
  rewrite zlen_cons in Hl. pose proof (zlen_nonneg str_in). pose proof (zlen_nonneg (take n str_in)).
  rewrite mem_write_here by lia. simpl. rewrite (app_cons_comm pre).
  replace (zlen pre + 1) with (zlen (pre ++ [c])) by by rewrite zlen_app.
  rewrite IH by (rewrite zlen_zdrop; lia). simpl. f_equal.
  rewrite zlen_app, zlen_cons, <-app_assoc, zdrop_zdrop by lia. change (zlen [c]) with 1. simpl.
  rewrite !zlen_cons. change (zlen []) with 0. by rewrite !Z.add_0_r, !Z.add_assoc.
Qed.

(** [str_setn_string] stores at most [maxsize] characters. *)
Lemma str_setn_string_spec cap s new maxsize :
  str_raw cap s → cstring new → 0 <= maxsize →
  ∃ s', str_setn_string s new maxsize = Some s' ∧
    str_is cap (ztake (Z.min maxsize (cap - 1)) new) s'.
Proof.
  intros [<- Hc Hb Hby] Hn Hm. unfold str_setn_string.
  rewrite szt_small by lia.
  replace (if s_capacity s <=? maxsize then s_capacity s - 1 else maxsize)
    with (Z.min maxsize (s_capacity s - 1)) by (bcase; lia).
  set (m := Z.min _ _). pose proof (zlen_nonneg new).
  pose proof (setn_loop_spec (Z.to_nat m) new [] (s_buffer s) ltac:(lia)) as E.
  change (zlen (@nil Z)) with 0 in E. simpl in E. rewrite E. simpl. fold (ztake m new).
  assert (zlen (ztake m new) <= m) by (rewrite zlen_ztake_min; lia).
  eexists. split; [done|]. rewrite Z.add_0_l. apply str_is_build; auto with zlist cstr.
  pose proof (zlen_nonneg (ztake m new)). rewrite zlen_zdrop; lia. lia.
Qed.

Lemma str_append_char_spec cap text s ch :
  str_is cap text s → is_char ch →
  ∃ s', str_append_char s ch = Some s' ∧
    str_is cap (if zlen text + 1 =? cap then text else text ++ [ch]) s'.
Proof.
  intros Hs Hch. destruct (str_is_length _ _ _ Hs) as (Hl & Hcap & Ht & Htk).
  pose proof Hs as [[[<- Hc Hb Hby] E] _]. unfold str_append_char. rewrite Hl in *.
  destruct (Z.eqb_spec (zlen text + 1) (s_capacity s)); [by exists s|].
  pose proof (zlen_nonneg text). set (rest := zdrop (zlen text) (s_buffer s)).
  assert (s_buffer s = text ++ rest) as Hsb by (unfold rest; rewrite Htk at 1; by rewrite ztake_zdrop).
  assert (zlen rest = s_capacity s - zlen text) as Hr by (unfold rest; rewrite zlen_zdrop; lia).
  rewrite Hsb, mem_write_here by lia. simpl. rewrite app_cons_comm.
  assert (zlen text + 1 = zlen (text ++ [ch])) as Ez by by rewrite zlen_app.
  rewrite Ez, mem_write_here by (rewrite zlen_zdrop; lia). simpl.
  eexists. split; [done|]. apply str_is_build; [|unfold rest; auto with zlist| |lia].
  - apply Forall_app. split; [done|]. by constructor.
  - rewrite !zlen_zdrop by (rewrite ?zlen_zdrop; lia). lia.
Qed.

Lemma str_tolower_spec cap text s :
  str_is cap text s → ∃ s', str_tolower s = Some s' ∧ str_is cap (tolower <$> text) s'.
Proof.
  intros Hs. destruct (str_is_length _ _ _ Hs) as (Hl & Hcap & Ht & Htk).
  pose proof Hs as [[[<- Hc Hb Hby] E] _]. unfold str_tolower. rewrite Hl in *.
  pose proof (zlen_nonneg text).
  rewrite mem_read_Some by lia. simpl. rewrite zdrop_0, <-Htk.
  rewrite lower_text by auto with cstr.
  assert (zlen (tolower <$> text) = zlen text) as Hz by (unfold zlen; by rewrite length_fmap).
  rewrite mem_write_Some by lia. simpl. rewrite ?Hz.
  eexists. split; [done|]. apply cstr_inv in E as (rest & E & _). rewrite E.
  rewrite Z.add_0_l, zdrop_app_exact, <-Hz by done.
  rewrite E in Hby, Hb. apply Forall_app in Hby as [_ Hby]. apply Forall_inv_tail in Hby.
  apply str_is_build; auto with cstr; [|lia]. rewrite zlen_app, zlen_cons in Hb. lia.
Qed.

Lemma str_is_equal_nocase_spec cap text s other :
  str_holds cap text s → str_is_equal_nocase s other = Some (strcasecmp_eq text other).
Proof. intros [_ E]. unfold str_is_equal_nocase, str_get_string. by rewrite E. Qed.

Lemma skip_space_cstring s : cstring s → cstring (skip_space s).
Proof. induction 1 as [|c s Hc Hs IH]; simpl; [constructor|]. case_match; [done|by constructor]. Qed.

Lemma skip_space_no_percent s : no_percent s → no_percent (skip_space s).
Proof.
  unfold no_percent. induction s as [|c s IH]; simpl; [done|].
  rewrite not_elem_of_cons. intros [? ?]. case_match; [auto|]. by rewrite not_elem_of_cons.
Qed.

Lemma str_trim_beginning_spec cap s new :
  str_raw cap s → cstring new → no_percent new →
  ∃ s', str_trim_beginning s new = Some s' ∧ str_is cap (ztake (cap - 1) (skip_space new)) s'.
Proof. intros. eapply str_set_string_spec; eauto using skip_space_cstring, skip_space_no_percent. Qed.

Lemma str_copy_string_spec cap dst cap' src new :
  str_raw cap dst → str_holds cap' new src → no_percent new →
  ∃ s', str_copy_string dst src = Some s' ∧ str_is cap (ztake (cap - 1) new) s'.
Proof.
  intros Hd Hs Hp. unfold str_copy_string. rewrite (str_holds_get _ _ _ Hs). simpl.
  eapply str_set_string_spec; eauto. by apply str_holds_text in Hs as [_ ?].
Qed.

(** ** Trimming *)

Definition rtrim (s : list Z) : list Z := reverse (skip_space (reverse s)).
Definition trim (s : list Z) : list Z := rtrim (skip_space s).

Lemma rtrim_snoc s c : rtrim (s ++ [c]) = if isspace (schar c) then rtrim s else s ++ [c].
Proof.
  unfold rtrim. rewrite reverse_snoc. simpl. case_match; [done|].
  by rewrite reverse_cons, reverse_involutive.
Qed.

Lemma trim_loop_snoc s c i f l :
  trim_loop (s ++ [c]) i f l =
    let '(f', l') := trim_loop s i f l in
    if isspace (schar c) then (f', l')
    else (match f' with None => Some (i + zlen s) | _ => f' end, Some (i + zlen s)).
Proof.
  revert i f l. induction s as [|d s IH]; intros i f l; simpl.
  { rewrite zlen_nil, Z.add_0_r. by destruct f, (isspace (schar c)). }
  rewrite !IH, zlen_cons, Z.add_assoc. by destruct (isspace (schar d)).
Qed.

Lemma trim_loop_rest s i f l :
  trim_loop s i (Some f) (Some l) =
    (Some f, Some (match rtrim s with [] => l | _ => i + zlen (rtrim s) - 1 end)).
Proof.
  induction s as [|c s IH] using rev_ind; [done|].
  rewrite trim_loop_snoc, IH, rtrim_snoc. destruct (isspace (schar c)); [done|].
  destruct (s ++ [c]) eqn:E; [by destruct s|]. rewrite <-E, zlen_app.
  change (zlen [c]) with 1. do 2 f_equal. lia.
Qed.

Lemma rtrim_cons c s : isspace (schar c) = false → rtrim (c :: s) = c :: rtrim s.
Proof.
  intros Hc. induction s as [|d s IH] using rev_ind; [unfold rtrim; simpl; by rewrite Hc|].
  rewrite app_comm_cons, !rtrim_snoc. by destruct (isspace (schar d)).
Qed.

Lemma rtrim_prefix s : ∃ t, s = rtrim s ++ t.
Proof.
  induction s as [|c s [t IH]] using rev_ind; [by exists []|]. rewrite rtrim_snoc.
  destruct (isspace (schar c)); [|by exists []; rewrite app_nil_r].
  exists (t ++ [c]). by rewrite app_assoc, <-IH.
Qed.

Lemma rtrim_cstring s : cstring s → cstring (rtrim s).
Proof. destruct (rtrim_prefix s) as [t Ht]. rewrite Ht at 1. by intros [? _]%Forall_app. Qed.

Lemma trim_loop_spec s i :
  trim_loop s i None None =
    match skip_space s with
    | [] => (None, None)
    | _ => let k := i + (zlen s - zlen (skip_space s)) in
           (Some k, Some (k + zlen (trim s) - 1))
    end.
Proof.
  unfold trim. revert i. induction s as [|c s IH]; intros i; simpl; [done|].
  destruct (isspace (schar c)) eqn:Hc.
  - rewrite IH. destruct (skip_space s) eqn:E; [done|]. rewrite <-E, zlen_cons.
    cbv zeta. f_equal; f_equal; lia.
  - rewrite trim_loop_rest, rtrim_cons, !zlen_cons by done. cbv zeta.
    destruct (rtrim s) as [|d t]; rewrite ?zlen_nil, ?zlen_cons; f_equal; f_equal; lia.
Qed.

Lemma skip_space_suffix s : zdrop (zlen s - zlen (skip_space s)) s = skip_space s.
Proof.
  induction s as [|c s IH]; [done|]. cbn [skip_space].
  destruct (isspace (schar c)); [|by rewrite Z.sub_diag].
  assert (zlen (skip_space s) <= zlen s).
  { clear. induction s as [|c s IH]; simpl; [done|]. case_match; rewrite ?zlen_cons; lia. }
  rewrite zlen_cons, zdrop_cons by lia. etrans; [|exact IH]. f_equal. lia.
Qed.

Lemma zlen_skip_space s : 0 <= zlen s - zlen (skip_space s).
Proof. induction s as [|c s IH]; simpl; [done|]. case_match; rewrite ?zlen_cons; lia. Qed.

(** [str_trim_whitespace] stores the string without white space at its ends. *)
Lemma str_trim_whitespace_spec cap s new :
  str_raw cap s → cstring new →
  ∃ s', str_trim_whitespace s new = Some s' ∧ str_is cap (ztake (cap - 1) (trim new)) s'.
Proof.
  intros Hs Hn. pose proof Hs as [_ Hc _ _].
  unfold str_trim_whitespace. rewrite trim_loop_spec. pose proof (zlen_skip_space new) as Hk.
  destruct (skip_space new) as [|c t] eqn:E.
  { unfold trim. rewrite E. eapply str_set_string_spec; [done|constructor|].
    unfold no_percent. set_solver. }
  rewrite <-E in *. cbv zeta. rewrite Z.add_0_l.
  replace (_ - _ + 1) with (zlen (trim new)) by lia. rewrite skip_space_suffix.
  destruct (str_setn_string_spec cap s (skip_space new) (zlen (trim new)))
    as (s' & E' & Hs'); [done|by apply skip_space_cstring|apply zlen_nonneg|].
  exists s'. split; [done|]. destruct (rtrim_prefix (skip_space new)) as [u Hu].
  fold (trim new) in Hu. rewrite Hu, ztake_app_le in Hs' by lia.
  destruct (Z.le_ge_cases (zlen (trim new)) (cap - 1)).
  - rewrite Z.min_l in Hs' by lia. rewrite (ztake_ge (cap - 1)) by done.
    by rewrite ztake_all in Hs'.
  - by rewrite Z.min_r in Hs' by lia.
Qed.
