(* ===== verification/StrProps.v ===== *)
(** Strings in fixed arrays keep their type: every operation of [str_t] leaves a
    terminated text of the array's bytes and its length. *)

From S2P Require Import Prelude CString Str.

(** A call on a string; the text it is given is on the caller's side. *)
Inductive str_op :=
  | StrClear
  | StrSet (text : list Z)
  | StrSetN (text : list Z) (maxsize : Z)
  | StrCopy (src : str_t)
  | StrTrimBeginning (text : list Z)
  | StrTrim (text : list Z)
  | StrAppend (ch : Z)
  | StrTolower.

Definition str_do (op : str_op) (s : str_t) : option str_t :=
  match op with
  | StrClear => str_clear s
  | StrSet text => str_set_string s text []
  | StrSetN text maxsize => str_setn_string s text maxsize
  | StrCopy src => str_copy_string s src
  | StrTrimBeginning text => str_trim_beginning s text
  | StrTrim text => str_trim_whitespace s text
  | StrAppend ch => str_append_char s ch
  | StrTolower => str_tolower s
  end.

Fixpoint str_run (ops : list str_op) (s : str_t) : option str_t :=
  match ops with
  | [] => Some s
  | op :: ops => s ← str_do op s; str_run ops s
  end.

(** A terminated string; one that is used as a format holds no percent sign. *)
Definition plain (text : list Z) : Prop := cstring text ∧ no_percent text.

Definition str_op_ok (op : str_op) : Prop :=
  match op with
  | StrClear | StrTolower => True
  | StrSet text | StrTrimBeginning text => plain text
  | StrSetN text maxsize => cstring text ∧ 0 <= maxsize
  | StrCopy src => ∃ cap text, str_holds cap text src ∧ no_percent text
  | StrTrim text => cstring text
  | StrAppend ch => is_char ch
  end.

(** What the operations mean for the text, which at most [cap - 1] characters of
    fit. *)
Definition text_do (cap : Z) (op : str_op) (t : list Z) : list Z :=
  match op with
  | StrClear => []
  | StrSet text => ztake (cap - 1) text
  | StrSetN text maxsize => ztake (Z.min maxsize (cap - 1)) text
  | StrCopy src => ztake (cap - 1) (default [] (str_get_string src))
  | StrTrimBeginning text => ztake (cap - 1) (skip_space text)
  | StrTrim text => ztake (cap - 1) (trim text)
  | StrAppend ch => if zlen t + 1 =? cap then t else t ++ [ch]
  | StrTolower => tolower <$> t
  end.

Lemma str_do_typed cap op t s :
  str_op_ok op → str_is cap t s → ∃ s', str_do op s = Some s' ∧ str_is cap (text_do cap op t) s'.
Proof.
  intros Hop Hs. pose proof (str_is_raw _ _ _ Hs) as Hr.
  destruct op; cbn [str_op_ok str_do text_do] in *.
  - by apply str_clear_spec.
  - destruct Hop. by apply str_set_string_spec.
  - destruct Hop. by apply str_setn_string_spec.
  - destruct Hop as (cap' & text & Hsrc & Hp). rewrite (str_holds_get _ _ _ Hsrc). by eapply str_copy_string_spec.
  - destruct Hop. by apply str_trim_beginning_spec.
  - by apply str_trim_whitespace_spec.
  - by apply str_append_char_spec.
  - by apply str_tolower_spec.
Qed.

Lemma str_run_typed cap ops t s :
  Forall str_op_ok ops → str_is cap t s →
  ∃ s', str_run ops s = Some s' ∧ str_is cap (foldl (flip (text_do cap)) t ops) s'.
Proof.
  intros Hops. revert t s. induction Hops as [|op ops Hop _ IH]; intros t s Hs; [by exists s|].
  destruct (str_do_typed cap op t s Hop Hs) as (s1 & E1 & Hs1). cbn [str_run foldl].
  rewrite E1. cbn [mbind option_bind]. by apply IH.
Qed.

(** C24: the type of strings.  A string that has been set up in an array of any size and
    whatever it holds, and then been worked on by any sequence of operations, with
    texts of any length, is well-formed, provided that the texts which [str_set_string],
    [str_copy_string] and [str_trim_beginning] are given hold no percent sign ([str_op_ok];
    they are format strings in the code, where a percent sign is a conversion without an
    argument): none of them has touched a byte outside the
    array, the text in it is terminated, shorter than the array and what the operations
    mean, and the stored length is its length. *)
Theorem str_well_typed cap array ops :
  zlen array = cap → 0 < cap <= 2 ^ 32 → Forall is_byte array → Forall str_op_ok ops →
  ∃ s, (s ← str_init array cap; str_run ops s) = Some s ∧
    zlen (s_buffer s) = cap ∧ s_capacity s = cap ∧
    let text := foldl (flip (text_do cap)) [] ops in
    str_get_string s = Some text ∧ str_get_length s = zlen text ∧ zlen text < cap ∧ cstring text.
Proof.
  intros Hz Hcap Hb Hops. destruct (str_init_spec array cap Hz Hcap Hb) as (s0 & E0 & Hs0).
  destruct (str_run_typed cap ops [] s0 Hops Hs0) as (s & E & Hs). exists s.
  rewrite E0. cbn [mbind option_bind]. split; [done|].
  destruct (str_is_length _ _ _ Hs) as (Hl & Hlt & Ht & _). pose proof (str_is_holds _ _ _ Hs) as Hh.
  destruct (str_is_raw _ _ _ Hs) as [? _ ? _]. split; [done|]. split; [done|].
  by rewrite (str_holds_get _ _ _ Hh).
Qed.

Example str_well_typed_witness :
  ∃ s, (s ← str_init (replicate 8 255) 8;
        str_run [StrTrim (bs "  Upgrade, websocket"); StrAppend 33; StrTolower; StrSetN (bs "chat") 2; StrAppend 33] s) = Some s ∧
    str_get_string s = Some (bs "ch!") ∧ str_get_length s = 3.
Proof.
  destruct (str_well_typed 8 (replicate 8 255)
    [StrTrim (bs "  Upgrade, websocket"); StrAppend 33; StrTolower; StrSetN (bs "chat") 2; StrAppend 33])
    as (s & E & _ & _ & Ht & Hl & _).
  - done.
  - done.
  - decided.
  - each; simpl; unfold cstring, is_char; try done; try split; try done; decided.
  - exists s. split; [exact E|]. split; [exact Ht|exact Hl].
Defined.
