(* ===== verification/Base64.v ===== *)
(** * Base64: [base64.c] *)

From S2P Require Import Prelude CString Str.

Definition encoding_table : list Z :=
  bs "ABCDEFGHIJKLMNOPQRSTUVWXYZabcdefghijklmnopqrstuvwxyz0123456789+/".
Definition mod_table : list Z := [0; 2; 1].

(** ** Encoding *)

(** [encoding_table[(triple >> k) & 0x3F]] *)
Definition sextet_char (triple k : Z) : option Z :=
  znth encoding_table (Z.land (Z.shiftr triple k) 0x3F).

(** [i < input_length ? data[i++] : 0]: the octet and the new index. *)
Definition next_octet (data : list Z) (input_length i : Z) : option (Z * Z) :=
  if i <? input_length then (x ← znth data i; Some (x, i + 1)) else Some (0, i).

(** One pass of the loop. *)
Definition encode_triple (data : list Z) (input_length i : Z) (out_str : str_t)
    : option (Z * str_t) :=
  '(octet_a, i) ← next_octet data input_length i;
  '(octet_b, i) ← next_octet data input_length i;
  '(octet_c, i) ← next_octet data input_length i;
  let triple := u32 (u32 (u32 (Z.shiftl octet_a 0x10) + u32 (Z.shiftl octet_b 0x08)) + octet_c) in
  c ← sextet_char triple 18; s ← str_append_char out_str c;
  c ← sextet_char triple 12; s ← str_append_char s c;
  c ← sextet_char triple 6; s ← str_append_char s c;
  c ← sextet_char triple 0; s ← str_append_char s c;
  Some (i, s).

(** The loop; a pass consumes at least one octet, so fuel [input_length] is
    enough. *)
Fixpoint encode_loop (fuel : nat) (data : list Z) (input_length i : Z) (out_str : str_t)
    : option str_t :=
  if i <? input_length then
    match fuel with
    | O => None
    | S fuel' =>
        '(i', s) ← encode_triple data input_length i out_str;
        encode_loop fuel' data input_length i' s
    end
  else Some out_str.

(** The index [i] is an [int]: longer inputs are out of its range. *)
Definition base64_encode (data : list Z) (input_length : Z) (out_str : str_t) : option str_t :=
  if INT_MAX <? input_length then None else
  s ← str_set_string out_str [] [];
  j ← znth mod_table (input_length mod 3);
  s ← encode_loop (Z.to_nat input_length) data input_length 0 s;
  let output_length := str_get_length s in
  b ← (if 0 <? j then mem_write (s_buffer s) (output_length - 1) [61] else Some (s_buffer s));
  b ← (if 1 <? j then mem_write b (output_length - 2) [61] else Some b);
  Some (Str b (s_length s) (s_capacity s)).

(** ** Decoding *)

(** [build_decoding_table] fills 64 entries of 256 uninitialised bytes; the
    result of [malloc] is not checked. *)
Fixpoint fill_table (chars : list Z) (i : Z) (table : list Z) : option (list Z) :=
  match chars with
  | [] => Some table
  | c :: chars' => t ← mem_write table c [i]; fill_table chars' (i + 1) t
  end.

Definition build_decoding_table : M (list Z) :=
  r ← malloc 256;
  match r with Some t => opt (fill_table encoding_table 0 t) | None => ub end.

(** One sextet: ['='] counts as zero, everything else indexes the table, with
    its [char] as a signed number. *)
Definition sextet_at (table data : list Z) (i : Z) : option Z :=
  c ← znth data i;
  if c =? 61 then Some 0 else (x ← znth table (schar c); Some (u32 (schar x))).

(** [if (j < *output_length) decoded_data[j++] = octet]. *)
Definition store_octet (decoded_data : list Z) (output_length j octet : Z)
    : option (list Z * Z) :=
  if j <? output_length
  then (d ← mem_write decoded_data j [octet]; Some (d, j + 1))
  else Some (decoded_data, j).

Definition decode_quad (table data : list Z) (output_length i : Z) (decoded_data : list Z) (j : Z)
    : option (list Z * Z) :=
  sextet_a ← sextet_at table data i;
  sextet_b ← sextet_at table data (i + 1);
  sextet_c ← sextet_at table data (i + 2);
  sextet_d ← sextet_at table data (i + 3);
  let triple := u32 (u32 (u32 (u32 (Z.shiftl sextet_a 18) + u32 (Z.shiftl sextet_b 12))
                          + u32 (Z.shiftl sextet_c 6)) + sextet_d) in
  '(d, j) ← store_octet decoded_data output_length j (Z.land (Z.shiftr triple 16) 0xFF);
  '(d, j) ← store_octet d output_length j (Z.land (Z.shiftr triple 8) 0xFF);
  store_octet d output_length j (Z.land (Z.shiftr triple 0) 0xFF).

Fixpoint decode_loop (fuel : nat) (table data : list Z) (input_length output_length i : Z)
    (decoded_data : list Z) (j : Z) : option (list Z) :=
  if i <? input_length then
    match fuel with
    | O => None
    | S fuel' =>
        '(d, j') ← decode_quad table data output_length i decoded_data j;
        decode_loop fuel' table data input_length output_length (i + 4) d j'
    end
  else Some decoded_data.

(** [table] is the static [decoding_table], the null pointer at first.  The
    result: the table afterwards, and the decoded bytes or the null pointer. *)
Definition base64_decode (table : option (list Z)) (data : list Z) (input_length : Z)
    : M (list Z * option (list Z)) :=
  t ← (match table with Some t => mret t | None => build_decoding_table end);
  if negb (input_length mod 4 =? 0) then mret (t, None) else
  if INT_MAX - 3 <? input_length then ub else
  let output_length := input_length / 4 * 3 in
  c ← opt (znth data (input_length - 1));
  let output_length := if c =? 61 then output_length - 1 else output_length in
  c ← opt (znth data (input_length - 2));
  let output_length := if c =? 61 then output_length - 1 else output_length in
  r ← malloc output_length;
  match r with
  | None => mret (t, None)
  | Some decoded_data =>
      d ← opt (decode_loop (Z.to_nat input_length) t data input_length output_length 0
                 decoded_data 0);
      mret (t, Some d)
  end.

(** ** Reference encoder: RFC 4648, section 4 *)

Definition code (x : Z) : Z := default 0 (encoding_table !! Z.to_nat x).

Fixpoint b64_with (pad : Z) (d : list Z) : list Z :=
  match d with
  | a :: b :: c :: d' =>
      code (a / 4) :: code (a mod 4 * 16 + b / 16) :: code (b mod 16 * 4 + c / 64)
        :: code (c mod 64) :: b64_with pad d'
  | [a; b] => [code (a / 4); code (a mod 4 * 16 + b / 16); code (b mod 16 * 4); pad]
  | [a] => [code (a / 4); code (a mod 4 * 16); pad; pad]
  | [] => []
  end.

Definition b64 : list Z → list Z := b64_with 61.

Definition b64_length (n : Z) : Z := (n + 2) / 3 * 4.

(** Induction three octets at a time. *)
Lemma triple_ind (P : list Z → Prop) :
  P [] → (∀ a, P [a]) → (∀ a b, P [a; b]) → (∀ a b c d, P d → P (a :: b :: c :: d)) → ∀ d, P d.
Proof.
  intros H0 H1 H2 H3 d. cut (∀ n d, (length d <= n)%nat → P d); [intros H; by apply (H (length d))|].
  clear d. induction n as [|n IH]; intros d Hd.
  { by destruct d; simpl in Hd; [|lia]. }
  destruct d as [|a [|b [|c d]]]; auto. apply H3, IH. simpl in Hd. lia.
Qed.

Lemma zlen_b64 pad d : zlen (b64_with pad d) = b64_length (zlen d).
Proof.
  unfold b64_length. induction d as [|a|a b|a b c d IH] using triple_ind; [done..|].
  cbn [b64_with]. rewrite !zlen_cons, IH. zlen_pos.
  replace (1 + (1 + (1 + zlen d)) + 2) with (zlen d + 2 + 1 * 3) by lia.
  rewrite Z.div_add by lia. lia.
Qed.

(** The padding: as many characters as [mod_table] says, at the end. *)
Lemma b64_padding d :
  ∃ j init, znth mod_table (zlen d mod 3) = Some j ∧ 0 <= j <= 2 ∧
    ∀ pad, b64_with pad d = init ++ replicate (Z.to_nat j) pad.
Proof.
  induction d as [|a|a b|a b c d (j & init & E & Hj & IH)] using triple_ind.
  - by exists 0, [].
  - exists 2, [code (a / 4); code (a mod 4 * 16)]. by split_and!.
  - exists 1, [code (a / 4); code (a mod 4 * 16 + b / 16); code (b mod 16 * 4)]. by split_and!.
  - exists j, (code (a / 4) :: code (a mod 4 * 16 + b / 16) :: code (b mod 16 * 4 + c / 64)
      :: code (c mod 64) :: init). split_and!; [|lia|lia|].
    + rewrite !zlen_cons. replace (1 + (1 + (1 + zlen d))) with (zlen d + 1 * 3) by lia.
      by rewrite Z.mod_add.
    + intros pad. simpl. by rewrite IH.
Qed.

(** The code characters. *)
Lemma sextet_cases (P : Z → Prop) :
  Forall P (Z.of_nat <$> seq 0 64) → ∀ x, 0 <= x < 64 → P x.
Proof.
  rewrite Forall_forall. intros H x Hx. apply H, list_elem_of_In, list_elem_of_fmap. exists (Z.to_nat x).
  split; [lia|]. apply elem_of_seq. lia.
Qed.

Lemma code_char x : 0 <= x < 64 → is_char (code x) ∧ code x < 128 ∧ code x ≠ 61.
Proof. revert x. apply sextet_cases. decided. Qed.

Lemma code_lookup x : 0 <= x < 64 → znth encoding_table x = Some (code x).
Proof. revert x. apply sextet_cases. decided. Qed.

(** The three octets as a 24-bit integer, and its four sextets. *)
Definition triple_of (a b c : Z) : Z := a * 65536 + b * 256 + c.

Lemma triple_u32 a b c : is_byte a → is_byte b → is_byte c →
  u32 (u32 (u32 (Z.shiftl a 16) + u32 (Z.shiftl b 8)) + c) = triple_of a b c.
Proof.
  unfold is_byte, u32, triple_of. intros. rewrite !Z.shiftl_mul_pow2 by lia.
  change (2 ^ 16) with 65536. change (2 ^ 8) with 256. change (2 ^ 32) with 4294967296.
  rewrite !(Z.mod_small (_ * _)) by lia. rewrite !Z.mod_small by (rewrite ?Z.mod_small; lia). done.
Qed.

Lemma sextet_ranges a b c : is_byte a → is_byte b → is_byte c →
  0 <= a / 4 < 64 ∧ 0 <= a mod 4 * 16 + b / 16 < 64 ∧
  0 <= b mod 16 * 4 + c / 64 < 64 ∧ 0 <= c mod 64 < 64.
Proof. unfold is_byte. intros. split_and!; Z.div_mod_to_equations; lia. Qed.

Lemma sextets a b c : is_byte a → is_byte b → is_byte c →
  let t := triple_of a b c in
  sextet_char t 18 = Some (code (a / 4)) ∧
  sextet_char t 12 = Some (code (a mod 4 * 16 + b / 16)) ∧
  sextet_char t 6 = Some (code (b mod 16 * 4 + c / 64)) ∧
  sextet_char t 0 = Some (code (c mod 64)).
Proof.
  intros Ha Hb Hc t. unfold is_byte in *. unfold sextet_char, t, triple_of.
  change 0x3F with (Z.ones 6). rewrite !Z.land_ones, !Z.shiftr_div_pow2 by lia.
  change (2 ^ 18) with 262144. change (2 ^ 12) with 4096. change (2 ^ 6) with 64. change (2 ^ 0) with 1.
  destruct (sextet_ranges a b c) as (? & ? & ? & ?); [done..|].
  split_and!; (erewrite <-code_lookup by done); f_equal; Z.div_mod_to_equations; lia.
Qed.

Lemma code_range_cstring pad d : Forall is_byte d → is_char pad → cstring (b64_with pad d).
Proof.
  intros Hd Hp.
  assert (∀ x, 0 <= x < 64 → is_char (code x)) as Hc by (intros x Hx; apply code_char; lia).
  revert Hd. induction d as [|a|a b|a b c d IH] using triple_ind; intros Hd; cbn [b64_with];
    decompose_Forall_hyps; unfold is_byte in *; each; try done;
    try (apply Hc; Z.div_mod_to_equations; lia).
  by apply IH.
Qed.

Lemma next_octet_cons pre x rest :
  next_octet (pre ++ x :: rest) (zlen (pre ++ x :: rest)) (zlen pre) = Some (x, zlen (pre ++ [x])).
Proof.
  unfold next_octet. rewrite !zlen_app, zlen_cons. zlen_pos. bcase; [|lia].
  rewrite znth_lookup by lia. rewrite lookup_app_r by (unfold zlen; lia).
  replace (_ - _)%nat with 0%nat by (unfold zlen; lia). done.
Qed.

Lemma next_octet_end data : next_octet data (zlen data) (zlen data) = Some (0, zlen data).
Proof. unfold next_octet. by rewrite Z.ltb_irrefl. Qed.

(** Four characters that fit. *)
Lemma append_four cap text s a b c d :
  str_is cap text s → zlen text + 4 < cap → is_char a → is_char b → is_char c → is_char d →
  ∃ s1 s2 s3 s4, str_append_char s a = Some s1 ∧ str_append_char s1 b = Some s2 ∧
    str_append_char s2 c = Some s3 ∧ str_append_char s3 d = Some s4 ∧
    str_is cap (text ++ [a; b; c; d]) s4.
Proof.
  intros Hs Hcap Ha Hb Hc Hd.
  assert (∀ t s x, str_is cap t s → zlen t + 1 < cap → is_char x →
    ∃ s', str_append_char s x = Some s' ∧ str_is cap (t ++ [x]) s') as H1.
  { intros t s0 x H0 ? Hx. destruct (str_append_char_spec _ _ _ x H0 Hx) as (s' & E & Hs').
    destruct (Z.eqb_spec (zlen t + 1) cap); [lia|]. eauto. }
  destruct (H1 _ _ _ Hs ltac:(lia) Ha) as (s1 & E1 & Hs1).
  destruct (H1 _ _ b Hs1) as (s2 & E2 & Hs2); [rewrite zlen_app; change (zlen [a]) with 1; lia|done|].
  destruct (H1 _ _ c Hs2) as (s3 & E3 & Hs3);
    [rewrite !zlen_app; change (zlen [a]) with 1; change (zlen [b]) with 1; lia|done|].
  destruct (H1 _ _ d Hs3) as (s4 & E4 & Hs4); [rewrite !zlen_app;
    change (zlen [a]) with 1; change (zlen [b]) with 1; change (zlen [c]) with 1; lia|done|].
  rewrite <-!app_assoc in Hs4. exists s1, s2, s3, s4. by split_and!.
Qed.

(** One pass with three octets [a], [b], [c] (zeros past the end). *)
Lemma encode_triple_spec cap text s data i a b c i1 i2 i3 :
  str_is cap text s → zlen text + 4 < cap → is_byte a → is_byte b → is_byte c →
  next_octet data (zlen data) i = Some (a, i1) → next_octet data (zlen data) i1 = Some (b, i2) →
  next_octet data (zlen data) i2 = Some (c, i3) →
  ∃ s', encode_triple data (zlen data) i s = Some (i3, s') ∧
    str_is cap (text ++ [code (a / 4); code (a mod 4 * 16 + b / 16);
                         code (b mod 16 * 4 + c / 64); code (c mod 64)]) s'.
Proof.
  intros Hs Hcap Ha Hb Hc E1 E2 E3.
  destruct (sextets a b c Ha Hb Hc) as (S1 & S2 & S3 & S4).
  destruct (sextet_ranges a b c Ha Hb Hc) as (R1 & R2 & R3 & R4).
  destruct (append_four cap text s (code (a / 4)) (code (a mod 4 * 16 + b / 16))
    (code (b mod 16 * 4 + c / 64)) (code (c mod 64))) as (s1 & s2 & s3 & s4 & A1 & A2 & A3 & A4 & Hs4);
    [done|done|by apply code_char..|].
  exists s4. split; [|done]. unfold encode_triple.
  rewrite E1; cbn [mbind option_bind]. rewrite E2; cbn [mbind option_bind].
  rewrite E3; cbn [mbind option_bind]. rewrite triple_u32 by done.
  rewrite S1; cbn [mbind option_bind]. rewrite A1; cbn [mbind option_bind].
  rewrite S2; cbn [mbind option_bind]. rewrite A2; cbn [mbind option_bind].
  rewrite S3; cbn [mbind option_bind]. rewrite A3; cbn [mbind option_bind].
  rewrite S4; cbn [mbind option_bind]. by rewrite A4.
Qed.

Lemma encode_loop_done fuel data n s : encode_loop fuel data n n s = Some s.
Proof. destruct fuel; cbn [encode_loop]; by rewrite Z.ltb_irrefl. Qed.

Lemma encode_loop_spec cap fuel pre rest text s :
  str_is cap text s → Forall is_byte rest → (length rest <= fuel)%nat →
  zlen text + zlen (b64_with (code 0) rest) < cap →
  ∃ s', encode_loop fuel (pre ++ rest) (zlen (pre ++ rest)) (zlen pre) s = Some s' ∧
    str_is cap (text ++ b64_with (code 0) rest) s'.
Proof.
  revert pre text s fuel. induction rest as [|a|a b|a b c rest IH] using triple_ind;
    intros pre text s fuel Hs Hb Hfuel Hcap; decompose_Forall_hyps.
  { rewrite !app_nil_r, encode_loop_done. eauto. }
  all: destruct fuel as [|fuel]; [simpl in Hfuel; lia|]; cbn [encode_loop]; cbn [b64_with] in *.
  all: rewrite ?zlen_cons in Hcap; zlen_pos.
  all: match goal with |- context [?x <? ?y] =>
    assert ((x <? y) = true) as -> by (apply Z.ltb_lt; rewrite zlen_app, zlen_cons; zlen_pos; lia) end.
  - pose proof (next_octet_cons pre a []) as E1.
    destruct (encode_triple_spec cap text s (pre ++ [a]) (zlen pre) a 0 0 _ _ _ Hs ltac:(lia)
      ltac:(done) ltac:(done) ltac:(done) E1 (next_octet_end _) (next_octet_end _)) as (s' & E & Hs').
    rewrite E. simpl. rewrite encode_loop_done. exists s'. split; [done|].
    by rewrite Z.add_0_r in Hs'.
  - pose proof (next_octet_cons pre a [b]) as E1.
    pose proof (next_octet_cons (pre ++ [a]) b []) as E2. rewrite <-app_cons_comm in E2.
    pose proof (next_octet_end (pre ++ [a; b])) as E3.
    destruct (encode_triple_spec cap text s (pre ++ [a; b]) (zlen pre) a b 0 _ _ _ Hs ltac:(lia)
      ltac:(done) ltac:(done) ltac:(done) E1 E2 E3) as (s' & E & Hs').
    rewrite E. simpl. rewrite encode_loop_done. exists s'.
    split; [done|]. by rewrite Z.add_0_r in Hs'.
  - assert (pre ++ a :: b :: c :: rest = (pre ++ [a]) ++ b :: c :: rest) as D1 by apply app_cons_comm.
    assert (pre ++ a :: b :: c :: rest = ((pre ++ [a]) ++ [b]) ++ c :: rest) as D2
      by (rewrite D1; apply app_cons_comm).
    assert (pre ++ a :: b :: c :: rest = (((pre ++ [a]) ++ [b]) ++ [c]) ++ rest) as Ed
      by (rewrite D2; apply app_cons_comm).
    pose proof (next_octet_cons pre a (b :: c :: rest)) as E1.
    pose proof (next_octet_cons (pre ++ [a]) b (c :: rest)) as E2. rewrite <-D1 in E2.
    pose proof (next_octet_cons ((pre ++ [a]) ++ [b]) c rest) as E3. rewrite <-D2 in E3.
    destruct (encode_triple_spec cap text s (pre ++ a :: b :: c :: rest) (zlen pre) a b c _ _ _ Hs
      ltac:(lia) ltac:(done) ltac:(done) ltac:(done) E1 E2 E3) as (s' & E & Hs').
    rewrite E. simpl. rewrite Ed.
    destruct (IH (((pre ++ [a]) ++ [b]) ++ [c]) _ s' fuel Hs') as (s'' & E'' & Hs''); auto.
    { simpl in Hfuel. lia. }
    { rewrite zlen_app, !zlen_cons. change (zlen []) with 0. lia. }
    exists s''. split; [done|]. by rewrite <-app_assoc in Hs''.
Qed.

(** Overwriting the last characters with the padding. *)
Lemma store_padding init x j rest :
  0 <= j <= 2 →
  let n := zlen init + j in
  (b ← (if 0 <? j then mem_write ((init ++ replicate (Z.to_nat j) x) ++ 0 :: rest) (n - 1) [61]
        else Some ((init ++ replicate (Z.to_nat j) x) ++ 0 :: rest));
   if 1 <? j then mem_write b (n - 2) [61] else Some b) =
  Some ((init ++ replicate (Z.to_nat j) 61) ++ 0 :: rest).
Proof.
  intros Hj n. assert (j = 0 ∨ j = 1 ∨ j = 2) as [Hj0|[Hj0|Hj0]] by lia; subst j; [done| |]; unfold n.
  - simpl. rewrite <-!app_cons_comm. replace (zlen init + 1 - 1) with (zlen init) by lia.
    by rewrite mem_write_here by apply zlen_cons_pos.
  - change (Z.to_nat 2) with 2%nat. simpl. rewrite <-!app_assoc. simpl.
    replace (zlen init + 2 - 2) with (zlen init) by lia. rewrite (app_cons_comm init x).
    replace (zlen init + 2 - 1) with (zlen (init ++ [x])) by (rewrite zlen_app; simpl; zl).
    rewrite mem_write_here by apply zlen_cons_pos. simpl.
    rewrite <-app_cons_comm, mem_write_here by apply zlen_cons_pos. done.
Qed.

(** [base64_encode] computes the reference encoding when it fits. *)
Lemma base64_encode_spec cap s data :
  str_raw cap s → Forall is_byte data → zlen data <= INT_MAX →
  b64_length (zlen data) < cap →
  ∃ s', base64_encode data (zlen data) s = Some s' ∧ str_is cap (b64 data) s'.
Proof.
  intros Hs Hb Hmax Hcap. pose proof (zlen_nonneg data). unfold base64_encode.
  destruct (Z.ltb_spec INT_MAX (zlen data)); [lia|].
  destruct (str_set_string_spec cap s [] Hs) as (s0 & E0 & Hs0);
    [constructor|unfold no_percent; set_solver|].
  rewrite E0; cbn [mbind option_bind].
  destruct (b64_padding data) as (j & init & Ej & Hj & Hpad).
  rewrite Ej; cbn [mbind option_bind].
  replace (ztake (cap - 1) []) with (@nil Z) in Hs0 by (unfold ztake; by rewrite take_nil).
  destruct (encode_loop_spec cap (Z.to_nat (zlen data)) [] data [] s0) as (s1 & E1 & Hs1);
    [done|done|unfold zlen; lia|by rewrite zlen_b64|].
  cbn [app] in E1. change (zlen (@nil Z)) with 0 in E1. rewrite E1; cbn [mbind option_bind].
  cbn [app] in Hs1. destruct (str_is_length _ _ _ Hs1) as (Hl & _ & _ & _).
  pose proof Hs1 as [[[Hcap' Hc Hsb Hby] Ec] _]. apply cstr_inv in Ec as (rest & Ec & _).
  pose proof (zlen_b64 61 data) as Hz. rewrite zlen_b64 in Hl.
  assert (Forall is_char (b64 data)) as Hchars by (apply code_range_cstring; done).
  unfold str_get_length. rewrite Hl, Ec, Hcap'. unfold b64 in *.
  rewrite (Hpad (code 0)) in Ec |- *. rewrite (Hpad 61) in Hz, Hchars |- *.
  assert (b64_length (zlen data) = zlen init + j) as Hn.
  { rewrite <-Hz, zlen_app. unfold zlen. rewrite length_replicate. lia. }
  pose proof (store_padding init (code 0) j rest Hj) as Hst. cbv zeta in Hst. rewrite <-Hn in Hst.
  assert (∀ (o1 : option (list Z)) f (g : list Z → str_t) r, o1 ≫= f = Some r →
    (o1 ≫= λ b, f b ≫= λ b', Some (g b')) = Some (g r)) as Hbind.
  { intros [o|] f g r Ho; [|done]. simpl in *. by rewrite Ho. }
  erewrite Hbind by exact Hst. eexists. split; [done|]. rewrite <-Hz.
  rewrite Ec in Hby, Hsb. apply Forall_app in Hby as [_ Hby]. apply Forall_inv_tail in Hby.
  apply str_is_build; [done|done| |lia].
  rewrite !zlen_app, zlen_cons in Hsb. rewrite zlen_app. unfold zlen in *.
  rewrite length_replicate in *. lia.
Qed.

(** ** The decoding table *)

Lemma mem_write_insert (t : list Z) c v :
  0 <= c < zlen t → mem_write t c [v] = Some (<[Z.to_nat c := v]> t).
Proof.
  intros Hc. rewrite mem_write_Some by (change (zlen [v]) with 1; lia). f_equal.
  rewrite insert_take_drop by (unfold zlen in Hc; lia). unfold ztake, zdrop.
  replace (Z.to_nat (c + zlen [v])) with (S (Z.to_nat c)) by (change (zlen [v]) with 1; lia). done.
Qed.

Lemma fill_table_spec chars i t :
  NoDup chars → Forall (λ c, 0 <= c < zlen t) chars →
  ∃ t', fill_table chars i t = Some t' ∧ zlen t' = zlen t ∧
    (∀ k c, chars !! k = Some c → znth t' c = Some (i + Z.of_nat k)) ∧
    (∀ c, c ∉ chars → znth t' c = znth t c).
Proof.
  revert i t. induction chars as [|d chars IH]; intros i t Hnd Hr; [by exists t|].
  inversion_clear Hnd as [|?? Hd Hnd']. decompose_Forall_hyps. cbn [fill_table].
  rewrite mem_write_insert by done. cbn [mbind option_bind].
  assert (zlen (<[Z.to_nat d:=i]> t) = zlen t) as Hz by (unfold zlen; by rewrite length_insert).
  destruct (IH (i + 1) (<[Z.to_nat d:=i]> t) Hnd') as (t' & E & Hl & Hin & Hout); [by rewrite Hz|].
  exists t'. split_and!; [done|lia| |].
  - intros [|k] c; simpl.
    + intros [= <-]. rewrite Hout, Z.add_0_r, znth_lookup by (done || lia).
      apply list_lookup_insert_eq. unfold zlen in *. lia.
    + intros Hk. rewrite (Hin k c Hk). f_equal. lia.
  - intros c. rewrite not_elem_of_cons. intros [Hc Hn]. rewrite (Hout c Hn). unfold znth.
    destruct (Z.ltb_spec c 0); [done|]. apply list_lookup_insert_ne. lia.
Qed.

Record table_ok (t : list Z) : Prop := {
  tb_length : zlen t = 256;
  tb_code : ∀ x, 0 <= x < 64 → znth t (code x) = Some x }.

Lemma fill_table_ok t : zlen t = 256 → ∃ t', fill_table encoding_table 0 t = Some t' ∧ table_ok t'.
Proof.
  intros Ht. destruct (fill_table_spec encoding_table 0 t) as (t' & E & Hl & Hin & _).
  - decided.
  - rewrite Ht. decided.
  - exists t'. split; [done|]. split; [lia|]. intros x Hx.
    rewrite (Hin (Z.to_nat x) (code x)); [f_equal; lia|].
    rewrite <-znth_lookup by lia. by apply code_lookup.
Qed.

(** ** The decoder *)

Lemma sextet_at_code t pre x rest :
  table_ok t → 0 <= x < 64 → sextet_at t (pre ++ code x :: rest) (zlen pre) = Some x.
Proof.
  intros [Hl Ht] Hx. unfold sextet_at. pose proof (zlen_nonneg pre).
  rewrite znth_lookup, list_lookup_middle by (unfold zlen; lia). cbn [mbind option_bind].
  destruct (code_char x Hx) as ([Hc0 Hc1] & Hc2 & Hc3).
  destruct (Z.eqb_spec (code x) 61); [done|]. unfold schar at 2.
  destruct (Z.ltb_spec (code x) 128); [|lia]. rewrite Ht by done. cbn [mbind option_bind].
  unfold schar, u32. destruct (Z.ltb_spec x 128); [|lia]. by rewrite Z.mod_small by lia.
Qed.

Lemma sextet_at_pad t pre rest : sextet_at t (pre ++ 61 :: rest) (zlen pre) = Some 0.
Proof.
  unfold sextet_at. pose proof (zlen_nonneg pre).
  by rewrite znth_lookup, list_lookup_middle by (unfold zlen; lia).
Qed.

Lemma store_octet_here done_ x junk o :
  store_octet (done_ ++ x :: junk) (zlen (done_ ++ x :: junk)) (zlen done_) o =
    Some (done_ ++ o :: junk, zlen (done_ ++ [o])).
Proof.
  unfold store_octet. rewrite !zlen_app, zlen_cons. zlen_pos.
  destruct (Z.ltb_spec (zlen done_) (zlen done_ + (1 + zlen junk))); [|lia].
  by rewrite mem_write_here by apply zlen_cons_pos.
Qed.

Lemma store_octet_full d o : store_octet d (zlen d) (zlen d) o = Some (d, zlen d).
Proof. unfold store_octet. by rewrite Z.ltb_irrefl. Qed.

(** The octets of the triple that four sextets make. *)
Lemma quad_octets a b c : is_byte a → is_byte b → is_byte c →
  let triple := u32 (u32 (u32 (u32 (Z.shiftl (a / 4) 18) + u32 (Z.shiftl (a mod 4 * 16 + b / 16) 12))
                   + u32 (Z.shiftl (b mod 16 * 4 + c / 64) 6)) + c mod 64) in
  Z.land (Z.shiftr triple 16) 0xFF = a ∧ Z.land (Z.shiftr triple 8) 0xFF = b ∧
  Z.land (Z.shiftr triple 0) 0xFF = c.
Proof.
  intros Ha Hb Hc triple. unfold is_byte in *.
  assert (triple = triple_of a b c) as ->.
  { unfold triple, u32, triple_of. rewrite !Z.shiftl_mul_pow2 by lia.
    destruct (sextet_ranges a b c) as (? & ? & ? & ?); [done..|].
    change (2 ^ 18) with 262144. change (2 ^ 12) with 4096. change (2 ^ 6) with 64.
    change (2 ^ 32) with 4294967296.
    rewrite !(Z.mod_small (_ * _)) by lia.
    rewrite (Z.mod_small (_ * 262144 + _)) by lia.
    rewrite (Z.mod_small (_ * 262144 + _ + _)) by lia.
    rewrite (Z.mod_small (_ * 262144 + _ + _ + _)) by lia.
    clear -Ha Hb Hc. Z.div_mod_to_equations. lia. }
  unfold triple_of. change 0xFF with (Z.ones 8). rewrite !Z.land_ones, !Z.shiftr_div_pow2 by lia.
  change (2 ^ 16) with 65536. change (2 ^ 8) with 256. change (2 ^ 0) with 1.
  clear -Ha Hb Hc. split_and!; Z.div_mod_to_equations; lia.
Qed.

(** One group of four characters. *)
Lemma decode_quad_spec t pre s1 s2 s3 s4 rest n i dec j a b c :
  table_ok t → zlen pre = i →
  let data := pre ++ s1 :: s2 :: s3 :: s4 :: rest in
  is_byte a → is_byte b → is_byte c →
  sextet_at t data i = Some (a / 4) → sextet_at t data (i + 1) = Some (a mod 4 * 16 + b / 16) →
  sextet_at t data (i + 2) = Some (b mod 16 * 4 + c / 64) →
  sextet_at t data (i + 3) = Some (c mod 64) →
  decode_quad t data n i dec j =
    '(d, j) ← store_octet dec n j a; '(d, j) ← store_octet d n j b; store_octet d n j c.
Proof.
  intros Ht Hi data Ha Hb Hc E1 E2 E3 E4. unfold decode_quad.
  rewrite E1; cbn [mbind option_bind]. rewrite E2; cbn [mbind option_bind].
  rewrite E3; cbn [mbind option_bind]. rewrite E4; cbn [mbind option_bind].
  destruct (quad_octets a b c Ha Hb Hc) as (-> & -> & ->). done.
Qed.

Lemma sextet_at_nth t pre l x n rest v :
  zlen l = n → sextet_at t ((pre ++ l) ++ x :: rest) (zlen (pre ++ l)) = Some v →
  sextet_at t (pre ++ l ++ x :: rest) (zlen pre + n) = Some v.
Proof. intros <-. by rewrite zlen_app, app_assoc. Qed.

Lemma decode_loop_done fuel t data n m d j : decode_loop fuel t data n m n d j = Some d.
Proof. destruct fuel; cbn [decode_loop]; by rewrite Z.ltb_irrefl. Qed.

Lemma decode_loop_end fuel t data n m d i j : i = n → decode_loop fuel t data n m i d j = Some d.
Proof. intros ->. apply decode_loop_done. Qed.

(** A whole group: its four characters and what decoding them does. *)
Definition quad (a b c : Z) : list Z :=
  [code (a / 4); code (a mod 4 * 16 + b / 16); code (b mod 16 * 4 + c / 64); code (c mod 64)].

Lemma quad_app pre a b c rest :
  pre ++ code (a / 4) :: code (a mod 4 * 16 + b / 16) :: code (b mod 16 * 4 + c / 64) :: code (c mod 64) :: rest =
    (pre ++ quad a b c) ++ rest.
Proof. by rewrite <-app_assoc. Qed.

Lemma decode_three t pre a b c rest n dec j :
  table_ok t → is_byte a → is_byte b → is_byte c →
  decode_quad t (pre ++ code (a / 4) :: code (a mod 4 * 16 + b / 16) :: code (b mod 16 * 4 + c / 64) ::
                 code (c mod 64) :: rest) n (zlen pre) dec j =
    '(d, j) ← store_octet dec n j a; '(d, j) ← store_octet d n j b; store_octet d n j c.
Proof.
  intros Ht Ha Hb Hc. destruct (sextet_ranges a b c) as (? & ? & ? & ?); [done..|].
  set (s1 := code (a / 4)). set (s2 := code (a mod 4 * 16 + b / 16)).
  set (s3 := code (b mod 16 * 4 + c / 64)). set (s4 := code (c mod 64)).
  apply (decode_quad_spec t pre _ _ _ _ rest); try done.
  - by apply sextet_at_code.
  - apply (sextet_at_nth t pre [s1]); [done|]. by apply sextet_at_code.
  - apply (sextet_at_nth t pre [s1; s2]); [done|]. by apply sextet_at_code.
  - apply (sextet_at_nth t pre [s1; s2; s3]); [done|]. by apply sextet_at_code.
Qed.

(** Storing the three octets of a group: in the middle of the output, and when only
    one or two of them still fit. *)
Lemma store_one dec x a b c : let n := zlen (dec ++ [x]) in
  ('(d, j) ← store_octet (dec ++ [x]) n (zlen dec) a; '(d, j) ← store_octet d n j b; store_octet d n j c) =
    Some (dec ++ [a], n).
Proof.
  intros n. unfold n. rewrite store_octet_here. cbn [mbind option_bind].
  assert (zlen (dec ++ [x]) = zlen (dec ++ [a])) as -> by by rewrite !zlen_app.
  rewrite !store_octet_full. cbn [mbind option_bind]. by rewrite store_octet_full.
Qed.

Lemma store_here dec x l a :
  store_octet (dec ++ x :: l) (zlen (dec ++ x :: l)) (zlen dec) a =
    Some ((dec ++ [a]) ++ l, zlen (dec ++ [a])) ∧ zlen (dec ++ x :: l) = zlen ((dec ++ [a]) ++ l).
Proof.
  split; [rewrite store_octet_here; by rewrite (app_cons_comm dec a)|].
  rewrite !zlen_app, !zlen_cons, zlen_nil. lia.
Qed.

Lemma store_two dec x y a b c : let n := zlen (dec ++ [x; y]) in
  ('(d, j) ← store_octet (dec ++ [x; y]) n (zlen dec) a; '(d, j) ← store_octet d n j b; store_octet d n j c) =
    Some (dec ++ [a; b], n).
Proof.
  intros n. unfold n. destruct (store_here dec x [y] a) as [-> ->]. cbn [mbind option_bind].
  destruct (store_here (dec ++ [a]) y [] b) as [-> ->]. cbn [mbind option_bind]. rewrite !app_nil_r.
  rewrite store_octet_full. by rewrite <-app_assoc.
Qed.

Lemma store_three dec x y z l a b c : let n := zlen (dec ++ x :: y :: z :: l) in
  ('(d, j) ← store_octet (dec ++ x :: y :: z :: l) n (zlen dec) a;
   '(d, j) ← store_octet d n j b; store_octet d n j c) =
    Some ((dec ++ [a; b; c]) ++ l, zlen (dec ++ [a; b; c])) ∧ n = zlen ((dec ++ [a; b; c]) ++ l).
Proof.
  intros n. unfold n. destruct (store_here dec x (y :: z :: l) a) as [-> ->]. cbn [mbind option_bind].
  destruct (store_here (dec ++ [a]) y (z :: l) b) as [-> ->]. cbn [mbind option_bind].
  destruct (store_here ((dec ++ [a]) ++ [b]) z l c) as [-> ->]. by rewrite <-!app_assoc.
Qed.

(** The loop inverts the reference encoding. *)
Lemma decode_loop_spec t fuel pre rest dec junk :
  table_ok t → Forall is_byte rest → zlen junk = zlen rest →
  (length (b64 rest) <= fuel)%nat →
  decode_loop fuel t (pre ++ b64 rest) (zlen (pre ++ b64 rest)) (zlen (dec ++ junk)) (zlen pre)
    (dec ++ junk) (zlen dec) = Some (dec ++ rest).
Proof.
  intros Ht. revert fuel pre dec junk.
  induction rest as [|a|a b|a b c rest IH] using triple_ind; intros fuel pre dec junk Hb Hj Hf;
    decompose_Forall_hyps.
  { rewrite !app_nil_r, decode_loop_done. by rewrite (zlen_0_nil junk), app_nil_r. }
  all: destruct fuel as [|fuel]; [simpl in Hf; lia|]; cbn [decode_loop]; unfold b64 in *;
    cbn [b64_with] in *.
  all: match goal with |- context [?x <? ?y] =>
    assert ((x <? y) = true) as -> by (apply Z.ltb_lt; rewrite zlen_app, zlen_cons; zlen_pos; lia) end.
  - destruct junk as [|x [|? ?]]; [done| |rewrite !zlen_cons in Hj; zlen_pos; change (zlen []) with 0 in *; lia].
    destruct (sextet_ranges a 0 0) as (? & R2 & ? & ?); [done..|].
    change (0 / 16) with 0 in R2. rewrite Z.add_0_r in R2.
    rewrite (decode_quad_spec t pre _ _ _ _ [] _ _ _ _ a 0 0); try done.
    2: by apply sextet_at_code.
    2: { change (0 / 16) with 0. rewrite Z.add_0_r.
         apply (sextet_at_nth t pre [code (a / 4)]); [done|]. by apply sextet_at_code. }
    2: { apply (sextet_at_nth t pre [code (a / 4); code (a mod 4 * 16)]); [done|]. apply sextet_at_pad. }
    2: { apply (sextet_at_nth t pre [code (a / 4); code (a mod 4 * 16); 61]); [done|]. apply sextet_at_pad. }
    rewrite store_one. cbn [mbind option_bind]. apply decode_loop_end. by rewrite zlen_app.
  - destruct junk as [|x [|y [|? ?]]]; [done|done| |rewrite !zlen_cons in Hj; zlen_pos;
      change (zlen []) with 0 in *; lia].
    destruct (sextet_ranges a b 0) as (? & ? & R3 & ?); [done..|].
    change (0 / 64) with 0 in R3. rewrite Z.add_0_r in R3.
    set (s2 := code (a mod 4 * 16 + b / 16)). set (s3 := code (b mod 16 * 4)).
    rewrite (decode_quad_spec t pre _ _ _ _ [] _ _ _ _ a b 0); try done.
    2: by apply sextet_at_code.
    2: { apply (sextet_at_nth t pre [code (a / 4)]); [done|]. by apply sextet_at_code. }
    2: { change (0 / 64) with 0. rewrite Z.add_0_r.
         apply (sextet_at_nth t pre [code (a / 4); s2]); [done|]. by apply sextet_at_code. }
    2: { apply (sextet_at_nth t pre [code (a / 4); s2; s3]); [done|]. apply sextet_at_pad. }
    rewrite store_two. cbn [mbind option_bind]. apply decode_loop_end. by rewrite zlen_app.
  - destruct junk as [|x [|y [|z junk]]]; [rewrite !zlen_cons in Hj; zlen_pos; change (zlen []) with 0 in *; lia..|].
    rewrite (decode_three t pre a b c) by done. destruct (store_three dec x y z junk a b c) as [-> ->].
    cbn [mbind option_bind]. rewrite quad_app. replace (zlen pre + 4) with (zlen (pre ++ quad a b c)) by by rewrite zlen_app.
    rewrite IH; [|done|rewrite !zlen_cons in Hj; lia|simpl in Hf; lia].
    by rewrite <-!app_assoc.
Qed.

(** The output length that [base64_decode] computes from the last two
    characters. *)
Definition decoded_length (data : list Z) : option Z :=
  let n := zlen data in
  c ← znth data (n - 1); d ← znth data (n - 2);
  Some (n / 4 * 3 - (if c =? 61 then 1 else 0) - (if d =? 61 then 1 else 0)).

Lemma decoded_length_b64 d :
  Forall is_byte d → d ≠ [] → decoded_length (b64 d) = Some (zlen d).
Proof.
  unfold decoded_length, b64.
  induction d as [|a|a b|a b c d IH] using triple_ind; intros Hd Hne; [done| | |];
    decompose_Forall_hyps.
  - destruct (sextet_ranges a 0 0) as (_ & R2 & _); [done..|].
    change (0 / 16) with 0 in R2. rewrite Z.add_0_r in R2. done.
  - destruct (sextet_ranges a b 0) as (_ & _ & R3 & _); [done..|].
    change (0 / 64) with 0 in R3. rewrite Z.add_0_r in R3.
    destruct (code_char _ R3) as (_ & _ & H61). simpl.
    destruct (Z.eqb_spec (code (b mod 16 * 4)) 61); [done|]. done.
  - cbn [b64_with]. destruct (sextet_ranges a b c) as (_ & _ & R3 & R4); [done..|].
    destruct (code_char _ R3) as (_ & _ & H3). destruct (code_char _ R4) as (_ & _ & H4).
    set (x1 := code _). set (x2 := code (a mod 4 * 16 + _)).
    destruct d as [|e d].
    { simpl. destruct (Z.eqb_spec (code (c mod 64)) 61); [done|].
      destruct (Z.eqb_spec (code (b mod 16 * 4 + c / 64)) 61); done. }
    specialize (IH ltac:(done) ltac:(done)). set (l := b64_with 61 (e :: d)) in *.
    assert (4 <= zlen l) as Hl.
    { unfold l. rewrite zlen_b64, zlen_cons. unfold b64_length. zlen_pos. Z.div_mod_to_equations. lia. }
    assert (∀ k x1 x2 x3 x4, 1 <= k <= 2 → znth (x1 :: x2 :: x3 :: x4 :: l)
      (zlen (x1 :: x2 :: x3 :: x4 :: l) - k) = znth l (zlen l - k)) as Hn.
    { intros k y1 y2 y3 y4 Hk. rewrite !zlen_cons, !znth_lookup by lia.
      replace (Z.to_nat (1 + (1 + (1 + (1 + zlen l))) - k)) with (4 + Z.to_nat (zlen l - k))%nat by lia.
      done. }
    rewrite !Hn by lia. rewrite !zlen_cons in *.
    destruct (znth l (zlen l - 1)); [|done]. destruct (znth l (zlen l - 2)); [|done].
    simpl in IH |- *. injection IH as IH. f_equal.
    replace (1 + (1 + (1 + (1 + zlen l)))) with (zlen l + 1 * 4) by lia.
    rewrite Z.div_add by lia. lia.
Qed.

(** The contents of the static table: null, or built before. *)
Definition static_table_ok (table : option (list Z)) : Prop :=
  match table with Some t => table_ok t | None => True end.

(** [base64_decode] inverts the reference encoding. *)
Lemma base64_decode_spec table data :
  static_table_ok table → Forall is_byte data → data ≠ [] → b64_length (zlen data) <= INT_MAX - 3 →
  wp Benign (base64_decode table (b64 data) (zlen (b64 data))) (λ '(t, r),
    table_ok t ∧ r = Some data).
Proof.
  intros Ht Hb Hne Hmax. unfold base64_decode. wstep.
  eapply (wp_mono _ _ table_ok).
  { destruct table as [t|]; [by apply wp_ret|]. unfold build_decoding_table. wstep.
    apply wp_malloc; [done|by intros [?|?]|]. intros t Hz _ _.
    destruct (fill_table_ok t Hz) as (t' & E & ?). by eapply wp_opt. }
  intros t Htab. pose proof (decoded_length_b64 data Hb Hne) as Hd. unfold decoded_length in Hd.
  assert (zlen (b64 data) mod 4 = 0) as ->.
  { unfold b64. rewrite zlen_b64. unfold b64_length. apply Z.mod_mul. lia. }
  simpl negb. cbv iota.
  destruct (Z.ltb_spec (INT_MAX - 3) (zlen (b64 data))) as [Hlt|_].
  { unfold b64 in Hlt. rewrite zlen_b64 in Hlt. lia. }
  destruct (znth (b64 data) (zlen (b64 data) - 1)) as [c|]; [|done]. cbn [mbind option_bind] in Hd.
  destruct (znth (b64 data) (zlen (b64 data) - 2)) as [d|]; [|done]. cbn [mbind option_bind] in Hd.
  injection Hd as Hd. wstep. apply wp_ret. wstep. apply wp_ret.
  match goal with |- wp _ (malloc ?n ≫= _) _ => replace n with (zlen data) end.
  2: { rewrite <-Hd. by destruct (c =? 61), (d =? 61); lia. }
  pose proof (zlen_nonneg data). wstep. apply wp_malloc; [lia| |].
  { intros [?|?]; [done|]. unfold b64_length, INT_MAX, PTRDIFF_MAX in *.
    Z.div_mod_to_equations. lia. }
  intros junk Hj _ _. wstep.
  pose proof (decode_loop_spec t (Z.to_nat (zlen (b64 data))) [] data [] junk Htab Hb Hj
    ltac:(unfold zlen; lia)) as E. cbn [app] in E. change (zlen (@nil Z)) with 0 in E.
  rewrite <-Hj. eapply wp_opt; [exact E|]. by apply wp_ret.
Qed.
