(* ===== verification/Base64Props.v ===== *)
(** * Base64: properties *)

From S2P Require Import Prelude CString Str Base64.

(** C27: [base64_encode] writes the encoding of RFC 4648, padding included, for
    every input whose encoding fits the string buffer. *)
Theorem base64_encode_correct cap s data :
  str_raw cap s → Forall is_byte data → zlen data <= INT_MAX → (zlen data + 2) / 3 * 4 < cap →
  ∃ s', base64_encode data (zlen data) s = Some s' ∧ str_is cap (b64 data) s'.
Proof. apply base64_encode_spec. Qed.

Definition empty_str (n : Z) : str_t := Str (replicate (Z.to_nat n) 0) 0 n.

Lemma empty_str_raw n : 0 < n <= 2 ^ 32 → str_raw n (empty_str n).
Proof.
  intros Hn. split; simpl; try done; [unfold zlen; rewrite length_replicate; lia|].
  by apply Forall_replicate.
Qed.

Lemma base64_encode_correct_witness :
  ∃ s', base64_encode (bs "abcd") 4 (empty_str 32) = Some s' ∧ str_is 32 (bs "YWJjZA==") s'.
Proof.
  apply (base64_encode_correct 32 (empty_str 32) (bs "abcd")); [by apply empty_str_raw|decided|done|done].
Defined.

(** C28: round trip: decoding what [base64_encode] wrote gives the data back, for
    every non-empty input that fits, on the first call of [base64_decode],
    which builds its table, and on later ones. *)
Theorem base64_roundtrip cap s table data :
  str_raw cap s → Forall is_byte data → data ≠ [] → (zlen data + 2) / 3 * 4 < cap →
  cap <= INT_MAX - 3 → static_table_ok table →
  ∃ s' text t, base64_encode data (zlen data) s = Some s' ∧ str_get_string s' = Some text ∧
    runs (base64_decode table text (zlen text)) (t, Some data) ∧ static_table_ok (Some t).
Proof.
  intros Hs Hb Hne Hfit Hcap Ht.
  assert (zlen data <= INT_MAX) as Hmax.
  { pose proof (zlen_nonneg data). unfold INT_MAX in *. Z.div_mod_to_equations. lia. }
  destruct (base64_encode_spec cap s data Hs Hb Hmax Hfit) as (s' & E & Hs').
  destruct (wp_benign_runs _ _ (base64_decode_spec table data Ht Hb Hne
    ltac:(unfold b64_length; lia))) as ([t r] & Er & Htab & ->).
  exists s', (b64 data), t. split_and!; try done. by eapply str_holds_get, str_is_holds.
Qed.

Lemma base64_roundtrip_witness :
  ∃ s' text t, base64_encode [0; 255; 128; 7] 4 (empty_str 32) = Some s' ∧
    str_get_string s' = Some text ∧
    runs (base64_decode None text (zlen text)) (t, Some [0; 255; 128; 7]) ∧ static_table_ok (Some t).
Proof.
  apply (base64_roundtrip 32 (empty_str 32) None [0; 255; 128; 7]);
    [by apply empty_str_raw|decided|done|done|done|done].
Defined.

(** The decoder does not guard its reads: an empty input makes it read before
    the string, and a character above 127 indexes before the table. *)
Theorem base64_decode_unguarded table rest a b c :
  128 <= a < 256 →
  base64_decode (Some table) [] 0 [] = None ∧
  base64_decode (Some table) (a :: b :: c :: 65 :: rest) 4 [] = None.
Proof.
  intros Ha. split; [done|].
  assert (sextet_at table (a :: b :: c :: 65 :: rest) 0 = None) as E.
  { unfold sextet_at. simpl. destruct (Z.eqb_spec a 61); [lia|]. unfold schar at 2.
    destruct (Z.ltb_spec a 128); [lia|]. unfold znth. destruct (Z.ltb_spec (a - 256) 0); [done|lia]. }
  assert (∀ n d, decode_loop 4 table (a :: b :: c :: 65 :: rest) 4 n 0 d 0 = None) as El.
  { intros n d. cbn [decode_loop]. unfold decode_quad. by rewrite E. }
  unfold base64_decode, mbind, M_bind, opt, mret, M_ret.
  change (Z.to_nat 4) with 4%nat. change (4 mod 4 =? 0) with true.
  change (INT_MAX - 3 <? 4) with false. change (4 / 4 * 3) with 3.
  change (znth (a :: b :: c :: 65 :: rest) (4 - 1)) with (Some 65).
  change (znth (a :: b :: c :: 65 :: rest) (4 - 2)) with (Some c). cbn [negb]. cbv iota beta.
  destruct (c =? 61); unfold malloc, next_answer, mbind, M_bind, mret, M_ret; cbv iota beta.
  - change (PTRDIFF_MAX <? (if 65 =? 61 then 3 - 1 else 3) - 1) with false. cbv iota. cbn [fmap option_fmap option_map].
    cbv iota beta. by rewrite El.
  - change (PTRDIFF_MAX <? (if 65 =? 61 then 3 - 1 else 3)) with false. cbv iota. cbn [fmap option_fmap option_map].
    cbv iota beta. by rewrite El.
Qed.

Lemma base64_decode_unguarded_witness :
  base64_decode (Some []) [] 0 [] = None ∧
  base64_decode (Some []) [200; 65; 65; 65] 4 [] = None.
Proof. by apply (base64_decode_unguarded [] [] 200 65 65). Defined.
