(* ===== verification/Tokens.v ===== *)
(** * Tokenizing in place: what [strtok_r] computes

    The tokens of a string are its maximal pieces without delimiters.
    [strtok_r] yields them one by one while it overwrites the delimiters. *)

From S2P Require Import Prelude CString Str.

Section tokens.
Variable d : list Z.

Fixpoint split_on (s : list Z) : list (list Z) :=
  match s with
  | [] => [[]]
  | c :: s' =>
      if mem_char c d then [] :: split_on s'
      else match split_on s' with t :: ts => (c :: t) :: ts | [] => [[c]] end
  end.

Definition nonempty (t : list Z) : bool := match t with [] => false | _ => true end.
Definition tokens (s : list Z) : list (list Z) := filter nonempty (split_on s).

Lemma tokens_delim c s : mem_char c d = true → tokens (c :: s) = tokens s.
Proof. unfold tokens. simpl. by intros ->. Qed.

Lemma tokens_delims t s : Forall (λ c, mem_char c d = true) t → tokens (t ++ s) = tokens s.
Proof. induction 1 as [|c t Hc _ IH]; simpl; [done|]. by rewrite tokens_delim. Qed.

Lemma split_on_app t s : Forall (λ c, mem_char c d = false) t →
  split_on (t ++ s) = match split_on s with u :: us => (t ++ u) :: us | [] => [t] end.
Proof.
  induction 1 as [|c t Hc _ IH]; simpl.
  - destruct s as [|c s]; simpl; [done|]. case_match; [done|]. by destruct (split_on s).
  - rewrite Hc, IH. by destruct (split_on s).
Qed.

Lemma tokens_word t : Forall (λ c, mem_char c d = false) t → t ≠ [] → tokens t = [t].
Proof.
  intros Ht Hn. unfold tokens. rewrite <-(app_nil_r t), split_on_app by done. simpl.
  rewrite app_nil_r. by destruct t.
Qed.

Lemma tokens_word_delim t c s : Forall (λ c, mem_char c d = false) t → t ≠ [] →
  mem_char c d = true → tokens (t ++ c :: s) = t :: tokens s.
Proof.
  intros Ht Hn Hc. unfold tokens. rewrite split_on_app by done. simpl. rewrite Hc.
  rewrite app_nil_r. by destruct t.
Qed.

Lemma strspn_split s : ∃ t u,
  s = t ++ u ∧ strspn s d = zlen t ∧ Forall (λ c, mem_char c d = true) t ∧
  match u with [] => True | c :: _ => mem_char c d = false end.
Proof.
  induction s as [|c s (t & u & -> & E & Ht & Hu)]; [by exists [], []|]. simpl.
  destruct (mem_char c d) eqn:Hc; [|by exists [], (c :: t ++ u)].
  exists (c :: t), u. rewrite zlen_cons, E. split_and!; try done. by constructor.
Qed.

Lemma strcspn_split s : ∃ t u,
  s = t ++ u ∧ strcspn s d = zlen t ∧ Forall (λ c, mem_char c d = false) t ∧
  match u with [] => True | c :: _ => mem_char c d = true end.
Proof.
  induction s as [|c s (t & u & -> & E & Ht & Hu)]; [by exists [], []|]. simpl.
  destruct (mem_char c d) eqn:Hc; [by exists [], (c :: t ++ u)|].
  exists (c :: t), u. rewrite zlen_cons, E. split_and!; try done. by constructor.
Qed.

Lemma cstr_middle pre s rest : cstring s → cstr (pre ++ s ++ 0 :: rest) (zlen pre) = Some s.
Proof.
  intros Hs. unfold cstr. rewrite !zlen_app, zlen_cons. zlen_pos.
  repeat (bcase; simpl); try lia. rewrite zdrop_app_exact by done. by apply until_nul_app.
Qed.

(** The array after a call: the token [tok] ends the part [pre'] already
    scanned, [s'] is still to scan. *)
Definition scanned (q tok pre' s' : list Z) : Prop :=
  pre' = q ++ tok ++ [0] ∨ (pre' = q ++ tok ∧ s' = []).

Lemma scanned_cstr q tok pre' s' rest : cstring tok → scanned q tok pre' s' →
  cstr (pre' ++ s' ++ 0 :: rest) (zlen q) = Some tok.
Proof.
  intros Ht [->|[-> ->]]; rewrite <-!app_assoc; simpl; by apply cstr_middle.
Qed.

(** One call of [strtok_r]. *)
Lemma strtok_r_spec pre s rest :
  cstring s → Forall is_byte (pre ++ s ++ 0 :: rest) →
  match tokens s with
  | [] => strtok_r (pre ++ s ++ 0 :: rest) (zlen pre) d =
            Some (None, zlen pre + zlen s, pre ++ s ++ 0 :: rest)
  | tok :: toks => ∃ q pre' s',
      strtok_r (pre ++ s ++ 0 :: rest) (zlen pre) d =
        Some (Some (zlen q), zlen pre', pre' ++ s' ++ 0 :: rest) ∧
      scanned q tok pre' s' ∧ tokens s' = toks ∧ cstring tok ∧ cstring s' ∧
      zlen pre' + zlen s' = zlen pre + zlen s ∧ (length s' < length s)%nat ∧
      (∃ x y, s = x ++ s' ∧ q = pre ++ y) ∧ Forall is_byte (pre' ++ s' ++ 0 :: rest)
  end.
Proof.
  intros Hs Hb. unfold strtok_r. rewrite cstr_middle by done. cbn [mbind option_bind].
  destruct (strspn_split s) as (sp & s1 & -> & -> & Hsp & Hs1). rewrite tokens_delims by done.
  apply Forall_app in Hs as [Hcsp Hcs1].
  assert (cstr (pre ++ (sp ++ s1) ++ 0 :: rest) (zlen pre + zlen sp) = Some s1) as ->.
  { rewrite <-zlen_app, <-app_assoc, app_assoc. by apply cstr_middle. }
  cbn [mbind option_bind]. destruct s1 as [|c1 s1].
  { cbn. by rewrite app_nil_r. }
  destruct (strcspn_split (c1 :: s1)) as (tok & s2 & E & -> & Htok & Hs2). rewrite E in *.
  apply Forall_app in Hcs1 as [Hct Hcs2].
  assert (tok ≠ []) as Hne.
  { intros ->. simpl in E. rewrite <-E in Hs2. by rewrite Hs1 in Hs2. }
  assert (0 < zlen tok) as Hpos by (destruct tok; [done|apply zlen_cons_pos]).
  rewrite <-zlen_app. destruct s2 as [|c2 s2].
  - rewrite app_nil_r, tokens_word by done. rewrite Z.eqb_refl.
    exists (pre ++ sp), (pre ++ sp ++ tok), []. rewrite ?app_nil_r in *.
    split_and!; try done.
    + rewrite !zlen_app. simpl. by rewrite <-!app_assoc, Z.add_assoc.
    + right. by rewrite <-app_assoc.
    + rewrite !zlen_app. simpl. zl.
    + rewrite length_app. unfold zlen in *. simpl. lia.
    + exists (sp ++ tok), sp. by rewrite app_nil_r.
    + simpl. by rewrite <-!app_assoc in *.
  - rewrite tokens_word_delim by done. rewrite zlen_app, zlen_cons.
    pose proof (zlen_nonneg s2). destruct (Z.eqb_spec (zlen tok) (zlen tok + (1 + zlen s2))); [lia|].
    apply Forall_inv_tail in Hcs2 as Hcs2'.
    replace (pre ++ (sp ++ tok ++ c2 :: s2) ++ 0 :: rest)
      with ((pre ++ sp ++ tok) ++ c2 :: s2 ++ 0 :: rest) in *
      by by rewrite <-!app_assoc.
    assert (zlen (pre ++ sp) + zlen tok = zlen (pre ++ sp ++ tok)) as -> by (rewrite !zlen_app; lia).
    rewrite mem_write_here by apply zlen_cons_pos.
    cbn [mbind option_bind]. change (zdrop 1 (c2 :: s2 ++ 0 :: rest)) with (s2 ++ 0 :: rest).
    exists (pre ++ sp), (pre ++ sp ++ tok ++ [0]), s2. split_and!; try done.
    + rewrite <-!app_assoc, !zlen_app. simpl. do 3 f_equal. zl.
    + left. by rewrite <-app_assoc.
    + rewrite !zlen_app, (zlen_cons c2). change (zlen [0]) with 1. lia.
    + rewrite !length_app. simpl. lia.
    + exists (sp ++ tok ++ [c2]), sp. by rewrite <-!app_assoc.
    + rewrite <-!app_assoc in *. rewrite !Forall_app in *. destruct Hb as (? & ? & ? & Hr).
      apply Forall_inv_tail in Hr. rewrite Forall_app in Hr.
      split_and!; try done; [constructor; [by split|done]|apply Hr..].
Qed.
End tokens.
