(* ===== verification/Buffer.v ===== *)
(** * Data buffers: the second half of [util.c]

    [buffer_t] is the growing byte buffer that every other component reads
    from and writes to, [data_t] a fixed array with a length, [unmask] the
    WebSocket payload unmasking.  The abstract view of a buffer is the list of
    its first [length] bytes ([contents]). *)

From S2P Require Import Prelude.

(** ** [data_t] *)

Record data_t := Data {
  d_buffer : list Z;
  d_length : Z;
  d_capacity : Z }.

Definition data_init (buffer : list Z) (size : Z) : data_t := Data buffer 0 size.
Definition data_get_length (d : data_t) : Z := d_length d.
Definition data_get_capacity (d : data_t) : Z := d_capacity d.
Definition data_get_buffer (d : data_t) : list Z := d_buffer d.

(** The copy loop moves [size] bytes one by one; it reads [data_in] within its
    bounds and writes [data->buffer] within its bounds. *)
Fixpoint data_copy_loop (n : nat) (i : Z) (data_in buffer : list Z) : option (list Z) :=
  match n with
  | O => Some buffer
  | S n' => c ← znth data_in i; b' ← mem_write buffer i [c];
            data_copy_loop n' (i + 1) data_in b'
  end.

Definition data_set_data (d : data_t) (data_in : list Z) (size : Z) : M data_t :=
  let size := if d_capacity d <=? size then d_capacity d else size in
  b ← opt (data_copy_loop (Z.to_nat size) 0 data_in (d_buffer d));
  mret (Data b size (d_capacity d)).

(** ** [unmask] *)

(** One pass of the loop; [index] cycles through the four mask bytes. *)
Fixpoint unmask_loop (data mask : list Z) (index : Z) : option (list Z) :=
  match data with
  | [] => Some []
  | x :: data' =>
      k ← znth mask index;
      let index := index + 1 in
      rest ← unmask_loop data' mask (if index =? 4 then 0 else index);
      Some (Z.lxor x k :: rest)
  end.

(** [unmask(data, length, mask)] rewrites the first [length] bytes of [data];
    [mask] is the memory the third pointer reaches. *)
Definition unmask (data : list Z) (length : Z) (mask : list Z) : option (list Z) :=
  d ← mem_read data 0 length;
  d' ← unmask_loop d mask 0;
  mem_write data 0 d'.

(** ** [buffer_t] *)

Record buffer_t := Buffer {
  b_data : list Z;
  b_length : Z;
  b_capacity : Z;
  b_max_length : Z }.

Definition INIT_BUFFER_SIZE : Z := 128.

Definition buffer_create (max_length : Z) : M (option buffer_t) :=
  let init_capacity :=
    if (0 <? max_length) && (max_length <? INIT_BUFFER_SIZE)
    then max_length else INIT_BUFFER_SIZE in
  ok ← malloc_ok 32;
  if (ok : bool) then
    r ← malloc init_capacity;
    match r with
    | Some d => mret (Some (Buffer d 0 init_capacity max_length))
    | None => mret None
    end
  else mret None.

Definition buffer_clear (b : buffer_t) : buffer_t :=
  Buffer (b_data b) 0 (b_capacity b) (b_max_length b).

Definition buffer_get_length (b : buffer_t) : Z := b_length b.

(** The reallocation of [buffer_append]; [None] when [realloc] fails. *)
Definition buffer_grow (b : buffer_t) (new_cap : Z) : M (option buffer_t) :=
  r ← realloc (b_data b) new_cap;
  mret ((λ d, Buffer d (b_length b) new_cap (b_max_length b)) <$> r).

(** The [memcpy] that ends [buffer_append]; [src] is the object the argument
    [data] points into, [off] its offset there. *)
Definition buffer_copy (b : buffer_t) (src : list Z) (off len : Z) : M (bool * buffer_t) :=
  d ← opt (mem_read src off len);
  dat ← opt (mem_write (b_data b) (b_length b) d);
  mret (true, Buffer dat (szt (b_length b + len)) (b_capacity b) (b_max_length b)).

Definition buffer_append (b : buffer_t) (src : list Z) (off len : Z) : M (bool * buffer_t) :=
  if len =? 0 then mret (true, b)
  else if b_max_length b =? 0 then
    r ← (if b_capacity b <? szt (b_length b + len)
         then buffer_grow b (szt (b_length b + len + 1024)) else mret (Some b));
    match r with
    | None => mret (false, b)
    | Some b' =>
        let len := if b_capacity b' <? szt (b_length b' + len)
                   then szt (b_capacity b' - b_length b') else len in
        buffer_copy b' src off len
    end
  else
    let len := if b_max_length b <? szt (b_length b + len)
               then szt (b_max_length b - b_length b) else len in
    if len =? 0 then mret (false, b)
    else
      r ← (if b_capacity b <? szt (b_length b + len)
           then
             let new_cap := szt (b_length b + len + 1024) in
             buffer_grow b (if b_max_length b <? new_cap then b_max_length b else new_cap)
           else mret (Some b));
      match r with
      | None => mret (false, b)
      | Some b' => buffer_copy b' src off len
      end.

Definition buffer_set_data (b : buffer_t) (src : list Z) (off len : Z) : M (bool * buffer_t) :=
  buffer_append (buffer_clear b) src off len.

(** [buffer_get_data(buffer, output, length)]: the bytes written to [output]. *)
Definition buffer_get_data (b : buffer_t) (output : list Z) (length : Z) : M (list Z) :=
  d ← opt (mem_read (b_data b) 0 length);
  opt (mem_write output 0 d).

Definition buffer_get_data2 (b : buffer_t) (d : data_t) (length : Z) : M data_t :=
  data_set_data d (b_data b) length.

Definition buffer_peek_data (b : buffer_t) : list Z * Z := (b_data b, b_length b).

(** [memmove] of [capacity - length] bytes to the front. *)
Definition buffer_remove_data (b : buffer_t) (length : Z) : M buffer_t :=
  d ← opt (mem_read (b_data b) length (szt (b_capacity b - length)));
  dat ← opt (mem_write (b_data b) 0 d);
  mret (Buffer dat (szt (b_length b - length)) (b_capacity b) (b_max_length b)).

Definition buffer_move (src dst : buffer_t) : M (bool * buffer_t * buffer_t) :=
  '(ok, dst') ← buffer_append (buffer_clear dst) (b_data src) 0 (b_length src);
  if (ok : bool) then mret (true, buffer_clear src, dst') else mret (false, src, dst').

(** ** The abstract view and the invariant *)

Definition contents (b : buffer_t) : list Z := ztake (b_length b) (b_data b).

Record buffer_wf (b : buffer_t) : Prop := {
  wf_length : 0 <= b_length b <= b_capacity b;
  wf_data : zlen (b_data b) = b_capacity b;
  wf_capacity : 0 < b_capacity b <= PTRDIFF_MAX;
  wf_max : 0 <= b_max_length b < 2 ^ 64;
  wf_limit : b_max_length b = 0 ∨ b_capacity b <= b_max_length b;
  wf_bytes : Forall is_byte (b_data b) }.

(** How many of [len] further bytes a buffer takes. *)
Definition accepted (b : buffer_t) (len : Z) : Z :=
  if b_max_length b =? 0 then len else Z.min len (b_max_length b - b_length b).

Create HintDb buf.

Lemma zlen_contents b : buffer_wf b → zlen (contents b) = b_length b.
Proof. intros []. unfold contents. zl. Qed.

Lemma contents_bytes b : buffer_wf b → Forall is_byte (contents b).
Proof. intros []. unfold contents. auto with zlist. Qed.

Lemma data_contents b : buffer_wf b →
  b_data b = contents b ++ zdrop (b_length b) (b_data b).
Proof. intros. unfold contents. by rewrite ztake_zdrop. Qed.

Lemma accepted_bounds b len : buffer_wf b → 0 <= len →
  0 <= accepted b len <= len ∧
  (b_max_length b = 0 ∨ b_length b + accepted b len <= b_max_length b).
Proof. intros []. unfold accepted. bcase; lia. Qed.

Lemma buffer_clear_wf b : buffer_wf b → buffer_wf (buffer_clear b).
Proof. intros []. split; simpl; auto. lia. Qed.

Lemma buffer_clear_contents b : contents (buffer_clear b) = [].
Proof. done. Qed.
#[export] Hint Resolve contents_bytes buffer_clear_wf : buf.

Lemma buffer_create_spec e max_length :
  0 <= max_length < 2 ^ 64 →
  wp e (buffer_create max_length) (λ r,
    match r with
    | Some b => buffer_wf b ∧ contents b = [] ∧ b_max_length b = max_length ∧
        b_capacity b = if max_length =? 0 then INIT_BUFFER_SIZE
                       else Z.min max_length INIT_BUFFER_SIZE
    | None => e = Hostile
    end).
Proof.
  intros Hm. unfold buffer_create, INIT_BUFFER_SIZE.
  match goal with |- context [malloc ?c] => set (cap := c) end.
  assert (0 < cap ∧ cap <= 128 ∧ (max_length = 0 ∨ cap <= max_length) ∧
    cap = if max_length =? 0 then 128 else Z.min max_length 128) as (?&?&?&?).
  { unfold cap. repeat (bcase; simpl); lia. }
  assert (128 < PTRDIFF_MAX) by done.
  wstep. apply wp_malloc_ok; [done|intros [?|?]; [by apply wp_ret|lia]|].
  wstep. apply wp_malloc; [lia|intros [?|?]; [by apply wp_ret|lia]|].
  intros d Hd Hb ?. apply wp_ret. split_and!; try done.
  split; simpl; try done; lia.
Qed.

Lemma buffer_grow_spec e b new_cap (Q : option buffer_t → Prop) :
  buffer_wf b → b_capacity b <= new_cap →
  (b_max_length b = 0 ∨ new_cap <= b_max_length b) →
  (e = Hostile ∨ PTRDIFF_MAX < new_cap → Q None) →
  (∀ b', buffer_wf b' → contents b' = contents b → b_length b' = b_length b →
         b_max_length b' = b_max_length b → b_capacity b' = new_cap → Q (Some b')) →
  wp e (buffer_grow b new_cap) Q.
Proof.
  intros [] Hc Hm HN HS. unfold buffer_grow. wstep.
  apply wp_realloc; [lia|intros; apply wp_ret; auto|].
  intros a Ha Hb ?. apply wp_ret. simpl. apply HS; try done.
  - split; simpl; try done; try lia; [zl|by apply Forall_app].
  - unfold contents. simpl. apply ztake_app_le. lia.
Qed.

Lemma buffer_copy_spec e b src off len :
  buffer_wf b → Forall is_byte src →
  0 <= off → 0 <= len → off + len <= zlen src → b_length b + len <= b_capacity b →
  wp e (buffer_copy b src off len) (λ '(ok, b'),
    ok = true ∧ buffer_wf b' ∧ b_max_length b' = b_max_length b ∧
    b_capacity b' = b_capacity b ∧
    contents b' = contents b ++ ztake len (zdrop off src)).
Proof.
  intros [] Hsrc ? ? Hin Hfit. unfold buffer_copy, PTRDIFF_MAX in *.
  assert (zlen (ztake len (zdrop off src)) = len) as Hlen by zl.
  wstep. eapply wp_opt; [by apply mem_read_Some|].
  wstep. eapply wp_opt; [apply mem_write_Some; lia|].
  apply wp_ret. rewrite szt_small by lia. split_and!; try done.
  - split; simpl; try done; try lia; [zl|].
    repeat apply Forall_app_2; auto with zlist.
  - unfold contents. simpl. rewrite ztake_app_ge by zl. f_equal.
    rewrite ztake_app_exact; [done|]. zl.
Qed.

(** [buffer_append] takes as many bytes as the limit allows and fails only when
    it is full or the allocator refuses. *)
Lemma buffer_append_spec e b src off len :
  buffer_wf b → Forall is_byte src →
  0 <= off → 0 <= len → off + accepted b len <= zlen src →
  len + 1024 <= PTRDIFF_MAX →
  wp e (buffer_append b src off len) (λ '(ok, b'),
    buffer_wf b' ∧ b_max_length b' = b_max_length b ∧ b_capacity b <= b_capacity b' ∧
    if (ok : bool)
    then contents b' = contents b ++ ztake (accepted b len) (zdrop off src) ∧
         (len = 0 ∨ 0 < accepted b len)
    else b' = b ∧ 0 < len ∧ (e = Hostile ∨ accepted b len = 0 ∨
                             PTRDIFF_MAX < b_length b + len + 1024)).
Proof.
  intros Hwf Hsrc Hoff Hlen. destruct (accepted_bounds b len Hwf Hlen) as [Hacc Hmax].
  pose proof Hwf as []. unfold buffer_append, accepted, PTRDIFF_MAX in *.
  intros Hin Hsmall. destruct (Z.eqb_spec len 0) as [->|Hnz].
  { apply wp_ret. split_and!; try done; [|auto]. bcase; [|rewrite Z.min_l by lia];
    by rewrite ztake_0, app_nil_r. }
  destruct (Z.eqb_spec (b_max_length b) 0) as [Hu|Hu].
  - rewrite !(szt_small (b_length b + len)), (szt_small (_ + 1024)) by lia.
    wstep. destruct (Z.ltb_spec (b_capacity b) (b_length b + len)).
    + apply buffer_grow_spec; unfold PTRDIFF_MAX; try done; try lia.
      { intros Hf. apply wp_ret. split_and!; try done; try lia. destruct Hf as [?|?]; auto; lia. }
      intros b' Hb' Hc Hl Hm Hcap. rewrite Hl, szt_small by lia.
      destruct (Z.ltb_spec (b_capacity b') (b_length b + len)); [lia|].
      eapply wp_mono; [apply buffer_copy_spec; auto; lia|].
      intros [ok b''] (-> & ? & ? & ? & ->). rewrite Hc, Hm in *. split_and!; auto; lia.
    + apply wp_ret. rewrite szt_small by lia.
      destruct (Z.ltb_spec (b_capacity b) (b_length b + len)); [lia|].
      eapply wp_mono; [apply buffer_copy_spec; auto; lia|].
      intros [ok b''] (-> & ? & ? & ? & ->). split_and!; auto; lia.
  - rewrite (szt_small (b_length b + len)), (szt_small (b_max_length b - _)) by lia.
    replace (if b_max_length b <? b_length b + len then b_max_length b - b_length b else len)
      with (Z.min len (b_max_length b - b_length b)) by (bcase; lia).
    set (n := Z.min len (b_max_length b - b_length b)) in *.
    destruct (Z.eqb_spec n 0) as [Hn|Hn]; [apply wp_ret; split_and!; auto; lia|].
    rewrite !(szt_small (b_length b + n)), (szt_small (_ + 1024)) by lia.
    wstep. destruct (Z.ltb_spec (b_capacity b) (b_length b + n)).
    + replace (if b_max_length b <? b_length b + n + 1024 then b_max_length b
               else b_length b + n + 1024)
        with (Z.min (b_max_length b) (b_length b + n + 1024)) by (bcase; lia).
      apply buffer_grow_spec; unfold PTRDIFF_MAX; try done; try lia.
      { intros Hf. apply wp_ret. split_and!; try done; try lia. destruct Hf as [?|?]; auto; lia. }
      intros b' Hb' Hc Hl Hm Hcap.
      eapply wp_mono; [apply buffer_copy_spec; auto; lia|].
      intros [ok b''] (-> & ? & ? & ? & ->). rewrite Hc, Hm in *. split_and!; auto; lia.
    + apply wp_ret. eapply wp_mono; [apply buffer_copy_spec; auto; lia|].
      intros [ok b''] (-> & ? & ? & ? & ->). split_and!; auto; lia.
Qed.

Lemma buffer_append_unlimited e b src off len :
  buffer_wf b → b_max_length b = 0 → Forall is_byte src → 0 <= off → 0 <= len →
  off + len <= zlen src → b_length b + len + 1024 <= PTRDIFF_MAX →
  wp e (buffer_append b src off len) (λ '(ok, b'),
    buffer_wf b' ∧ b_max_length b' = 0 ∧
    if (ok : bool) then contents b' = contents b ++ ztake len (zdrop off src) else e = Hostile).
Proof.
  intros Hb Hm **. pose proof Hb as [].
  assert (accepted b len = len) as Ha by (unfold accepted; by rewrite Hm).
  eapply wp_mono; [apply buffer_append_spec; rewrite ?Ha; auto; lia|].
  rewrite Ha, Hm. intros [[] b'] (? & ? & _ & Hr); split_and!; auto; [apply Hr|].
  destruct Hr as (_ & ? & [?|[?|?]]); [done|lia|lia].
Qed.

(** Bytes that fit are appended without the allocator. *)
Lemma buffer_append_fits e b src off len :
  buffer_wf b → Forall is_byte src → 0 <= off → 0 <= len → off + len <= zlen src →
  b_length b + len <= b_capacity b →
  wp e (buffer_append b src off len) (λ '(ok, b'),
    ok = true ∧ buffer_wf b' ∧ b_max_length b' = b_max_length b ∧
    b_capacity b' = b_capacity b ∧ contents b' = contents b ++ ztake len (zdrop off src)).
Proof.
  intros Hwf Hsrc Hoff Hlen Hin Hfit. pose proof Hwf as []. unfold buffer_append, PTRDIFF_MAX in *.
  destruct (Z.eqb_spec len 0) as [->|Hnz].
  { apply wp_ret. by rewrite ztake_0, app_nil_r. }
  rewrite !(szt_small (b_length b + len)) by lia.
  destruct (Z.eqb_spec (b_max_length b) 0).
  - destruct (Z.ltb_spec (b_capacity b) (b_length b + len)); [lia|].
    wsteps. rewrite !(szt_small (b_length b + len)) by lia.
    destruct (Z.ltb_spec (b_capacity b) (b_length b + len)); [lia|].
    by apply buffer_copy_spec.
  - destruct (Z.ltb_spec (b_max_length b) (b_length b + len)); [lia|].
    rewrite (szt_small (b_length b + len)) by lia.
    destruct (Z.eqb_spec len 0); [lia|].
    destruct (Z.ltb_spec (b_capacity b) (b_length b + len)); [lia|].
    wsteps. by apply buffer_copy_spec.
Qed.

Lemma buffer_set_data_spec e b src off len :
  buffer_wf b → Forall is_byte src →
  0 <= off → 0 <= len → off + accepted (buffer_clear b) len <= zlen src →
  len + 1024 <= PTRDIFF_MAX →
  wp e (buffer_set_data b src off len) (λ '(ok, b'),
    buffer_wf b' ∧ b_max_length b' = b_max_length b ∧
    if (ok : bool)
    then contents b' = ztake (accepted (buffer_clear b) len) (zdrop off src)
    else e = Hostile ∧ contents b' = []).
Proof.
  intros Hwf **. unfold buffer_set_data.
  eapply wp_mono; [apply buffer_append_spec; auto with buf; simpl; lia|].
  intros [[] b'] (? & ? & _ & Hr); (split; [done|]; split; [done|]); [apply Hr|].
  destruct Hr as (-> & ? & [?|[Hz|?]]); [by rewrite buffer_clear_contents| |simpl in *; lia].
  unfold accepted in Hz. simpl in Hz. destruct (Z.eqb_spec (b_max_length b) 0); [lia|].
  destruct Hwf. lia.
Qed.

Lemma buffer_remove_data_spec e b n :
  buffer_wf b → 0 <= n <= b_length b →
  wp e (buffer_remove_data b n) (λ b',
    buffer_wf b' ∧ b_max_length b' = b_max_length b ∧
    b_length b' = b_length b - n ∧ b_capacity b' = b_capacity b ∧
    contents b' = zdrop n (contents b)).
Proof.
  intros [] ?. unfold buffer_remove_data, PTRDIFF_MAX in *.
  rewrite !szt_small by lia. wstep.
  eapply wp_opt; [apply mem_read_Some; lia|]. wstep.
  rewrite (ztake_ge (b_capacity b - n)) by zl.
  eapply wp_opt; [apply mem_write_Some; zl|].
  apply wp_ret. rewrite ztake_0. split_and!; try done.
  - split; simpl; try done; try lia; [zl|].
    apply Forall_app_2; auto with zlist.
  - unfold contents; simpl. rewrite ztake_app_le by zl.
    rewrite ztake_zdrop_comm by lia. do 2 f_equal. lia.
Qed.

Lemma buffer_move_spec e src dst :
  buffer_wf src → buffer_wf dst → b_max_length dst = 0 →
  b_length src + 1024 <= PTRDIFF_MAX →
  wp e (buffer_move src dst) (λ '(ok, src', dst'),
    buffer_wf src' ∧ buffer_wf dst' ∧
    b_max_length src' = b_max_length src ∧ b_max_length dst' = 0 ∧
    if (ok : bool) then contents src' = [] ∧ contents dst' = contents src
    else src' = src ∧ e = Hostile).
Proof.
  intros Hs Hd Hm ?. pose proof Hs as [].
  assert (accepted (buffer_clear dst) (b_length src) = b_length src) as Hacc.
  { unfold accepted. simpl. by rewrite Hm. }
  unfold buffer_move. wstep.
  eapply wp_mono; [apply buffer_append_spec; rewrite ?Hacc; auto with buf; simpl; lia|].
  rewrite Hacc. intros [[] dst'] (? & Hm' & _ & Hr); apply wp_ret; simpl in *.
  - destruct Hr as [-> _]. split_and!; auto with buf; congruence.
  - destruct Hr as (-> & ? & [?|[?|?]]); [|lia|lia]. split_and!; auto with buf.
Qed.

Lemma data_copy_loop_spec n i src buf :
  0 <= i → i + Z.of_nat n <= zlen src → i + Z.of_nat n <= zlen buf →
  data_copy_loop n i src buf =
    Some (ztake i buf ++ ztake (Z.of_nat n) (zdrop i src) ++ zdrop (i + Z.of_nat n) buf).
Proof.
  revert i buf. induction n as [|n IH]; intros i buf ? ? ?; cbn [data_copy_loop].
  { rewrite Z.add_0_r. simpl. by rewrite ztake_zdrop. }
  destruct (znth_lt_is_Some src i) as [c Hc]; [lia|]. rewrite Hc. cbn.
  rewrite mem_write_Some by zl. cbn.
  rewrite IH by zl. f_equal. rewrite (zdrop_znth src i c Hc).
  rewrite (ztake_app_ge (i + 1)), (zdrop_app_ge (i + 1 + _)) by zl.
  autorewrite with zlist. rewrite !ztake_cons, zdrop_cons by lia.
  replace (i + 1 - i - 1) with 0 by lia. rewrite ztake_0, <-app_assoc.
  rewrite zdrop_zdrop by lia. simpl. do 3 f_equal; [f_equal; lia|f_equal; lia].
Qed.

(** [data_set_data] copies as much as the fixed array holds. *)
Lemma data_set_data_spec e d src size :
  zlen (d_buffer d) = d_capacity d → 0 <= size →
  Z.min size (d_capacity d) <= zlen src →
  wp e (data_set_data d src size) (λ d',
    d_length d' = Z.min size (d_capacity d) ∧ d_capacity d' = d_capacity d ∧
    zlen (d_buffer d') = d_capacity d' ∧
    ztake (d_length d') (d_buffer d') = ztake (d_length d') src ∧
    (Forall is_byte src → Forall is_byte (d_buffer d) → Forall is_byte (d_buffer d'))).
Proof.
  intros Hd ? Hs. unfold data_set_data.
  replace (if d_capacity d <=? size then d_capacity d else size)
    with (Z.min size (d_capacity d)) by (bcase; lia).
  set (n := Z.min _ _) in *. pose proof (zlen_nonneg (d_buffer d)).
  assert (Z.of_nat (Z.to_nat n) = n) as Hn by lia.
  wstep. eapply wp_opt; [apply data_copy_loop_spec; lia|].
  apply wp_ret. rewrite Hn, ztake_0, zdrop_0, !Z.add_0_l. simpl. split_and!; try done.
  - zl.
  - rewrite ztake_app_exact; [done|]. zl.
  - intros. apply Forall_app_2; auto with zlist.
Qed.

(** ** Unmasking

    RFC 6455, section 5.3: octet [i] is combined with octet [i mod 4] of the
    masking key. *)

Fixpoint xor_mask (key : list Z) (i : Z) (d : list Z) : list Z :=
  match d with
  | [] => []
  | x :: d' => Z.lxor x (default 0 (znth key (i mod 4))) :: xor_mask key (i + 1) d'
  end.

Lemma zlen_xor_mask key i d : zlen (xor_mask key i d) = zlen d.
Proof. revert i. induction d as [|x d IH]; intros i; simpl; [done|]. autorewrite with zlist. by rewrite IH. Qed.

Lemma xor_mask_involutive key i d : xor_mask key i (xor_mask key i d) = d.
Proof.
  revert i. induction d as [|x d IH]; intros i; simpl; [done|].
  by rewrite IH, Z.lxor_assoc, Z.lxor_nilpotent, Z.lxor_0_r.
Qed.

Lemma lxor_byte a b : is_byte a → is_byte b → is_byte (Z.lxor a b).
Proof.
  unfold is_byte. intros Ha Hb.
  assert (0 <= Z.lxor a b) by (apply Z.lxor_nonneg; lia).
  split; [done|]. destruct (Z.eq_dec (Z.lxor a b) 0) as [->|]; [done|].
  change 256 with (2 ^ 8). apply Z.log2_lt_pow2; [lia|].
  pose proof (Z.log2_lxor a b ltac:(lia) ltac:(lia)).
  assert (∀ c, 0 <= c < 256 → Z.log2 c < 8) as Hlog.
  { intros c ?. destruct (Z.eq_dec c 0) as [->|]; [done|]. apply Z.log2_lt_pow2; lia. }
  pose proof (Hlog a Ha). pose proof (Hlog b Hb). lia.
Qed.

Lemma xor_mask_bytes key i d :
  Forall is_byte key → Forall is_byte d → Forall is_byte (xor_mask key i d).
Proof.
  intros Hk Hd. revert i. induction Hd as [|x d Hx Hd IH]; intros i; simpl; constructor; [|done].
  apply lxor_byte; [done|]. destruct (znth key _) as [k|] eqn:E; simpl; [|by split].
  exact (Forall_znth _ _ _ _ Hk E).
Qed.
#[export] Hint Resolve xor_mask_bytes : buf.

Lemma xor_mask_step key i i' d : i mod 4 = i' mod 4 → xor_mask key i d = xor_mask key i' d.
Proof.
  revert i i'. induction d as [|x d IH]; intros i i' Hi; simpl; [done|].
  rewrite Hi. f_equal. apply IH. by rewrite <-Zplus_mod_idemp_l, Hi, Zplus_mod_idemp_l.
Qed.

(** The loop with the cycling index computes the reference. *)
Lemma unmask_loop_spec data mask index :
  4 <= zlen mask → 0 <= index < 4 →
  unmask_loop data mask index = Some (xor_mask mask index data).
Proof.
  intros Hm. revert index. induction data as [|x data IH]; intros index Hi; simpl; [done|].
  rewrite Z.mod_small by lia.
  destruct (znth_lt_is_Some mask index) as [k Hk]; [lia|]. rewrite Hk. simpl.
  destruct (Z.eqb_spec (index + 1) 4) as [E|E]; rewrite IH by lia; simpl; [|done].
  do 2 f_equal. apply xor_mask_step. by rewrite E.
Qed.

Lemma unmask_spec data len mask :
  0 <= len <= zlen data → 4 <= zlen mask →
  unmask data len mask = Some (xor_mask mask 0 (ztake len data) ++ zdrop len data).
Proof.
  intros. unfold unmask. rewrite mem_read_Some, zdrop_0 by lia. simpl.
  rewrite unmask_loop_spec by lia. simpl.
  rewrite mem_write_Some by (rewrite ?zlen_xor_mask; zl).
  rewrite zlen_xor_mask, ztake_0, Z.add_0_l. by rewrite zlen_ztake by lia.
Qed.

Lemma xor_mask_app key i d1 d2 :
  xor_mask key i (d1 ++ d2) = xor_mask key i d1 ++ xor_mask key (i + zlen d1) d2.
Proof.
  revert i. induction d1 as [|x d1 IH]; intros i; simpl; [by rewrite zlen_nil, Z.add_0_r|].
  rewrite IH. autorewrite with zlist. do 3 f_equal. lia.
Qed.

Lemma xor_mask_key_app key rest i d : zlen key = 4 → xor_mask (key ++ rest) i d = xor_mask key i d.
Proof.
  intros Hk. revert i. induction d as [|x d IH]; intros i; simpl; [done|].
  rewrite IH, znth_app_l; [done|]. rewrite Hk. apply Z.mod_pos_bound. lia.
Qed.

(** ** Reading past the source

    When the source object is shorter than what the buffer accepts, the
    [memcpy] runs past it, whatever the allocator does short of failing. *)

Lemma buffer_copy_overread b src off len t :
  0 <= off → zlen src < off + len → buffer_copy b src off len t = None.
Proof. intros. unfold buffer_copy. apply bind_ub. by rewrite mem_read_None by lia. Qed.

Lemma buffer_grow_benign b new_cap :
  buffer_wf b → b_capacity b <= new_cap <= PTRDIFF_MAX →
  (b_max_length b = 0 ∨ new_cap <= b_max_length b) →
  ∃ b', buffer_grow b new_cap [] = Some (Some b', []) ∧ b_length b' = b_length b ∧
    b_capacity b' = new_cap.
Proof.
  intros Hwf ? ?.
  assert (wp Benign (buffer_grow b new_cap) (λ r, ∃ b', r = Some b' ∧
    b_length b' = b_length b ∧ b_capacity b' = new_cap)) as Hg.
  { apply buffer_grow_spec; auto; [lia|intros [?|?]; [done|lia]|]. eauto 10. }
  destruct Hg as (r & E & b' & -> & ? & ?). eauto.
Qed.

Lemma buffer_append_overread b src off len :
  buffer_wf b → 0 <= off → 0 < accepted b len → zlen src < off + accepted b len →
  b_length b + len + 1024 <= PTRDIFF_MAX →
  buffer_append b src off len [] = None.
Proof.
  intros Hwf Hoff Hpos Hover Hsmall.
  assert (0 <= len) as Hlen.
  { revert Hpos. unfold accepted. bcase; lia. }
  destruct (accepted_bounds b len Hwf Hlen) as [Hacc Hmax].
  pose proof Hwf as []. unfold buffer_append, PTRDIFF_MAX in *.
  destruct (Z.eqb_spec len 0) as [?|Hnz]; [lia|].
  unfold accepted in *. destruct (Z.eqb_spec (b_max_length b) 0) as [Hu|Hu].
  - rewrite (szt_small (b_length b + len)), (szt_small (_ + 1024)) by lia.
    destruct (Z.ltb_spec (b_capacity b) (b_length b + len)).
    + destruct (buffer_grow_benign b (b_length b + len + 1024)) as (b' & E & Hl & Hc);
        unfold PTRDIFF_MAX; auto; [lia|].
      unfold mbind, M_bind. rewrite E, Hl, Hc, szt_small by lia.
      destruct (Z.ltb_spec (b_length b + len + 1024) (b_length b + len)); [lia|].
      by apply buffer_copy_overread.
    + unfold mbind, M_bind, mret, M_ret. rewrite szt_small by lia.
      destruct (Z.ltb_spec (b_capacity b) (b_length b + len)); [lia|].
      by apply buffer_copy_overread.
  - rewrite (szt_small (b_length b + len)), (szt_small (b_max_length b - _)) by lia.
    replace (if b_max_length b <? b_length b + len then b_max_length b - b_length b else len)
      with (Z.min len (b_max_length b - b_length b)) by (bcase; lia).
    set (n := Z.min len (b_max_length b - b_length b)) in *.
    destruct (Z.eqb_spec n 0) as [?|?]; [lia|].
    rewrite (szt_small (b_length b + n)), (szt_small (_ + 1024)) by lia.
    destruct (Z.ltb_spec (b_capacity b) (b_length b + n)).
    + replace (if b_max_length b <? b_length b + n + 1024 then b_max_length b
               else b_length b + n + 1024)
        with (Z.min (b_max_length b) (b_length b + n + 1024)) by (bcase; lia).
      destruct (buffer_grow_benign b (Z.min (b_max_length b) (b_length b + n + 1024)))
        as (b' & E & _); unfold PTRDIFF_MAX; auto; [lia|lia|].
      unfold mbind, M_bind. rewrite E. by apply buffer_copy_overread.
    + unfold mbind, M_bind, mret, M_ret. by apply buffer_copy_overread.
Qed.
