(* ===== verification/Config.v ===== *)
(** * The configuration: [parseconfig.c]

    [config_parse] walks the tokens that libyaml's scanner yields for the file
    and fills a [jsconf_t].  The scanner and [fnmatch] are not part of the
    program: the tokens are an argument, [fnmatch] a parameter. *)

From S2P Require Import Prelude CString.

(** syslog priorities *)
Definition LOG_EMERG : Z := 0.
Definition LOG_ALERT : Z := 1.
Definition LOG_CRIT : Z := 2.
Definition LOG_ERR : Z := 3.
Definition LOG_WARNING : Z := 4.
Definition LOG_NOTICE : Z := 5.
Definition LOG_INFO : Z := 6.
Definition LOG_DEBUG : Z := 7.

(** [origin_list] is the linked list of patterns, head first; a null [char *]
    is [None]. *)
Record jsconf_t := Jsconf {
  port : option (list Z);
  origin_list : list (list Z);
  cidr : option (list Z);
  host : option (list Z);
  resource : option (list Z);
  log_level : Z;
  max_message_size : Z;
  max_frame_size : Z }.

Definition config_zero : jsconf_t := Jsconf None [] None None None LOG_ERR 0 0.

Definition config_create : M (option jsconf_t) :=
  ok ← malloc_ok 64; mret (if (ok : bool) then Some config_zero else None).

(** [sz_tolower] of [util.c], on a string of its own. *)
Definition sz_tolower (s : list Z) : list Z := lower_char <$> s.

(** Scanner tokens; [OTHER] stands for every token type the switch does not
    name, the error token and the end of the scanner's output included. *)
Inductive yaml_token :=
  | STREAM_START | STREAM_END | KEY | VALUE
  | BLOCK_SEQUENCE_START | BLOCK_ENTRY | BLOCK_END | BLOCK_MAPPING_START
  | SCALAR (value : list Z)
  | OTHER.

Definition is_KEY (t : yaml_token) : bool := if t is KEY then true else false.
Definition is_VALUE (t : yaml_token) : bool := if t is VALUE then true else false.
Definition is_BLOCK_ENTRY (t : yaml_token) : bool := if t is BLOCK_ENTRY then true else false.

(** [strcmp(a, s) == 0] for an array and a constant: the comparison stops at the
    first difference. *)
Fixpoint strcmp_arr (a s : list Z) : option bool :=
  match s, a with
  | [], c :: _ => Some (c =? 0)
  | d :: s', c :: a' => if c =? d then strcmp_arr a' s' else Some false
  | _, [] => None
  end.

Definition set_port v c := Jsconf (Some v) (origin_list c) (cidr c) (host c) (resource c) (log_level c) (max_message_size c) (max_frame_size c).
Definition set_origin_list v c := Jsconf (port c) v (cidr c) (host c) (resource c) (log_level c) (max_message_size c) (max_frame_size c).
Definition set_cidr v c := Jsconf (port c) (origin_list c) (Some v) (host c) (resource c) (log_level c) (max_message_size c) (max_frame_size c).
Definition set_host v c := Jsconf (port c) (origin_list c) (cidr c) (Some v) (resource c) (log_level c) (max_message_size c) (max_frame_size c).
Definition set_resource v c := Jsconf (port c) (origin_list c) (cidr c) (host c) (Some v) (log_level c) (max_message_size c) (max_frame_size c).
Definition set_log_level v c := Jsconf (port c) (origin_list c) (cidr c) (host c) (resource c) v (max_message_size c) (max_frame_size c).
Definition set_max_message_size v c := Jsconf (port c) (origin_list c) (cidr c) (host c) (resource c) (log_level c) v (max_frame_size c).
Definition set_max_frame_size v c := Jsconf (port c) (origin_list c) (cidr c) (host c) (resource c) (log_level c) (max_message_size c) v.

Definition log_level_table : list (list Z * Z) :=
  [(bs "LOG_EMERG", LOG_EMERG); (bs "LOG_ALERT", LOG_ALERT); (bs "LOG_CRIT", LOG_CRIT);
   (bs "LOG_ERR", LOG_ERR); (bs "LOG_WARNING", LOG_WARNING); (bs "LOG_NOTICE", LOG_NOTICE);
   (bs "LOG_INFO", LOG_INFO); (bs "LOG_DEBUG", LOG_DEBUG)].

Definition config_log_level (value : list Z) (c : jsconf_t) : jsconf_t :=
  match list_find (λ '(name, _), strcmp_eq value name = true) log_level_table with
  | Some (_, (_, l)) => set_log_level l c
  | None => c
  end.

(** A string-valued key: [strdup] and assign; out of memory leaves the old
    value (the [break] leaves the switch). *)
Definition config_string (set : list Z → jsconf_t → jsconf_t) (value : list Z)
    (c : jsconf_t) : M jsconf_t :=
  v ← strdup value; mret (match v with Some v => set v c | None => c end).

(** The chain of comparisons on the key of a top-level scalar. *)
Definition config_scalar (key value : list Z) (c : jsconf_t) : M jsconf_t :=
  b ← opt (strcmp_arr key (bs "port"));
  if (b : bool) then config_string set_port value c else
  b ← opt (strcmp_arr key (bs "listen"));
  if (b : bool) then config_string set_cidr value c else
  b ← opt (strcmp_arr key (bs "host"));
  if (b : bool) then config_string set_host value c else
  b ← opt (strcmp_arr key (bs "resource"));
  if (b : bool) then config_string set_resource value c else
  b ← opt (strcmp_arr key (bs "log_level"));
  if (b : bool) then mret (config_log_level value c) else
  b ← opt (strcmp_arr key (bs "max_message_size"));
  if (b : bool) then (v ← opt (atoi value); mret (set_max_message_size v c)) else
  b ← opt (strcmp_arr key (bs "max_frame_size"));
  if (b : bool) then (v ← opt (atoi value); mret (set_max_frame_size v c)) else
  mret c.

(** A block sequence entry under "origin": the new pattern goes to the head of
    the list.  The [strdup] is not checked before [sz_tolower] reads it. *)
Definition config_origin (value : list Z) (c : jsconf_t) : M (option jsconf_t) :=
  ok ← malloc_ok 16;
  if (ok : bool) then
    v ← strdup value;
    match v with
    | Some url => mret (Some (set_origin_list (sz_tolower url :: origin_list c) c))
    | None => ub
    end
  else mret None.

(** The locals of the scanning loop. *)
Record scan_state := Scan {
  sc_key : list Z; sc_prev : yaml_token; sc_level : Z; sc_conf : jsconf_t }.

(** The [YAML_SCALAR_TOKEN] case; [None] is the jump to [Exit]. *)
Definition config_on_scalar (value : list Z) (s : scan_state) : M (option scan_state) :=
  key ← (if is_KEY (sc_prev s) then opt (strncpy (sc_key s) 0 value 128) else mret (sc_key s));
  isorigin ← (if is_BLOCK_ENTRY (sc_prev s) && (sc_level s =? 2)
              then opt (strcmp_arr key (bs "origin")) else mret false);
  r ← (if (isorigin : bool) then config_origin value (sc_conf s) else mret (Some (sc_conf s)));
  match r with
  | None => mret None
  | Some c =>
      c ← (if is_VALUE (sc_prev s) && (sc_level s =? 1)
           then config_scalar key value c else mret c);
      mret (Some (Scan key (sc_prev s) (sc_level s) c))
  end.

Definition scan_set_prev (t : yaml_token) (s : scan_state) : scan_state :=
  Scan (sc_key s) t (sc_level s) (sc_conf s).
(** [level++] and [level--] on an [int]. *)
Definition scan_add_level (n : Z) (s : scan_state) : option scan_state :=
  level ← int_op (sc_level s + n); Some (Scan (sc_key s) (sc_prev s) level (sc_conf s)).

(** One pass of the loop body: [None] jumps to [Exit] with failure. *)
Definition config_token (t : yaml_token) (s : scan_state) : M (option scan_state) :=
  r ← match t with
      | BLOCK_SEQUENCE_START | BLOCK_MAPPING_START => (s ← opt (scan_add_level 1 s); mret (Some s))
      | BLOCK_END => (s ← opt (scan_add_level (-1) s); mret (Some s))
      | SCALAR value => config_on_scalar value s
      | OTHER => mret None
      | _ => mret (Some s)
      end;
  mret (scan_set_prev t <$> r).

(** The [do ... while] loop.  It returns the configuration object, which keeps
    what was parsed before a failure, and the result code. *)
Fixpoint config_loop (tokens : list yaml_token) (s : scan_state) : M (bool * jsconf_t) :=
  match tokens with
  | [] => mret (false, sc_conf s)
  | t :: tokens' =>
      r ← config_token t s;
      match r with
      | None => mret (false, sc_conf s)
      | Some s' => if t is STREAM_END then mret (true, sc_conf s') else config_loop tokens' s'
      end
  end.

(** [file]: the scanner's tokens, [None] when the file cannot be opened. *)
Definition config_parse (c : jsconf_t) (file : option (list yaml_token)) : M (bool * jsconf_t) :=
  match file with
  | None => mret (false, c)
  | Some tokens =>
      ok ← malloc_ok 480;
      if (ok : bool) then
        key ← local_array 128;
        config_loop tokens (Scan key OTHER 0 c)
      else mret (false, c)
  end.

Section origin.
Variable fnmatch : list Z → list Z → bool.

Fixpoint origin_loop (l : list (list Z)) (origin : list Z) : bool :=
  match l with
  | [] => false
  | url :: l' => if fnmatch url origin then true else origin_loop l' origin
  end.

Definition config_check_origin (c : jsconf_t) (origin : list Z) : bool :=
  match origin_list c with
  | [] => true
  | l => origin_loop l origin
  end.
End origin.
