(* ===== verification/ConfigProps.v ===== *)
(** * The configuration: properties

    A configuration document is a mapping from keys to scalars and block
    sequences of scalars.  [doc_tokens] is the token sequence YAML's scanner
    produces for it (block sequences indented below their key). *)

From S2P Require Import Prelude CString Config.

Inductive entry :=
  | EScalar (key value : list Z)
  | ESeq (key : list Z) (items : list (list Z))
  (** a sequence that is not indented: no token opens or closes it *)
  | EFlatSeq (key : list Z) (items : list (list Z)).

Definition item_tokens (items : list (list Z)) : list yaml_token :=
  items ≫= λ v, [BLOCK_ENTRY; SCALAR v].

Definition entry_tokens (en : entry) : list yaml_token :=
  match en with
  | EScalar k v => [KEY; SCALAR k; VALUE; SCALAR v]
  | ESeq k items =>
      [KEY; SCALAR k; VALUE; BLOCK_SEQUENCE_START] ++ item_tokens items ++ [BLOCK_END]
  | EFlatSeq k items => [KEY; SCALAR k; VALUE] ++ item_tokens items
  end.

Definition doc_tokens (doc : list entry) : list yaml_token :=
  [STREAM_START; BLOCK_MAPPING_START] ++ (doc ≫= entry_tokens) ++ [BLOCK_END; STREAM_END].

(** What an entry means; [None]: a number out of the range of [int]. *)
Definition spec_scalar (k v : list Z) (c : jsconf_t) : option jsconf_t :=
  if bool_decide (k = bs "port") then Some (set_port v c)
  else if bool_decide (k = bs "listen") then Some (set_cidr v c)
  else if bool_decide (k = bs "host") then Some (set_host v c)
  else if bool_decide (k = bs "resource") then Some (set_resource v c)
  else if bool_decide (k = bs "log_level") then Some (config_log_level v c)
  else if bool_decide (k = bs "max_message_size") then (n ← atoi v; Some (set_max_message_size n c))
  else if bool_decide (k = bs "max_frame_size") then (n ← atoi v; Some (set_max_frame_size n c))
  else Some c.

Definition spec_entry (en : entry) (c : jsconf_t) : option jsconf_t :=
  match en with
  | EScalar k v => spec_scalar k v c
  | ESeq k items =>
      Some (if bool_decide (k = bs "origin")
            then set_origin_list (reverse (sz_tolower <$> items) ++ origin_list c) c else c)
  | EFlatSeq _ _ => Some c
  end.

Fixpoint spec_doc (doc : list entry) (c : jsconf_t) : option jsconf_t :=
  match doc with
  | [] => Some c
  | en :: doc' => c' ← spec_entry en c; spec_doc doc' c'
  end.

(** Scalars are terminated strings of reasonable size. *)
Definition scalar_ok (v : list Z) : Prop := cstring v ∧ zlen v < 2 ^ 62.
Definition entry_ok (en : entry) : Prop :=
  match en with
  | EScalar k v => scalar_ok k ∧ scalar_ok v
  | ESeq k items | EFlatSeq k items => scalar_ok k ∧ Forall scalar_ok items
  end.

(** ** Keys *)

(** The array [key] after [strncpy]. *)
Definition key_array (k : list Z) : list Z := ztake 128 k ++ replicate (Z.to_nat (128 - zlen k)) 0.

Lemma strncpy_key old k : zlen old = 128 → strncpy old 0 k 128 = Some (key_array k).
Proof.
  intros Ho. unfold strncpy. fold (key_array k).
  assert (zlen (key_array k) = 128) as Hz.
  { unfold key_array. pose proof (zlen_nonneg k). rewrite zlen_app, zlen_ztake_min by lia.
    unfold zlen in *. rewrite length_replicate. lia. }
  rewrite mem_write_Some by lia. rewrite Hz, ztake_0, zdrop_ge by lia. by rewrite app_nil_r.
Qed.

Lemma zlen_key_array k : zlen (key_array k) = 128.
Proof.
  unfold key_array. pose proof (zlen_nonneg k). rewrite zlen_app, zlen_ztake_min by lia.
  unfold zlen in *. rewrite length_replicate. lia.
Qed.

Lemma strcmp_arr_prefix k s rest :
  cstring k → cstring s → zlen s < zlen k ∨ (∃ r, rest = 0 :: r) →
  strcmp_arr (k ++ rest) s = Some (bool_decide (k = s)).
Proof.
  intros Hk. revert s. induction Hk as [|c k Hc Hk IH]; intros s Hs Hr.
  - destruct Hr as [Hr|[r ->]]; [rewrite zlen_nil in Hr; pose proof (zlen_nonneg s); lia|].
    destruct Hs as [|d s Hd Hs]; [done|]. cbn [strcmp_arr app]. unfold is_char in Hd.
    destruct (Z.eqb_spec 0 d); [lia|]. by rewrite bool_decide_eq_false_2.
  - destruct Hs as [|d s Hd Hs]; cbn [strcmp_arr app].
    + unfold is_char in Hc. destruct (Z.eqb_spec c 0); [lia|]. by rewrite bool_decide_eq_false_2.
    + destruct (Z.eqb_spec c d) as [->|Hne].
      * rewrite IH; [|done|rewrite !zlen_cons in Hr; destruct Hr; [left; lia|by right]].
        f_equal. apply bool_decide_ext. split; [by intros ->|by intros [= ->]].
      * rewrite bool_decide_eq_false_2; [done|]. by intros [= ? _].
Qed.

(** A key of any length compares as a string with a name of less than 128
    characters: the first 128 decide. *)
Lemma strcmp_key k s : cstring k → cstring s → zlen s < 128 →
  strcmp_arr (key_array k) s = Some (bool_decide (k = s)).
Proof.
  intros Hk Hs Hl. unfold key_array. destruct (Z.lt_ge_cases (zlen k) 128).
  - rewrite ztake_ge by lia. apply strcmp_arr_prefix; [done|done|]. right.
    replace (Z.to_nat (128 - zlen k)) with (S (Z.to_nat (127 - zlen k))) by lia. by eexists.
  - rewrite strcmp_arr_prefix; [|by apply cstring_take|done|left; rewrite zlen_ztake; lia].
    f_equal. apply bool_decide_ext. split; intros <-; [|lia].
    rewrite zlen_ztake in Hl by lia. lia.
Qed.

(** ** The scanner loop *)

Section parse.
Context (e : env) (He : e ≠ Hostile).

Lemma wp_strdup_ok s (Q : option (list Z) → Prop) :
  scalar_ok s → Q (Some s) → wp e (strdup s) Q.
Proof using He. intros [_ ?] HQ. apply wp_strdup; [done|unfold PTRDIFF_MAX; lia|done]. Qed.

Lemma config_scalar_spec k v c c' :
  cstring k → scalar_ok v → spec_scalar k v c = Some c' →
  wp e (config_scalar (key_array k) v c) (λ r, r = c').
Proof using He.
  intros Hk Hv Hs. unfold config_scalar, spec_scalar in *.
  assert (∀ s, cstring s → zlen s < 128 → strcmp_arr (key_array k) s = Some (bool_decide (k = s)))
    as Hcmp by (intros; by apply strcmp_key).
  assert (∀ set, wp e (config_string set v c) (λ r, r = set v c)) as Hstr.
  { intros set. unfold config_string. wstep. apply wp_strdup_ok; [done|]. by apply wp_ret. }
  repeat (wstep; eapply wp_opt; [apply Hcmp; [unfold cstring; decided|done]|]; cbv beta;
    match type of Hs with (if ?b then _ else _) = _ => destruct b end;
    [first [injection Hs as <-; apply Hstr
           |injection Hs as <-; by apply wp_ret
           |destruct (atoi v); [|done]; simpl in Hs; simplify_eq; wstep;
            eapply wp_opt; [done|]; by apply wp_ret]|]).
  simplify_eq. by apply wp_ret.
Qed.

(** One token that is neither the end of the stream nor unexpected. *)
Lemma config_loop_step t rest s Q :
  t ≠ STREAM_END →
  wp e (config_token t s) (λ r, ∃ s', r = Some s' ∧ wp e (config_loop rest s') Q) →
  wp e (config_loop (t :: rest) s) Q.
Proof using Type.
  intros Ht Hw. cbn [config_loop]. wstep. eapply wp_mono; [exact Hw|].
  intros r (s' & -> & Hw'). by destruct t.
Qed.

Ltac token := apply config_loop_step; [done|]; unfold config_token; wstep.

(** A token that opens or closes a block. *)
Lemma wp_add_level n s (Q : option scan_state → Prop) :
  INT_MIN <= sc_level s + n <= INT_MAX →
  Q (Some (Scan (sc_key s) (sc_prev s) (sc_level s + n) (sc_conf s))) →
  wp e (s ← opt (scan_add_level n s); mret (Some s)) Q.
Proof using Type.
  intros Hn HQ. unfold scan_add_level. rewrite int_op_small by done. wstep. eapply wp_opt; [done|]. by apply wp_ret.
Qed.


Lemma config_items key items rest s Q :
  sc_key s = key_array key → cstring key → Forall scalar_ok items →
  (∀ s', sc_key s' = sc_key s → sc_level s' = sc_level s →
    sc_conf s' = (if bool_decide (key = bs "origin") && (sc_level s =? 2)
                  then set_origin_list (reverse (sz_tolower <$> items) ++ origin_list (sc_conf s)) (sc_conf s)
                  else sc_conf s) →
    wp e (config_loop rest s') Q) →
  wp e (config_loop (item_tokens items ++ rest) s) Q.
Proof using He.
  intros Hk Hkey Hi. revert s Hk. induction Hi as [|v items Hv Hi IH]; intros s Hk HQ.
  { apply HQ; [done|done|]. simpl. by destruct (_ && _), (sc_conf s). }
  change (item_tokens (v :: items) ++ rest)
    with (BLOCK_ENTRY :: SCALAR v :: (item_tokens items ++ rest)). token. apply wp_ret. apply wp_ret. eexists. split; [done|]. cbn [sc_key sc_prev sc_level sc_conf scan_set_prev].
  token. unfold config_on_scalar. cbn [sc_key sc_prev sc_level sc_conf scan_set_prev is_KEY is_VALUE is_BLOCK_ENTRY andb].
  wstep. apply wp_ret. wstep.
  assert (∀ c', c' = (if bool_decide (key = bs "origin") && (sc_level s =? 2)
                  then set_origin_list (sz_tolower v :: origin_list (sc_conf s)) (sc_conf s)
                  else sc_conf s) →
    wp e (config_loop (item_tokens items ++ rest) (Scan (sc_key s) (SCALAR v) (sc_level s) c')) Q) as Hrest.
  { intros c' ->. apply IH; [done|]. cbn [sc_key sc_level sc_conf]. intros s' Hk' Hl' Hc'. apply HQ; auto.
    rewrite Hc'. destruct (_ && _); [|done]. simpl. by rewrite reverse_cons, <-app_assoc. }
  destruct (Z.eqb_spec (sc_level s) 2) as [E|E]; cbn [andb].
  - rewrite Hk. eapply wp_opt; [apply strcmp_key; [done|unfold cstring; decided|done]|]. wstep.
    rewrite andb_true_r in Hrest. destruct (bool_decide _).
    + unfold config_origin. wstep. apply wp_malloc_ok; [done|by intros [?|?]|]. wstep.
      apply wp_strdup_ok; [done|]. apply wp_ret. wstep. apply wp_ret. apply wp_ret. apply wp_ret.
      eexists. split; [done|]. rewrite <-Hk. by apply Hrest.
    + apply wp_ret. wstep. apply wp_ret. apply wp_ret. apply wp_ret.
      eexists. split; [done|]. rewrite <-Hk. by apply Hrest.
  - apply wp_ret. wstep. apply wp_ret. wstep. apply wp_ret. apply wp_ret. apply wp_ret.
    eexists. split; [done|]. apply Hrest. by rewrite andb_false_r.
Qed.

(** [KEY SCALAR k VALUE] *)
Lemma config_key k rest s Q :
  zlen (sc_key s) = 128 → sc_level s = 1 →
  wp e (config_loop rest (Scan (key_array k) VALUE 1 (sc_conf s))) Q →
  wp e (config_loop (KEY :: SCALAR k :: VALUE :: rest) s) Q.
Proof using Type.
  intros Hz Hl Hw. token. apply wp_ret. apply wp_ret. eexists. split; [done|].
  token. unfold config_on_scalar. cbn [sc_key sc_prev sc_level sc_conf scan_set_prev is_KEY is_VALUE is_BLOCK_ENTRY andb].
  wstep. rewrite strncpy_key by done. eapply wp_opt; [done|]. wstep. apply wp_ret. wstep. apply wp_ret.
  wstep. apply wp_ret. apply wp_ret. apply wp_ret. eexists. split; [done|].
  token. apply wp_ret. apply wp_ret. eexists. split; [done|].
  unfold scan_set_prev. simpl. by rewrite Hl.
Qed.

Lemma config_entry en rest s c' Q :
  zlen (sc_key s) = 128 → sc_level s = 1 → entry_ok en → spec_entry en (sc_conf s) = Some c' →
  (∀ s', zlen (sc_key s') = 128 → sc_level s' = 1 → sc_conf s' = c' → wp e (config_loop rest s') Q) →
  wp e (config_loop (entry_tokens en ++ rest) s) Q.
Proof using He.
  intros Hz Hl Hok Hs HQ. destruct en as [k v|k items|k items]; simpl in Hok, Hs;
    destruct Hok as [[Hk _] Hok]; cbn [entry_tokens app].
  - apply config_key; [done|done|]. token. unfold config_on_scalar.
    cbn [sc_key sc_prev sc_level sc_conf is_KEY is_VALUE is_BLOCK_ENTRY andb].
    wstep. apply wp_ret. wstep. apply wp_ret. wstep. apply wp_ret. wstep.
    change (1 =? 1) with true. cbv iota.
    eapply wp_mono; [by apply (config_scalar_spec k v _ c')|]. intros r ->.
    apply wp_ret. apply wp_ret. eexists. split; [done|].
    apply HQ; [by apply zlen_key_array|done|done].
  - apply config_key; [done|done|]. rewrite <-app_assoc. token. apply wp_add_level; [done|]. apply wp_ret.
    eexists. split; [done|].
    apply (config_items k); [done|done|done|]. intros s' Hk' Hl' Hc'.
    cbn [sc_key sc_level sc_conf scan_set_prev] in *.
    token. apply wp_add_level; [by rewrite Hl'|]. apply wp_ret. eexists. split; [done|].
    apply HQ; simpl; [by rewrite Hk', zlen_key_array|by rewrite Hl'|].
    rewrite Hc'. simpl. rewrite andb_true_r. simplify_eq. by destruct (bool_decide _).
  - apply config_key; [done|done|]. apply (config_items k); [done|done|done|].
    intros s' Hk' Hl' Hc'. simpl in *. apply HQ; [by rewrite Hk', zlen_key_array|by rewrite Hl'|].
    rewrite Hc', andb_false_r. by simplify_eq.
Qed.

Lemma config_entries doc rest s c' Q :
  zlen (sc_key s) = 128 → sc_level s = 1 → Forall entry_ok doc →
  spec_doc doc (sc_conf s) = Some c' →
  (∀ s', zlen (sc_key s') = 128 → sc_level s' = 1 → sc_conf s' = c' → wp e (config_loop rest s') Q) →
  wp e (config_loop ((doc ≫= entry_tokens) ++ rest) s) Q.
Proof using He.
  intros Hz Hl Hok. revert s Hz Hl. induction Hok as [|en doc Hen _ IH]; intros s Hz Hl Hs HQ.
  { simpl in *. simplify_eq. by apply HQ. }
  simpl in Hs. destruct (spec_entry en (sc_conf s)) as [c1|] eqn:E; [|done]. simpl in Hs.
  cbn [mbind list_bind]. rewrite <-app_assoc. eapply config_entry; [done|done|done|exact E|].
  intros s' Hz' Hl' Hc'. apply IH; [done|done|by rewrite Hc'|done].
Qed.
End parse.

Lemma config_parse_spec e doc c c' :
  e ≠ Hostile → Forall entry_ok doc → spec_doc doc c = Some c' →
  wp e (config_parse c (Some (doc_tokens doc))) (λ r, r = (true, c')).
Proof.
  intros He Hok Hs. unfold config_parse, doc_tokens. wstep.
  apply wp_malloc_ok; [done|by intros [?|?]|]. wstep. apply wp_local_array; [done|].
  intros key Hk _. cbn [app]. apply config_loop_step; [done|]. unfold config_token. wstep.
  apply wp_ret. apply wp_ret. eexists. split; [done|].
  apply config_loop_step; [done|]. unfold config_token. wstep. apply wp_add_level; [done|]. apply wp_ret.
  eexists. split; [done|]. apply (config_entries e He doc _ _ c'); [done|done|done|done|].
  intros s' Hz Hl Hc. apply config_loop_step; [done|]. unfold config_token. wstep.
  apply wp_add_level; [by rewrite Hl|]. apply wp_ret. eexists. split; [done|].
  cbn [config_loop]. wstep. unfold config_token. wstep. apply wp_ret. apply wp_ret. simpl.
  apply wp_ret. by rewrite Hc.
Qed.

(** C29: the configuration file.  For every document made of keys with scalars and
    sequences, in any order and with keys of any length, [config_parse] succeeds
    and yields the assignments of its entries in their order: unknown keys are
    ignored, the last value of a key wins, origins are lower-cased.  Allocations succeed. *)
Theorem config_parse_correct e doc c c' :
  e ≠ Hostile → Forall entry_ok doc → spec_doc doc c = Some c' →
  wp e (config_parse c (Some (doc_tokens doc))) (λ r, r = (true, c')).
Proof. apply config_parse_spec. Qed.

Definition sample_config : list entry :=
  [EScalar (bs "port") (bs "5000"); EScalar (bs "listen") (bs "0.0.0.0");
   ESeq (bs "origin") [bs "http://A.com"; bs "http://b.com"];
   EScalar (bs "max_frame_size") (bs "64"); EScalar (bs "log_level") (bs "LOG_DEBUG")].

Lemma config_parse_correct_witness :
  wp Garbage (config_parse config_zero (Some (doc_tokens sample_config))) (λ r,
    r = (true, Jsconf (Some (bs "5000")) [bs "http://b.com"; bs "http://a.com"]
                 (Some (bs "0.0.0.0")) None None LOG_DEBUG 0 64)).
Proof.
  apply (config_parse_correct Garbage sample_config); [done| |done].
  each; simpl; unfold scalar_ok, cstring; split_and!; try done; each; try done; try decided;
    split; try done; decided.
Defined.

(** ** Any sequence of tokens *)

(** The scanner's strings fit in memory. *)
Definition token_ok (t : yaml_token) : Prop := if t is SCALAR v then scalar_ok v else True.

Definition number_keys : list (list Z) := [bs "max_message_size"; bs "max_frame_size"].

(** The numbers of a document fit an [int]: the value of a key that names a number, and
    any value that comes before a key ([key]: the last key, [prev] the last token). *)
Fixpoint numbers_fit (key : option (list Z)) (prev : yaml_token) (level : Z) (tokens : list yaml_token) : Prop :=
  match tokens with
  | [] | STREAM_END :: _ | OTHER :: _ => True
  | SCALAR v :: tokens =>
      let key := if is_KEY prev then Some v else key in
      (is_VALUE prev = true → level = 1 → (∀ k, key = Some k → k ∈ number_keys) → is_Some (atoi v)) ∧
      numbers_fit key (SCALAR v) level tokens
  | t :: tokens =>
      let change := match t with BLOCK_SEQUENCE_START | BLOCK_MAPPING_START => 1 | BLOCK_END => -1 | _ => 0 end in
      numbers_fit key t (level + change) tokens
  end.

(** The file is accepted when the end of the stream comes before a token that the switch
    does not name. *)
Fixpoint accepted_tokens (tokens : list yaml_token) : bool :=
  match tokens with
  | STREAM_END :: _ => true
  | [] | OTHER :: _ => false
  | _ :: tokens => accepted_tokens tokens
  end.

Lemma strcmp_arr_total a s : zlen s < zlen a → is_Some (strcmp_arr a s).
Proof.
  revert a. induction s as [|d s IH]; intros [|c a]; rewrite ?zlen_cons, ?zlen_nil; zlen_pos; [lia|by eexists|lia|].
  intros Hl. cbn [strcmp_arr]. destruct (c =? d); [|by eexists]. apply IH. lia.
Qed.

(** What the array [key] is known to hold. *)
Definition key_is (key : option (list Z)) (a : list Z) : Prop :=
  zlen a = 128 ∧ ∀ k, key = Some k → cstring k ∧ a = key_array k.

Lemma key_is_number key a name : key_is key a → name ∈ number_keys → strcmp_arr a name = Some true →
  ∀ k, key = Some k → k ∈ number_keys.
Proof.
  intros [_ Hk] Hn E k Hkey. destruct (Hk _ Hkey) as [Hc ->].
  assert (cstring name ∧ zlen name < 128) as [? ?].
  { unfold number_keys in Hn. rewrite !elem_of_cons, elem_of_nil in Hn. destruct Hn as [->|[->|[]]]; split; try done;
      unfold cstring; decided. }
  rewrite strcmp_key in E by done. injection E as E. apply bool_decide_eq_true in E. by subst.
Qed.

Section total.
Context (e : env) (He : e ≠ Hostile).

Lemma config_scalar_total key a v c : key_is key a → scalar_ok v →
  ((∀ k, key = Some k → k ∈ number_keys) → is_Some (atoi v)) →
  wp e (config_scalar a v c) (λ _, True).
Proof using He.
  intros Hk Hv Hn. pose proof Hk as [Hz _]. unfold config_scalar.
  assert (∀ set, wp e (config_string set v c) (λ _, True)) as Hstr.
  { intros set. unfold config_string. wstep. apply wp_strdup_ok; [done..|]. by apply wp_ret. }
  repeat (wstep; apply wp_opt'; [apply strcmp_arr_total; rewrite Hz; done|]; intros [] ?;
    [first [apply Hstr|by apply wp_ret
           |wstep; apply wp_opt'; [apply Hn; eapply key_is_number; [done| |eassumption]; set_solver|]; intros n _; by apply wp_ret]|]).
  by apply wp_ret.
Qed.

(** A scalar, whatever comes before it. *)
Lemma config_on_scalar_total key v s : key_is key (sc_key s) → scalar_ok v →
  (is_VALUE (sc_prev s) = true → sc_level s = 1 →
     (∀ k, (if is_KEY (sc_prev s) then Some v else key) = Some k → k ∈ number_keys) → is_Some (atoi v)) →
  wp e (config_on_scalar v s) (λ r, ∃ s', r = Some s' ∧
    key_is (if is_KEY (sc_prev s) then Some v else key) (sc_key s') ∧ sc_level s' = sc_level s).
Proof using He.
  intros Hk Hv Hn. unfold config_on_scalar. wstep. set (key' := if is_KEY _ then _ else _) in *.
  apply (wp_mono _ _ (key_is key')).
  { unfold key'. destruct (is_KEY _); [|by apply wp_ret]. destruct Hk as [Hz _]. rewrite strncpy_key by done.
    eapply wp_opt; [done|]. split; [apply zlen_key_array|]. intros k [= <-]. split; [apply Hv|done]. }
  intros a Ha. pose proof Ha as [Hz _]. wstep. apply (wp_mono _ _ (λ _, True)).
  { destruct (_ && _); [|by apply wp_ret]. apply wp_opt'; [apply strcmp_arr_total; by rewrite Hz|done]. }
  intros isorigin _. wstep. apply (wp_mono _ _ is_Some).
  { destruct isorigin; [|apply wp_ret; by eexists]. unfold config_origin. wstep.
    apply wp_malloc_ok; [done|by intros [?|?]|]. wstep. apply wp_strdup_ok; [done..|]. apply wp_ret. by eexists. }
  intros r [c ->]. wstep. apply (wp_mono _ _ (λ _, True)).
  { destruct (is_VALUE (sc_prev s) && (sc_level s =? 1)) eqn:E; [|by apply wp_ret].
    apply andb_true_iff in E as [? ?%Z.eqb_eq]. apply (config_scalar_total key'); auto. }
  intros c' _. apply wp_ret. eexists. by split.
Qed.

Lemma config_loop_total tokens key s : key_is key (sc_key s) → Forall token_ok tokens →
  numbers_fit key (sc_prev s) (sc_level s) tokens → INT_MIN + zlen tokens <= sc_level s <= INT_MAX - zlen tokens →
  wp e (config_loop tokens s) (λ '(ok, _), ok = accepted_tokens tokens).
Proof using He.
  intros Hk Hts. revert key s Hk. induction Hts as [|t tokens Ht _ IH]; intros key s Hk Hn Hl; cbn [config_loop]; [by apply wp_ret|].
  rewrite zlen_cons in Hl. pose proof (zlen_nonneg tokens).
  assert (∀ s', key_is key (sc_key s') → sc_level s - 1 <= sc_level s' <= sc_level s + 1 →
    numbers_fit key t (sc_level s') tokens →
    wp e (config_loop tokens (scan_set_prev t s')) (λ '(ok, _), ok = accepted_tokens tokens)) as Hgo.
  { intros s' Hk' Hl' Hn'. apply (IH key); [done|exact Hn'|cbn; lia]. }
  wstep. unfold config_token. wstep.
  destruct t as [| | | | | | | |v|]; cbn [numbers_fit accepted_tokens] in *; rewrite ?Z.add_0_r in Hn;
    try (apply wp_ret; apply wp_ret; first [by apply wp_ret|apply Hgo; [done|lia|done]]);
    try (apply wp_add_level; [lia|]; apply wp_ret; apply Hgo; [done|cbn; lia|done]).
  destruct Hn as [Hnum Hn]. eapply wp_mono; [by apply (config_on_scalar_total key)|].
  intros r (s' & -> & Hk' & Hl'). apply wp_ret. eapply IH; [exact Hk'|cbn; by rewrite Hl'|cbn; lia].
Qed.
End total.

(** C30: [config_parse] on any tokens, at most [INT_MAX] of them, in any order and nesting,
    with scalars in places where none belong, provided that allocations succeed, that
    scalars hold no null character and are shorter than 2^62 bytes ([token_ok]), and that the
    values of [max_message_size] and [max_frame_size], and values in the place of one that no
    key precedes, are numbers that fit an [int] ([numbers_fit]): it always returns, with no access outside its array, and it reports success exactly when the
    end of the stream comes before an unexpected token. *)
Theorem config_parse_total e c file :
  e ≠ Hostile →
  from_option (λ tokens, Forall token_ok tokens ∧ numbers_fit None OTHER 0 tokens ∧ zlen tokens <= INT_MAX) True file →
  wp e (config_parse c file) (λ '(ok, _), ok = from_option accepted_tokens false file).
Proof.
  intros He Hf. unfold config_parse. destruct file as [tokens|]; [|by apply wp_ret]. destruct Hf as (Hts & Hn & Hl). wstep.
  apply wp_malloc_ok; [done|by intros [?|?]|]. wstep. apply wp_local_array; [done|]. intros key Hk _.
  apply (config_loop_total e He tokens None); [by split|done|done|]. cbn [sc_level]. unfold INT_MIN, INT_MAX in *. lia.
Qed.

(** The first value is no number of an [int], but no key asks for one. *)
Definition odd_tokens : list yaml_token :=
  [SCALAR (bs "99999999999"); BLOCK_END; BLOCK_ENTRY; BLOCK_SEQUENCE_START; KEY; KEY; SCALAR (bs "7"); VALUE; SCALAR (bs "-3");
   BLOCK_MAPPING_START; KEY; SCALAR (bs "max_frame_size"); VALUE; SCALAR (bs "64"); STREAM_END; OTHER].

Lemma config_parse_total_witness :
  wp Garbage (config_parse config_zero (Some odd_tokens)) (λ '(ok, _), ok = true).
Proof.
  apply (config_parse_total Garbage config_zero (Some odd_tokens)); [done|]. split; [|split; [|done]].
  - each; first [done|split; [unfold cstring; decided|done]].
  - cbn -[number_keys atoi]. split_and!; try done; intros; by eexists.
Defined.

(** A list of origins that is not indented below its key, which YAML allows, is
    read without an error and ignored: the origin list stays empty and every
    origin is accepted. *)
Theorem config_flat_origins_ignored e fnmatch items origin :
  e ≠ Hostile → Forall scalar_ok items →
  wp e (config_parse config_zero (Some (doc_tokens [EFlatSeq (bs "origin") items]))) (λ '(ok, c),
    ok = true ∧ origin_list c = [] ∧ config_check_origin fnmatch c origin = true).
Proof.
  intros He Hi. eapply wp_mono.
  { apply (config_parse_spec e [EFlatSeq (bs "origin") items] config_zero config_zero);
      [done| |done]. each. split; [|done]. split; [unfold cstring; decided|done]. }
  by intros r ->.
Qed.

Lemma config_flat_origins_ignored_witness :
  wp Benign (config_parse config_zero
      (Some (doc_tokens [EFlatSeq (bs "origin") [bs "http://firstdomain.com"]]))) (λ '(ok, c),
    ok = true ∧ origin_list c = [] ∧
    config_check_origin (λ _ _, false) c (bs "http://evil.example") = true).
Proof.
  apply (config_flat_origins_ignored Benign (λ _ _, false)); [done|].
  each. split; [unfold cstring; decided|done].
Defined.

(** C33: with a list of origins, [config_check_origin] accepts exactly the origins
    that [fnmatch] matches with one of the patterns, as with the names of files; without a
    list, it accepts every origin.  (The comment on [origin_t.url] calls the patterns
    regular expressions; the manual calls them file patterns.) *)
Theorem config_check_origin_correct fnmatch c origin :
  config_check_origin fnmatch c origin = true ↔
  origin_list c = [] ∨ ∃ url, url ∈ origin_list c ∧ fnmatch url origin = true.
Proof.
  unfold config_check_origin. destruct (origin_list c) as [|u l]; [by split; [left|]|].
  assert (∀ l, origin_loop fnmatch l origin = true ↔ ∃ url, url ∈ l ∧ fnmatch url origin = true) as H.
  { clear. induction l as [|u l IH]; simpl.
    - split; [done|]. intros (url & Hu & _). by apply elem_of_nil in Hu.
    - destruct (fnmatch u origin) eqn:E.
      + split; [|done]. intros _. exists u. split; [apply elem_of_cons; by left|done].
      + rewrite IH. split; intros (url & Hu & Hf); exists url; (split; [|done]).
        * apply elem_of_cons. by right.
        * apply elem_of_cons in Hu as [->|?]; [congruence|done]. }
  rewrite H. split; [by right|by intros [?|?]].
Qed.
