(* ===== verification/RqParser.v ===== *)
(** * The HTTP upgrade request: [rqparser.c]

    [rq_add_line] takes the request line by line, [rq_analyze] decides on the
    handshake and writes the HTTP response. *)

From S2P Require Import Prelude CString Str Base64 Config.

Definition LINE_BUFFER_SIZE : Z := 4096.

Inductive rq_state_t := ST_START | ST_HEADER | ST_ERROR.

(** The string members of [request_t], named as there, each in an array of its
    own inside the object. *)
Inductive rq_field :=
  | method_str | resource_str | protocol_str | host_str | upgrade_str | connection_str
  | ws_key_str | ws_protocol_str | ws_version_str | origin_str.
#[export] Instance rq_field_eq_dec : EqDecision rq_field.
Proof. solve_decision. Defined.

Definition field_size (f : rq_field) : Z :=
  match f with
  | method_str | protocol_str => 16
  | resource_str | host_str | origin_str => 256
  | upgrade_str | connection_str | ws_key_str | ws_protocol_str => 64
  | ws_version_str => 32
  end.

Definition rq_fields : list rq_field :=
  [method_str; resource_str; protocol_str; host_str; upgrade_str; connection_str; ws_key_str;
   ws_protocol_str; ws_version_str; origin_str].

(** [rq_protocols] is the list from [protocols_head] on. *)
Record request_t := Request {
  rq_state : rq_state_t;
  rq_line : list Z;
  rq_length : Z;
  rq_done : bool;
  rq_is_error : bool;
  rq_str : rq_field → str_t;
  rq_error_code : Z;
  rq_protocols : list str_t;
  rq_protocol_count : Z;
  fl_upgrade_found : bool;
  fl_connection_found : bool }.

Definition set_field (f : rq_field) (s : str_t) (m : rq_field → str_t) : rq_field → str_t :=
  λ g, if decide (g = f) then s else m g.

Definition rq_set_state st h := Request st (rq_line h) (rq_length h) (rq_done h) (rq_is_error h) (rq_str h) (rq_error_code h) (rq_protocols h) (rq_protocol_count h) (fl_upgrade_found h) (fl_connection_found h).
Definition rq_set_line l h := Request (rq_state h) l (rq_length h) (rq_done h) (rq_is_error h) (rq_str h) (rq_error_code h) (rq_protocols h) (rq_protocol_count h) (fl_upgrade_found h) (fl_connection_found h).
Definition rq_set_done h := Request (rq_state h) (rq_line h) (rq_length h) true (rq_is_error h) (rq_str h) (rq_error_code h) (rq_protocols h) (rq_protocol_count h) (fl_upgrade_found h) (fl_connection_found h).
Definition rq_set_error h := Request (rq_state h) (rq_line h) (rq_length h) (rq_done h) true (rq_str h) (rq_error_code h) (rq_protocols h) (rq_protocol_count h) (fl_upgrade_found h) (fl_connection_found h).
Definition rq_set_str f s h := Request (rq_state h) (rq_line h) (rq_length h) (rq_done h) (rq_is_error h) (set_field f s (rq_str h)) (rq_error_code h) (rq_protocols h) (rq_protocol_count h) (fl_upgrade_found h) (fl_connection_found h).
(** [protocol_count] is an [int]. *)
Definition rq_push_protocol p h : option request_t :=
  count ← int_op (rq_protocol_count h + 1);
  Some (Request (rq_state h) (rq_line h) (rq_length h) (rq_done h) (rq_is_error h) (rq_str h) (rq_error_code h)
    (p :: rq_protocols h) count (fl_upgrade_found h) (fl_connection_found h)).
Definition rq_set_upgrade h := Request (rq_state h) (rq_line h) (rq_length h) (rq_done h) (rq_is_error h) (rq_str h) (rq_error_code h) (rq_protocols h) (rq_protocol_count h) true (fl_connection_found h).
Definition rq_set_connection h := Request (rq_state h) (rq_line h) (rq_length h) (rq_done h) (rq_is_error h) (rq_str h) (rq_error_code h) (rq_protocols h) (rq_protocol_count h) (fl_upgrade_found h) true.

(** ** Creation *)

(** [str_init] on each member; the arrays are parts of the fresh object. *)
Fixpoint init_fields (fs : list rq_field) (m : rq_field → str_t) : M (rq_field → str_t) :=
  match fs with
  | [] => mret m
  | f :: fs' =>
      b ← local_array (field_size f);
      s ← opt (str_init b (field_size f));
      init_fields fs' (set_field f s m)
  end.

Definition rq_create : M (option request_t) :=
  ok ← malloc_ok 1248;
  if (ok : bool) then
    r ← malloc LINE_BUFFER_SIZE;
    match r with
    | None => mret None
    | Some line =>
        m ← init_fields rq_fields (λ _, Str [] 0 0);
        mret (Some (Request ST_START line 0 false false m 0 [] 0 false false))
    end
  else mret None.

Fixpoint clear_fields (fs : list rq_field) (m : rq_field → str_t) : option (rq_field → str_t) :=
  match fs with
  | [] => Some m
  | f :: fs' => s ← str_clear (m f); clear_fields fs' (set_field f s m)
  end.

Definition rq_clear (h : request_t) : option request_t :=
  m ← clear_fields rq_fields (rq_str h);
  Some (Request ST_START (rq_line h) 0 false false m 0 [] 0 false false).

(** ** The request line *)

Definition rq_set_string (f : rq_field) (text : list Z) (h : request_t) : option request_t :=
  s ← str_set_string (rq_str h f) text []; Some (rq_set_str f s h).

Definition SPACE_TAB : list Z := [32; 9].

(** The result code and the object; the copy of the line is tokenized in
    place by [strtok]. *)
Definition parse_request_line (h : request_t) (line : list Z) : M (bool * request_t) :=
  r ← strdup line;
  match r with
  | None => mret (false, h)
  | Some l =>
      '(method, save, copy) ← opt (strtok_r (l ++ [0]) 0 SPACE_TAB);
      match method with
      | None => mret (false, h)
      | Some p =>
          text ← opt (cstr copy p);
          h ← opt (rq_set_string method_str text h);
          '(resource, save, copy) ← opt (strtok_r copy save SPACE_TAB);
          match resource with
          | None => mret (false, h)
          | Some p =>
              rtext ← opt (cstr copy p);
              h ← opt (rq_set_string resource_str rtext h);
              '(protocol, save, copy) ← opt (strtok_r copy save SPACE_TAB);
              match protocol with
              | None => mret (false, h)
              | Some _ =>
                  rtext ← opt (cstr copy p);
                  h ← opt (rq_set_string protocol_str rtext h);
                  mret (true, h)
              end
          end
      end
  end.

(** ** Header lines *)

Definition COMMA : list Z := [44].

(** The loop of [_get_protocols]: [strtok_r] works on the array of
    [ws_protocol_str] itself.  Every token takes at least one character, so a
    fuel of the size of the array is enough. *)
Fixpoint get_protocols_loop (fuel : nat) (pos : Z) (token_nows : str_t) (h : request_t)
    : M request_t :=
  match fuel with
  | O => ub
  | S fuel' =>
      let s := rq_str h ws_protocol_str in
      '(token, save, buf) ← opt (strtok_r (s_buffer s) pos COMMA);
      let h := rq_set_str ws_protocol_str (Str buf (s_length s) (s_capacity s)) h in
      match token with
      | None => mret h
      | Some p =>
          text ← opt (cstr buf p);
          token_nows ← opt (str_trim_whitespace token_nows text);
          ok ← malloc_ok 48;
          if (ok : bool) then
            el_buffer ← local_array 16;
            el_str ← opt (str_init el_buffer 16);
            el_str ← opt (str_copy_string el_str token_nows);
            h ← opt (rq_push_protocol el_str h);
            get_protocols_loop fuel' save token_nows h
          else get_protocols_loop fuel' save token_nows h
      end
  end.

Definition get_protocols (h : request_t) : M request_t :=
  b ← local_array 16;
  token_nows ← opt (str_init b 16);
  get_protocols_loop (S (Z.to_nat (field_size ws_protocol_str))) 0 token_nows h.

(** The loop of [_find_connection_upgrade].  When no token matches, the
    function ends without a [return] although its caller uses the value. *)
Fixpoint find_upgrade_loop (fuel : nat) (buf : list Z) (pos : Z) (token_nows : str_t) : M bool :=
  match fuel with
  | O => ub
  | S fuel' =>
      '(token, save, buf) ← opt (strtok_r buf pos COMMA);
      match token with
      | None => ub
      | Some p =>
          text ← opt (cstr buf p);
          token_nows ← opt (str_trim_whitespace token_nows text);
          eq ← opt (str_is_equal_nocase token_nows (bs "Upgrade"));
          if (eq : bool) then mret true else find_upgrade_loop fuel' buf save token_nows
      end
  end.

Definition find_connection_upgrade (h : request_t) : M bool :=
  b ← local_array 64;
  tmp ← opt (str_init b 64);
  b ← local_array 16;
  token_nows ← opt (str_init b 16);
  tmp ← opt (str_copy_string tmp (rq_str h connection_str));
  find_upgrade_loop 65 (s_buffer tmp) 0 token_nows.

(** [str_trim_beginning(&h->f, value)]; a null [value] is read. *)
Definition rq_trim (f : rq_field) (value : option (list Z)) (h : request_t) : M request_t :=
  v ← opt value;
  s ← opt (str_trim_beginning (rq_str h f) v);
  mret (rq_set_str f s h).

Definition process (h : request_t) (key : list Z) (value : option (list Z)) : M request_t :=
  if strcasecmp_eq key (bs "host") then rq_trim host_str value h
  else if strcasecmp_eq key (bs "upgrade") then
    h ← rq_trim upgrade_str value h;
    eq ← opt (str_is_equal_nocase (rq_str h upgrade_str) (bs "websocket"));
    mret (if (eq : bool) then rq_set_upgrade h else h)
  else if strcasecmp_eq key (bs "connection") then
    h ← rq_trim connection_str value h;
    found ← find_connection_upgrade h;
    mret (if (found : bool) then rq_set_connection h else h)
  else if strcasecmp_eq key (bs "Sec-WebSocket-Key") then rq_trim ws_key_str value h
  else if strcasecmp_eq key (bs "Sec-WebSocket-Protocol") then
    h ← rq_trim ws_protocol_str value h;
    get_protocols h
  else if strcasecmp_eq key (bs "Sec-WebSocket-Version") then rq_trim ws_version_str value h
  else if strcasecmp_eq key (bs "Origin") then
    h ← rq_trim origin_str value h;
    s ← opt (str_tolower (rq_str h origin_str));
    mret (rq_set_str origin_str s h)
  else mret h.

Definition COLON : Z := 58.

(** A complete header line: [h->line] is split at the colon and processed;
    [false]: the function returns after setting the error flag. *)
Definition flush_line (h : request_t) : M (bool * request_t) :=
  line ← opt (cstr (rq_line h) 0);
  match line with
  | [] => mret (true, h)
  | _ :: _ =>
      match strchr line COLON with
      | None => mret (false, rq_set_error h)
      | Some keylen =>
          key ← strdup (ztake keylen line);
          match key with
          | None => mret (false, rq_set_error h)
          | Some key =>
              value ← strdup (zdrop (keylen + 1) line);
              h ← process h key value;
              mret (true, h)
          end
      end
  end.

(** [strncpy] of the line to the end of the text in [h->line]. *)
Definition append_line (h : request_t) (line : list Z) : option request_t :=
  text ← cstr (rq_line h) 0;
  let plen := zlen text in
  let left := LINE_BUFFER_SIZE - plen - 1 in
  l ← strncpy (rq_line h) plen line left;
  Some (rq_set_line l h).

Definition starts_with_space (line : list Z) : bool :=
  match line with c :: _ => isspace (schar c) | [] => false end.

Definition rq_clear_line (h : request_t) : option request_t :=
  l ← mem_write (rq_line h) 0 [0]; Some (rq_set_line l h).

Definition rq_add_line (h : request_t) (line : list Z) : M request_t :=
  match rq_state h with
  | ST_START =>
      '(res, h) ← parse_request_line h line;
      if negb res then mret (rq_set_error h)
      else opt (rq_clear_line (rq_set_state ST_HEADER h))
  | ST_HEADER =>
      let h := match line with [] => rq_set_done h | _ => h end in
      '(go, h) ← (if starts_with_space line then mret (true, h) else flush_line h);
      if negb go then mret h
      else
        match line with
        | [] => mret h
        | _ :: line' =>
            if starts_with_space line then opt (append_line h line')
            else (h ← opt (rq_clear_line h); opt (append_line h line))
        end
  | ST_ERROR => mret h
  end.

(** The accessors. *)
Definition rq_get_host (h : request_t) : option (list Z) := str_get_string (rq_str h host_str).
Definition rq_get_upgrade (h : request_t) : option (list Z) := str_get_string (rq_str h upgrade_str).
Definition rq_get_connection (h : request_t) : option (list Z) := str_get_string (rq_str h connection_str).
Definition rq_get_websocket_key (h : request_t) : option (list Z) := str_get_string (rq_str h ws_key_str).
Definition rq_get_websocket_protocol (h : request_t) : option (list Z) := str_get_string (rq_str h ws_protocol_str).
Definition rq_get_websocket_version (h : request_t) : option (list Z) := str_get_string (rq_str h ws_version_str).
Definition rq_get_origin (h : request_t) : option (list Z) := str_get_string (rq_str h origin_str).
Definition rq_get_protocol_count (h : request_t) : Z := rq_protocol_count h.
Definition rq_get_protocol (h : request_t) (index : Z) : option (option (list Z)) :=
  if (index <? 0) || (rq_protocol_count h <=? index) then Some None
  else (s ← rq_protocols h !! Z.to_nat index; text ← str_get_string s; Some (Some text)).

Fixpoint protocols_contain (l : list str_t) (protocol : list Z) : option bool :=
  match l with
  | [] => Some false
  | x :: l' =>
      text ← str_get_string x;
      if strcmp_eq text protocol then Some true else protocols_contain l' protocol
  end.
Definition rq_protocols_contains (h : request_t) (protocol : list Z) : option bool :=
  protocols_contain (rq_protocols h) protocol.

(** ** The response *)

Definition MAGIC_STRING : list Z := bs "258EAFA5-E914-47DA-95CA-C5AB0DC85B11".

Definition response_405 : list Z := bs "HTTP/1.1 405 Method Not Allowed" ++ CRLF ++ CRLF.
Definition response_403 : list Z := bs "HTTP/1.1 403 Forbidden" ++ CRLF ++ CRLF.
Definition response_400 : list Z := bs "HTTP/1.1 400 Bad Request" ++ CRLF ++ CRLF.
Definition response_404 : list Z := bs "HTTP/1.1 404 Not Found" ++ CRLF ++ CRLF.
Definition response_426 : list Z :=
  bs "HTTP/1.1 426 Upgrade Required" ++ CRLF ++ bs "Sec-WebSocket-Version: 13" ++ CRLF ++ CRLF.
Definition response_101 : list Z :=
  bs "HTTP/1.1 101 Switching Protocols" ++ CRLF ++ bs "Upgrade: websocket" ++ CRLF
    ++ bs "Connection: %s" ++ CRLF ++ bs "Sec-WebSocket-Accept: %s" ++ CRLF
    ++ bs "Sec-WebSocket-Protocol: xmpp" ++ CRLF ++ CRLF.

Section analyze.
(** OpenSSL's [SHA1] and the C library's [fnmatch(pattern, string, 0) == 0]. *)
Variable SHA1 : list Z → list Z.
Variable fnmatch : list Z → list Z → bool.

Definition rq_get_access (challenge : list Z) (response : str_t) : M str_t :=
  buff1 ← local_array 1024;
  buff1 ← opt (snprintf buff1 1024 (bs "%s%s") [challenge; MAGIC_STRING]);
  text ← opt (cstr buff1 0);
  opt (base64_encode (SHA1 text) 20 response).

(** A response without parameters and the result code 0. *)
Definition refuse (response : str_t) (text : list Z) : M (bool * str_t) :=
  s ← opt (str_set_string response text []); mret (false, s).

Definition rq_analyze (h : request_t) (conf : jsconf_t) (response : str_t) : M (bool * str_t) :=
  b ← local_array 64;
  accept_str ← opt (str_init b 64);
  get ← opt (str_is_equal_nocase (rq_str h method_str) (bs "GET"));
  if negb get then refuse response response_405 else
  org ← opt (str_get_string (rq_str h origin_str));
  if negb (config_check_origin fnmatch conf org) then refuse response response_403 else
  xmpp ← opt (rq_protocols_contains h (bs "xmpp"));
  if negb xmpp then refuse response response_400 else
  key ← opt (str_get_string (rq_str h ws_key_str));
  if strcmp_eq key [] then refuse response response_400 else
  hst ← opt (str_get_string (rq_str h host_str));
  if (match host conf with Some c => negb (strcmp_eq c hst) | None => false end)
  then refuse response response_400 else
  if negb (fl_upgrade_found h) then refuse response response_400 else
  if negb (fl_connection_found h) then refuse response response_400 else
  same ← (match resource conf with
          | Some c => opt (str_is_equal_nocase (rq_str h resource_str) c)
          | None => mret true
          end);
  if negb same then refuse response response_404 else
  version ← opt (str_get_string (rq_str h ws_version_str));
  if negb (strcmp_eq version (bs "13")) then refuse response response_426 else
  accept_str ← rq_get_access key accept_str;
  connection ← opt (str_get_string (rq_str h connection_str));
  accept ← opt (str_get_string accept_str);
  s ← opt (str_set_string response response_101 [connection; accept]);
  mret (true, s).
End analyze.
