(* ===== verification/RqSpec.v ===== *)
(** * The request parser, abstractly

    What a request is once the strings, arrays, in-place tokenizing and format
    strings of [rqparser.c] are abstracted away: a record of texts, a list of
    sub-protocols and two flags.  The lemmas show that each operation of the
    parser computes its abstract counterpart when allocations succeed,
    whatever uninitialised memory holds. *)

From S2P Require Import Prelude CString Str Base64 Tokens Config RqParser.

Record areq := Areq {
  q_str : rq_field → list Z;
  q_protocols : list (list Z);
  q_upgrade : bool;
  q_connection : bool }.

Definition q_empty : areq := Areq (λ _, []) [] false false.

(** Text in a field is cut to the size of its array. *)
Definition cut (f : rq_field) (v : list Z) : list Z := ztake (field_size f - 1) v.

Definition q_set (f : rq_field) (v : list Z) (q : areq) : areq :=
  Areq (λ g, if decide (g = f) then v else q_str q g) (q_protocols q) (q_upgrade q)
    (q_connection q).
Definition q_trim (f : rq_field) (value : list Z) : areq → areq := q_set f (cut f (skip_space value)).

(** A list element: white space around it does not count, 15 characters fit. *)
Definition element (t : list Z) : list Z := ztake 15 (trim t).
Definition elements (v : list Z) : list (list Z) := element <$> tokens COMMA v.

Definition q_add_protocols (v : list Z) (q : areq) : areq :=
  Areq (q_str q) (reverse (elements v) ++ q_protocols q) (q_upgrade q) (q_connection q).
Definition q_set_upgrade (b : bool) (q : areq) : areq :=
  Areq (q_str q) (q_protocols q) (if b then true else q_upgrade q) (q_connection q).
Definition q_set_connection (q : areq) : areq :=
  Areq (q_str q) (q_protocols q) (q_upgrade q) true.

Definition has_upgrade (v : list Z) : bool :=
  existsb (λ t, strcasecmp_eq t (bs "Upgrade")) (elements v).

(** The number of protocols is an [int]. *)
Definition countable (v : list Z) (q : areq) : bool := zlen (elements v) + zlen (q_protocols q) <=? INT_MAX.

(** One header; [None] when [_find_connection_upgrade] has no defined result, or
    there are too many protocols to count. *)
Definition spec_process (key value : list Z) (q : areq) : option areq :=
  if strcasecmp_eq key (bs "host") then Some (q_trim host_str value q)
  else if strcasecmp_eq key (bs "upgrade") then
    let q := q_trim upgrade_str value q in
    Some (q_set_upgrade (strcasecmp_eq (q_str q upgrade_str) (bs "websocket")) q)
  else if strcasecmp_eq key (bs "connection") then
    let q := q_trim connection_str value q in
    if has_upgrade (q_str q connection_str) then Some (q_set_connection q) else None
  else if strcasecmp_eq key (bs "Sec-WebSocket-Key") then Some (q_trim ws_key_str value q)
  else if strcasecmp_eq key (bs "Sec-WebSocket-Protocol") then
    let q := q_trim ws_protocol_str value q in
    if countable (q_str q ws_protocol_str) q then Some (q_add_protocols (q_str q ws_protocol_str) q) else None
  else if strcasecmp_eq key (bs "Sec-WebSocket-Version") then Some (q_trim ws_version_str value q)
  else if strcasecmp_eq key (bs "Origin") then
    Some (q_set origin_str (tolower <$> cut origin_str (skip_space value)) q)
  else Some q.

(** The request line: the protocol member gets the resource, too. *)
Definition spec_request_line (line : list Z) (q : areq) : bool * areq :=
  match tokens SPACE_TAB line with
  | [] => (false, q)
  | [m] => (false, q_set method_str (cut method_str m) q)
  | [m; r] => (false, q_set resource_str (cut resource_str r) (q_set method_str (cut method_str m) q))
  | m :: r :: _ =>
      (true, q_set protocol_str (cut protocol_str r)
               (q_set resource_str (cut resource_str r) (q_set method_str (cut method_str m) q)))
  end.

(** The parser between lines: [p_line] is the header line not yet processed. *)
Record aparse := Aparse {
  p_started : bool;
  p_line : list Z;
  p_done : bool;
  p_error : bool;
  p_req : areq }.

Definition p_init : aparse := Aparse false [] false false q_empty.

Definition spec_flush (p : aparse) : option (bool * aparse) :=
  match p_line p with
  | [] => Some (true, p)
  | _ :: _ =>
      match strchr (p_line p) COLON with
      | None => Some (false, Aparse (p_started p) (p_line p) (p_done p) true (p_req p))
      | Some k =>
          q ← spec_process (ztake k (p_line p)) (zdrop (k + 1) (p_line p)) (p_req p);
          Some (true, Aparse (p_started p) (p_line p) (p_done p) (p_error p) q)
      end
  end.

(** [None]: the header line outgrows its array, or [spec_process] is undefined. *)
Definition spec_set_line (l : list Z) (p : aparse) : option aparse :=
  if zlen l <=? LINE_BUFFER_SIZE - 2
  then Some (Aparse (p_started p) l (p_done p) (p_error p) (p_req p)) else None.

Definition spec_add_line (line : list Z) (p : aparse) : option aparse :=
  if p_started p then
    match line with
    | [] =>
        '(_, p) ← spec_flush (Aparse true (p_line p) true (p_error p) (p_req p)); Some p
    | c :: line' =>
        if isspace (schar c) then spec_set_line (p_line p ++ line') p
        else
          '(go, p) ← spec_flush p;
          if (go : bool) then spec_set_line line p else Some p
    end
  else
    let '(ok, q) := spec_request_line line (p_req p) in
    Some (if ok then Aparse true [] (p_done p) (p_error p) q
          else Aparse false (p_line p) (p_done p) true q).

(** ** The relation to the concrete object

    The array of [ws_protocol_str] is left with holes by [strtok_r]: of it only
    the size is known. *)
Record rq_rel (q : areq) (h : request_t) : Prop := {
  rr_raw : ∀ f, str_raw (field_size f) (rq_str h f);
  rr_str : ∀ f, f ≠ ws_protocol_str → str_holds (field_size f) (q_str q f) (rq_str h f);
  rr_protocols : Forall2 (str_holds 16) (q_protocols q) (rq_protocols h);
  rr_count : rq_protocol_count h = zlen (rq_protocols h);
  rr_upgrade : fl_upgrade_found h = q_upgrade q;
  rr_connection : fl_connection_found h = q_connection q }.

(** The parts of the object that processing a header leaves alone. *)
Definition rq_same (h h' : request_t) : Prop :=
  rq_state h' = rq_state h ∧ rq_line h' = rq_line h ∧ rq_done h' = rq_done h ∧
  rq_is_error h' = rq_is_error h.

Lemma rq_same_refl h : rq_same h h.
Proof. done. Qed.
Lemma rq_same_trans h1 h2 h3 : rq_same h1 h2 → rq_same h2 h3 → rq_same h1 h3.
Proof. unfold rq_same. intros (?&?&?&?) (?&?&?&?). split_and!; congruence. Qed.
Create HintDb rq.
#[export] Hint Resolve rq_same_refl rq_same_trans : rq.

Lemma rq_rel_set q h f v s :
  rq_rel q h → str_holds (field_size f) v s → rq_rel (q_set f v q) (rq_set_str f s h).
Proof.
  intros [] Hs. split; simpl; try done.
  - intros g. unfold set_field. destruct (decide (g = f)) as [->|]; [by destruct Hs|done].
  - intros g Hg. unfold set_field. destruct (decide (g = f)) as [->|]; auto.
Qed.

(** The array of the protocols header may change as long as it stays sound. *)
Lemma rq_rel_protocol_array q h s :
  rq_rel q h → str_raw (field_size ws_protocol_str) s → rq_rel q (rq_set_str ws_protocol_str s h).
Proof.
  intros [] Hs. split; simpl; try done.
  - intros f. unfold set_field. destruct (decide (f = ws_protocol_str)) as [->|]; [done|auto].
  - intros f Hf. unfold set_field. destruct (decide (f = ws_protocol_str)); [done|auto].
Qed.

Lemma rq_rel_push q h el p :
  rq_rel q h → str_holds 16 p el → 1 + zlen (q_protocols q) <= INT_MAX →
  ∃ h', rq_push_protocol el h = Some h' ∧ rq_same h h' ∧ rq_str h' = rq_str h ∧
    rq_rel (Areq (q_str q) (p :: q_protocols q) (q_upgrade q) (q_connection q)) h'.
Proof.
  intros [? ? Hps Hc ? ?] Hel Hl. assert (zlen (rq_protocols h) = zlen (q_protocols q)) as E.
  { unfold zlen. by rewrite (Forall2_length Hps). }
  unfold rq_push_protocol. zlen_pos. rewrite int_op_small by (unfold INT_MIN; lia). eexists. split; [done|]. split; [done|].
  split; [done|]. split; simpl; try done; [by constructor|]. rewrite zlen_cons. lia.
Qed.

Lemma no_percent_app s t : no_percent (s ++ t) → no_percent s ∧ no_percent t.
Proof. unfold no_percent. rewrite elem_of_app. tauto. Qed.
Lemma no_percent_take n s : no_percent s → no_percent (ztake n s).
Proof. rewrite <-(ztake_zdrop n s) at 1. by intros [? _]%no_percent_app. Qed.
Lemma no_percent_rtrim s : no_percent s → no_percent (rtrim s).
Proof. destruct (rtrim_prefix s) as [t E]. rewrite E at 1. by intros [? _]%no_percent_app. Qed.
Lemma no_percent_element t : no_percent t → no_percent (element t).
Proof. intros. by apply no_percent_take, no_percent_rtrim, skip_space_no_percent. Qed.

Lemma no_percent_nil : no_percent [].
Proof. unfold no_percent. apply not_elem_of_nil. Qed.
Lemma no_percent_cons c s : no_percent (c :: s) ↔ c ≠ 37 ∧ no_percent s.
Proof. unfold no_percent. rewrite not_elem_of_cons. split; intros [? ?]; split; congruence. Qed.
#[export] Hint Resolve no_percent_nil : rq.

Lemma no_percent_split d s : no_percent s → Forall no_percent (split_on d s).
Proof.
  induction s as [|c s IH]; simpl; intros Hs; [by constructor; auto with rq|].
  apply no_percent_cons in Hs as [Hc Hs]. specialize (IH Hs).
  destruct (mem_char c d); [by constructor; auto with rq|].
  destruct (split_on d s) as [|t ts]; [by constructor; [apply no_percent_cons; auto with rq|]|].
  apply Forall_cons_iff in IH as [Ht Hts]. constructor; [by apply no_percent_cons|done].
Qed.

Lemma no_percent_tokens d s : no_percent s → Forall no_percent (tokens d s).
Proof.
  intros Hs. unfold tokens. apply (no_percent_split d) in Hs.
  induction Hs as [|t ts Ht _ IH]; [constructor|]. rewrite filter_cons. case_decide; auto.
Qed.

(** ** The tokenizing loops *)

Section spec.
Context (e : env) (He : e ≠ Hostile).

Lemma get_protocols_loop_spec fuel pre s rest tn q h :
  s_buffer (rq_str h ws_protocol_str) = pre ++ s ++ 0 :: rest →
  cstring s → no_percent s → (length s < fuel)%nat → str_raw 16 tn → rq_rel q h → countable s q = true →
  wp e (get_protocols_loop fuel (zlen pre) tn h) (λ h',
    rq_rel (q_add_protocols s q) h' ∧ rq_same h h').
Proof.
  revert pre s rest tn q h.
  induction fuel as [|fuel IH]; intros pre s rest tn q h Hbuf Hs Hp Hf Htn Hrel Hn; [lia|].
  pose proof Hrel as [Hraw _ _ _ _ _]. pose proof (Hraw ws_protocol_str) as [Hcap Hbd Hlen Hby].
  cbn [get_protocols_loop]. rewrite Hbuf in Hby |- *.
  pose proof (strtok_r_spec COMMA pre s rest Hs Hby) as Hst.
  pose proof (no_percent_tokens COMMA s Hp) as Hpt.
  apply Z.leb_le in Hn. unfold q_add_protocols, elements in *.
  destruct (tokens COMMA s) as [|tok toks] eqn:Etok.
  - wstep. eapply wp_opt; [exact Hst|]. cbv beta iota. apply wp_ret. rewrite <-Hbuf.
    split; [|done]. destruct q. apply rq_rel_protocol_array; [done|].
    split; simpl; try done. by rewrite Hbuf.
  - destruct Hst as (tq & pre' & s' & E & Hsc & Htoks & Hct & Hcs' & Hzl & Hll & (x & y & Hx & _) & Hby').
    wstep. eapply wp_opt; [exact E|]. cbv beta iota. wstep.
    eapply wp_opt; [by apply (scanned_cstr tq tok pre' s')|].
    destruct (str_trim_whitespace_spec 16 tn tok Htn Hct) as (tn' & Etn & Htn').
    wstep. eapply wp_opt; [exact Etn|]. wstep. apply wp_alloc_ok; [done|done|]. cbv iota.
    wstep. apply wp_local_array; [done|]. intros b Hb Hbb.
    destruct (str_init_spec b 16 Hb ltac:(done) Hbb) as (el & Eel & Hel).
    wstep. eapply wp_opt; [exact Eel|].
    apply Forall_cons_iff in Hpt as [Hpt Hpts].
    destruct (str_copy_string_spec 16 el 16 tn' (element tok)) as (el' & Eel' & Hel');
      [eauto with cstr|by apply str_is_holds|by apply no_percent_element|].
    wstep. eapply wp_opt; [exact Eel'|].
    assert (zlen (pre' ++ s' ++ 0 :: rest) = 64) as Hlen'.
    { change (field_size ws_protocol_str) with 64 in Hlen. rewrite Hbuf in Hlen.
      rewrite !zlen_app in *. lia. }
    rewrite fmap_cons, zlen_cons in Hn. pose proof (zlen_nonneg (element <$> toks)).
    assert (str_holds 16 (element tok) el') as Hel2.
    { pose proof Hel' as [Hh _]. rewrite ztake_ge in Hh; [done|].
      unfold element. rewrite zlen_ztake_min by lia. lia. }
    match goal with |- context [rq_push_protocol el' ?h0] => set (h0' := h0) end.
    destruct (rq_rel_push q h0' el' (element tok)) as (h1 & Eh1 & Hsame & Hstr & Hrel1); [|done|lia|].
    { apply rq_rel_protocol_array; [done|]. by split. }
    wstep. eapply wp_opt; [exact Eh1|].
    assert (no_percent s') as Hps' by (rewrite Hx in Hp; by apply no_percent_app in Hp as [_ ?]).
    set (q1 := Areq (q_str q) (element tok :: q_protocols q) (q_upgrade q) (q_connection q)).
    eapply wp_mono; [apply (IH pre' s' rest tn' q1 h1); try done; [by rewrite Hstr|lia|eauto with cstr|]|].
    + apply Z.leb_le. unfold elements. rewrite Htoks. unfold q1. cbn [q_protocols]. rewrite zlen_cons. lia.
    + intros h' [Hr' Hs']. split; [|by apply (rq_same_trans h h1); [exact Hsame|]]. unfold q_add_protocols, elements in Hr'.
      rewrite Htoks in Hr'. simpl in *. rewrite reverse_cons, <-app_assoc. done.
Qed.

Lemma get_protocols_spec v q h :
  str_holds (field_size ws_protocol_str) v (rq_str h ws_protocol_str) → no_percent v →
  rq_rel q h → countable v q = true →
  wp e (get_protocols h) (λ h', rq_rel (q_add_protocols v q) h' ∧ rq_same h h').
Proof using He.
  intros Hv Hp Hrel Hn. destruct (str_holds_text _ _ _ Hv) as [Hl Hc]. destruct Hv as [_ E].
  apply cstr_inv in E as (rest & E & _). unfold get_protocols. wstep.
  apply wp_local_array; [done|]. intros b Hb Hbb.
  destruct (str_init_spec b 16 Hb ltac:(done) Hbb) as (tn & Etn & Htn).
  wstep. eapply wp_opt; [exact Etn|].
  apply (get_protocols_loop_spec _ [] v rest); try done; [|eauto with cstr].
  simpl field_size in *. unfold zlen in Hl. lia.
Qed.

Lemma find_upgrade_loop_spec fuel pre s rest tn :
  cstring s → Forall is_byte (pre ++ s ++ 0 :: rest) → (length s < fuel)%nat → str_raw 16 tn →
  if has_upgrade s
  then wp e (find_upgrade_loop fuel (pre ++ s ++ 0 :: rest) (zlen pre) tn) (λ r, r = true)
  else ∀ t, find_upgrade_loop fuel (pre ++ s ++ 0 :: rest) (zlen pre) tn t = None.
Proof using Type.
  revert pre s rest tn. induction fuel as [|fuel IH]; intros pre s rest tn Hs Hb Hf Htn; [lia|].
  pose proof (strtok_r_spec COMMA pre s rest Hs Hb) as Hst.
  unfold has_upgrade, elements. cbn [find_upgrade_loop].
  destruct (tokens COMMA s) as [|tok toks] eqn:Etok.
  { simpl. intros t. unfold mbind, M_bind. by rewrite Hst. }
  destruct Hst as (tq & pre' & s' & E & Hsc & Htoks & Hct & Hcs' & _ & Hll & _ & Hby').
  destruct (str_trim_whitespace_spec 16 tn tok Htn Hct) as (tn' & Etn & Htn').
  pose proof (scanned_cstr tq tok pre' s' rest Hct Hsc) as Etok'.
  pose proof (str_is_equal_nocase_spec 16 _ tn' (bs "Upgrade") (str_is_holds _ _ _ Htn')) as Eeq.
  change (ztake (16 - 1) (trim tok)) with (element tok) in Eeq.
  specialize (IH pre' s' rest tn' Hcs' Hby' ltac:(lia) ltac:(eauto with cstr)).
  unfold has_upgrade, elements in IH. rewrite Htoks in IH. simpl.
  destruct (strcasecmp_eq (element tok) (bs "Upgrade")) eqn:Eq; simpl.
  - wstep. eapply wp_opt; [exact E|]. cbv beta iota. wstep. eapply wp_opt; [exact Etok'|].
    wstep. eapply wp_opt; [exact Etn|]. wstep. eapply wp_opt; [exact Eeq|]. by apply wp_ret.
  - destruct (existsb _ _).
    + wstep. eapply wp_opt; [exact E|]. cbv beta iota. wstep. eapply wp_opt; [exact Etok'|].
      wstep. eapply wp_opt; [exact Etn|]. wstep. by eapply wp_opt; [exact Eeq|].
    + intros t. unfold mbind, M_bind, opt. rewrite E. simpl. rewrite Etok'. simpl.
      rewrite Etn. simpl. rewrite Eeq. apply IH.
Qed.

Lemma wp_init_array n (Q : str_t → Prop) :
  0 < n <= 2 ^ 32 → (∀ s, str_is n [] s → Q s) →
  wp e (b ← local_array n; opt (str_init b n)) Q.
Proof using Type.
  intros Hn HQ. wstep. apply wp_local_array; [lia|]. intros b Hb Hbb.
  destruct (str_init_spec b n Hb Hn Hbb) as (s & E & Hs). eapply wp_opt; [exact E|auto].
Qed.

Lemma find_connection_upgrade_spec v h :
  str_holds 64 v (rq_str h connection_str) → no_percent v → has_upgrade v = true →
  wp e (find_connection_upgrade h) (λ r, r = true).
Proof using Type.
  intros Hv Hp Hup. destruct (str_holds_text _ _ _ Hv) as [Hl Hc].
  unfold find_connection_upgrade.
  wstep. apply wp_local_array; [done|]. intros b Hb Hbb.
  destruct (str_init_spec b 64 Hb ltac:(done) Hbb) as (tmp & Etmp & Htmp).
  wstep. eapply wp_opt; [exact Etmp|].
  wstep. apply wp_local_array; [done|]. intros b' Hb' Hbb'.
  destruct (str_init_spec b' 16 Hb' ltac:(done) Hbb') as (tn & Etn & Htn).
  wstep. eapply wp_opt; [exact Etn|].
  destruct (str_copy_string_spec 64 tmp 64 _ v (str_is_raw _ _ _ Htmp) Hv Hp) as (tmp' & E & Htmp').
  wstep. eapply wp_opt; [exact E|]. rewrite ztake_ge in Htmp' by lia.
  destruct Htmp' as [[[_ _ _ Hby] Et] _]. apply cstr_inv in Et as (rest & Et & _).
  rewrite Et in *. pose proof (find_upgrade_loop_spec 65 [] v rest tn Hc Hby
    ltac:(unfold zlen in Hl; lia) ltac:(eauto with cstr)) as Hloop.
  by rewrite Hup in Hloop.
Qed.

(** ** Headers *)

Lemma rq_trim_spec f value q h :
  rq_rel q h → cstring value → no_percent value →
  wp e (rq_trim f (Some value) h) (λ h',
    rq_rel (q_trim f value q) h' ∧ rq_same h h' ∧
    str_is (field_size f) (cut f (skip_space value)) (rq_str h' f)).
Proof using Type.
  intros Hrel Hc Hp. unfold rq_trim. wstep. apply wp_ret.
  destruct (str_trim_beginning_spec (field_size f) (rq_str h f) value) as (s & E & Hs);
    [by destruct Hrel|done|done|].
  wstep. eapply wp_opt; [exact E|]. apply wp_ret. split_and!; [|done|].
  - apply rq_rel_set; [done|by apply str_is_holds].
  - simpl. unfold set_field. by rewrite decide_True.
Qed.

Lemma process_spec key value q q' h :
  rq_rel q h → cstring value → no_percent value → spec_process key value q = Some q' →
  wp e (process h key (Some value)) (λ h', rq_rel q' h' ∧ rq_same h h').
Proof using He.
  intros Hrel Hc Hp Hq. unfold process, spec_process in *.
  assert (∀ f, no_percent (cut f (skip_space value))) as Hpc.
  { intros f. by apply no_percent_take, skip_space_no_percent. }
  assert (∀ f, f ≠ ws_protocol_str → wp e (rq_trim f (Some value) h) (λ h',
    rq_rel (q_trim f value q) h' ∧ rq_same h h')) as Htrim.
  { intros f _. eapply wp_mono; [by apply rq_trim_spec|]. by intros h' (? & ? & _). }
  destruct (strcasecmp_eq key (bs "host")); [simplify_eq; by apply Htrim|].
  destruct (strcasecmp_eq key (bs "upgrade")).
  { simplify_eq. wstep. eapply wp_mono; [by apply (rq_trim_spec upgrade_str)|].
    intros h1 (Hr1 & Hs1 & Ht1). wstep.
    eapply wp_opt; [apply (str_is_equal_nocase_spec _ _ _ _ (str_is_holds _ _ _ Ht1))|].
    apply wp_ret. simpl. destruct (strcasecmp_eq _ _); split; try done; destruct Hr1; by split. }
  destruct (strcasecmp_eq key (bs "connection")).
  { destruct (has_upgrade _) eqn:Hup; [|done]. simplify_eq. simpl in Hup.
    wstep. eapply wp_mono; [by apply (rq_trim_spec connection_str)|].
    intros h1 (Hr1 & Hs1 & Ht1). wstep.
    eapply wp_mono; [apply (find_connection_upgrade_spec _ h1 (str_is_holds _ _ _ Ht1)); auto|].
    intros r ->. apply wp_ret. split; [|done]. destruct Hr1. by split. }
  destruct (strcasecmp_eq key (bs "Sec-WebSocket-Key")); [simplify_eq; by apply Htrim|].
  destruct (strcasecmp_eq key (bs "Sec-WebSocket-Protocol")).
  { destruct (countable _ _) eqn:Hcount; [|done]. simplify_eq. wstep. eapply wp_mono; [by apply (rq_trim_spec ws_protocol_str)|].
    intros h1 (Hr1 & Hs1 & Ht1).
    eapply wp_mono; [apply (get_protocols_spec _ (q_trim ws_protocol_str value q) h1 (str_is_holds _ _ _ Ht1)); auto|].
    intros h2 [? ?]. split; [done|]. by eapply rq_same_trans. }
  destruct (strcasecmp_eq key (bs "Sec-WebSocket-Version")); [simplify_eq; by apply Htrim|].
  destruct (strcasecmp_eq key (bs "Origin")); [|simplify_eq; by apply wp_ret].
  simplify_eq. wstep. eapply wp_mono; [by apply (rq_trim_spec origin_str)|].
  intros h1 (Hr1 & Hs1 & Ht1). destruct (str_tolower_spec _ _ _ Ht1) as (s & E & Hs).
  wstep. eapply wp_opt; [exact E|]. apply wp_ret. split; [|done].
  pose proof (rq_rel_set _ _ origin_str _ s Hr1 (str_is_holds _ _ _ Hs)) as Hr.
  destruct Hr as [Hr2 Hr3 ? ? ? ?]. split; try done. intros f Hf. specialize (Hr3 f Hf).
  simpl in *. by destruct (decide (f = origin_str)).
Qed.

(** ** The request line *)

Lemma rq_set_string_spec f text q h :
  rq_rel q h → cstring text → no_percent text →
  ∃ h', rq_set_string f text h = Some h' ∧ rq_rel (q_set f (cut f text) q) h' ∧ rq_same h h'.
Proof using Type.
  intros Hrel Hc Hp. unfold rq_set_string.
  destruct (str_set_string_spec (field_size f) (rq_str h f) text) as (s & E & Hs);
    [by destruct Hrel|done|done|].
  rewrite E. eexists. split; [done|]. split; [|done].
  apply rq_rel_set; [done|by apply str_is_holds].
Qed.

Lemma parse_request_line_spec line q h :
  rq_rel q h → cstring line → no_percent line → zlen line < 2 ^ 62 →
  wp e (parse_request_line h line) (λ '(ok, h'),
    rq_rel (spec_request_line line q).2 h' ∧ ok = (spec_request_line line q).1 ∧ rq_same h h').
Proof using He.
  intros Hrel Hc Hp Hl. unfold parse_request_line, spec_request_line.
  pose proof (no_percent_tokens SPACE_TAB line Hp) as Hpt.
  wstep. apply wp_strdup; [done|unfold PTRDIFF_MAX; lia|].
  assert (Forall is_byte ([] ++ line ++ 0 :: [])) as Hb.
  { simpl. apply Forall_app. split; [by apply cstring_bytes|by constructor; [|constructor]]. }
  pose proof (strtok_r_spec SPACE_TAB [] line [] Hc Hb) as Hst. simpl in Hst.
  change (zlen (@nil Z)) with 0 in Hst.
  destruct (tokens SPACE_TAB line) as [|m ts].
  { wstep. eapply wp_opt; [exact Hst|]. by apply wp_ret. }
  destruct Hst as (q1 & pre1 & s1 & E1 & Hsc1 & Ht1 & Hcm & Hc1 & _ & _ & _ & Hb1).
  wstep. eapply wp_opt; [exact E1|]. cbv beta iota. wstep.
  eapply wp_opt; [by apply (scanned_cstr q1 m pre1 s1)|].
  apply Forall_cons_iff in Hpt as [Hpm Hpt].
  destruct (rq_set_string_spec method_str m q h Hrel Hcm Hpm) as (h1 & Eh1 & Hr1 & Hs1).
  wstep. eapply wp_opt; [exact Eh1|].
  pose proof (strtok_r_spec SPACE_TAB pre1 s1 [] Hc1 Hb1) as Hst2. rewrite Ht1 in Hst2.
  destruct ts as [|r ts].
  { wstep. eapply wp_opt; [exact Hst2|]. cbv beta iota. by apply wp_ret. }
  destruct Hst2 as (q2 & pre2 & s2 & E2 & Hsc2 & Ht2 & Hcr & Hc2 & _ & _ & _ & Hb2).
  wstep. eapply wp_opt; [exact E2|]. cbv beta iota. wstep.
  eapply wp_opt; [by apply (scanned_cstr q2 r pre2 s2)|].
  apply Forall_cons_iff in Hpt as [Hpr Hpt].
  destruct (rq_set_string_spec resource_str r _ h1 Hr1 Hcr Hpr) as (h2 & Eh2 & Hr2 & Hs2).
  wstep. eapply wp_opt; [exact Eh2|].
  pose proof (strtok_r_spec SPACE_TAB pre2 s2 [] Hc2 Hb2) as Hst3. rewrite Ht2 in Hst3.
  assert (rq_same h h2) by eauto using rq_same_trans.
  destruct ts as [|p ts].
  { wstep. eapply wp_opt; [exact Hst3|]. cbv beta iota. by apply wp_ret. }
  destruct Hst3 as (q3 & pre3 & s3 & E3 & Hsc3 & Ht3 & Hcp & Hc3 & _ & _ & (x & y & _ & Hq3) & Hb3).
  wstep. eapply wp_opt; [exact E3|]. cbv beta iota. wstep.
  assert (cstr (pre3 ++ s3 ++ [0]) (zlen q2) = Some r) as Hagain.
  { destruct Hsc2 as [->|[_ ->]]; [|done]. assert (∃ z, pre3 ++ s3 ++ [0] = q2 ++ r ++ 0 :: z) as [z ->].
    { destruct Hsc3 as [->|[-> ->]]; rewrite Hq3, <-!app_assoc; eexists; simpl; by rewrite <-?app_assoc. }
    by apply cstr_middle. }
  eapply wp_opt; [exact Hagain|].
  destruct (rq_set_string_spec protocol_str r _ h2 Hr2 Hcr Hpr) as (h3 & Eh3 & Hr3 & Hs3).
  wstep. eapply wp_opt; [exact Eh3|]. apply wp_ret. split_and!; [done|done|].
  by eapply rq_same_trans.
Qed.

(** ** Lines *)

Record parse_rel (p : aparse) (h : request_t) : Prop := {
  pr_rel : rq_rel (p_req p) h;
  pr_state : rq_state h = if p_started p then ST_HEADER else ST_START;
  pr_done : rq_done h = p_done p;
  pr_error : rq_is_error h = p_error p;
  pr_line : p_started p = true → cstr (rq_line h) 0 = Some (p_line p);
  pr_length : zlen (rq_line h) = LINE_BUFFER_SIZE;
  pr_bytes : Forall is_byte (rq_line h);
  pr_percent : no_percent (p_line p) }.

Lemma strchr_bounds l c k : strchr l c = Some k → 0 <= k < zlen l.
Proof using Type.
  revert k. induction l as [|d l IH]; intros k; simpl; [done|]. rewrite zlen_cons.
  destruct (d =? c); [intros [= <-]; pose proof (zlen_nonneg l); lia|].
  intros (k' & E & ->)%fmap_Some. specialize (IH _ E). lia.
Qed.

Lemma flush_line_spec p h go p' :
  parse_rel p h → p_started p = true → spec_flush p = Some (go, p') →
  wp e (flush_line h) (λ '(go', h'), go' = go ∧ parse_rel p' h' ∧ p_line p' = p_line p ∧
    p_started p' = true ∧ p_done p' = p_done p).
Proof using He.
  intros Hrel Hst Hf. pose proof Hrel as [Hr Hs Hd He' Hl Hlen Hb Hp]. specialize (Hl Hst).
  unfold flush_line, spec_flush in *. wstep. eapply wp_opt; [exact Hl|].
  destruct (p_line p) as [|c l] eqn:Hline; [simplify_eq; apply wp_ret; by rewrite Hline|].
  rewrite <-Hline in *. pose proof (cstr_cstring _ _ Hb Hl) as Hc.
  pose proof (cstr_len _ _ Hl) as Hll. rewrite Hlen in Hll. unfold LINE_BUFFER_SIZE in *.
  destruct (strchr (p_line p) COLON) as [k|] eqn:Ek.
  - destruct (spec_process _ _ _) as [q|] eqn:Eq; [|done]. simplify_eq/=.
    pose proof (strchr_bounds _ _ _ Ek). wstep.
    apply wp_strdup; [done|unfold PTRDIFF_MAX; rewrite zlen_ztake by lia; lia|]. wstep.
    apply wp_strdup; [done|unfold PTRDIFF_MAX; rewrite zlen_zdrop by lia; lia|]. wstep.
    eapply wp_mono; [apply (process_spec _ _ _ _ _ Hr) with (3 := Eq); [auto with cstr|]|].
    { rewrite <-(ztake_zdrop (k + 1) (p_line p)) in Hp. by apply no_percent_app in Hp as [_ ?]. }
    intros h' (Hr' & Es & El & Ed & Ee). apply wp_ret. split_and!; try done.
    split; simpl; rewrite ?Es, ?El, ?Ed, ?Ee; try done.
  - simplify_eq. apply wp_ret. split_and!; try done. split; try done. by destruct Hr.
Qed.

(** [strncpy] to the end of the pending text: it stays terminated when it fits. *)
Lemma append_line_spec p h line p' :
  parse_rel p h → p_started p = true → cstring line → no_percent line →
  spec_set_line (p_line p ++ line) p = Some p' →
  ∃ h', append_line h line = Some h' ∧ parse_rel p' h'.
Proof using Type.
  intros Hrel Hst Hc Hp Hsp. pose proof Hrel as [Hr Hs Hd He' Hl Hlen Hb Hpp]. specialize (Hl Hst).
  unfold spec_set_line, LINE_BUFFER_SIZE in *. destruct (Z.leb_spec (zlen (p_line p ++ line)) (4096 - 2)); [|done].
  simplify_eq. unfold append_line. rewrite Hl. cbn [mbind option_bind].
  pose proof (cstr_cstring _ _ Hb Hl) as Hpc. apply cstr_inv in Hl as (rest & Hl & _).
  rewrite zlen_app in *. zlen_pos. unfold strncpy. rewrite (ztake_ge _ line) by (unfold LINE_BUFFER_SIZE; lia).
  set (pad := replicate _ 0).
  assert (zlen pad = 4096 - zlen (p_line p) - 1 - zlen line) as Hpad.
  { unfold pad, zlen, LINE_BUFFER_SIZE in *. rewrite length_replicate. lia. }
  assert (mem_write (rq_line h) (zlen (p_line p)) (line ++ pad) = Some _) as Emw
    by (apply mem_write_Some; rewrite ?zlen_app; lia).
  rewrite Emw. cbn [mbind option_bind]. apply mem_write_inv in Emw as (_ & _ & Hlen' & _).
  rewrite Hlen in Hlen'. eexists. split; [done|]. rewrite Hl in Hlen' |- *.
  rewrite ztake_app_exact in Hlen' by done. rewrite ztake_app_exact by done.
  rewrite Hl in Hlen, Hb. rewrite zlen_app, zlen_cons in Hlen.
  destruct pad as [|z pad'] eqn:Epad; [rewrite zlen_nil in Hpad; lia|].
  assert (z = 0) as ->.
  { apply (f_equal (λ l, l !! 0%nat)) in Epad. unfold pad in Epad.
    rewrite lookup_replicate_2 in Epad by (unfold LINE_BUFFER_SIZE; lia). by injection Epad. }
  apply Forall_app in Hb as [Hb1 Hb2].
  split; simpl; try done.
  - by destruct Hr.
  - intros _. rewrite <-!app_assoc. simpl. rewrite app_assoc.
    apply cstr_app. by apply cstring_app.
  - repeat apply Forall_app_2; try done; [by apply cstring_bytes| |].
    + rewrite <-Epad. unfold pad. by apply Forall_replicate.
    + apply Forall_zdrop. apply Forall_app. done.
  - unfold no_percent in *. rewrite elem_of_app. tauto.
Qed.

Lemma clear_line_spec q h :
  rq_rel q h → rq_state h = ST_HEADER → zlen (rq_line h) = LINE_BUFFER_SIZE →
  Forall is_byte (rq_line h) →
  ∃ h', rq_clear_line h = Some h' ∧
    parse_rel (Aparse true [] (rq_done h) (rq_is_error h) q) h'.
Proof using Type.
  intros Hr Hs Hlen Hb. unfold rq_clear_line.
  rewrite mem_write_Some by (rewrite ?Hlen; done). cbn [mbind option_bind].
  eexists. split; [done|]. change (ztake 0 (rq_line h) ++ [0] ++ zdrop (0 + zlen [0]) (rq_line h))
    with (0 :: zdrop 1 (rq_line h)).
  split; simpl; try done; auto with rq.
  - by destruct Hr.
  - rewrite zlen_cons, zlen_zdrop; rewrite Hlen; done.
  - constructor; [by split|auto with zlist].
Qed.

(** One line. *)
Lemma rq_add_line_spec line p h p' :
  parse_rel p h → cstring line → no_percent line → zlen line < 2 ^ 62 →
  spec_add_line line p = Some p' →
  wp e (rq_add_line h line) (parse_rel p').
Proof using He.
  intros Hrel Hc Hp Hl Hsp. pose proof Hrel as [Hr Hs Hd He' Hlin Hlen Hb Hpp].
  unfold rq_add_line, spec_add_line in *. rewrite Hs. destruct (p_started p) eqn:Hst.
  - destruct line as [|c line].
    + destruct (spec_flush _) as [[go p1]|] eqn:Ef; [|done]. simplify_eq/=. wstep.
      assert (parse_rel (Aparse true (p_line p) true (p_error p) (p_req p)) (rq_set_done h)) as Hd'.
      { split; simpl; auto. by destruct Hr. }
      eapply wp_mono; [by apply (flush_line_spec _ _ go p' Hd')|].
      intros [go' h'] (-> & ? & _). by destruct go; apply wp_ret.
    + simpl. apply Forall_cons_iff in Hc as [Hcc Hc].
      apply no_percent_cons in Hp as [Hcp Hp]. destruct (isspace (schar c)) eqn:Hsp'.
      * wstep. apply wp_ret. simpl.
        destruct (append_line_spec p h line p') as (h' & E & ?); try done. by eapply wp_opt.
      * destruct (spec_flush p) as [[go p1]|] eqn:Ef; [|done]. simpl in Hsp. wstep.
        eapply wp_mono; [by apply (flush_line_spec p h go p1)|].
        intros [go' h1] (-> & Hr1 & _ & Hst1 & _). destruct go; simpl; [|simplify_eq; by apply wp_ret].
        pose proof Hr1 as [Hq1 Hs1 Hd1 He1 _ Hlen1 Hb1 _]. rewrite Hst1 in Hs1.
        destruct (clear_line_spec (p_req p1) h1 Hq1 Hs1 Hlen1 Hb1) as (h2 & E2 & Hr2). wstep.
        rewrite Hd1, He1 in Hr2.
        eapply wp_opt; [exact E2|].
        destruct (append_line_spec _ h2 (c :: line) p' Hr2) as (h3 & E3 & Hr3); try done.
        { by constructor. }
        { by apply no_percent_cons. }
        { unfold spec_set_line in *. simpl. by rewrite Hst1 in Hsp. }
        by eapply wp_opt.
  - wstep. eapply wp_mono; [by apply (parse_request_line_spec line (p_req p))|].
    intros [ok h1] (Hr1 & Hok & (Es & El & Ed & Ee)).
    destruct (spec_request_line line (p_req p)) as [ok' q]. simpl in *. subst ok'. simplify_eq.
    destruct ok; simpl.
    + destruct (clear_line_spec q (rq_set_state ST_HEADER h1)) as (h2 & E2 & Hr2); simpl;
        rewrite ?El; try done; [by destruct Hr1; split|].
      eapply wp_opt; [exact E2|]. simpl in Hr2. by rewrite Ed, Ee, Hd, He' in Hr2.
    + apply wp_ret. split; simpl; rewrite ?El, ?Ed, ?Es; try done. by destruct Hr1; split.
Qed.

Fixpoint rq_add_lines (h : request_t) (lines : list (list Z)) : M request_t :=
  match lines with
  | [] => mret h
  | l :: lines' => h ← rq_add_line h l; rq_add_lines h lines'
  end.

Fixpoint spec_add_lines (lines : list (list Z)) (p : aparse) : option aparse :=
  match lines with
  | [] => Some p
  | l :: lines' => p ← spec_add_line l p; spec_add_lines lines' p
  end.

(** What may be said about a line from the network: [evbuffer_readln] yields
    terminated strings. *)
Definition line_ok (line : list Z) : Prop :=
  cstring line ∧ no_percent line ∧ zlen line < 2 ^ 62.

Lemma rq_add_lines_spec lines p h p' :
  parse_rel p h → Forall line_ok lines → spec_add_lines lines p = Some p' →
  wp e (rq_add_lines h lines) (parse_rel p').
Proof using He.
  intros Hrel Hl. revert p h Hrel. induction Hl as [|l lines (? & ? & ?) _ IH]; intros p h Hrel Hs.
  { simpl in Hs. simplify_eq. by apply wp_ret. }
  simpl in Hs. destruct (spec_add_line l p) as [p1|] eqn:E; [|done]. simpl in Hs.
  cbn [rq_add_lines]. wstep. eapply wp_mono; [by apply (rq_add_line_spec l p h p1)|].
  intros h1 Hr1. by apply (IH p1).
Qed.

(** ** Creation *)

Lemma init_fields_spec fs m :
  wp e (init_fields fs m) (λ m',
    (∀ f, f ∈ fs → str_is (field_size f) [] (m' f)) ∧ (∀ f, f ∉ fs → m' f = m f)).
Proof using Type.
  revert m. induction fs as [|f fs IH]; intros m; cbn [init_fields].
  { apply wp_ret. split; [|done]. intros f Hf. by apply elem_of_nil in Hf. }
  assert (0 < field_size f <= 2 ^ 32) as Hf by by destruct f.
  wstep. apply wp_local_array; [lia|]. intros b Hb Hbb.
  destruct (str_init_spec b (field_size f) Hb Hf Hbb) as (s & E & Hs).
  wstep. eapply wp_opt; [exact E|]. eapply wp_mono; [apply IH|].
  intros m' [H1 H2]. split.
  - intros g Hg. destruct (decide (g ∈ fs)) as [Hgf|Hgf]; [auto|].
    apply elem_of_cons in Hg as [->|?]; [|done]. rewrite (H2 f Hgf). unfold set_field.
    by rewrite decide_True.
  - intros g Hg. apply not_elem_of_cons in Hg as [Hgf Hg]. rewrite (H2 g Hg). unfold set_field.
    by rewrite decide_False.
Qed.

Lemma rq_create_spec : wp e rq_create (λ r, ∃ h, r = Some h ∧ parse_rel p_init h).
Proof using He.
  unfold rq_create. wstep. apply wp_alloc_ok; [done|done|]. wstep.
  apply wp_malloc; [done|intros [?|?]; done|]. intros line Hl Hb _. wstep.
  eapply wp_mono; [apply init_fields_spec|]. intros m [Hm _]. apply wp_ret.
  eexists. split; [done|].
  assert (∀ f, str_is (field_size f) [] (m f)) as Hf.
  { intros f. apply Hm. unfold rq_fields. destruct f; set_solver. }
  split; simpl; try done; auto with rq.
  split; simpl; try done; intros f; [by eapply str_is_raw|intros _; by apply str_is_holds].
Qed.
End spec.
