(* ===== verification/RqProps.v ===== *)
(** * The opening handshake: properties

    The response as a function of the abstract request, the theorem that
    [rqparser.c] computes it, and the inputs on which it has no defined
    behaviour. *)

From S2P Require Import Prelude CString Str Base64 Tokens Config RqParser RqSpec.

Section response.
Variable SHA1 : list Z → list Z.
Variable fnmatch : list Z → list Z → bool.

(** RFC 6455, section 4.2.2. *)
Definition accept_value (key : list Z) : list Z := b64 (SHA1 (key ++ MAGIC_STRING)).

Definition switching (connection accept : list Z) : list Z :=
  bs "HTTP/1.1 101 Switching Protocols" ++ CRLF ++ bs "Upgrade: websocket" ++ CRLF
    ++ bs "Connection: " ++ connection ++ CRLF ++ bs "Sec-WebSocket-Accept: " ++ accept ++ CRLF
    ++ bs "Sec-WebSocket-Protocol: xmpp" ++ CRLF ++ CRLF.

Definition spec_analyze (q : areq) (conf : jsconf_t) : bool * list Z :=
  if negb (strcasecmp_eq (q_str q method_str) (bs "GET")) then (false, response_405)
  else if negb (config_check_origin fnmatch conf (q_str q origin_str)) then (false, response_403)
  else if negb (bool_decide (bs "xmpp" ∈ q_protocols q)) then (false, response_400)
  else if strcmp_eq (q_str q ws_key_str) [] then (false, response_400)
  else if (match host conf with Some c => negb (strcmp_eq c (q_str q host_str)) | None => false end)
  then (false, response_400)
  else if negb (q_upgrade q) then (false, response_400)
  else if negb (q_connection q) then (false, response_400)
  else if (match resource conf with
           | Some c => negb (strcasecmp_eq (q_str q resource_str) c) | None => false end)
  then (false, response_404)
  else if negb (strcmp_eq (q_str q ws_version_str) (bs "13")) then (false, response_426)
  else (true, switching (q_str q connection_str) (accept_value (q_str q ws_key_str))).

Lemma protocols_contain_spec ps l p :
  Forall2 (str_holds 16) ps l → protocols_contain l p = Some (bool_decide (p ∈ ps)).
Proof using Type.
  induction 1 as [|t s ps l Hs _ IH]; cbn [protocols_contain].
  { rewrite bool_decide_eq_false_2; [done|apply not_elem_of_nil]. }
  rewrite (str_holds_get _ _ _ Hs). cbn [mbind option_bind]. unfold strcmp_eq.
  destruct (decide (t = p)) as [->|Hne].
  - rewrite !bool_decide_eq_true_2; [done|apply elem_of_cons; by left|done].
  - rewrite (bool_decide_eq_false_2 (t = p)), IH by done. f_equal. apply bool_decide_ext.
    rewrite elem_of_cons. split; [by right|by intros [->|?]].
Qed.

Lemma response_101_expand connection accept :
  fmt_expand response_101 [connection; accept] = Some (switching connection accept).
Proof using Type. reflexivity. Qed.

(** What the code relies on of [SHA1]. *)
Definition sha1_ok : Prop := ∀ m, zlen (SHA1 m) = 20 ∧ Forall is_byte (SHA1 m).

Context (e : env) (He : e ≠ Hostile) (Hsha : sha1_ok).

Lemma rq_get_access_spec key s :
  cstring key → zlen key < 64 → str_raw 64 s →
  wp e (rq_get_access SHA1 key s) (λ s', str_is 64 (accept_value key) s').
Proof using Hsha.
  intros Hc Hl Hs. unfold rq_get_access. wstep. apply wp_local_array; [done|].
  intros b Hb _. assert (fmt_expand (bs "%s%s") [key; MAGIC_STRING] = Some (key ++ MAGIC_STRING)) as Hf.
  { done. }
  assert (zlen (key ++ MAGIC_STRING) <= 1023) as Hlen.
  { rewrite zlen_app. change (zlen MAGIC_STRING) with 36. lia. }
  wstep. eapply wp_opt; [apply (snprintf_Some b 1024 _ _ _ ltac:(lia) Hf)|].
  rewrite (ztake_ge (1024 - 1)) by lia. rewrite <-(app_assoc (key ++ MAGIC_STRING)).
  wstep. eapply wp_opt; [simpl; apply cstr_app, cstring_app; [done|]|].
  { unfold cstring. decided. }
  destruct (Hsha (key ++ MAGIC_STRING)) as [H20 Hbytes].
  destruct (base64_encode_spec 64 s (SHA1 (key ++ MAGIC_STRING))) as (s' & E & Hs'); try done.
  { by rewrite H20. }
  { by rewrite H20. }
  rewrite H20 in E. by eapply wp_opt.
Qed.

Lemma refuse_spec response text :
  str_raw 1024 response → cstring text → no_percent text → zlen text < 1024 →
  wp e (refuse response text) (λ '(ok, s), ok = false ∧ str_is 1024 text s).
Proof using Type.
  intros Hr Hc Hp Hl. unfold refuse.
  destruct (str_set_string_spec 1024 response text Hr Hc Hp) as (s & E & Hs).
  wstep. eapply wp_opt; [exact E|]. apply wp_ret. rewrite ztake_ge in Hs by lia. done.
Qed.

Lemma accept_value_length key : zlen (accept_value key) = 28 ∧ cstring (accept_value key).
Proof using Hsha.
  destruct (Hsha (key ++ MAGIC_STRING)) as [H20 Hb]. unfold accept_value, b64.
  split; [by rewrite zlen_b64, H20|]. by apply code_range_cstring.
Qed.

(** The responses that refuse a request. *)
Lemma refuse_any response text :
  str_raw 1024 response →
  text ∈ [response_405; response_403; response_400; response_404; response_426] →
  wp e (refuse response text) (λ '(ok, s), ok = false ∧ str_is 1024 text s).
Proof using Type.
  intros Hresp Ht.
  assert (Forall (λ text, Forall is_char text ∧ (37 ∉ text) ∧ zlen text < 1024)
    [response_405; response_403; response_400; response_404; response_426]) as Hall by decided.
  rewrite Forall_forall in Hall. destruct (Hall text) as (? & ? & ?); [by apply list_elem_of_In|].
  by apply refuse_spec.
Qed.

(** The response that accepts one. *)
Lemma accept_spec conn key response :
  zlen conn < field_size connection_str → cstring conn → str_raw 1024 response →
  ∃ s, str_set_string response response_101 [conn; accept_value key] = Some s ∧
    str_is 1024 (switching conn (accept_value key)) s.
Proof using Hsha.
  intros Hcl Hcc Hresp. set (accept := accept_value _) in *.
  destruct (accept_value_length key) as [Hal Hac]. fold accept in Hal, Hac.
  destruct (str_set_vstring_spec 1024 response response_101 [conn; accept] (switching conn accept))
    as (s & E & Hs); [done|apply response_101_expand| |].
  { unfold switching. repeat apply cstring_app; try done; unfold cstring; decided. }
  exists s. split; [exact E|].
  rewrite ztake_ge in Hs; [done|]. unfold switching. rewrite !zlen_app, Hal. simpl in Hcl.
  repeat match goal with |- context [zlen (bs ?x)] =>
    let n := eval vm_compute in (zlen (bs x)) in change (zlen (bs x)) with n end.
  change (zlen CRLF) with 2. lia.
Qed.

Lemma rq_analyze_spec q h conf response :
  rq_rel q h → str_raw 1024 response →
  wp e (rq_analyze SHA1 fnmatch h conf response) (λ '(ok, s),
    ok = (spec_analyze q conf).1 ∧ str_is 1024 (spec_analyze q conf).2 s).
Proof using He Hsha.
  intros [_ Hstr Hpr _ Hup Hcn] Hresp. unfold rq_analyze, spec_analyze.
  assert (∀ f, f ≠ ws_protocol_str → str_get_string (rq_str h f) = Some (q_str q f)) as Hget.
  { intros f Hf. by eapply str_holds_get, Hstr. }
  assert (∀ f o, f ≠ ws_protocol_str →
    str_is_equal_nocase (rq_str h f) o = Some (strcasecmp_eq (q_str q f) o)) as Heq.
  { intros f o Hf. by eapply str_is_equal_nocase_spec, Hstr. }
  pose proof (λ text, refuse_any response text Hresp) as Href.
  wstep. apply wp_local_array; [done|]. intros b Hb Hbb.
  destruct (str_init_spec b 64 Hb ltac:(done) Hbb) as (acc & Eacc & Hacc).
  wstep. eapply wp_opt; [exact Eacc|].
  wstep. eapply wp_opt; [by apply Heq|]. destruct (strcasecmp_eq _ (bs "GET")); [|apply Href; set_solver].
  simpl negb. cbv iota. wstep. eapply wp_opt; [by apply Hget|].
  destruct (config_check_origin _ _ _); [|apply Href; set_solver].
  simpl negb. cbv iota. wstep. eapply wp_opt; [by apply protocols_contain_spec|].
  destruct (bool_decide _); [|apply Href; set_solver].
  simpl negb. cbv iota. wstep. eapply wp_opt; [by apply Hget|].
  destruct (strcmp_eq _ []); [apply Href; set_solver|].
  wstep. eapply wp_opt; [by apply Hget|].
  destruct (match host conf with Some _ => _ | None => _ end); [apply Href; set_solver|].
  rewrite Hup, Hcn. destruct (q_upgrade q); [|apply Href; set_solver].
  destruct (q_connection q); [|apply Href; set_solver]. simpl negb. cbv iota.
  wstep. apply (wp_mono _ _ (λ same, negb same =
    match resource conf with
    | Some c => negb (strcasecmp_eq (q_str q resource_str) c) | None => false end)).
  { destruct (resource conf); [|by apply wp_ret]. by eapply wp_opt; [apply Heq|]. }
  intros same ->. destruct (match resource conf with Some _ => _ | None => _ end);
    [apply Href; set_solver|].
  cbv iota. wstep. eapply wp_opt; [by apply Hget|].
  destruct (strcmp_eq _ (bs "13")); [|apply Href; set_solver].
  simpl negb. cbv iota. destruct (str_holds_text _ _ _ (Hstr ws_key_str ltac:(done))) as [Hkl Hkc].
  destruct (str_holds_text _ _ _ (Hstr connection_str ltac:(done))) as [Hcl Hcc].
  wstep. eapply wp_mono; [apply rq_get_access_spec; eauto with cstr|]. intros acc' Hacc'.
  wstep. eapply wp_opt; [by apply Hget|].
  wstep. eapply wp_opt; [eapply str_holds_get, str_is_holds, Hacc'|].
  destruct (accept_spec (q_str q connection_str) (q_str q ws_key_str) response) as (s & E & Hs); [done..|].
  wstep. eapply wp_opt; [exact E|]. by apply wp_ret.
Qed.
End response.

(** ** The whole handshake *)

Section handshake.
Variable SHA1 : list Z → list Z.
Variable fnmatch : list Z → list Z → bool.

(** A fresh request object is given the lines, then analysed as
    [wsconn_handshake] does: the done and error flags, the verdict and the
    response; [None] when the object cannot be created. *)
Definition handshake (lines : list (list Z)) (conf : jsconf_t)
    : M (option (bool * bool * bool * list Z)) :=
  r ← rq_create;
  match r with
  | None => mret None
  | Some h =>
      h ← rq_add_lines h lines;
      b ← local_array 1024;
      response ← opt (str_init b 1024);
      '(ok, response) ← rq_analyze SHA1 fnmatch h conf response;
      text ← opt (str_get_string response);
      mret (Some (rq_done h, rq_is_error h, ok, text))
  end.

End handshake.

(** The request of RFC 6455, section 1.3, with this server's sub-protocol. *)
Definition sample_request : list (list Z) :=
  [bs "GET /chat HTTP/1.1"; bs "Host: server.example.com"; bs "Upgrade: websocket";
   bs "Connection: keep-alive,"; bs "  Upgrade"; bs "Sec-WebSocket-Key: dGhlIHNhbXBsZSBub25jZQ==";
   bs "Origin: http://Example.com"; bs "Sec-WebSocket-Protocol: chat, xmpp";
   bs "Sec-WebSocket-Version: 13"; []].

(** The digest that section 1.3 gives for it. *)
Definition sample_sha1 (m : list Z) : list Z :=
  [0xb3; 0x7a; 0x4f; 0x2c; 0xc0; 0x62; 0x4f; 0x16; 0x90; 0xf6; 0x46; 0x06; 0xcf; 0x38; 0x59; 0x45;
   0xb2; 0xbe; 0xc4; 0xea].

Lemma sample_sha1_ok : sha1_ok sample_sha1.
Proof. intros m. split; [done|]. unfold sample_sha1. decided. Qed.

Definition sample_parse : aparse := default p_init (spec_add_lines sample_request p_init).


Ltac refused :=
  split; [done|intros (?&?&?&?&Hh&?&?&Hre&?);
    first [done | congruence | by specialize (Hh _ eq_refl) | by specialize (Hre _ eq_refl)]].

(** ** What the callers read *)

(** A request object is created and given its lines. *)
Definition rq_session (lines : list (list Z)) : M (option request_t) :=
  r ← rq_create;
  match r with Some h => (h ← rq_add_lines h lines; mret (Some h)) | None => mret None end.

(** C17: the accessors of a parsed request give what its header lines say: the text of
    each header, without the white space before it, cut to the size of its array, the
    origin in lower case, and each of the offered sub-protocols by its index, and null for
    an index that is out of range.  Allocations succeed. *)
Theorem accessors_correct e lines p :
  e ≠ Hostile → Forall line_ok lines → spec_add_lines lines p_init = Some p →
  wp e (rq_session lines) (λ r, ∃ h, r = Some h ∧
    rq_done h = p_done p ∧ rq_is_error h = p_error p ∧
    rq_get_host h = Some (q_str (p_req p) host_str) ∧
    rq_get_upgrade h = Some (q_str (p_req p) upgrade_str) ∧
    rq_get_connection h = Some (q_str (p_req p) connection_str) ∧
    rq_get_websocket_key h = Some (q_str (p_req p) ws_key_str) ∧
    rq_get_websocket_version h = Some (q_str (p_req p) ws_version_str) ∧
    rq_get_origin h = Some (q_str (p_req p) origin_str) ∧
    rq_get_protocol_count h = zlen (q_protocols (p_req p)) ∧
    (∀ i, rq_get_protocol h i = Some (if i <? 0 then None else q_protocols (p_req p) !! Z.to_nat i)) ∧
    (∀ name, rq_protocols_contains h name = Some (bool_decide (name ∈ q_protocols (p_req p))))).
Proof.
  intros He Hl Hp. unfold rq_session. wstep. eapply wp_mono; [by apply rq_create_spec|].
  intros r (h0 & -> & Hh0). wstep. eapply wp_mono; [by apply (rq_add_lines_spec e He lines p_init h0 p)|].
  intros h Hh. apply wp_ret. exists h. split; [done|].
  destruct (pr_rel _ _ Hh) as [_ Hstr Hpr Hcount _ _].
  assert (zlen (rq_protocols h) = zlen (q_protocols (p_req p))) as Hz.
  { unfold zlen. f_equal. symmetry. by eapply Forall2_length. }
  split; [apply Hh|]. split; [apply Hh|].
  do 6 (split; [by eapply str_holds_get, Hstr|]). split; [by unfold rq_get_protocol_count; rewrite Hcount|].
  split; [|intros name; by apply protocols_contain_spec].
  intros i. unfold rq_get_protocol. rewrite Hcount, Hz. destruct (Z.ltb_spec i 0); [done|]. cbn [orb].
  destruct (Z.leb_spec (zlen (q_protocols (p_req p))) i) as [Hle|Hlt].
  - rewrite lookup_ge_None_2; [done|]. unfold zlen in Hle. lia.
  - destruct (lookup_lt_is_Some_2 (q_protocols (p_req p)) (Z.to_nat i)) as [t Et]; [unfold zlen in Hlt; lia|].
    destruct (Forall2_lookup_l _ _ _ _ _ Hpr Et) as (x & Ex & Hx). rewrite Ex, Et. cbn [mbind option_bind].
    by rewrite (str_holds_get _ _ _ Hx).
Qed.

Lemma accessors_correct_witness :
  wp Garbage (rq_session sample_request) (λ r, ∃ h, r = Some h ∧ rq_done h = true ∧ rq_is_error h = false ∧
    rq_get_host h = Some (bs "server.example.com") ∧ rq_get_connection h = Some (bs "keep-alive, Upgrade") ∧
    rq_get_origin h = Some (bs "http://example.com") ∧ rq_get_protocol_count h = 2 ∧
    rq_get_protocol h 1 = Some (Some (bs "chat")) ∧ rq_get_protocol h 2 = Some None).
Proof.
  eapply wp_mono.
  { apply (accessors_correct Garbage sample_request sample_parse); [done| |by vm_compute].
    unfold line_ok, cstring, no_percent. decided. }
  intros r (h & -> & E1 & E2 & E3 & _ & E4 & _ & _ & E5 & E6 & E7 & _). exists h.
  rewrite E1, E2, E3, E4, E5, E6, !E7. split; [done|]. split_and!; by vm_compute.
Defined.

(** C16: the verdict.  A request is accepted exactly when it is a GET from an
    acceptable origin that offers the sub-protocol "xmpp", a key, the
    configured host, [Upgrade: websocket], [Connection: Upgrade], the configured
    resource and version 13.  Allocations succeed. *)
Theorem rq_analyze_accepts_iff SHA1 fnmatch e q h conf response :
  e ≠ Hostile → sha1_ok SHA1 → rq_rel q h → str_raw 1024 response →
  wp e (rq_analyze SHA1 fnmatch h conf response) (λ '(ok, s),
    ok = true ↔
      tolower <$> q_str q method_str = tolower <$> bs "GET" ∧
      config_check_origin fnmatch conf (q_str q origin_str) = true ∧
      bs "xmpp" ∈ q_protocols q ∧
      q_str q ws_key_str ≠ [] ∧
      (∀ c, host conf = Some c → q_str q host_str = c) ∧
      q_upgrade q = true ∧ q_connection q = true ∧
      (∀ c, resource conf = Some c → tolower <$> q_str q resource_str = tolower <$> c) ∧
      q_str q ws_version_str = bs "13").
Proof.
  intros He Hsha Hrel Hresp. eapply wp_mono; [by apply rq_analyze_spec|].
  intros [ok s] [-> _]. unfold spec_analyze, strcmp_eq, strcasecmp_eq.
  case_bool_decide; cbn [negb]; [|refused].
  destruct (config_check_origin _ _ _) eqn:?; cbn [negb]; [|refused].
  case_bool_decide; cbn [negb]; [|refused].
  case_bool_decide; cbn [negb]; [refused|].
  destruct (host conf) as [ho|]; [case_bool_decide; cbn [negb]; [|refused]|].
  all: destruct (q_upgrade q); cbn [negb]; [|refused].
  all: destruct (q_connection q); cbn [negb]; [|refused].
  all: destruct (resource conf) as [re|]; [case_bool_decide; cbn [negb]; [|refused]|].
  all: case_bool_decide; cbn [negb]; [|refused].
  all: split; [intros _|done]; split_and!; try done; by intros c [= <-].
Qed.

Lemma fresh_request_rel :
  ∃ h, runs rq_create (Some h) ∧ parse_rel p_init h.
Proof.
  destruct (wp_benign_runs _ _ (rq_create_spec Benign ltac:(done))) as (r & E & h & -> & Hh). eauto.
Qed.

Definition blank_str (f : rq_field) : str_t :=
  Str (replicate (Z.to_nat (field_size f)) 0) 0 (field_size f).
Definition blank_request (st : rq_state_t) : request_t :=
  Request st (replicate 4096 0) 0 false false blank_str 0 [] 0 false false.

Lemma blank_rel st : rq_rel q_empty (blank_request st).
Proof.
  assert (∀ f, str_is (field_size f) [] (blank_str f)) as Hf.
  { intros f. unfold blank_str.
    replace (replicate (Z.to_nat (field_size f)) 0)
      with ([] ++ 0 :: replicate (Z.to_nat (field_size f) - 1) 0) by by destruct f.
    apply str_is_build; [constructor|by apply Forall_replicate| |by destruct f].
    unfold zlen. rewrite length_replicate. destruct f; done. }
  split; simpl; try done; intros f; [by eapply str_is_raw|intros _; by apply str_is_holds].
Qed.

Lemma rq_analyze_accepts_iff_witness :
  ∃ response, wp Benign (rq_analyze sample_sha1 (λ _ _, false) (blank_request ST_HEADER) config_zero response)
    (λ '(ok, s), ok = true ↔
      tolower <$> q_str q_empty method_str = tolower <$> bs "GET" ∧
      config_check_origin (λ _ _, false) config_zero (q_str q_empty origin_str) = true ∧
      bs "xmpp" ∈ q_protocols q_empty ∧
      q_str q_empty ws_key_str ≠ [] ∧
      (∀ c, host config_zero = Some c → q_str q_empty host_str = c) ∧
      q_upgrade q_empty = true ∧ q_connection q_empty = true ∧
      (∀ c, resource config_zero = Some c →
        tolower <$> q_str q_empty resource_str = tolower <$> c) ∧
      q_str q_empty ws_version_str = bs "13").
Proof.
  exists (Str (replicate 1024 0) 0 1024).
  apply (rq_analyze_accepts_iff sample_sha1 (λ _ _, false) Benign q_empty).
  - done.
  - apply sample_sha1_ok.
  - apply blank_rel.
  - split; [done|done|done|by apply Forall_replicate].
Defined.

(** ** The request line *)

(** The request line is cut at blanks and tabs; the method and the resource
    are stored, and the third token only has to exist: the protocol member
    gets the resource, so that the HTTP version is never seen. *)
Theorem parse_request_line_correct e line q h m r p ts :
  e ≠ Hostile → rq_rel q h → line_ok line → tokens SPACE_TAB line = m :: r :: p :: ts →
  wp e (parse_request_line h line) (λ '(ok, h'),
    ok = true ∧
    str_get_string (rq_str h' method_str) = Some (ztake 15 m) ∧
    str_get_string (rq_str h' resource_str) = Some (ztake 255 r) ∧
    str_get_string (rq_str h' protocol_str) = Some (ztake 15 r)).
Proof.
  intros He Hr (Hc & Hp & Hl) Ht. eapply wp_mono; [by apply (parse_request_line_spec e He line q)|].
  intros [ok h']. unfold spec_request_line. rewrite Ht. simpl. intros ([_ Hs _ _ _ _] & -> & _).
  split_and!; [done|..].
  - exact (str_holds_get _ _ _ (Hs method_str ltac:(done))).
  - exact (str_holds_get _ _ _ (Hs resource_str ltac:(done))).
  - exact (str_holds_get _ _ _ (Hs protocol_str ltac:(done))).
Qed.

Lemma parse_request_line_correct_witness :
  wp Garbage (parse_request_line (blank_request ST_START) (bs "GET /chat HTTP/1.1")) (λ '(ok, h'),
    ok = true ∧
    str_get_string (rq_str h' method_str) = Some (bs "GET") ∧
    str_get_string (rq_str h' resource_str) = Some (bs "/chat") ∧
    str_get_string (rq_str h' protocol_str) = Some (bs "/chat")).
Proof.
  apply (parse_request_line_correct Garbage (bs "GET /chat HTTP/1.1") q_empty _
    (bs "GET") (bs "/chat") (bs "HTTP/1.1") []); [done|apply blank_rel| |done].
  unfold line_ok, cstring, no_percent. decided.
Defined.

(** ** Inputs without defined behaviour *)

Definition stored_headers : list (list Z) :=
  [bs "host"; bs "upgrade"; bs "connection"; bs "Sec-WebSocket-Key"; bs "Sec-WebSocket-Protocol";
   bs "Sec-WebSocket-Version"; bs "Origin"].

(** Comparisons of known keys, evaluated. *)
Ltac known_key :=
  repeat match goal with |- context [strcasecmp_eq ?a ?b] =>
    let x := eval vm_compute in (strcasecmp_eq a b) in change (strcasecmp_eq a b) with x end;
  cbv iota.

(** The value of a header is used as a format string: when the text after the
    leading white space has a conversion that consumes an argument, as "%s"
    does, every stored header has undefined behaviour, under any allocator. *)
Theorem header_format_string_ub h key value t :
  key ∈ stored_headers → fmt_expand (skip_space value) [] = None →
  process h key (Some value) t = None.
Proof.
  intros Hk Hf.
  assert (∀ f t, rq_trim f (Some value) h t = None) as Htrim.
  { intros f t'. assert (str_trim_beginning (rq_str h f) value = None) as E.
    { unfold str_trim_beginning, str_set_string, str_set_vstring, snprintf. by rewrite Hf. }
    unfold rq_trim, mbind, M_bind, opt, mret, M_ret. by rewrite E. }
  unfold stored_headers in Hk. rewrite !elem_of_cons in Hk.
  destruct Hk as [->|[->|[->|[->|[->|[->|[->|Hk]]]]]]];
    [..|by apply elem_of_nil in Hk]; unfold process; known_key; first [apply Htrim|by apply bind_ub].
Qed.

Lemma header_format_string_ub_witness :
  process (blank_request ST_HEADER) (bs "Origin") (Some (bs " http://%s")) [] = None.
Proof.
  apply (header_format_string_ub (blank_request ST_HEADER) (bs "Origin") (bs " http://%s") []);
    [|done].
  by repeat (apply elem_of_cons; first [by left|right]).
Defined.

(** A computation that always reaches undefined behaviour. *)
Lemma wp_then_ub {A B} (m : M A) (f : A → M B) :
  wp Hostile m (λ a, ∀ t, f a t = None) → ∀ t, (m ≫= f) t = None.
Proof. intros Hm t. destruct (Hm t) as (a & t' & E & Hf). unfold mbind, M_bind. by rewrite E. Qed.

(** A [Connection] header without the token "Upgrade", "keep-alive" for one, has
    no defined result: [_find_connection_upgrade] ends without a [return] and
    its caller branches on the value. *)
Theorem connection_without_upgrade_ub h q value t :
  rq_rel q h → cstring value → no_percent value →
  has_upgrade (cut connection_str (skip_space value)) = false →
  process h (bs "Connection") (Some value) t = None.
Proof.
  intros Hrel Hc Hp Hup. unfold process. known_key. revert t. apply wp_then_ub.
  eapply wp_mono; [by apply (rq_trim_spec Hostile connection_str value q)|].
  intros h1 (_ & _ & Hv). set (v := cut connection_str _) in *.
  assert (no_percent v) as Hpv by by apply no_percent_take, skip_space_no_percent.
  destruct (str_is_length _ _ _ Hv) as (_ & Hl & Hvc & _). apply str_is_holds in Hv.
  intros t. apply bind_ub. revert t. unfold find_connection_upgrade. apply wp_then_ub.
  apply wp_local_array; [done|]. intros b Hb Hbb.
  destruct (str_init_spec b 64 Hb ltac:(done) Hbb) as (tmp & Etmp & Htmp).
  apply wp_then_ub. eapply wp_opt; [exact Etmp|]. apply wp_then_ub.
  apply wp_local_array; [done|]. intros b' Hb' Hbb'.
  destruct (str_init_spec b' 16 Hb' ltac:(done) Hbb') as (tn & Etn & Htn).
  apply wp_then_ub. eapply wp_opt; [exact Etn|]. apply wp_then_ub.
  destruct (str_copy_string_spec 64 tmp 64 _ v (str_is_raw _ _ _ Htmp) Hv Hpv) as (tmp' & E & Htmp').
  eapply wp_opt; [exact E|]. rewrite ztake_ge in Htmp' by (simpl in Hl; lia).
  destruct Htmp' as [[[_ _ _ Hby] Et] _]. apply cstr_inv in Et as (rest & Et & _).
  rewrite Et in *. pose proof (find_upgrade_loop_spec Hostile 65 [] v rest tn Hvc Hby
    ltac:(unfold zlen in Hl; simpl in Hl; lia) ltac:(eauto with cstr)) as Hloop.
  by rewrite Hup in Hloop.
Qed.

Lemma connection_without_upgrade_ub_witness :
  process (blank_request ST_HEADER) (bs "Connection") (Some (bs " keep-alive, close")) [] = None.
Proof.
  apply (connection_without_upgrade_ub _ q_empty); [apply blank_rel| | |done];
    unfold cstring, no_percent; decided.
Defined.

(** The copy of a header's value is not checked: when that allocation alone
    fails, every stored header reads through the null pointer. *)
Theorem header_value_unchecked_alloc h key t : key ∈ stored_headers → process h key None t = None.
Proof.
  intros Hk. unfold stored_headers in Hk. rewrite !elem_of_cons in Hk.
  destruct Hk as [->|[->|[->|[->|[->|[->|[->|Hk]]]]]]];
    [..|by apply elem_of_nil in Hk]; unfold process; known_key; first [done|by apply bind_ub].
Qed.

Lemma header_value_unchecked_alloc_witness : process (blank_request ST_HEADER) (bs "Origin") None [] = None.
Proof.
  apply (header_value_unchecked_alloc (blank_request ST_HEADER) (bs "Origin") []).
  by repeat (apply elem_of_cons; first [by left|right]).
Defined.

(** A header line of 4095 characters or more fills the line buffer without a
    terminator: unless the last, never written byte of the allocation happens
    to be zero, the next line makes the parser read past the buffer. *)
Theorem overlong_line_ub h line c next t :
  rq_state h = ST_HEADER → zlen (rq_line h) = LINE_BUFFER_SIZE → cstr (rq_line h) 0 = Some [] →
  znth (rq_line h) 4095 = Some c → c ≠ 0 →
  cstring line → starts_with_space line = false → 4095 <= zlen line →
  ∃ h', rq_add_line h line t = Some (h', t) ∧ rq_add_line h' next t = None.
Proof.
  intros Hst Hlen Hl Hc Hc0 Hline Hsp Hlong. unfold LINE_BUFFER_SIZE in *.
  destruct line as [|d line]; [rewrite zlen_nil in Hlong; lia|]. set (l := d :: line) in *.
  assert (zdrop 4095 (rq_line h) = [c]) as Hlast.
  { rewrite (zdrop_znth _ _ _ Hc). by rewrite zdrop_ge by lia. }
  set (h1 := rq_set_line (0 :: zdrop 1 (rq_line h)) h).
  set (h2 := rq_set_line (ztake 4095 l ++ [c]) h1).
  assert (rq_clear_line h = Some h1) as E1.
  { unfold rq_clear_line. by rewrite mem_write_Some by (rewrite ?Hlen; done). }
  assert (append_line h1 l = Some h2) as E2.
  { unfold append_line, LINE_BUFFER_SIZE. change (cstr (rq_line h1) 0) with (Some (@nil Z)).
    cbn [mbind option_bind]. change (4096 - zlen [] - 1) with 4095. change (zlen []) with 0.
    unfold strncpy. replace (Z.to_nat (4095 - zlen l)) with 0%nat by lia. rewrite app_nil_r.
    assert (zlen (ztake 4095 l) = 4095) as Hz by (rewrite zlen_ztake; lia).
    assert (zlen (rq_line h1) = 4096) as Hz1.
    { simpl. rewrite zlen_cons, zlen_zdrop; lia. }
    assert (zdrop (0 + zlen (ztake 4095 l)) (rq_line h1) = [c]) as Hz2.
    { rewrite Hz. change (rq_line h1) with (0 :: zdrop 1 (rq_line h)).
      rewrite zdrop_cons, zdrop_zdrop by lia. exact Hlast. }
    rewrite mem_write_Some by lia. cbn [mbind option_bind]. by rewrite Hz2, ztake_0. }
  assert (cstr (rq_line h2) 0 = None) as Hnone.
  { unfold cstr. change (rq_line h2) with (ztake 4095 l ++ [c]).
    match goal with |- (if ?b then _ else _) = _ => destruct b end; [|done]. rewrite zdrop_0. apply until_nul_None.
    apply Forall_app. split; [|by constructor].
    eapply Forall_impl; [|by apply Forall_ztake, Hline]. unfold is_char. lia. }
  exists h2. split.
  - unfold rq_add_line. rewrite Hst, Hsp. subst l. cbv iota zeta. unfold flush_line.
    unfold mbind, M_bind, opt, mret, M_ret. rewrite Hl. simpl. rewrite E1. by rewrite E2.
  - unfold rq_add_line. change (rq_state h2) with (rq_state h). rewrite Hst.
    unfold mbind, M_bind, opt, mret, M_ret, flush_line, ub.
    destruct next as [|n next]; unfold starts_with_space; cbv iota zeta beta.
    + change (rq_line (rq_set_done h2)) with (rq_line h2). by rewrite Hnone.
    + destruct (isspace (schar n)); cbv iota; [|by rewrite Hnone]. unfold append_line. by rewrite Hnone.
Qed.

Lemma overlong_line_ub_witness :
  let h := rq_set_line (0 :: replicate 4095 255) (blank_request ST_HEADER) in
  ∃ h', rq_add_line h (replicate 4095 97) [] = Some (h', []) ∧ rq_add_line h' [] [] = None.
Proof.
  intros h. apply (overlong_line_ub h (replicate 4095 97) 255); try done.
  by apply Forall_replicate.
Defined.
