(* ===== verification/WsMessage.v ===== *)
(** * WebSocket frames and messages: [wsmessage.c]

    [get_frame] cuts the next frame off the receive buffer, [wsmsg_process]
    assembles frames into messages, [wsmsg_add], [wsmsg_get_message] and
    [wsmsg_get_frame] are the interface of the component. *)

From S2P Require Import Prelude Buffer Config.

Definition OPCODE_CONTINUATION : Z := 0x00.
Definition OPCODE_TEXT : Z := 0x01.
Definition OPCODE_BINARY : Z := 0x02.
Definition OPCODE_CLOSE : Z := 0x08.
Definition OPCODE_PING : Z := 0x09.
Definition OPCODE_PONG : Z := 0x0a.

Record wsmsg_t := Wsmsg {
  wm_frame : bool;
  wm_message : bool;
  wm_error : bool;
  wm_frame_buffer : buffer_t;
  wm_frame_data : buffer_t;
  wm_fin : bool;
  wm_opcode : Z;
  wm_mask : bool;
  wm_message_buffer : buffer_t;
  wm_message_opcode : Z;
  wm_message_started : bool;
  wm_max_frame_size : Z }.

(** The two sizes are [int]s of the configuration: the product must not
    overflow, and the results convert to [size_t]. *)
Definition wsmsg_create (conf : jsconf_t) : M (option wsmsg_t) :=
  ok ← malloc_ok 96;
  if (ok : bool) then
    let twice := 2 * max_frame_size conf in
    if (- INT_MAX - 1 <=? twice) && (twice <=? INT_MAX) then
      r1 ← buffer_create (szt twice);
      match r1 with None => mret None | Some frame_buffer =>
      r2 ← buffer_create (szt (max_message_size conf));
      match r2 with None => mret None | Some message_buffer =>
      r3 ← buffer_create (szt (max_frame_size conf));
      match r3 with None => mret None | Some frame_data =>
      mret (Some (Wsmsg false false false frame_buffer frame_data false 0 false
                    message_buffer 0 false (szt (max_frame_size conf))))
      end end end
    else ub
  else mret None.

Inductive frame_status := FS_BUILDING | FS_READY | FS_ERROR.

(** The output parameters of [get_frame], written only when a frame is ready. *)
Record frame_hdr := Hdr { h_fin : bool; h_opcode : Z; h_mask : bool }.

(** [ntohs], [ntohl] of the integer at offset [off]. *)
Definition ntohs_at (data : list Z) (off : Z) : option Z :=
  d ← mem_read data off 2;
  match d with [a; b] => Some (Z.lor (Z.shiftl a 8) b) | _ => None end.
Definition ntohl_at (data : list Z) (off : Z) : option Z :=
  d ← mem_read data off 4;
  match d with
  | [a; b; c; e] =>
      Some (Z.lor (Z.shiftl a 24) (Z.lor (Z.shiftl b 16) (Z.lor (Z.shiftl c 8) e)))
  | _ => None
  end.

(** The extended payload length: [None] when more bytes are needed, otherwise
    the payload and header lengths. *)
Definition get_frame_length (data : list Z) (length len7 : Z) : M (option (Z * Z)) :=
  if len7 =? 126 then
    if length <? 4 then mret None
    else (n ← opt (ntohs_at data 2); mret (Some (n, 4)))
  else if len7 =? 127 then
    if length <? 10 then mret None
    else (n ← opt (ntohl_at data 6); mret (Some (n, 10)))
  else mret (Some (len7, 2)).

Definition get_frame (src buffer : buffer_t)
    : M (frame_status * option frame_hdr * buffer_t * buffer_t) :=
  let data := b_data src in
  let length := b_length src in
  if length <? 2 then mret (FS_BUILDING, None, src, buffer) else
  b0 ← opt (znth data 0);
  if negb (Z.land b0 0x70 =? 0) then mret (FS_ERROR, None, src, buffer) else
  let opcode := Z.land b0 0x0f in
  let fin := negb (Z.land b0 0x80 =? 0) in
  b1 ← opt (znth data 1);
  let mask := negb (Z.land b1 0x80 =? 0) in
  r ← get_frame_length data length (Z.land b1 0x7f);
  match r with
  | None => mret (FS_BUILDING, None, src, buffer)
  | Some (message_length, header_length) =>
      let message := if mask then header_length + 4 else header_length in
      let frame_length := szt (message + message_length) in
      '(ok, buffer') ← buffer_set_data buffer data message message_length;
      if negb ok then mret (FS_ERROR, None, src, buffer')
      else if length <? frame_length then mret (FS_BUILDING, None, src, buffer')
      else
        dat ← (if mask
               then opt (unmask (b_data buffer') (b_length buffer') (zdrop header_length data))
               else mret (b_data buffer'));
        src' ← buffer_remove_data src frame_length;
        mret (FS_READY, Some (Hdr fin opcode mask), src',
              Buffer dat (b_length buffer') (b_capacity buffer') (b_max_length buffer'))
  end.

(** Assignments of the loop body. *)
Definition wm_set_buffers (fb fd : buffer_t) (w : wsmsg_t) : wsmsg_t :=
  Wsmsg (wm_frame w) (wm_message w) (wm_error w) fb fd (wm_fin w) (wm_opcode w) (wm_mask w)
    (wm_message_buffer w) (wm_message_opcode w) (wm_message_started w) (wm_max_frame_size w).
Definition wm_set_error (w : wsmsg_t) : wsmsg_t :=
  Wsmsg (wm_frame w) (wm_message w) true (wm_frame_buffer w) (wm_frame_data w) (wm_fin w)
    (wm_opcode w) (wm_mask w) (wm_message_buffer w) (wm_message_opcode w)
    (wm_message_started w) (wm_max_frame_size w).
Definition wm_set_control (h : frame_hdr) (w : wsmsg_t) : wsmsg_t :=
  Wsmsg true (wm_message w) (wm_error w) (wm_frame_buffer w) (wm_frame_data w) (h_fin h)
    (h_opcode h) (h_mask h) (wm_message_buffer w) (wm_message_opcode w)
    (wm_message_started w) (wm_max_frame_size w).

Definition is_control (opcode : Z) : bool :=
  (opcode =? OPCODE_CLOSE) || (opcode =? OPCODE_PING) || (opcode =? OPCODE_PONG).

(** The data-frame part of the loop body. *)
Definition wsmsg_data_frame (h : frame_hdr) (w : wsmsg_t) : M (bool * wsmsg_t) :=
  '(ok, mb) ← buffer_append (wm_message_buffer w) (b_data (wm_frame_data w)) 0
                (b_length (wm_frame_data w));
  if negb ok then mret (false, wm_set_error w)
  else
    fd ← buffer_remove_data (wm_frame_data w) (b_length (wm_frame_data w));
    mret (true,
      Wsmsg (wm_frame w) (if h_fin h then true else wm_message w) (wm_error w)
        (wm_frame_buffer w) fd (wm_fin w) (wm_opcode w) (wm_mask w) mb
        (if wm_message_started w then wm_message_opcode w else h_opcode h)
        true (wm_max_frame_size w)).

(** The dispatch on a whole frame, its payload in the frame data buffer. *)
Definition wsmsg_dispatch (h : frame_hdr) (w : wsmsg_t) : M (bool * wsmsg_t) :=
  if is_control (h_opcode h) then
    if negb (h_fin h) then mret (false, wm_set_error w) else mret (false, wm_set_control h w)
  else if wm_message_started w && negb (h_opcode h =? OPCODE_CONTINUATION) then
    mret (false, wm_set_error w)
  else if negb (wm_message_started w) && (h_opcode h =? OPCODE_CONTINUATION) then
    mret (false, wm_set_error w)
  else wsmsg_data_frame h w.

(** One pass of the [while (1)] loop: [true] when it goes round again. *)
Definition wsmsg_step (w : wsmsg_t) : M (bool * wsmsg_t) :=
  '(fs, hdr, fb, fd) ← get_frame (wm_frame_buffer w) (wm_frame_data w);
  let w := wm_set_buffers fb fd w in
  match fs, hdr with
  | FS_READY, Some h => wsmsg_dispatch h w
  | FS_ERROR, _ => mret (false, wm_set_error w)
  | _, _ => mret (false, w)
  end.

(** Every pass that goes round again removes at least two bytes from the frame
    buffer, so [fuel] never runs out when it is at least its length. *)
Fixpoint wsmsg_loop (fuel : nat) (w : wsmsg_t) : M wsmsg_t :=
  match fuel with
  | O => ub
  | S fuel' =>
      '(again, w') ← wsmsg_step w;
      if (again : bool) then wsmsg_loop fuel' w' else mret w'
  end.

Definition wsmsg_process (w : wsmsg_t) : M wsmsg_t :=
  if wm_message w || wm_frame w || wm_error w then mret w
  else wsmsg_loop (S (Z.to_nat (b_length (wm_frame_buffer w)))) w.

Definition wm_set_frame_buffer (fb : buffer_t) (w : wsmsg_t) : wsmsg_t :=
  wm_set_buffers fb (wm_frame_data w) w.

Definition wsmsg_add (w : wsmsg_t) (data : list Z) : M (bool * wsmsg_t) :=
  '(ok, fb) ← buffer_append (wm_frame_buffer w) data 0 (zlen data);
  let w := wm_set_frame_buffer fb w in
  if negb ok then mret (false, w)
  else (w' ← wsmsg_process w; mret (true, w')).

Definition wsmsg_fail (w : wsmsg_t) : bool := wm_error w.
Definition wsmsg_has_message (w : wsmsg_t) : bool := wm_message w.
Definition wsmsg_has_frame (w : wsmsg_t) : bool := wm_frame w.

(** The result code, the object, the caller's buffer and, when written, the
    opcode. *)
Definition wsmsg_get_message (w : wsmsg_t) (buffer : buffer_t)
    : M (bool * wsmsg_t * buffer_t * option Z) :=
  if negb (wm_message w) then mret (false, w, buffer, None) else
  '(res, mb, buffer') ← buffer_move (wm_message_buffer w) buffer;
  let w1 := Wsmsg (wm_frame w) false (wm_error w) (wm_frame_buffer w) (wm_frame_data w)
              (wm_fin w) (wm_opcode w) (wm_mask w) mb (wm_message_opcode w) false
              (wm_max_frame_size w) in
  w2 ← wsmsg_process w1;
  mret (res, w2, buffer', Some (wm_message_opcode w)).

Definition wsmsg_get_frame (w : wsmsg_t) (buffer : buffer_t)
    : M (bool * wsmsg_t * buffer_t * option frame_hdr) :=
  if negb (wm_frame w) then mret (false, w, buffer, None) else
  '(res, fd, buffer') ← buffer_move (wm_frame_data w) buffer;
  let w1 := Wsmsg false (wm_message w) (wm_error w) (wm_frame_buffer w) fd
              (wm_fin w) (wm_opcode w) (wm_mask w) (wm_message_buffer w)
              (wm_message_opcode w) (wm_message_started w) (wm_max_frame_size w) in
  w2 ← wsmsg_process w1;
  mret (res, w2, buffer', Some (Hdr (wm_fin w) (wm_opcode w) (wm_mask w))).
