(* ===== verification/WsFrameSpec.v ===== *)
(** * What [get_frame] computes

    [decode_header] is a reference decoder for the frame header of RFC 6455, section
    5.2, on the bytes received so far, and [read_header] what the code makes of
    the same bytes: it differs in the length of eight bytes, of which the code
    reads the last four.  [get_frame] is specified in terms of the latter: every
    branch, errors included, and the memory it reads. *)

From S2P Require Import Prelude Buffer Config WsMessage.

(** [HHeader h hl off len]: a header of [hl] bytes, the payload of [len] bytes
    starts at [off] (after the masking key, if any). *)
Inductive header_result :=
  | HMore
  | HError
  | HHeader (h : frame_hdr) (hl off len : Z).

Definition be (l : list Z) : Z := foldl (λ acc b, 256 * acc + b) 0 l.

(** RFC 6455. *)
Definition decode_header (c : list Z) : header_result :=
  match c with
  | b0 :: b1 :: c' =>
      if negb (Z.land b0 0x70 =? 0) then HError else
      let mask := negb (Z.land b1 0x80 =? 0) in
      let header ext len :=
        HHeader (Hdr (negb (Z.land b0 0x80 =? 0)) (Z.land b0 0x0f) mask) (2 + ext)
          (2 + ext + if mask then 4 else 0) len in
      let extended ext := if zlen c' <? ext then HMore else header ext (be (ztake ext c')) in
      let len7 := Z.land b1 0x7f in
      if len7 =? 126 then extended 2 else if len7 =? 127 then extended 8 else header 0 len7
  | _ => HMore
  end.

(** What the code reads. *)
Definition read_header (c : list Z) : header_result :=
  match c with
  | b0 :: b1 :: c' =>
      if negb (Z.land b0 0x70 =? 0) then HError else
      let mask := negb (Z.land b1 0x80 =? 0) in
      let h := Hdr (negb (Z.land b0 0x80 =? 0)) (Z.land b0 0x0f) mask in
      let hdr hl len := HHeader h hl (if mask then hl + 4 else hl) len in
      let len7 := Z.land b1 0x7f in
      if len7 =? 126 then
        match c' with x :: y :: _ => hdr 4 (be [x; y]) | _ => HMore end
      else if len7 =? 127 then
        match c' with
        | _ :: _ :: _ :: _ :: x :: y :: z :: w :: _ => hdr 10 (be [x; y; z; w])
        | _ => HMore
        end
      else hdr 2 len7
  | _ => HMore
  end.

(** A length, as far as it fits the four bytes that are read of it. *)
Definition low_length (r : header_result) : header_result :=
  match r with HHeader h hl off len => HHeader h hl off (len mod 2 ^ 32) | r => r end.

(** ** Big-endian integers *)

Lemma be_app l m : be (l ++ m) = be l * 256 ^ zlen m + be m.
Proof.
  revert l. induction m as [|b m IH] using rev_ind; intros l.
  { rewrite app_nil_r. change (be []) with 0. change (256 ^ zlen []) with 1. lia. }
  assert (∀ l, be (l ++ [b]) = 256 * be l + b) as Hsnoc by (intros l'; unfold be; by rewrite foldl_app).
  rewrite app_assoc, !Hsnoc, IH, zlen_app. change (zlen [b]) with 1. zlen_pos.
  rewrite Z.pow_add_r by lia. lia.
Qed.

Lemma be_bounds l : Forall is_byte l → 0 <= be l < 256 ^ zlen l.
Proof.
  induction l as [|b l IH] using rev_ind; [done|]. intros [Hl Hb]%Forall_app.
  apply Forall_inv in Hb. specialize (IH Hl). unfold is_byte in Hb. rewrite be_app, zlen_app.
  change (zlen [b]) with 1. change (be [b]) with (256 * 0 + b). zlen_pos. rewrite Z.pow_add_r by lia. lia.
Qed.

(** The code follows the RFC up to the upper half of the longest length. *)
Lemma read_header_low c : Forall is_byte c → read_header c = low_length (decode_header c).
Proof.
  intros Hc. destruct c as [|b0 [|b1 c]]; [done|done|]. unfold read_header, decode_header.
  destruct (negb (Z.land b0 112 =? 0)); [done|].
  pose proof (Z.land_ones b1 7 ltac:(done)) as H7. change (Z.ones 7) with 127 in H7.
  pose proof (Z.mod_pos_bound b1 (2 ^ 7) ltac:(done)) as Hb7. rewrite <-H7 in Hb7. change (2 ^ 7) with 128 in Hb7.
  assert (∀ hl, (if negb (Z.land b1 128 =? 0) then hl + 4 else hl) = hl + if negb (Z.land b1 128 =? 0) then 4 else 0) as Hoff
    by (intros hl; destruct (negb _); lia).
  apply Forall_inv_tail, Forall_inv_tail in Hc. cbv zeta. rewrite !Hoff.
  assert (∀ ext : Z, 0 <= ext → ext <= zlen c → 0 <= be (ztake ext c) < 256 ^ ext) as Hbe.
  { intros ext ? ?. pose proof (be_bounds (ztake ext c)) as Hb. rewrite zlen_ztake in Hb by lia. apply Hb.
    by apply Forall_take. }
  destruct (Z.eqb_spec (Z.land b1 127) 126); [|destruct (Z.eqb_spec (Z.land b1 127) 127)].
  - destruct (Z.ltb_spec (zlen c) 2) as [Hl|Hl].
    + destruct c as [|? [|? ?]]; [done|done|zl].
    + specialize (Hbe 2 ltac:(done) Hl). destruct c as [|x [|y c]]; [zl|zl|].
      change (ztake 2 (x :: y :: c)) with [x; y] in *. cbn [low_length]. change (256 ^ 2) with 65536 in Hbe.
      by rewrite Z.mod_small by (change (2 ^ 32) with 4294967296; lia).
  - destruct (Z.ltb_spec (zlen c) 8) as [Hl|Hl].
    + do 8 (destruct c as [|? c]; [done|]). zl.
    + do 4 (destruct c as [|? c]; [zl|]). destruct c as [|n1 [|n2 [|n3 [|n4 c]]]]; [zl|zl|zl|zl|].
      match goal with |- context [ztake 8 ?l] => change (ztake 8 l) with ([z; z0; z1; z2] ++ [n1; n2; n3; n4]) end.
      cbn [low_length]. rewrite be_app. change (256 ^ zlen [n1; n2; n3; n4]) with (2 ^ 32).
      assert (0 <= be [n1; n2; n3; n4] < 2 ^ 32) as Hlow.
      { apply (be_bounds [n1; n2; n3; n4]). decompose_Forall_hyps.
        repeat first [apply Forall_nil_2|apply Forall_cons_2; [done|]]. }
      assert (∀ a b, 0 <= b < 2 ^ 32 → (a * 2 ^ 32 + b) mod 2 ^ 32 = b) as Hmod
        by (intros; rewrite Z.add_comm, Z.mod_add, Z.mod_small; done).
      by rewrite Hmod.
  - cbn [low_length]. by rewrite Z.mod_small by (change (2 ^ 32) with 4294967296; lia).
Qed.

Lemma ntohs_at_spec data off x y :
  mem_read data off 2 = Some [x; y] → is_byte x → is_byte y →
  ntohs_at data off = Some (be [x; y]).
Proof.
  unfold ntohs_at, is_byte, be. intros -> Hx Hy. simpl.
  rewrite lor_add_low by lia. f_equal. change (2 ^ 8) with 256. lia.
Qed.

Lemma ntohl_at_spec data off x y z w :
  mem_read data off 4 = Some [x; y; z; w] →
  is_byte x → is_byte y → is_byte z → is_byte w →
  ntohl_at data off = Some (be [x; y; z; w]).
Proof.
  unfold ntohl_at, is_byte, be. intros -> Hx Hy Hz Hw. simpl.
  rewrite (lor_add_low z) by lia. rewrite (lor_add_low y) by (change (2 ^ 16) with 65536; lia).
  rewrite lor_add_low by (change (2 ^ 16) with 65536; change (2 ^ 24) with 16777216; lia).
  f_equal. change (2 ^ 8) with 256. change (2 ^ 16) with 65536. change (2 ^ 24) with 16777216. lia.
Qed.

(** ** [get_frame] *)

(** The header of the frame that starts the receive buffer, as the code reads
    it from memory. *)
Lemma get_frame_length_spec e b c' tail len7 b0 b1 :
  b_data b = (b0 :: b1 :: c') ++ tail → Forall is_byte c' →
  b_length b = zlen (b0 :: b1 :: c') → len7 = Z.land b1 0x7f →
  wp e (get_frame_length (b_data b) (b_length b) len7) (λ r,
    match r with
    | None => read_header (b0 :: b1 :: c') = HMore ∨ read_header (b0 :: b1 :: c') = HError
    | Some (len, hl) =>
        read_header (b0 :: b1 :: c') =
          if negb (Z.land b0 0x70 =? 0) then HError else
          HHeader (Hdr (negb (Z.land b0 0x80 =? 0)) (Z.land b0 0x0f)
                     (negb (Z.land b1 0x80 =? 0))) hl
            (if negb (Z.land b1 0x80 =? 0) then hl + 4 else hl) len
    end).
Proof.
  intros Hd Hb Hlen ->. unfold get_frame_length, read_header. rewrite Hlen, Hd.
  destruct (Z.land b1 0x7f =? 126); [|destruct (Z.land b1 0x7f =? 127)].
  - bcase.
    + apply wp_ret. destruct (negb _); [by right|].
      destruct c' as [|x [|y c']]; [by left|by left|zl].
    + destruct c' as [|x [|y c']]; [zl|zl|]. decompose_Forall_hyps.
      wstep. eapply wp_opt; [apply (ntohs_at_spec _ _ x y); try done|by apply wp_ret].
      rewrite mem_read_Some; [done|lia|lia|zl].
  - bcase.
    + apply wp_ret. destruct (negb _); [by right|]. left.
      do 8 (destruct c' as [|? c']; [done|]). zl.
    + do 4 (destruct c' as [|? c']; [zl|]).
      destruct c' as [|n1 [|n2 [|n3 [|n4 c']]]]; [zl|zl|zl|zl|]. decompose_Forall_hyps.
      wstep. eapply wp_opt; [apply (ntohl_at_spec _ _ n1 n2 n3 n4); try done|by apply wp_ret].
      rewrite mem_read_Some; [done|lia|lia|zl].
  - by apply wp_ret.
Qed.

Lemma land_ones_bound a n : 0 <= n → 0 <= Z.land a (Z.ones n) < 2 ^ n.
Proof. intros. rewrite Z.land_ones by done. apply Z.mod_pos_bound. lia. Qed.

Lemma read_header_bounds c h hl off len :
  Forall is_byte c → read_header c = HHeader h hl off len →
  0 <= len < 2 ^ 32 ∧ 2 <= hl <= 10 ∧ hl <= zlen c ∧
  off = (if h_mask h then hl + 4 else hl).
Proof.
  intros Hc. destruct c as [|b0 [|b1 c]]; [done|done|]. simpl.
  destruct (negb (Z.land b0 112 =? 0)); [done|].
  pose proof (land_ones_bound b1 7 ltac:(done)) as Hl. change (Z.ones 7) with 127 in Hl.
  destruct (Z.land b1 127 =? 126); [|destruct (Z.land b1 127 =? 127)].
  - destruct c as [|x [|y c]]; [done|done|]. intros [= <- <- <- <-]. unfold be; simpl.
    decompose_Forall_hyps. unfold is_byte in *. split_and!; try done; zl.
  - do 4 (destruct c as [|? c]; [done|]).
    destruct c as [|n1 [|n2 [|n3 [|n4 c]]]]; try done. intros [= <- <- <- <-]. unfold be; simpl.
    decompose_Forall_hyps. unfold is_byte in *. split_and!; try done; zl.
  - intros [= <- <- <- <-]. simpl. split_and!; try done; try lia. zl.
Qed.

Lemma decode_header_length c h hl off len :
  Forall is_byte c → decode_header c = HHeader h hl off len → 0 <= len.
Proof.
  intros Hc. destruct c as [|b0 [|b1 c]]; [done|done|]. unfold decode_header.
  apply Forall_inv_tail, Forall_inv_tail in Hc.
  assert (∀ n, 0 <= be (ztake n c)) by (intros n; eapply proj1, be_bounds; by apply Forall_take).
  destruct (negb (Z.land b0 112 =? 0)); [done|]. pose proof (land_ones_bound b1 7 ltac:(done)) as H7.
  change (Z.ones 7) with 127 in H7.
  destruct (_ =? 126); [|destruct (_ =? 127)]; cbv zeta; try destruct (_ <? _); intros [= <- <- <- <-]; try done; lia.
Qed.

(** The bytes [get_frame] copies before it knows whether the frame is whole
    must lie within the receive buffer's allocation. *)
Definition frame_readable (src buffer : buffer_t) : Prop :=
  ∀ h hl off len, read_header (contents src) = HHeader h hl off len →
    off + accepted (buffer_clear buffer) len <= b_capacity src.

Definition frame_payload (h : frame_hdr) (hl : Z) (c d : list Z) : list Z :=
  if h_mask h then xor_mask (zdrop hl c) 0 d else d.

Definition get_frame_post (e : env) (src buffer : buffer_t)
    '((fs, hdr, src', buffer') : frame_status * option frame_hdr * buffer_t * buffer_t) : Prop :=
  buffer_wf src' ∧ buffer_wf buffer' ∧
  b_max_length src' = b_max_length src ∧ b_max_length buffer' = b_max_length buffer ∧
  b_capacity src' = b_capacity src ∧
  match read_header (contents src) with
  | HMore => fs = FS_BUILDING ∧ hdr = None ∧ src' = src ∧ buffer' = buffer
  | HError => fs = FS_ERROR ∧ hdr = None ∧ src' = src ∧ buffer' = buffer
  | HHeader h hl off len =>
      (fs = FS_ERROR ∧ hdr = None ∧ src' = src ∧ e = Hostile) ∨
      if zlen (contents src) <? off + len
      then fs = FS_BUILDING ∧ hdr = None ∧ src' = src
      else fs = FS_READY ∧ hdr = Some h ∧
           contents src' = zdrop (off + len) (contents src) ∧
           contents buffer' =
             frame_payload h hl (contents src)
               (ztake (accepted (buffer_clear buffer) len) (zdrop off (contents src)))
  end.

(** Unmasking in place, the key read from the receive buffer's memory. *)
Lemma get_frame_unmask e (mask : bool) b c tail hl :
  buffer_wf b → Forall is_byte (c ++ tail) → 0 <= hl → (mask = true → hl + 4 <= zlen c) →
  wp e (if mask then opt (unmask (b_data b) (b_length b) (zdrop hl (c ++ tail)))
        else mret (b_data b)) (λ dat,
    let b' := Buffer dat (b_length b) (b_capacity b) (b_max_length b) in
    buffer_wf b' ∧
    contents b' = if mask then xor_mask (zdrop hl c) 0 (contents b) else contents b).
Proof.
  intros Hwf Hb ? Hk. destruct mask; [|by apply wp_ret; destruct b].
  specialize (Hk eq_refl). pose proof Hwf as [].
  rewrite zdrop_app_le by lia. assert (4 <= zlen (zdrop hl c ++ tail)) by zl.
  eapply wp_opt; [apply unmask_spec; [lia|done]|].
  apply Forall_app in Hb as [Hc Ht].
  set (x := xor_mask _ _ _). assert (zlen x = b_length b) as Hx.
  { unfold x. rewrite zlen_xor_mask. zl. }
  split; [split; simpl; try done; [zl|]|].
  - apply Forall_app_2; [apply xor_mask_bytes; [apply Forall_app_2|]|]; auto with zlist.
  - unfold contents at 1; simpl. rewrite ztake_app_exact by done. unfold x.
    rewrite <-(ztake_zdrop 4 (zdrop hl c)), <-app_assoc.
    assert (zlen (ztake 4 (zdrop hl c)) = 4) by zl.
    by rewrite !xor_mask_key_app by done.
Qed.

Lemma get_frame_spec e src buffer :
  buffer_wf src → buffer_wf buffer → frame_readable src buffer →
  wp e (get_frame src buffer) (get_frame_post e src buffer).
Proof.
  intros Hs Hb Hr. pose proof (zlen_contents _ Hs) as Hlen.
  pose proof (contents_bytes _ Hs) as Hcb. pose proof (data_contents _ Hs) as Hd.
  unfold get_frame, get_frame_post, frame_readable in *.
  set (tail := zdrop _ _) in Hd.
  destruct (contents src) as [|b0 [|b1 c']] eqn:Hc; rewrite <-Hlen;
    [by apply wp_ret|by apply wp_ret|].
  destruct (Z.ltb_spec (zlen (b0 :: b1 :: c')) 2); [zl|].
  wstep. apply (wp_opt _ _ b0); [by rewrite Hd|].
  destruct (Z.land b0 112 =? 0) eqn:Hrsv; simpl negb; cbv iota;
    [|apply wp_ret; simpl read_header; rewrite Hrsv; by split_and!].
  wstep. apply (wp_opt _ _ b1); [by rewrite Hd|].
  wstep. rewrite Hlen.
  eapply wp_mono.
  { apply get_frame_length_spec with (tail := tail) (b0 := b0) (b1 := b1) (c' := c'); try done.
    by apply Forall_inv_tail, Forall_inv_tail in Hcb. }
  intros [[len hl]|] Hdec; cbv beta iota in Hdec.
  2: { apply wp_ret. destruct Hdec as [->|Hdec]; [by split_and!|].
       exfalso. revert Hdec. simpl. rewrite Hrsv. simpl. by repeat case_match. }
  rewrite Hrsv in Hdec. simpl negb in Hdec. cbv iota in Hdec.
  set (mask := negb (Z.land b1 128 =? 0)) in *.
  rewrite Hdec. set (off := if mask then hl + 4 else hl) in *. set (c := b0 :: b1 :: c') in *.
  destruct (read_header_bounds c _ _ _ _ Hcb Hdec) as (Hl & Hhl & Hhlc & _).
  specialize (Hr _ _ _ _ Hdec).
  assert (hl <= off <= hl + 4) by (unfold off; destruct mask; lia).
  destruct (accepted_bounds (buffer_clear buffer) len) as [Hacc _]; [auto with buf|lia|].
  pose proof Hs as [? Hsd Hcap ? ? Hsb]. unfold PTRDIFF_MAX in *.
  rewrite szt_small by lia. wstep.
  eapply wp_mono; [apply buffer_set_data_spec; auto; unfold PTRDIFF_MAX; lia|].
  intros [[] buffer'] (Hb' & Hbm & Hbc); simpl negb; cbv iota;
    [|apply wp_ret; destruct Hbc; split_and!; auto].
  destruct (Z.ltb_spec (b_length src) (off + len)).
  { apply wp_ret. split_and!; auto. }
  rewrite Hd. wstep. eapply wp_mono.
  { apply get_frame_unmask with (c := c); auto; [by rewrite <-Hd|lia|].
    intros Hm. unfold off in *. rewrite Hm in *. lia. }
  intros dat [Hdat Hpay]. wstep.
  eapply wp_mono; [apply buffer_remove_data_spec; auto; lia|].
  intros src' (? & ? & ? & ? & Hsrc'). apply wp_ret. split_and!; auto.
  right. split_and!; try done; [by rewrite Hsrc', Hc|].
  rewrite Hpay, Hbc, Hd, zdrop_app_le, ztake_app_le by zl. done.
Qed.

(** The other side of [frame_readable]: when the copied range leaves the
    receive buffer's allocation, [get_frame] reads out of bounds. *)
Lemma get_frame_overread_ub src buffer h hl off len :
  buffer_wf src → buffer_wf buffer →
  read_header (contents src) = HHeader h hl off len →
  0 < len → b_capacity src < off + accepted (buffer_clear buffer) len →
  get_frame src buffer [] = None.
Proof.
  intros Hs Hb Hdec Hpos Hover. pose proof (zlen_contents _ Hs) as Hlen.
  pose proof (contents_bytes _ Hs) as Hcb. pose proof (data_contents _ Hs) as Hd.
  destruct (read_header_bounds _ _ _ _ _ Hcb Hdec) as (Hl & Hhl & Hhlc & Hoff).
  unfold get_frame. set (tail := zdrop _ _) in Hd.
  destruct (contents src) as [|b0 [|b1 c']] eqn:Hc; [done|done|].
  assert (get_frame_length (b_data src) (b_length src) (Z.land b1 127) [] =
    Some (Some (len, hl), []) ∧ (Z.land b0 112 =? 0) = true ∧
    h_mask h = negb (Z.land b1 128 =? 0)) as (E & Hrsv & Hm).
  { destruct (get_frame_length_spec Benign src c' tail _ b0 b1 Hd
      ltac:(by apply Forall_inv_tail, Forall_inv_tail in Hcb) ltac:(done) eq_refl)
      as (r & E & Hw). rewrite E. rewrite Hdec in Hw.
    destruct r as [[len' hl']|]; [|by destruct Hw].
    destruct (Z.land b0 112 =? 0) eqn:Hrsv; by simplify_eq/=. }
  assert (buffer_set_data buffer (b_data src) off len [] = None) as Hub.
  { assert (0 <= off) by (rewrite Hoff; destruct (h_mask h); lia). pose proof Hs as [].
    destruct (accepted_bounds (buffer_clear buffer) len) as [Ha _]; [auto with buf|lia|].
    unfold buffer_set_data. apply buffer_append_overread; auto with buf; try lia.
    - destruct Hb. unfold accepted. simpl. bcase; lia.
    - simpl. unfold PTRDIFF_MAX. lia. }
  assert (znth (b_data src) 0 = Some b0 ∧ znth (b_data src) 1 = Some b1) as [H0 H1]
    by by rewrite Hd.
  destruct (Z.ltb_spec (b_length src) 2); [rewrite <-Hlen in *; zl|].
  unfold mbind, M_bind, mret, M_ret. rewrite H0, H1. simpl. rewrite Hrsv. simpl. rewrite E. simpl.
  rewrite <-Hm, <-Hoff. by rewrite Hub.
Qed.
