(* ===== verification/WsMessageSpec.v ===== *)
(** * The message assembler, abstractly, and the refinement

    A pure state machine on byte lists that states what the message component
    computes: no buffers, capacities, reallocation or [memmove].  The theorem
    [wsmsg_process_refines] and its companions show that [wsmessage.c]
    implements it, the truncations at the configured limits included. *)

From S2P Require Import Prelude Buffer Config WsMessage WsFrameSpec.

(** ** The machine *)

Definition take_limit (limit len : Z) : Z := if limit =? 0 then len else Z.min len limit.

Inductive next := NMore | NError | NFrame (h : frame_hdr) (payload rest : list Z).

Definition next_frame (limit : Z) (c : list Z) : next :=
  match read_header c with
  | HMore => NMore
  | HError => NError
  | HHeader h hl off len =>
      if zlen c <? off + len then NMore
      else NFrame h (frame_payload h hl c (ztake (take_limit limit len) (zdrop off c)))
             (zdrop (off + len) c)
  end.

(** Appending to a list with a limit: [None] when nothing fits. *)
Definition append_limit (limit : Z) (m p : list Z) : option (list Z) :=
  if zlen p =? 0 then Some m
  else if limit =? 0 then Some (m ++ p)
  else if zlen m <? limit then Some (m ++ ztake (limit - zlen m) p) else None.

(** [a_in]: bytes received and not consumed; [a_ctl]: the pending control frame;
    [a_msg]: the message being assembled or, with [a_full], complete. *)
Record asm := Asm {
  a_in : list Z;
  a_ctl : option (frame_hdr * list Z);
  a_msg : list Z;
  a_op : Z;
  a_started : bool;
  a_full : bool;
  a_err : bool }.

Record limits := Limits { lim_frame : Z; lim_message : Z; lim_in : Z }.

Definition asm_fail (s : asm) : asm :=
  Asm (a_in s) (a_ctl s) (a_msg s) (a_op s) (a_started s) (a_full s) true.

Definition asm_dispatch (l : limits) (h : frame_hdr) (p : list Z) (s : asm) : bool * asm :=
  if is_control (h_opcode h) then
    if h_fin h
    then (false, Asm (a_in s) (Some (h, p)) (a_msg s) (a_op s) (a_started s) (a_full s) (a_err s))
    else (false, asm_fail s)
  else if eqb (a_started s) (h_opcode h =? OPCODE_CONTINUATION) then
    match append_limit (lim_message l) (a_msg s) p with
    | Some m => (true, Asm (a_in s) (a_ctl s) m (if a_started s then a_op s else h_opcode h)
                  true (if h_fin h then true else a_full s) (a_err s))
    | None => (false, asm_fail s)
    end
  else (false, asm_fail s).

Definition asm_step (l : limits) (s : asm) : bool * asm :=
  match next_frame (lim_frame l) (a_in s) with
  | NMore => (false, s)
  | NError => (false, asm_fail s)
  | NFrame h p rest =>
      asm_dispatch l h p
        (Asm rest (a_ctl s) (a_msg s) (a_op s) (a_started s) (a_full s) (a_err s))
  end.

Fixpoint asm_loop (l : limits) (fuel : nat) (s : asm) : asm :=
  match fuel with
  | O => s
  | S fuel' => let '(again, s') := asm_step l s in
               if again then asm_loop l fuel' s' else s'
  end.

Definition asm_idle (s : asm) : bool :=
  negb (a_full s || (if a_ctl s is Some _ then true else false) || a_err s).

Definition asm_process (l : limits) (s : asm) : asm :=
  if asm_idle s then asm_loop l (S (length (a_in s))) s else s.

Definition asm_add (l : limits) (s : asm) (data : list Z) : bool * asm :=
  match append_limit (lim_in l) (a_in s) data with
  | Some i => (true, asm_process l
                 (Asm i (a_ctl s) (a_msg s) (a_op s) (a_started s) (a_full s) (a_err s)))
  | None => (false, s)
  end.

(** Reading a message out: the message and its opcode. *)
Definition asm_get_message (l : limits) (s : asm) : option (list Z * Z * asm) :=
  if a_full s
  then Some (a_msg s, a_op s,
             asm_process l (Asm (a_in s) (a_ctl s) [] (a_op s) false false (a_err s)))
  else None.

Definition asm_get_frame (l : limits) (s : asm) : option (frame_hdr * list Z * asm) :=
  match a_ctl s with
  | Some (h, p) => Some (h, p, asm_process l
      (Asm (a_in s) None (a_msg s) (a_op s) (a_started s) (a_full s) (a_err s)))
  | None => None
  end.

(** ** The abstraction *)

Definition abs (w : wsmsg_t) : asm :=
  Asm (contents (wm_frame_buffer w))
    (if wm_frame w
     then Some (Hdr (wm_fin w) (wm_opcode w) (wm_mask w), contents (wm_frame_data w))
     else None)
    (contents (wm_message_buffer w)) (wm_message_opcode w) (wm_message_started w)
    (wm_message w) (wm_error w).

Definition wm_limits (w : wsmsg_t) : limits :=
  Limits (b_max_length (wm_frame_data w)) (b_max_length (wm_message_buffer w))
    (b_max_length (wm_frame_buffer w)).

(** The invariant: three well-formed buffers, and no more data than a quarter of
    the address space. *)
Record wsmsg_wf (w : wsmsg_t) : Prop := {
  ww_frame_buffer : buffer_wf (wm_frame_buffer w);
  ww_frame_data : buffer_wf (wm_frame_data w);
  ww_message_buffer : buffer_wf (wm_message_buffer w);
  ww_size : b_length (wm_frame_buffer w) + b_length (wm_message_buffer w) <= 2 ^ 62 }.

(** What a call leaves unchanged. *)
Definition wm_same (w w' : wsmsg_t) : Prop :=
  wm_limits w' = wm_limits w ∧
  b_capacity (wm_frame_buffer w') = b_capacity (wm_frame_buffer w).

(** The result of a call against the machine: in a hostile environment it may
    also be the error state. *)
Definition refines (e : env) (w' : wsmsg_t) (s' : asm) : Prop :=
  abs w' = s' ∨ (e = Hostile ∧ wm_error w' = true).

(** Whether the bytes copied for the frame at the front of [c], and for the
    frames after it, lie within a receive buffer of capacity [cap]. *)
Fixpoint readable (fuel : nat) (cap limit : Z) (c : list Z) : Prop :=
  match fuel with
  | O => True
  | S fuel' =>
      match read_header c with
      | HHeader h hl off len =>
          off + take_limit limit len <= cap ∧
          (off + len <= zlen c → readable fuel' cap limit (zdrop (off + len) c))
      | _ => True
      end
  end.

Lemma accepted_clear b len : accepted (buffer_clear b) len = take_limit (b_max_length b) len.
Proof. unfold accepted, take_limit. simpl. by rewrite Z.sub_0_r. Qed.

Lemma readable_frame fuel cap src buffer :
  b_capacity src = cap → readable (S fuel) cap (b_max_length buffer) (contents src) →
  frame_readable src buffer.
Proof.
  intros <- Hr h hl off len Hdec. simpl in Hr. rewrite Hdec in Hr.
  rewrite accepted_clear. apply Hr.
Qed.

Lemma append_limit_accepted b p :
  buffer_wf b →
  append_limit (b_max_length b) (contents b) p =
    if (zlen p =? 0) || (0 <? accepted b (zlen p))
    then Some (contents b ++ ztake (accepted b (zlen p)) p) else None.
Proof.
  intros Hb. unfold append_limit, accepted. rewrite zlen_contents by done.
  pose proof (zlen_nonneg p). destruct Hb.
  destruct (Z.eqb_spec (zlen p) 0) as [E|E]; simpl.
  { apply zlen_0_nil in E as ->. unfold ztake. by rewrite take_nil, app_nil_r. }
  destruct (Z.eqb_spec (b_max_length b) 0).
  { rewrite ztake_all. by bcase; [|lia]. }
  destruct (Z.ltb_spec (b_length b) (b_max_length b)).
  - destruct (Z.ltb_spec 0 (Z.min (zlen p) (b_max_length b - b_length b))); [|lia].
    do 2 f_equal. destruct (Z.le_ge_cases (zlen p) (b_max_length b - b_length b)).
    + rewrite Z.min_l, ztake_all by lia. by apply ztake_ge.
    + by rewrite Z.min_r by lia.
  - by destruct (Z.ltb_spec 0 (Z.min (zlen p) (b_max_length b - b_length b))); [lia|].
Qed.

(** [buffer_append] of a list is [append_limit] on contents. *)
Lemma buffer_append_refines e b src off len :
  buffer_wf b → Forall is_byte src → 0 <= off → 0 <= len → off + len <= zlen src →
  b_length b + len + 1024 <= PTRDIFF_MAX →
  wp e (buffer_append b src off len) (λ '(ok, b'),
    buffer_wf b' ∧ b_max_length b' = b_max_length b ∧ b_capacity b <= b_capacity b' ∧
    match append_limit (b_max_length b) (contents b) (ztake len (zdrop off src)) with
    | Some m => (ok = true ∧ contents b' = m) ∨ (ok = false ∧ b' = b ∧ e = Hostile)
    | None => ok = false ∧ b' = b
    end).
Proof.
  intros Hb Hs Hoff Hlen Hin Hsmall.
  destruct (accepted_bounds b len Hb Hlen) as [Hacc _]. pose proof Hb as [].
  eapply wp_mono; [apply buffer_append_spec; auto; lia|].
  intros [ok b'] (? & ? & ? & Hr). split_and!; auto.
  rewrite append_limit_accepted by done. rewrite zlen_slice by done.
  rewrite ztake_ztake by done.
  destruct ok.
  - destruct Hr as (Hc & Hz). replace ((len =? 0) || (0 <? accepted b len)) with true; [auto|].
    repeat (bcase; simpl); done || lia.
  - destruct Hr as (-> & ? & Hz). destruct (Z.eqb_spec len 0); [lia|]. simpl.
    destruct Hz as [->|[->|?]]; [|by rewrite Z.ltb_irrefl|lia]. by case_match; auto.
Qed.

Lemma is_control_spec op :
  is_control op = true ↔ op = OPCODE_CLOSE ∨ op = OPCODE_PING ∨ op = OPCODE_PONG.
Proof. unfold is_control. rewrite !orb_true_iff, !Z.eqb_eq. tauto. Qed.

Lemma frame_payload_len h hl c d : zlen (frame_payload h hl c d) = zlen d.
Proof. unfold frame_payload. destruct (h_mask h); [apply zlen_xor_mask|done]. Qed.

(** The data-frame part of the loop body. *)
Lemma wsmsg_data_frame_refines e h w :
  wsmsg_wf w →
  b_length (wm_frame_buffer w) + b_length (wm_message_buffer w) +
    b_length (wm_frame_data w) <= 2 ^ 62 →
  wp e (wsmsg_data_frame h w) (λ '(again, w'),
    wsmsg_wf w' ∧ wm_same w w' ∧ wm_frame w' = wm_frame w ∧
    wm_frame_buffer w' = wm_frame_buffer w ∧
    match append_limit (b_max_length (wm_message_buffer w)) (contents (wm_message_buffer w))
            (contents (wm_frame_data w)) with
    | Some m =>
        (again = true ∧
         (wm_frame w = false →
          abs w' = Asm (contents (wm_frame_buffer w)) None m
            (if wm_message_started w then wm_message_opcode w else h_opcode h) true
            (if h_fin h then true else wm_message w) (wm_error w))) ∨
        (again = false ∧ e = Hostile ∧ wm_error w' = true)
    | None => again = false ∧ w' = wm_set_error w
    end).
Proof.
  intros [Hfb Hfd Hmb Hsz] Htot. unfold wsmsg_data_frame. wstep.
  pose proof Hfd as []. eapply wp_mono; [apply buffer_append_refines; auto; try lia|].
  { destruct Hfb, Hmb. unfold PTRDIFF_MAX. lia. }
  intros [ok mb] (Hmb' & Hmax & _ & Hr). rewrite zdrop_0 in Hr. fold (contents (wm_frame_data w)) in Hr.
  destruct ok; simpl negb; cbv iota.
  - wstep. eapply wp_mono; [apply buffer_remove_data_spec; auto; lia|].
    intros fd (Hfd' & Hfdm & Hfdl & _ & Hfdc). apply wp_ret.
    destruct (append_limit _ _ _) as [m|] eqn:Ha; [|by destruct Hr].
    destruct Hr as [[_ Hc]|[? _]]; [|done].
    assert (b_length mb <= b_length (wm_message_buffer w) + b_length (wm_frame_data w)).
    { rewrite <-(zlen_contents mb), Hc by done.
      revert Ha. rewrite append_limit_accepted by done. rewrite zlen_contents by done.
      destruct (accepted_bounds (wm_message_buffer w) (b_length (wm_frame_data w))); [done|lia|].
      case_match; [|done]. intros [= <-]. rewrite zlen_app, zlen_contents by done.
      rewrite zlen_ztake; [lia|]. by rewrite zlen_contents. }
    split_and!; simpl; auto.
    + split; simpl; auto. lia.
    + split; [|done]. unfold wm_limits; simpl. congruence.
    + left. split; [done|]. intros Hf. unfold abs; simpl. rewrite Hf, Hc. done.
  - apply wp_ret. split_and!; simpl; auto; [by split|by split|].
    destruct (append_limit _ _ _); [|by destruct Hr as [_ ->]].
    destruct Hr as [[? _]|(_ & _ & ?)]; [done|auto].
Qed.

Lemma next_frame_rest limit c h p rest :
  Forall is_byte c → next_frame limit c = NFrame h p rest →
  zlen p + zlen rest + 2 <= zlen c.
Proof.
  unfold next_frame. intros Hc.
  destruct (read_header c) as [| |h' hl off len] eqn:Hd; [done|done|].
  destruct (read_header_bounds _ _ _ _ _ Hc Hd) as (Hl & Hhl & Hhlc & Hoff).
  assert (2 <= off) by (rewrite Hoff; case_match; lia).
  destruct (Z.ltb_spec (zlen c) (off + len)); [done|]. intros [= <- <- <-].
  rewrite frame_payload_len.
  assert (0 <= take_limit limit len <= len ∨ take_limit limit len < 0) as [?|?].
  { unfold take_limit. bcase; lia. }
  - rewrite zlen_slice, zlen_zdrop by lia. lia.
  - unfold ztake. rewrite Z2Nat.nonpos by lia. rewrite zlen_zdrop by lia. simpl.
    autorewrite with zlist. lia.
Qed.

Lemma asm_step_shrinks l s s' :
  Forall is_byte (a_in s) → asm_step l s = (true, s') →
  zlen (a_in s') + 2 <= zlen (a_in s).
Proof.
  unfold asm_step, asm_dispatch. intros Hb. destruct (next_frame _ _) as [| |h p rest] eqn:Hn; [done|done|].
  apply next_frame_rest in Hn; [|done]. pose proof (zlen_nonneg p).
  repeat case_match; intros; simplify_eq/=; lia.
Qed.

(** What one pass of the loop preserves, and how its result relates to the
    machine's. *)
Definition step_post (e : env) (w : wsmsg_t) (r : bool * asm)
    '((again, w') : bool * wsmsg_t) : Prop :=
  wsmsg_wf w' ∧ wm_same w w' ∧
  ((again, abs w') = r ∨ (again = false ∧ e = Hostile ∧ wm_error w' = true)) ∧
  (again = true → wm_frame w' = false ∧ wm_frame_buffer w' = wm_frame_buffer w).

Lemma wsmsg_dispatch_refines e h w :
  wsmsg_wf w → wm_frame w = false →
  b_length (wm_frame_buffer w) + b_length (wm_message_buffer w) +
    b_length (wm_frame_data w) <= 2 ^ 62 →
  wp e (wsmsg_dispatch h w)
    (step_post e w (asm_dispatch (wm_limits w) h (contents (wm_frame_data w)) (abs w))).
Proof.
  intros Hw Hf Htot. unfold wsmsg_dispatch, asm_dispatch. pose proof Hw as [].
  assert (∀ r, r = (false, asm_fail (abs w)) → step_post e w r (false, wm_set_error w)) as Hfail.
  { intros r ->. split_and!; [by split|by split|left|done]. by unfold abs; simpl; rewrite Hf. }
  destruct (is_control _).
  { destruct h as [[] op m]; simpl; apply wp_ret; [|by apply Hfail].
    split_and!; [by split|by split|by left|done]. }
  simpl a_started. set (cont := h_opcode h =? _).
  destruct (wm_message_started w) eqn:Hst, cont; simpl; try (apply wp_ret; by apply Hfail).
  all: eapply wp_mono; [by apply wsmsg_data_frame_refines|];
    intros [again w'] (? & ? & ? & ? & Hr); destruct (append_limit _ _ _) as [m|];
    [split_and!; auto; [|intros; split; congruence]|destruct Hr as [-> ->]; by apply Hfail].
  all: destruct Hr as [[-> Ha]|(-> & -> & ?)]; [left|by right].
  all: rewrite Ha by done; rewrite Hst, Hf; done.
Qed.


(** [get_frame] in terms of [next_frame]. *)
Lemma get_frame_next e src buffer :
  buffer_wf src → buffer_wf buffer → frame_readable src buffer →
  wp e (get_frame src buffer) (λ '(fs, hdr, src', buffer'),
    buffer_wf src' ∧ buffer_wf buffer' ∧
    b_max_length src' = b_max_length src ∧ b_max_length buffer' = b_max_length buffer ∧
    b_capacity src' = b_capacity src ∧
    match next_frame (b_max_length buffer) (contents src) with
    | NMore => fs = FS_BUILDING ∧ src' = src ∨ fs = FS_ERROR ∧ src' = src ∧ e = Hostile
    | NError => fs = FS_ERROR ∧ src' = src
    | NFrame h p rest =>
        fs = FS_READY ∧ hdr = Some h ∧ contents src' = rest ∧ contents buffer' = p ∨
        fs = FS_ERROR ∧ src' = src ∧ e = Hostile
    end).
Proof.
  intros. eapply wp_mono; [by apply get_frame_spec|].
  intros [[[fs hdr] src'] buffer'] (? & ? & ? & ? & ? & Hp). split_and!; auto.
  unfold next_frame. destruct (read_header _) as [| |h hl off len].
  - destruct_and!; auto.
  - destruct_and!; auto.
  - rewrite accepted_clear in Hp. destruct (_ <? _), Hp; destruct_and!; auto 6.
Qed.

(** One pass of the loop refines one step of the machine. *)
Lemma wsmsg_step_refines e w :
  wsmsg_wf w → wm_frame w = false → frame_readable (wm_frame_buffer w) (wm_frame_data w) →
  wp e (wsmsg_step w) (λ '(again, w'),
    wsmsg_wf w' ∧ wm_same w w' ∧
    ((again, abs w') = asm_step (wm_limits w) (abs w) ∨
     (again = false ∧ e = Hostile ∧ wm_error w' = true)) ∧
    (again = true → wm_frame w' = false)).
Proof.
  intros Hw Hf Hr. pose proof Hw as [Hfb Hfd Hmb Hsz]. unfold wsmsg_step. wstep.
  eapply wp_mono; [by apply get_frame_next|].
  intros [[[fs hdr] fb] fd] (Hfb' & Hfd' & Hm1 & Hm2 & Hcap & Hpost).
  pose proof (contents_bytes _ Hfb) as Hcb. pose proof (zlen_contents _ Hfb) as Hlen.
  assert (wm_same w (wm_set_buffers fb fd w)) as Hsame.
  { split; [|done]. unfold wm_limits; simpl. congruence. }
  assert (Hsrc : fb = wm_frame_buffer w → wsmsg_wf (wm_set_buffers fb fd w) ∧
    abs (wm_set_buffers fb fd w) = abs w ∧
    abs (wm_set_error (wm_set_buffers fb fd w)) = asm_fail (abs w)).
  { intros ->. split_and!; [by split|by unfold abs; simpl; rewrite Hf..]. }
  unfold asm_step. simpl lim_frame. simpl a_in.
  destruct (next_frame _ _) as [| |h p rest] eqn:Hn.
  - destruct Hpost as [[-> ->]|(-> & -> & ->)]; destruct Hsrc as (? & Ha & He); auto; apply wp_ret.
    + rewrite Ha. auto.
    + split_and!; auto. by destruct H.
  - destruct Hpost as [-> ->]. destruct Hsrc as ([] & Ha & He); auto. apply wp_ret.
    rewrite He. split_and!; auto. by split.
  - destruct Hpost as [(-> & -> & Hc & Hp)|(-> & -> & ->)].
    2: { destruct Hsrc as ([] & _ & _); auto. apply wp_ret. split_and!; auto. by split. }
    apply next_frame_rest in Hn; [|done].
    rewrite <-Hc, <-Hp, !zlen_contents in Hn by done.
    pose proof (zlen_nonneg (contents fd)) as Hnn. rewrite zlen_contents in Hnn by done.
    eapply wp_mono; [apply wsmsg_dispatch_refines; simpl; auto; [split; simpl; auto; lia|lia]|].
    intros [again w'] (? & [Hl ?] & Hres & Hag). destruct Hsame as [Hl' Hc'].
    split; [done|]. split; [split; simpl in *; congruence|]. split.
    + destruct Hres as [Hres|?]; [left|by right]. rewrite Hl' in Hres. rewrite Hres.
      unfold abs at 1. simpl. by rewrite Hf, Hc, Hp.
    + intros Ht. by destruct Hag.
Qed.

Lemma asm_step_again l s s' :
  asm_step l s = (true, s') →
  ∃ h p, next_frame (lim_frame l) (a_in s) = NFrame h p (a_in s') ∧ a_ctl s' = a_ctl s.
Proof.
  unfold asm_step, asm_dispatch. destruct (next_frame _ _) as [| |h p rest]; [done|done|].
  repeat case_match; intros; simplify_eq/=; eauto.
Qed.

Lemma readable_step fuel cap l s s' :
  readable (S fuel) cap (lim_frame l) (a_in s) → asm_step l s = (true, s') →
  readable fuel cap (lim_frame l) (a_in s').
Proof.
  intros Hr (h & p & Hn & _)%asm_step_again. revert Hn. unfold next_frame. simpl in Hr.
  destruct (read_header _) as [| |h' hl off len]; [done|done|].
  destruct (Z.ltb_spec (zlen (a_in s)) (off + len)); [done|].
  intros [= _ _ <-]. by apply Hr.
Qed.

(** The loop: it terminates within its fuel and refines the machine's loop. *)
Lemma wsmsg_loop_refines e fuel w :
  wsmsg_wf w → wm_frame w = false → b_length (wm_frame_buffer w) < Z.of_nat fuel →
  readable fuel (b_capacity (wm_frame_buffer w)) (b_max_length (wm_frame_data w))
    (contents (wm_frame_buffer w)) →
  wp e (wsmsg_loop fuel w) (λ w',
    wsmsg_wf w' ∧ wm_same w w' ∧ refines e w' (asm_loop (wm_limits w) fuel (abs w))).
Proof.
  revert w. induction fuel as [|fuel IH]; intros w Hw Hf Hfuel Hr.
  { destruct Hw as [[]]. lia. }
  cbn [wsmsg_loop asm_loop]. wstep.
  eapply wp_mono; [apply wsmsg_step_refines; eauto using readable_frame|].
  intros [again w'] (Hw' & [Hl Hc] & Hres & Hag).
  destruct again.
  - destruct Hres as [Hres|[? _]]; [|done]. rewrite <-Hres.
    assert (b_length (wm_frame_buffer w') + 2 <= b_length (wm_frame_buffer w)).
    { symmetry in Hres. apply asm_step_shrinks in Hres; simpl in *.
      - destruct Hw, Hw'. by rewrite !zlen_contents in Hres.
      - destruct Hw. by apply contents_bytes. }
    eapply wp_mono; [apply IH; auto; [lia|]|].
    + symmetry in Hres. rewrite Hc. replace (b_max_length (wm_frame_data w'))
        with (lim_frame (wm_limits w)) by by rewrite <-Hl.
      exact (readable_step fuel _ (wm_limits w) (abs w) (abs w') Hr Hres).
    + intros w'' (? & [? ?] & ?). rewrite Hl in *.
      split_and!; auto. split; congruence.
  - apply wp_ret. split_and!; auto; [by split|].
    destruct Hres as [Hres|(_ & ? & ?)]; [left|by right]. by rewrite <-Hres.
Qed.

(** What the calls below need to read safely: the frames in the receive buffer. *)
Definition wm_readable (w : wsmsg_t) : Prop :=
  readable (S (Z.to_nat (b_length (wm_frame_buffer w)))) (b_capacity (wm_frame_buffer w))
    (b_max_length (wm_frame_data w)) (contents (wm_frame_buffer w)).

Lemma abs_idle w : asm_idle (abs w) = negb (wm_message w || wm_frame w || wm_error w).
Proof. unfold asm_idle. simpl. by destruct (wm_message w), (wm_frame w), (wm_error w). Qed.

Lemma wsmsg_process_refines e w :
  wsmsg_wf w → wm_readable w →
  wp e (wsmsg_process w) (λ w',
    wsmsg_wf w' ∧ wm_same w w' ∧ refines e w' (asm_process (wm_limits w) (abs w))).
Proof.
  intros Hw Hr. unfold wsmsg_process, asm_process. rewrite abs_idle.
  destruct (wm_message w) eqn:Hm, (wm_frame w) eqn:Hf, (wm_error w) eqn:He; cbn [orb negb];
    try (apply wp_ret; split_and!; [done|by split|by left]).
  pose proof Hw as [Hfb _ _ _]. pose proof Hfb as [].
  replace (length (a_in (abs w))) with (Z.to_nat (b_length (wm_frame_buffer w)))
    by (rewrite <-(zlen_contents _ Hfb); unfold zlen; simpl; lia).
  apply wsmsg_loop_refines; auto. lia.
Qed.

(** Adding received bytes. *)
Lemma wsmsg_add_refines e w data :
  wsmsg_wf w → Forall is_byte data →
  b_length (wm_frame_buffer w) + b_length (wm_message_buffer w) + zlen data <= 2 ^ 62 →
  (∀ fb, buffer_wf fb → b_capacity (wm_frame_buffer w) <= b_capacity fb →
     b_max_length fb = b_max_length (wm_frame_buffer w) →
     append_limit (lim_in (wm_limits w)) (a_in (abs w)) data = Some (contents fb) →
     wm_readable (wm_set_frame_buffer fb w)) →
  wp e (wsmsg_add w data) (λ '(ok, w'),
    wsmsg_wf w' ∧ wm_limits w' = wm_limits w ∧
    b_capacity (wm_frame_buffer w) <= b_capacity (wm_frame_buffer w') ∧
    let '(ok', s') := asm_add (wm_limits w) (abs w) data in
    (ok = ok' ∧ refines e w' s') ∨ (e = Hostile ∧ ok = false ∧ w' = w)).
Proof.
  intros Hw Hd Hsz Hr. pose proof Hw as [Hfb Hfd Hmb ?].
  pose proof (zlen_nonneg data). unfold wsmsg_add, asm_add. wstep.
  eapply wp_mono.
  { apply buffer_append_refines; auto; try lia. unfold PTRDIFF_MAX. destruct Hmb. lia. }
  rewrite zdrop_0, ztake_all. intros [ok fb] (Hfb' & Hm & Hcap & Hres).
  assert (wm_limits (wm_set_frame_buffer fb w) = wm_limits w) as Hl
    by (unfold wm_limits; simpl; congruence).
  change (lim_in (wm_limits w)) with (b_max_length (wm_frame_buffer w)) in *.
  change (a_in (abs w)) with (contents (wm_frame_buffer w)) in *.
  destruct (append_limit _ _ data) as [i|] eqn:Ha.
  - destruct Hres as [[-> Hc]|(-> & -> & ->)]; simpl negb; cbv iota.
    + assert (wsmsg_wf (wm_set_frame_buffer fb w)) as Hw'.
      { split; simpl; auto. rewrite <-(zlen_contents fb), Hc by done.
        revert Ha. rewrite append_limit_accepted by done.
        destruct (accepted_bounds (wm_frame_buffer w) (zlen data)); [done|lia|].
        case_match; [|done]. intros [= <-]. rewrite zlen_app, zlen_contents by done.
        rewrite zlen_ztake; lia. }
      wstep. eapply wp_mono; [apply wsmsg_process_refines; auto|].
      { apply Hr; auto. by rewrite Hc. }
      intros w' (? & [Hl' Hc'] & Href). apply wp_ret. rewrite Hl in *. simpl in Hc'.
      split_and!; auto; [lia|]. left. split; [done|]. unfold abs in Href. simpl in Href.
      by rewrite Hc in Href.
    + apply wp_ret. split_and!; auto; [by destruct w|]. right. by destruct w.
  - destruct Hres as [-> ->]. apply wp_ret. split_and!; auto; [by destruct w|].
    left. split; [done|]. left. by destruct w.
Qed.

(** Taking a message out and going on with the bytes already received. *)
Lemma wsmsg_get_message_refines e w dst :
  wsmsg_wf w → buffer_wf dst → b_max_length dst = 0 → wm_readable w →
  wp e (wsmsg_get_message w dst) (λ '(res, w', dst', op),
    wsmsg_wf w' ∧ buffer_wf dst' ∧ b_max_length dst' = 0 ∧ wm_same w w' ∧
    match asm_get_message (wm_limits w) (abs w) with
    | None => res = false ∧ w' = w ∧ dst' = dst ∧ op = None
    | Some (m, o, s') =>
        op = Some o ∧
        ((res = true ∧ contents dst' = m ∧ refines e w' s') ∨
         (res = false ∧ e = Hostile ∧
          refines e w' (asm_process (wm_limits w) (Asm (a_in (abs w)) (a_ctl (abs w)) m o false false
                                                     (a_err (abs w))))))
    end).
Proof.
  intros Hw Hdst Hmax Hr. pose proof Hw as [Hfb Hfd Hmb Hsz].
  unfold wsmsg_get_message, asm_get_message. simpl a_full.
  destruct (wm_message w) eqn:Hm; simpl negb; cbv iota; [|apply wp_ret; by split_and!].
  wstep. eapply wp_mono.
  { apply buffer_move_spec; auto. unfold PTRDIFF_MAX. destruct Hfb. lia. }
  intros [[res mb] dst'] (Hmb' & ? & Hmm & ? & Hres). wstep.
  set (w1 := Wsmsg _ _ _ _ _ _ _ _ _ _ _ _).
  assert (wm_limits w1 = wm_limits w) as Hl by (unfold wm_limits; simpl; congruence).
  assert (b_length mb <= b_length (wm_message_buffer w)) as Hlen.
  { destruct res; [|by destruct Hres as [-> _]]. destruct Hres as [Hc _].
    rewrite <-(zlen_contents mb), Hc by done. destruct Hmb. autorewrite with zlist. lia. }
  assert (wsmsg_wf w1) by (split; simpl; auto; lia).
  eapply wp_mono; [apply wsmsg_process_refines; auto|].
  intros w2 (? & [? ?] & Href). apply wp_ret. rewrite Hl in *.
  split_and!; auto; [by split|]. destruct res; destruct Hres as [Hc ?]; [left|right].
  - split_and!; auto. unfold abs in Href. simpl in Href. by rewrite Hc in Href.
  - split_and!; auto. subst mb. exact Href.
Qed.

(** The same for a control frame. *)
Lemma wsmsg_get_frame_refines e w dst :
  wsmsg_wf w → buffer_wf dst → b_max_length dst = 0 → wm_readable w →
  b_length (wm_frame_data w) <= 2 ^ 62 →
  wp e (wsmsg_get_frame w dst) (λ '(res, w', dst', hdr),
    wsmsg_wf w' ∧ buffer_wf dst' ∧ b_max_length dst' = 0 ∧ wm_same w w' ∧
    match asm_get_frame (wm_limits w) (abs w) with
    | None => res = false ∧ w' = w ∧ dst' = dst ∧ hdr = None
    | Some (h, p, s') =>
        hdr = Some h ∧
        ((res = true ∧ contents dst' = p ∧ refines e w' s') ∨ (res = false ∧ e = Hostile))
    end).
Proof.
  intros Hw Hdst Hmax Hr Hfl. pose proof Hw as [Hfb Hfd Hmb Hsz].
  unfold wsmsg_get_frame, asm_get_frame. simpl a_ctl.
  destruct (wm_frame w) eqn:Hf; simpl negb; cbv iota; [|apply wp_ret; by split_and!].
  wstep. eapply wp_mono.
  { apply buffer_move_spec; auto. unfold PTRDIFF_MAX. lia. }
  intros [[res fd] dst'] (Hfd' & ? & Hmm & ? & Hres). wstep.
  set (w1 := Wsmsg _ _ _ _ _ _ _ _ _ _ _ _).
  assert (wm_limits w1 = wm_limits w) as Hl by (unfold wm_limits; simpl; congruence).
  assert (wsmsg_wf w1) by (split; simpl; auto).
  eapply wp_mono; [apply wsmsg_process_refines; auto|].
  { unfold wm_readable. simpl. by rewrite Hmm. }
  intros w2 (? & [? ?] & Href). apply wp_ret. rewrite Hl in *.
  split_and!; auto; [by split|]. destruct res; [left|right; by destruct Hres].
  destruct Hres as [Hc ?]. split_and!; auto.
Qed.

(** ** Memory safety for small frames

    A frame header has at most 14 bytes.  With [max_frame_size] between 14 and
    114 the receive buffer is allocated from the start with room for a header
    and [max_frame_size] bytes of payload, and every copy of [get_frame] stays
    inside it, whatever bytes arrive. *)

Lemma readable_small fuel cap m c :
  0 < m → 14 + m <= cap → Forall is_byte c → readable fuel cap m c.
Proof.
  intros Hm Hcap. revert c. induction fuel as [|fuel IH]; intros c Hc; simpl; [done|].
  destruct (read_header c) as [| |h hl off len] eqn:Hd; [done|done|].
  destruct (read_header_bounds _ _ _ _ _ Hc Hd) as (? & ? & ? & ->).
  assert (take_limit m len <= m) by (unfold take_limit; bcase; lia).
  split; [case_match; lia|]. intros _. apply IH. auto with zlist.
Qed.

Record wm_small (w : wsmsg_t) : Prop := {
  ws_wf : wsmsg_wf w;
  ws_frame : 14 <= lim_frame (wm_limits w) <= 114;
  ws_in : lim_in (wm_limits w) = 2 * lim_frame (wm_limits w);
  ws_capacity : 14 + lim_frame (wm_limits w) <= b_capacity (wm_frame_buffer w);
  ws_message : 0 < lim_message (wm_limits w) <= INT_MAX }.

Lemma wm_small_readable w fb :
  wm_small w → buffer_wf fb → b_max_length fb = b_max_length (wm_frame_buffer w) →
  b_capacity (wm_frame_buffer w) <= b_capacity fb → wm_readable (wm_set_frame_buffer fb w).
Proof.
  intros [_ Hf Hi Hc _] Hfb Hm Hcap. simpl in *.
  apply readable_small; simpl; [lia|lia|by apply contents_bytes].
Qed.

Lemma wm_small_lengths w : wm_small w →
  b_length (wm_frame_buffer w) <= 228 ∧ b_length (wm_message_buffer w) <= INT_MAX ∧
  b_length (wm_frame_data w) <= 114.
Proof. intros [[[] [] [] _] Hf Hi Hc Hm]. simpl in *. lia. Qed.

Lemma wm_small_same w w' : wm_small w → wsmsg_wf w' → wm_limits w' = wm_limits w →
  b_capacity (wm_frame_buffer w) <= b_capacity (wm_frame_buffer w') → wm_small w'.
Proof. intros [] ? Hl ?. split; rewrite ?Hl; auto. lia. Qed.

(** The operations a client may call, in any order and with any bytes. *)
Inductive wm_op :=
  | OpAdd (data : list Z)
  | OpGetMessage (dst : buffer_t)
  | OpGetFrame (dst : buffer_t).

Definition wm_op_ok (o : wm_op) : Prop :=
  match o with
  | OpAdd data => Forall is_byte data ∧ zlen data <= 2 ^ 61
  | OpGetMessage dst | OpGetFrame dst => buffer_wf dst ∧ b_max_length dst = 0
  end.

(** What the client sees of a call. *)
Inductive wm_out :=
  | OutAdd (ok : bool)
  | OutMessage (r : option (list Z * Z))
  | OutFrame (r : option (list Z * frame_hdr)).

Definition wm_do (o : wm_op) (w : wsmsg_t) : M (wsmsg_t * wm_out) :=
  match o with
  | OpAdd data => '(ok, w') ← wsmsg_add w data; mret (w', OutAdd ok)
  | OpGetMessage dst =>
      '(res, w', dst', op) ← wsmsg_get_message w dst;
      mret (w', OutMessage (if (res : bool) then pair (contents dst') <$> op else None))
  | OpGetFrame dst =>
      '(res, w', dst', hdr) ← wsmsg_get_frame w dst;
      mret (w', OutFrame (if (res : bool) then pair (contents dst') <$> hdr else None))
  end.

Fixpoint wm_run (ops : list wm_op) (w : wsmsg_t) : M (wsmsg_t * list wm_out) :=
  match ops with
  | [] => mret (w, [])
  | o :: ops' =>
      '(w', out) ← wm_do o w;
      '(w'', outs) ← wm_run ops' w';
      mret (w'', out :: outs)
  end.

(** The machine run on the same calls. *)
Definition asm_do (l : limits) (o : wm_op) (s : asm) : asm * wm_out :=
  match o with
  | OpAdd data => let '(ok, s') := asm_add l s data in (s', OutAdd ok)
  | OpGetMessage _ =>
      match asm_get_message l s with
      | Some (m, op, s') => (s', OutMessage (Some (m, op)))
      | None => (s, OutMessage None)
      end
  | OpGetFrame _ =>
      match asm_get_frame l s with
      | Some (h, p, s') => (s', OutFrame (Some (p, h)))
      | None => (s, OutFrame None)
      end
  end.

Fixpoint asm_run (l : limits) (ops : list wm_op) (s : asm) : asm * list wm_out :=
  match ops with
  | [] => (s, [])
  | o :: ops' =>
      let '(s', out) := asm_do l o s in
      let '(s'', outs) := asm_run l ops' s' in
      (s'', out :: outs)
  end.

Lemma wm_do_small e o w : wm_small w → wm_op_ok o →
  wp e (wm_do o w) (λ '(w', out),
    wm_small w' ∧ wm_limits w' = wm_limits w ∧
    (e = Benign → (abs w', out) = asm_do (wm_limits w) o (abs w))).
Proof.
  intros Hs Ho. pose proof (wm_small_lengths _ Hs) as (? & ? & ?). pose proof Hs as [Hw _ _ _ _].
  assert (wm_readable w) as Hr.
  { replace w with (wm_set_frame_buffer (wm_frame_buffer w) w) by by destruct w.
    apply wm_small_readable; [done|apply Hw|done|lia]. }
  unfold INT_MAX in *.
  destruct o as [data|dst|dst]; destruct Ho; simpl; wstep; (eapply wp_mono;
    [first [apply wsmsg_add_refines; auto; [lia|intros; by apply wm_small_readable]
           |by apply wsmsg_get_message_refines
           |apply wsmsg_get_frame_refines; auto; lia]|]).
  - intros [ok w'] (? & ? & ? & Hres). apply wp_ret. split_and!; [by apply (wm_small_same w)|done|].
    intros ->. destruct (asm_add _ _ _) as [ok' s'].
    by destruct Hres as [(-> & [->|[? _]])|[? _]].
  - intros [[[ok w'] d] op] (? & ? & ? & [? ?] & Hres). apply wp_ret.
    split_and!; [apply (wm_small_same w); auto; lia|done|].
    intros ->. destruct (asm_get_message _ _) as [[[m o] s']|].
    + by destruct Hres as (-> & [(-> & -> & [->|[? _]])|(_ & ? & _)]).
    + by destruct Hres as (-> & -> & _).
  - intros [[[ok w'] d] op] (? & ? & ? & [? ?] & Hres). apply wp_ret.
    split_and!; [apply (wm_small_same w); auto; lia|done|].
    intros ->. destruct (asm_get_frame _ _) as [[[h p] s']|].
    + by destruct Hres as (-> & [(-> & -> & [->|[? _]])|[_ ?]]).
    + by destruct Hres as (-> & -> & _).
Qed.

Lemma wm_run_small e ops w : wm_small w → Forall wm_op_ok ops →
  wp e (wm_run ops w) (λ '(w', outs),
    wm_small w' ∧ length outs = length ops ∧
    (e = Benign → (abs w', outs) = asm_run (wm_limits w) ops (abs w))).
Proof.
  intros Hs Ho. revert w Hs. induction Ho as [|o ops Ho _ IH]; intros w Hs; simpl; [by apply wp_ret|].
  wstep. eapply wp_mono; [by apply wm_do_small|]. intros [w' out] (Hs' & Hl & Hd).
  wstep. eapply wp_mono; [by apply IH|]. intros [w'' outs] (Hs'' & Hlen & Hd').
  apply wp_ret. split_and!; [done|by simpl; rewrite Hlen|]. intros He. rewrite <-(Hd He), <-Hl, <-(Hd' He). done.
Qed.

(** A fresh object, sizes as configured. *)
Lemma wsmsg_create_spec e conf :
  0 <= max_frame_size conf → 2 * max_frame_size conf <= INT_MAX →
  0 <= max_message_size conf <= INT_MAX →
  wp e (wsmsg_create conf) (λ r,
    match r with
    | None => e = Hostile
    | Some w =>
        wsmsg_wf w ∧ abs w = Asm [] None [] 0 false false false ∧
        wm_limits w = Limits (max_frame_size conf) (max_message_size conf) (2 * max_frame_size conf) ∧
        b_capacity (wm_frame_buffer w) =
          (if max_frame_size conf =? 0 then INIT_BUFFER_SIZE
           else Z.min (2 * max_frame_size conf) INIT_BUFFER_SIZE)
    end).
Proof.
  intros Hf Hf2 Hm. unfold wsmsg_create, INT_MAX in *.
  wstep. apply wp_malloc_ok; [done|intros [->|?]; by apply wp_ret|].
  destruct (Z.leb_spec (- (2 ^ 31 - 1) - 1) (2 * max_frame_size conf)); [simpl|lia].
  destruct (Z.leb_spec (2 * max_frame_size conf) (2 ^ 31 - 1)); [|lia].
  rewrite !szt_small by lia.
  wstep. eapply wp_mono; [apply buffer_create_spec; lia|].
  intros [fb|]; [intros (? & Hc1 & Hm1 & Hcap)|by intros ->; apply wp_ret].
  wstep. eapply wp_mono; [apply buffer_create_spec; lia|].
  intros [mb|]; [intros (? & Hc2 & Hm2 & _)|by intros ->; apply wp_ret].
  wstep. eapply wp_mono; [apply buffer_create_spec; lia|].
  intros [fd|]; [intros (? & Hc3 & Hm3 & _)|by intros ->; apply wp_ret].
  apply wp_ret. unfold abs, wm_limits. simpl. split_and!; [|by rewrite Hc1, Hc2|congruence|].
  2: { rewrite Hcap. repeat bcase; lia. }
  split; simpl; auto. rewrite <-(zlen_contents fb), <-(zlen_contents mb), Hc1, Hc2 by done. done.
Qed.
