(* ===== verification/Rfc6455.v ===== *)
(** * Frames on the wire

    A reference encoder for WebSocket frames (RFC 6455, section 5.2), and the
    theorem that the decoder behind [get_frame] inverts it, on whole frames and
    on proper prefixes of frames. *)

From S2P Require Import Prelude Buffer Config WsMessage WsFrameSpec WsMessageSpec.

(** [f_key]: the masking key of a frame from a client, [None] for a server. *)
Record frame := Frame {
  f_fin : bool;
  f_opcode : Z;
  f_key : option (list Z);
  f_payload : list Z }.

Definition f_mask (f : frame) : bool := if f_key f is Some _ then true else false.
Definition f_hdr (f : frame) : frame_hdr := Hdr (f_fin f) (f_opcode f) (f_mask f).

(** The seven-bit length and the extended length octets; the high half of the
    64-bit length is zero for the payloads considered. *)
Definition length7 (n : Z) : Z := if n <=? 125 then n else if n <=? 65535 then 126 else 127.
Definition length_ext (n : Z) : list Z :=
  if n <=? 125 then []
  else if n <=? 65535 then [n / 2 ^ 8; n mod 2 ^ 8]
  else [0; 0; 0; 0; n / 2 ^ 24; n / 2 ^ 16 mod 2 ^ 8; n / 2 ^ 8 mod 2 ^ 8; n mod 2 ^ 8].

Definition masked (f : frame) : list Z :=
  match f_key f with
  | Some key => key ++ xor_mask key 0 (f_payload f)
  | None => f_payload f
  end.

Definition encode_frame (f : frame) : list Z :=
  128 * Z.b2z (f_fin f) + f_opcode f
    :: 128 * Z.b2z (f_mask f) + length7 (zlen (f_payload f))
    :: length_ext (zlen (f_payload f)) ++ masked f.

Arguments encode_frame : simpl never.

Record frame_ok (f : frame) : Prop := {
  fo_opcode : 0 <= f_opcode f < 16;
  fo_key : ∀ key, f_key f = Some key → zlen key = 4 ∧ Forall is_byte key;
  fo_payload : Forall is_byte (f_payload f);
  fo_length : zlen (f_payload f) < 2 ^ 32 }.

(** ** Bits of the first two octets *)

Lemma byte_check (P : Z → bool) n :
  forallb P (Z.of_nat <$> seq 0 n) = true → ∀ x, 0 <= x < Z.of_nat n → P x = true.
Proof.
  intros H x Hx. rewrite forallb_forall in H. apply H, list_elem_of_In, list_elem_of_fmap.
  exists (Z.to_nat x). split; [lia|]. apply elem_of_seq. lia.
Qed.

Lemma octet0_bits (b : bool) op : 0 <= op < 16 →
  let x := 128 * Z.b2z b + op in
  Z.land x 0x70 = 0 ∧ negb (Z.land x 0x80 =? 0) = b ∧ Z.land x 0x0f = op ∧ is_byte x.
Proof.
  intros Hop x. assert (is_byte x) by (unfold is_byte, x; destruct b; simpl; lia).
  assert (((Z.land x 0x70 =? 0) && eqb (negb (Z.land x 0x80 =? 0)) b &&
    (Z.land x 0x0f =? op)) = true) as Hc.
  { unfold x. clear x H. revert op Hop. destruct b; by apply (byte_check _ 16). }
  rewrite !andb_true_iff, !Z.eqb_eq, eqb_true_iff in Hc. by destruct_and!.
Qed.

Lemma octet1_bits (b : bool) l : 0 <= l < 128 →
  let x := 128 * Z.b2z b + l in
  negb (Z.land x 0x80 =? 0) = b ∧ Z.land x 0x7f = l ∧ is_byte x.
Proof.
  intros Hl x. assert (is_byte x) by (unfold is_byte, x; destruct b; simpl; lia).
  assert ((eqb (negb (Z.land x 0x80 =? 0)) b && (Z.land x 0x7f =? l)) = true) as Hc.
  { unfold x. clear x H. revert l Hl. destruct b; by apply (byte_check _ 128). }
  rewrite !andb_true_iff, !Z.eqb_eq, eqb_true_iff in Hc. by destruct_and!.
Qed.

Lemma length7_bounds n : 0 <= n → 0 <= length7 n < 128.
Proof. unfold length7. repeat bcase; lia. Qed.

(** ** Decoding an encoded frame *)

Definition header_len (f : frame) : Z := 2 + zlen (length_ext (zlen (f_payload f))).
Definition payload_off (f : frame) : Z := header_len f + if f_mask f then 4 else 0.

Lemma zlen_masked f : frame_ok f →
  zlen (masked f) = (if f_mask f then 4 else 0) + zlen (f_payload f).
Proof.
  intros [_ Hk _ _]. unfold masked, f_mask. destruct (f_key f) as [key|]; [|done].
  destruct (Hk key eq_refl) as [? _]. rewrite zlen_app, zlen_xor_mask. lia.
Qed.

Lemma zlen_encode_frame f : frame_ok f →
  zlen (encode_frame f) = payload_off f + zlen (f_payload f).
Proof.
  intros Hf. unfold encode_frame, payload_off, header_len. autorewrite with zlist.
  rewrite zlen_masked by done. lia.
Qed.

Lemma be_2 n : 0 <= n < 2 ^ 16 → be [n / 2 ^ 8; n mod 2 ^ 8] = n.
Proof. intros. unfold be. simpl foldl. change (2 ^ 8) with 256. Z.div_mod_to_equations. lia. Qed.

Lemma be_4 n : 0 <= n < 2 ^ 32 →
  be [n / 2 ^ 24; n / 2 ^ 16 mod 2 ^ 8; n / 2 ^ 8 mod 2 ^ 8; n mod 2 ^ 8] = n.
Proof.
  intros. unfold be. simpl foldl. change (2 ^ 8) with 256. change (2 ^ 16) with 65536.
  change (2 ^ 24) with 16777216. Z.div_mod_to_equations. lia.
Qed.

Lemma decode_encode f rest : frame_ok f →
  read_header (encode_frame f ++ rest) =
    HHeader (f_hdr f) (header_len f) (payload_off f) (zlen (f_payload f)).
Proof.
  intros [Hop Hk Hp Hl]. set (n := zlen (f_payload f)) in *.
  assert (0 <= n) by apply zlen_nonneg.
  destruct (octet0_bits (f_fin f) (f_opcode f) Hop) as (H0 & H1 & H2 & _).
  destruct (octet1_bits (f_mask f) (length7 n) (length7_bounds n ltac:(done))) as (H3 & H4 & _).
  unfold read_header, encode_frame, payload_off, header_len, f_hdr. fold n. simpl app.
  cbv beta iota. rewrite H0, H1, H2, H3, H4, Z.eqb_refl. simpl negb. cbv iota.
  unfold length7, length_ext. destruct (Z.leb_spec n 125); [|destruct (Z.leb_spec n 65535)].
  - destruct (Z.eqb_spec n 126), (Z.eqb_spec n 127); try lia.
    by destruct (f_mask f).
  - rewrite Z.eqb_refl. cbn [app]. rewrite be_2 by lia. f_equal. destruct (f_mask f); done.
  - cbn [Z.eqb Pos.eqb]. cbv iota. cbn [app]. rewrite be_4 by lia. f_equal. destruct (f_mask f); done.
Qed.

Definition header_octets (f : frame) : list Z :=
  128 * Z.b2z (f_fin f) + f_opcode f
    :: 128 * Z.b2z (f_mask f) + length7 (zlen (f_payload f))
    :: length_ext (zlen (f_payload f)).

Lemma encode_frame_split f : encode_frame f = header_octets f ++ masked f.
Proof. done. Qed.

Lemma zlen_header_octets f : zlen (header_octets f) = header_len f.
Proof. unfold header_octets, header_len. zl. Qed.

Lemma header_len_pos f : 2 <= header_len f.
Proof. unfold header_len. pose proof (zlen_nonneg (length_ext (zlen (f_payload f)))). lia. Qed.

Lemma length_ext_bytes n : 0 <= n < 2 ^ 32 → Forall is_byte (length_ext n).
Proof.
  intros. unfold length_ext. change (2 ^ 8) with 256. change (2 ^ 16) with 65536.
  change (2 ^ 24) with 16777216.
  repeat bcase; repeat constructor; try lia; Z.div_mod_to_equations; lia.
Qed.

Lemma encode_frame_bytes f : frame_ok f → Forall is_byte (encode_frame f).
Proof.
  intros [Hop Hk Hp Hl]. pose proof (zlen_nonneg (f_payload f)). unfold encode_frame.
  destruct (octet0_bits (f_fin f) (f_opcode f) Hop) as (_ & _ & _ & ?).
  destruct (octet1_bits (f_mask f) (length7 (zlen (f_payload f)))) as (_ & _ & ?);
    [by apply length7_bounds|].
  constructor; [done|]. constructor; [done|]. apply Forall_app. split; [by apply length_ext_bytes|].
  unfold masked. destruct (f_key f) as [key|]; [|done]. destruct (Hk key eq_refl).
  apply Forall_app. auto with buf.
Qed.

(** The frame is cut off exactly, and its payload is unmasked and limited. *)
Lemma next_frame_encode_limit limit f rest : frame_ok f → 0 <= limit →
  next_frame limit (encode_frame f ++ rest) =
    NFrame (f_hdr f) (ztake (take_limit limit (zlen (f_payload f))) (f_payload f)) rest.
Proof.
  intros Hf Hlim. pose proof (zlen_encode_frame f Hf) as Hlen. pose proof Hf as [_ Hk _ _].
  pose proof (header_len_pos f). unfold next_frame. rewrite decode_encode by done.
  rewrite zlen_app, Hlen. pose proof (zlen_nonneg rest). pose proof (zlen_nonneg (f_payload f)).
  destruct (Z.ltb_spec (payload_off f + zlen (f_payload f) + zlen rest)
              (payload_off f + zlen (f_payload f))); [lia|].
  f_equal; [|apply zdrop_app_exact; lia].
  set (n := take_limit limit (zlen (f_payload f))).
  assert (0 <= n <= zlen (f_payload f)) by (unfold n, take_limit; bcase; lia).
  unfold frame_payload, f_hdr, payload_off. simpl h_mask.
  rewrite encode_frame_split, <-app_assoc. pose proof (zlen_header_octets f).
  unfold masked, f_mask. destruct (f_key f) as [key|].
  - destruct (Hk key eq_refl) as [Hkl _]. rewrite (zdrop_app_exact (header_len f)) by lia.
    rewrite <-app_assoc, xor_mask_key_app by done.
    rewrite (app_assoc (header_octets f)), (zdrop_app_exact _ _ _) by (rewrite zlen_app; lia).
    rewrite ztake_app_le by (rewrite zlen_xor_mask; lia).
    rewrite <-(ztake_zdrop n (f_payload f)) at 1. rewrite xor_mask_app.
    rewrite ztake_app_exact by (rewrite zlen_xor_mask; zl). apply xor_mask_involutive.
  - rewrite Z.add_0_r, zdrop_app_exact by lia. by rewrite ztake_app_le by lia.
Qed.

Lemma take_limit_fits limit n : limit = 0 ∨ n <= limit → take_limit limit n = n.
Proof. unfold take_limit. bcase; lia. Qed.

Lemma next_frame_encode limit f rest :
  frame_ok f → 0 <= limit → limit = 0 ∨ zlen (f_payload f) <= limit →
  next_frame limit (encode_frame f ++ rest) = NFrame (f_hdr f) (f_payload f) rest.
Proof.
  intros. rewrite next_frame_encode_limit, take_limit_fits by done. by rewrite ztake_all.
Qed.

(** More input does not change a decision. *)
Lemma read_header_app c rest :
  read_header c ≠ HMore → read_header (c ++ rest) = read_header c.
Proof.
  destruct c as [|b0 [|b1 c]]; [done|done|]. simpl. destruct (negb _); [done|].
  destruct (_ =? 126); [by destruct c as [|? [|? c]]|].
  destruct (_ =? 127); [|done]. by do 8 (destruct c as [|? c]; [done|]).
Qed.

(** A proper prefix of a frame waits for more. *)
Lemma next_frame_prefix limit f c rest :
  frame_ok f → encode_frame f = c ++ rest → rest ≠ [] → next_frame limit c = NMore.
Proof.
  intros Hf Hc Hr. pose proof (decode_encode f [] Hf) as Hdec. rewrite app_nil_r, Hc in Hdec.
  unfold next_frame. destruct (read_header c) as [| |h hl off len] eqn:Hd; [done| |];
    rewrite read_header_app in Hdec by congruence; rewrite Hd in Hdec; [done|].
  simplify_eq. pose proof (zlen_encode_frame f Hf) as Hl. rewrite Hc, zlen_app in Hl.
  destruct rest as [|x rest]; [done|]. rewrite zlen_cons in Hl.
  pose proof (zlen_nonneg rest). bcase; [done|lia].
Qed.
