(* ===== verification/Assembly.v ===== *)
(** * Messages over the wire, in any chunking

    A message travels as a list of frames (RFC 6455, section 5.4), and its bytes
    reach [wsmsg_add] in chunks cut anywhere.  This file follows the abstract
    machine of [WsMessageSpec] through the chunks. *)

From S2P Require Import Prelude Buffer Config WsMessage WsFrameSpec WsMessageSpec Rfc6455.

Definition wire (fs : list frame) : list Z := concat (encode_frame <$> fs).
Definition payloads (fs : list frame) : list Z := concat (f_payload <$> fs).

Lemma wire_cons f fs : wire (f :: fs) = encode_frame f ++ wire fs.
Proof. done. Qed.
Lemma payloads_cons f fs : payloads (f :: fs) = f_payload f ++ payloads fs.
Proof. done. Qed.

Lemma wire_bytes fs : Forall frame_ok fs → Forall is_byte (wire fs).
Proof.
  intros Hfs. unfold wire. apply Forall_concat, Forall_fmap.
  eapply Forall_impl; [|exact Hfs]. intros f. apply encode_frame_bytes.
Qed.

(** The frames of a message: the first one has a data opcode, the others are
    continuations, the last one and no other is final. *)
Fixpoint fragments_ok (started : bool) (fs : list frame) : Prop :=
  match fs with
  | [] => False
  | f :: fs' =>
      is_control (f_opcode f) = false ∧
      (f_opcode f =? OPCODE_CONTINUATION) = started ∧
      match fs' with
      | [] => f_fin f = true
      | _ :: _ => f_fin f = false ∧ fragments_ok true fs'
      end
  end.

Definition frame_fits (limit : Z) (f : frame) : Prop :=
  frame_ok f ∧ (limit = 0 ∨ zlen (f_payload f) <= limit).

(** The machine is in the middle of message [m] with opcode [op]: [fs] are the
    frames to come and [todo] the bytes not received yet. *)
Record assembling (l : limits) (op : Z) (m : list Z) (fs : list frame) (todo : list Z)
    (s : asm) : Prop := {
  as_ctl : a_ctl s = None;
  as_full : a_full s = false;
  as_err : a_err s = false;
  as_frames : Forall (frame_fits (lim_frame l)) fs;
  as_fragments : fragments_ok (a_started s) fs;
  as_wire : a_in s ++ todo = wire fs;
  as_msg : a_msg s ++ payloads fs = m;
  as_op : (if a_started s then a_op s else default 0 (f_opcode <$> head fs)) = op }.

Lemma frames_fit_ok limit fs : Forall (frame_fits limit) fs → Forall frame_ok fs.
Proof. apply Forall_impl. by intros f []. Qed.

Lemma encode_frame_nonempty f : 0 < zlen (encode_frame f).
Proof.
  unfold encode_frame. rewrite zlen_cons.
  match goal with |- context [zlen ?l] => pose proof (zlen_nonneg l) end. lia.
Qed.

Lemma append_limit_fits limit m p :
  limit = 0 ∨ zlen m + zlen p <= limit → append_limit limit m p = Some (m ++ p).
Proof.
  intros Hl. unfold append_limit. pose proof (zlen_nonneg p).
  destruct (Z.eqb_spec (zlen p) 0) as [E|E].
  { by rewrite (zlen_0_nil _ E), app_nil_r. }
  destruct (Z.eqb_spec limit 0); [done|]. bcase; [|lia]. by rewrite ztake_ge by lia.
Qed.

(** Two ways to cut the same bytes. *)
Lemma app_eq_cut {A} (a b c d : list A) :
  a ++ b = c ++ d → (∃ x, a = c ++ x ∧ d = x ++ b) ∨ (∃ x, x ≠ [] ∧ c = a ++ x).
Proof.
  intros [(x & -> & ->)|(x & -> & ->)]%app_eq_inv; [left; eauto|].
  destruct x as [|y x]; [left; exists []; by rewrite !app_nil_r|right; by exists (y :: x)].
Qed.

Definition asm_message (m : list Z) (op : Z) : asm := Asm [] None m op true true false.

(** One whole data frame at the front of the input. *)
Lemma asm_step_data l f rest s m' :
  frame_fits (lim_frame l) f → 0 <= lim_frame l → a_in s = encode_frame f ++ rest →
  is_control (f_opcode f) = false → (f_opcode f =? OPCODE_CONTINUATION) = a_started s →
  append_limit (lim_message l) (a_msg s) (f_payload f) = Some m' →
  asm_step l s = (true, Asm rest (a_ctl s) m' (if a_started s then a_op s else f_opcode f) true
                          (if f_fin f then true else a_full s) (a_err s)).
Proof.
  intros [Hf Hl] ? Hin Hc Hst Hm. unfold asm_step. rewrite Hin, next_frame_encode by done.
  unfold asm_dispatch. simpl. rewrite Hc, Hst, eqb_reflx, Hm. done.
Qed.

Lemma asm_step_empty l s : a_in s = [] → asm_step l s = (false, s).
Proof. unfold asm_step, next_frame. by intros ->. Qed.

(** Running the loop on part of a message. *)
Lemma asm_loop_fragments l op m fuel fs todo s :
  0 <= lim_frame l → lim_message l = 0 ∨ zlen m <= lim_message l →
  assembling l op m fs todo s → (length (a_in s) < fuel)%nat →
  let s' := asm_loop l fuel s in
  (todo = [] ∧ s' = asm_message m op) ∨
  (todo ≠ [] ∧ ∃ fs', assembling l op m fs' todo s' ∧
     (lim_frame l = 0 ∨ zlen (a_in s') < lim_frame l + 14)).
Proof.
  intros Hlf Hlm. revert fs s. induction fuel as [|fuel IH]; intros fs s Has Hfuel; [lia|].
  pose proof Has as [Hctl Hfull Herr Hfs Hfr Hw Hm Hop].
  destruct fs as [|f fs]; [done|]. apply Forall_cons_iff in Hfs as [Hf Hfs].
  destruct Hfr as (Hc & Hst & Hlast). pose proof (encode_frame_nonempty f).
  change (wire (f :: fs)) with (encode_frame f ++ wire fs) in Hw.
  destruct (app_eq_cut _ _ _ _ Hw) as [(rest & Hin & Hrest)|(x & Hx & Hin)].
  - cbn [asm_loop]. rewrite (asm_step_data l f rest s (a_msg s ++ f_payload f)); try done.
    2: apply append_limit_fits.
    2: { rewrite <-Hm in Hlm. unfold payloads in Hlm. cbn [fmap list_fmap concat] in Hlm.
         rewrite !zlen_app in Hlm.
         pose proof (zlen_nonneg (concat (f_payload <$> fs))). destruct Hlm; [by left|right; lia]. }
    set (s1 := Asm _ _ _ _ _ _ _).
    assert (length rest < fuel)%nat.
    { apply (f_equal zlen) in Hin. rewrite zlen_app in Hin. unfold zlen in *. lia. }
    destruct fs as [|f' fs].
    + assert (rest = [] ∧ todo = []) as [-> ->] by by apply app_eq_nil.
      destruct fuel as [|fuel]; [simpl in *; lia|]. cbn [asm_loop].
      rewrite asm_step_empty by done. left. split; [done|]. subst s1.
      rewrite Hctl, Hlast, Herr. unfold asm_message. f_equal; [|exact Hop].
      unfold payloads in Hm. simpl in Hm. by rewrite app_nil_r in Hm.
    + apply (IH (f' :: fs)); [|done]. destruct Hlast as [Hfin Hlast].
      split; simpl; try done; [by rewrite Hfin|]. by rewrite <-Hm, <-app_assoc.
  - right. assert (next_frame (lim_frame l) (a_in s) = NMore) as Hn.
    { apply (next_frame_prefix _ f _ x); [apply Hf|done|done]. }
    assert (todo ≠ []) as Htodo.
    { intros ->. rewrite app_nil_r in Hw.
      assert (length (a_in s) = length (encode_frame f ++ wire fs)) as Hl by by rewrite Hw.
      rewrite Hin, !length_app in Hl. destruct x; [done|simpl in Hl; lia]. }
    split; [done|]. cbn [asm_loop]. unfold asm_step. rewrite Hn.
    exists (f :: fs). split; [done|].
    destruct Hf as [Hf [?|?]]; [by left|right].
    pose proof (zlen_encode_frame f Hf) as Hlen. rewrite Hin, zlen_app in Hlen.
    assert (0 < zlen x) by (destruct x; [done|rewrite zlen_cons; pose proof (zlen_nonneg x); lia]).
    assert (payload_off f <= 14); [|lia].
    unfold payload_off, header_len, length_ext, zlen. destruct (f_mask f); repeat bcase; simpl; lia.
Qed.

(** One chunk. *)
Lemma asm_add_chunk l op m fs chunk todo s :
  0 <= lim_frame l → lim_message l = 0 ∨ zlen m <= lim_message l →
  lim_in l = 0 ∨ zlen (a_in s) + zlen chunk <= lim_in l →
  assembling l op m fs (chunk ++ todo) s →
  ∃ s', asm_add l s chunk = (true, s') ∧
  ((todo = [] ∧ s' = asm_message m op) ∨
   (todo ≠ [] ∧ ∃ fs', assembling l op m fs' todo s' ∧
     (lim_frame l = 0 ∨ zlen (a_in s') < lim_frame l + 14))).
Proof.
  intros Hlf Hlm Hli [Hctl Hfull Herr Hfs Hfr Hw Hm Hop]. unfold asm_add.
  rewrite append_limit_fits by done. eexists. split; [done|].
  unfold asm_process, asm_idle. cbn [a_full a_ctl a_err]. rewrite Hctl, Hfull, Herr.
  cbn [orb negb]. cbv iota.
  apply (asm_loop_fragments l op m _ fs); [done|done| |simpl; lia].
  split; simpl; try done. by rewrite <-app_assoc.
Qed.

Lemma asm_run_app l ops1 ops2 s :
  asm_run l (ops1 ++ ops2) s =
    let '(s1, o1) := asm_run l ops1 s in
    let '(s2, o2) := asm_run l ops2 s1 in (s2, o1 ++ o2).
Proof.
  revert s. induction ops1 as [|o ops1 IH]; intros s; simpl; [by destruct (asm_run l ops2 s)|].
  destruct (asm_do l o s) as [s1 out]. rewrite IH.
  destruct (asm_run l ops1 s1) as [s2 o1]. by destruct (asm_run l ops2 s2).
Qed.

(** All the chunks of a message. *)
Lemma asm_run_chunks l op m chunks fs s :
  0 < lim_frame l → lim_message l = 0 ∨ zlen m <= lim_message l →
  Forall (λ c, c ≠ [] ∧ lim_frame l + 13 + zlen c <= lim_in l) chunks →
  zlen (a_in s) < lim_frame l + 14 →
  assembling l op m fs (concat chunks) s → chunks ≠ [] →
  asm_run l (OpAdd <$> chunks) s =
    (asm_message m op, replicate (length chunks) (OutAdd true)).
Proof.
  intros Hlf Hlm Hch Hin Has Hne. revert fs s Hin Has.
  induction Hch as [|c chunks [Hc Hcl] Hch IH]; [done|]; intros fs s Hin Has.
  destruct (asm_add_chunk l op m fs c (concat chunks) s) as (s' & Hs' & Hr); auto; [lia|right; lia|].
  cbn [fmap list_fmap asm_run asm_do]. rewrite Hs'.
  destruct Hr as [[Ht ->]|(Ht & fs' & Has' & Hlen)].
  - destruct chunks as [|c' chunks]; [done|]. apply Forall_cons_iff in Hch as [[Hc' _] _].
    simpl in Ht. apply app_eq_nil in Ht as [? _]. done.
  - destruct Hlen as [?|Hlen]; [lia|]. fold (fmap (M := list) OpAdd chunks).
    destruct chunks as [|c' chunks]; [done|].
    assert (E : asm_run l (OpAdd <$> c' :: chunks) s' =
      (asm_message m op, replicate (length (c' :: chunks)) (OutAdd true))) by by apply (IH ltac:(done) fs').
    simpl in E |- *. by rewrite E.
Qed.

(** A quiet machine: nothing pending, no message begun. *)
Definition asm_quiet (op : Z) : asm := Asm [] None [] op false false false.

(** A message, as the peer sends it and as the network delivers it. *)
Record transfer := Transfer { t_frames : list frame; t_chunks : list (list Z) }.

Definition t_opcode (t : transfer) : Z := default 0 (f_opcode <$> head (t_frames t)).

Record transfer_ok (l : limits) (t : transfer) : Prop := {
  to_frames : Forall (frame_fits (lim_frame l)) (t_frames t);
  to_fragments : fragments_ok false (t_frames t);
  to_message : zlen (payloads (t_frames t)) <= lim_message l;
  to_wire : concat (t_chunks t) = wire (t_frames t);
  to_chunks : Forall (λ c, c ≠ [] ∧ lim_frame l + 13 + zlen c <= lim_in l) (t_chunks t) }.

Definition t_ops (dst : buffer_t) (t : transfer) : list wm_op :=
  (OpAdd <$> t_chunks t) ++ [OpGetMessage dst].
Definition t_outs (t : transfer) : list wm_out :=
  replicate (length (t_chunks t)) (OutAdd true)
    ++ [OutMessage (Some (payloads (t_frames t), t_opcode t))].

Lemma asm_run_transfer l dst t op0 :
  0 < lim_frame l → transfer_ok l t →
  asm_run l (t_ops dst t) (asm_quiet op0) = (asm_quiet (t_opcode t), t_outs t).
Proof.
  intros Hlf [Hfs Hfr Hm Hw Hch]. unfold t_ops, t_outs. rewrite asm_run_app.
  erewrite asm_run_chunks; [|done|right; exact Hm|done|simpl; zl| |].
  - simpl. unfold asm_get_message, asm_message. simpl. done.
  - split; simpl; done.
  - intros E. rewrite E in Hw. destruct (t_frames t) as [|f fs]; [done|].
    change (wire (f :: fs)) with (encode_frame f ++ wire fs) in Hw. simpl in Hw.
    pose proof (encode_frame_nonempty f). by destruct (encode_frame f).
Qed.

Lemma asm_run_transfers l dst ts op0 :
  0 < lim_frame l → Forall (transfer_ok l) ts →
  ∃ op, asm_run l (ts ≫= t_ops dst) (asm_quiet op0) = (asm_quiet op, ts ≫= t_outs).
Proof.
  intros Hlf Hts. revert op0. induction Hts as [|t ts Ht _ IH]; intros op0; [by exists op0|].
  cbn [mbind list_bind]. rewrite asm_run_app, asm_run_transfer by done.
  destruct (IH (t_opcode t)) as [op E]. exists op. cbn [mbind list_bind] in E. by rewrite E.
Qed.

(** ** The loop as an equation *)

(** With more fuel than input the loop does not depend on its fuel. *)
Lemma asm_loop_fuel l n m s :
  Forall is_byte (a_in s) → (length (a_in s) < n)%nat → (length (a_in s) < m)%nat →
  asm_loop l n s = asm_loop l m s.
Proof.
  revert m s. induction n as [|n IH]; intros [|m] s Hb Hn Hm; try lia. cbn [asm_loop].
  destruct (asm_step l s) as [[] s'] eqn:E; [|done].
  pose proof (asm_step_shrinks _ _ _ Hb E) as Hsh. unfold zlen in Hsh.
  apply asm_step_again in E as (h & p & Hn' & _). apply IH; try lia.
  revert Hn'. unfold next_frame. destruct (read_header _); [done|done|].
  case_match; [done|]. intros [= _ _ <-]. auto with zlist.
Qed.

Definition asm_go (l : limits) (s : asm) : asm := asm_loop l (S (length (a_in s))) s.

Lemma asm_go_again l s s' :
  Forall is_byte (a_in s) → Forall is_byte (a_in s') → asm_step l s = (true, s') →
  asm_go l s = asm_go l s'.
Proof.
  intros Hb Hb' E. unfold asm_go at 1. cbn [asm_loop]. rewrite E.
  apply asm_step_shrinks in E; [|done]. unfold zlen in E. apply asm_loop_fuel; [done|lia|lia].
Qed.

Lemma asm_go_stop l s s' : asm_step l s = (false, s') → asm_go l s = s'.
Proof. unfold asm_go. cbn [asm_loop]. by intros ->. Qed.

Lemma asm_go_empty l s : a_in s = [] → asm_go l s = s.
Proof. intros. by apply asm_go_stop, asm_step_empty. Qed.

(** A whole data frame at the front of the input of a machine with nothing
    pending. *)
Lemma asm_go_data l f rest s :
  frame_fits (lim_frame l) f → 0 <= lim_frame l → Forall is_byte rest →
  a_in s = encode_frame f ++ rest →
  is_control (f_opcode f) = false → (f_opcode f =? OPCODE_CONTINUATION) = a_started s →
  lim_message l = 0 ∨ zlen (a_msg s) + zlen (f_payload f) <= lim_message l →
  asm_go l s = asm_go l (Asm rest (a_ctl s) (a_msg s ++ f_payload f)
                           (if a_started s then a_op s else f_opcode f) true
                           (if f_fin f then true else a_full s) (a_err s)).
Proof.
  intros Hf ? Hr Hin Hc Hs Hm. apply asm_go_again; [|done|].
  - rewrite Hin. apply Forall_app. split; [|done]. apply encode_frame_bytes, Hf.
  - apply asm_step_data; auto. by apply append_limit_fits.
Qed.

(** A data frame that does not fit the state of the message is an error. *)
Lemma asm_go_mismatch l f rest s :
  frame_fits (lim_frame l) f → 0 <= lim_frame l → a_in s = encode_frame f ++ rest →
  is_control (f_opcode f) = false → (f_opcode f =? OPCODE_CONTINUATION) = negb (a_started s) →
  asm_go l s = asm_fail (Asm rest (a_ctl s) (a_msg s) (a_op s) (a_started s) (a_full s) (a_err s)).
Proof.
  intros [Hf Hl] ? Hin Hc Hs. apply asm_go_stop. unfold asm_step.
  rewrite Hin, next_frame_encode by done. unfold asm_dispatch. simpl. rewrite Hc, Hs.
  by destruct (a_started s).
Qed.

(** ** Control frames *)

Lemma asm_step_control l f rest s :
  frame_fits (lim_frame l) f → 0 <= lim_frame l → a_in s = encode_frame f ++ rest →
  is_control (f_opcode f) = true → f_fin f = true →
  asm_step l s = (false, Asm rest (Some (f_hdr f, f_payload f)) (a_msg s) (a_op s) (a_started s)
                          (a_full s) (a_err s)).
Proof.
  intros [Hf Hl] ? Hin Hc Hfin. unfold asm_step. rewrite Hin, next_frame_encode by done.
  unfold asm_dispatch. simpl. by rewrite Hc, Hfin.
Qed.

Lemma asm_go_control l f rest s :
  frame_fits (lim_frame l) f → 0 <= lim_frame l → a_in s = encode_frame f ++ rest →
  is_control (f_opcode f) = true → f_fin f = true →
  asm_go l s = Asm rest (Some (f_hdr f, f_payload f)) (a_msg s) (a_op s) (a_started s)
                 (a_full s) (a_err s).
Proof. intros. by apply asm_go_stop, asm_step_control. Qed.

Lemma asm_add_idle l s data :
  asm_idle s = true → lim_in l = 0 ∨ zlen (a_in s) + zlen data <= lim_in l →
  asm_add l s data = (true, asm_go l (Asm (a_in s ++ data) (a_ctl s) (a_msg s) (a_op s)
                                        (a_started s) (a_full s) (a_err s))).
Proof.
  intros Hi Hl. unfold asm_add. rewrite append_limit_fits by done.
  unfold asm_process, asm_idle in *. simpl in *. by rewrite Hi.
Qed.

(** Taking out what is pending lets the loop go on. *)
Lemma asm_get_message_full l s :
  a_full s = true → a_ctl s = None → a_err s = false →
  asm_get_message l s =
    Some (a_msg s, a_op s, asm_go l (Asm (a_in s) None [] (a_op s) false false false)).
Proof. unfold asm_get_message. by intros -> -> ->. Qed.

Lemma asm_get_frame_pending l s h p :
  a_ctl s = Some (h, p) → a_full s = false → a_err s = false →
  asm_get_frame l s =
    Some (h, p, asm_go l (Asm (a_in s) None (a_msg s) (a_op s) (a_started s) false false)).
Proof. unfold asm_get_frame. by intros -> -> ->. Qed.

Lemma asm_get_message_none l s : a_full s = false → asm_get_message l s = None.
Proof. unfold asm_get_message. by intros ->. Qed.
