(* ===== verification/WsMessageProps.v ===== *)
(** * The message component: its properties

    A session creates a message object and makes any sequence of calls on it.
    The theorems say when a session is free of undefined behaviour, what it
    computes, and what the component does at its limits. *)

From S2P Require Import Prelude Buffer Config WsMessage WsFrameSpec WsMessageSpec Rfc6455 Assembly.

Definition wm_session (conf : jsconf_t) (ops : list wm_op)
    : M (option (wsmsg_t * list wm_out)) :=
  w ← wsmsg_create conf;
  match w with
  | Some w => r ← wm_run ops w; mret (Some r)
  | None => mret None
  end.

(** The sizes for which the component is memory safe. *)
Definition conf_small (c : jsconf_t) : Prop :=
  14 <= max_frame_size c <= 114 ∧ 0 < max_message_size c <= INT_MAX.

Definition conf_limits (c : jsconf_t) : limits :=
  Limits (max_frame_size c) (max_message_size c) (2 * max_frame_size c).

Lemma wsmsg_create_small e conf :
  conf_small conf →
  wp e (wsmsg_create conf) (λ r,
    match r with
    | None => e = Hostile
    | Some w => wm_small w ∧ abs w = asm_quiet 0 ∧ wm_limits w = conf_limits conf
    end).
Proof.
  intros [Hf Hm]. unfold INT_MAX in *.
  eapply wp_mono; [apply wsmsg_create_spec; unfold INT_MAX; lia|].
  intros [w|]; [|done]. intros (Hw & Ha & Hl & Hc). split_and!; try done.
  unfold INIT_BUFFER_SIZE in Hc. destruct (Z.eqb_spec (max_frame_size conf) 0); [lia|].
  split; rewrite ?Hl; simpl; unfold INT_MAX; try done; lia.
Qed.

Lemma wm_session_spec e conf ops :
  conf_small conf → Forall wm_op_ok ops →
  wp e (wm_session conf ops) (λ r,
    match r with
    | None => e = Hostile
    | Some (w, outs) =>
        wm_small w ∧ length outs = length ops ∧
        (e = Benign → (abs w, outs) = asm_run (conf_limits conf) ops (asm_quiet 0))
    end).
Proof.
  intros Hc Ho. unfold wm_session. wstep.
  eapply wp_mono; [by apply wsmsg_create_small|]. intros [w|]; [|by intros; apply wp_ret].
  intros (Hw & <- & <-). wstep. eapply wp_mono; [by apply wm_run_small|].
  intros [w' outs] ?. by apply wp_ret.
Qed.

Lemma wm_session_outs conf ops s outs :
  conf_small conf → Forall wm_op_ok ops →
  asm_run (conf_limits conf) ops (asm_quiet 0) = (s, outs) →
  ∃ w, runs (wm_session conf ops) (Some (w, outs)) ∧ abs w = s.
Proof.
  intros Hc Ho Hr. destruct (wp_benign_runs _ _ (wm_session_spec Benign conf ops Hc Ho))
    as ([[w outs']|] & E & H); [|done].
  destruct H as (_ & _ & H). specialize (H eq_refl). rewrite Hr in H. simplify_eq. eauto.
Qed.

(** ** Memory safety *)

(** C4: whatever bytes the peer sends, cut however, and in whatever order the
    calls come, the message component accesses no memory out of bounds and
    terminates, even when allocations fail, provided that the configured
    [max_frame_size] is between 14 and 114 and [max_message_size] between 1 and
    [INT_MAX] ([conf_small]). *)
Theorem wsmsg_memory_safe conf ops :
  conf_small conf → Forall wm_op_ok ops →
  wp Hostile (wm_session conf ops) (λ r,
    match r with Some (w, outs) => wsmsg_wf w ∧ length outs = length ops | None => True end).
Proof.
  intros Hc Ho. eapply wp_mono; [by apply wm_session_spec|].
  intros [[w outs]|]; [|done]. intros ([] & ? & _). done.
Qed.

Definition small_conf : jsconf_t := Jsconf None [] None None None LOG_ERR 4096 64.

Lemma small_conf_ok : conf_small small_conf.
Proof. by split; split. Qed.

(** A destination for messages, as [cm_create] makes it. *)
Definition empty_buffer : buffer_t := Buffer (replicate 128 0) 0 128 0.

Lemma empty_buffer_wf : buffer_wf empty_buffer.
Proof. split; try done; [by left|]. by apply Forall_replicate. Qed.

Lemma wsmsg_memory_safe_witness :
  wp Hostile (wm_session small_conf [OpAdd [0x81; 0x7f]; OpAdd [255; 1]; OpGetMessage empty_buffer])
    (λ r, match r with Some (w, outs) => wsmsg_wf w ∧ length outs = 3%nat | None => True end).
Proof.
  apply (wsmsg_memory_safe small_conf [OpAdd _; OpAdd _; OpGetMessage _]); [apply small_conf_ok|].
  repeat constructor; try done.
Defined.

(** A received header whose announced payload leaves the receive buffer. *)
Lemma wm_session_overread conf data h hl off len :
  0 <= max_frame_size conf → 2 * max_frame_size conf <= INT_MAX →
  0 <= max_message_size conf <= INT_MAX →
  let cap := if max_frame_size conf =? 0 then INIT_BUFFER_SIZE
             else Z.min (2 * max_frame_size conf) INIT_BUFFER_SIZE in
  Forall is_byte data → zlen data <= cap → read_header data = HHeader h hl off len →
  0 < len → cap < off + take_limit (max_frame_size conf) len →
  wm_session conf [OpAdd data] [] = None.
Proof.
  intros Hf Hf2 Hm cap Hb Hfit Hdec Hlen Hover.
  destruct (wp_benign_runs _ _ (wsmsg_create_spec Benign conf Hf Hf2 Hm)) as ([w|] & E & H); [|done].
  destruct H as ([Hfb Hfd Hmb _] & Ha & Hl & Hcap).
  assert (contents (wm_frame_buffer w) = []) as Hc0 by (by injection Ha).
  assert (b_length (wm_frame_buffer w) = 0) as Hl0 by (by rewrite <-(zlen_contents _ Hfb), Hc0).
  assert (b_max_length (wm_frame_data w) = max_frame_size conf) as Hfm by (by injection Hl).
  pose proof (zlen_nonneg data).
  destruct (buffer_append_fits Benign (wm_frame_buffer w) data 0 (zlen data))
    as ([ok fb] & E' & -> & Hfb' & _ & Hcap' & Hc'); auto; try lia.
  rewrite zdrop_0, ztake_all, Hc0 in Hc'. simpl in Hc'.
  assert (get_frame fb (wm_frame_data w) [] = None) as Hub.
  { apply (get_frame_overread_ub _ _ h hl off len); auto; [by rewrite Hc'|].
    by rewrite accepted_clear, Hfm, Hcap', Hcap. }
  assert (wsmsg_process (wm_set_frame_buffer fb w) [] = None) as Hp.
  { assert (wm_message w = false ∧ wm_error w = false) as [Hm0 He0] by (by injection Ha).
    assert (wm_frame w = false) as Hf0 by (revert Ha; unfold abs; by destruct (wm_frame w)).
    unfold wsmsg_process. simpl. rewrite Hm0, He0, Hf0. simpl. unfold wsmsg_step. simpl.
    unfold mbind, M_bind. by rewrite Hub. }
  unfold wm_session, wm_run, wm_do, wsmsg_add. unfold mbind, M_bind.
  unfold runs in E. rewrite E, E'. simpl. by rewrite Hp.
Qed.

(** C34: outside that range it is not memory safe: for every other
    [max_frame_size], the unset value 0 and every value above 114 included, there
    are ten bytes or fewer that a peer can send to a fresh message object so that
    [get_frame] copies a payload from beyond the end of the receive buffer. *)
Theorem wsmsg_frame_size_unsafe conf :
  0 <= max_frame_size conf → 2 * max_frame_size conf <= INT_MAX →
  0 <= max_message_size conf <= INT_MAX → ¬ (14 <= max_frame_size conf <= 114) →
  ∃ data, Forall is_byte data ∧ zlen data <= 10 ∧ wm_session conf [OpAdd data] [] = None.
Proof.
  intros Hf Hf2 Hm Hr. unfold INT_MAX in *.
  set (short := [0x82; 0xfd]). set (long := [0x82; 0xff; 0; 0; 0; 0; 0x7f; 0; 0; 0]).
  assert (read_header short = HHeader (Hdr true 2 true) 2 6 125) as Hs by done.
  assert (read_header long = HHeader (Hdr true 2 true) 10 14 0x7f000000) as Hl by done.
  assert (Forall is_byte short ∧ zlen short <= 10) as [? ?] by (split; [by repeat constructor|done]).
  assert (Forall is_byte long ∧ zlen long <= 10) as [? ?] by (split; [by repeat constructor|done]).
  destruct (Z.leb_spec 1 (max_frame_size conf)), (Z.leb_spec (max_frame_size conf) 4); try lia.
  1: exists short.
  2,3: exists long.
  all: split_and!; [done|done|]; eapply wm_session_overread; eauto; unfold INT_MAX, INIT_BUFFER_SIZE,
    take_limit; try lia; destruct (Z.eqb_spec (max_frame_size conf) 0); try lia.
  all: change (zlen short) with 2 || change (zlen long) with 10; lia.
Qed.

Lemma wsmsg_frame_size_unsafe_witness :
  ∃ data, Forall is_byte data ∧ zlen data <= 10 ∧ wm_session config_zero [OpAdd data] [] = None.
Proof. by apply (wsmsg_frame_size_unsafe config_zero); [| | |intros [? _]]. Defined.

(** ** What a session computes *)

(** C14: refinement.  When the allocator serves every request, a session computes
    exactly what the abstract machine on byte lists computes: every result
    code, every message and control frame handed out, and the state it ends
    in; the buffers, their growth, limits and [memmove]s are invisible.  Allocations succeed. *)
Theorem wsmsg_session_refines conf ops :
  conf_small conf → Forall wm_op_ok ops →
  ∃ w, runs (wm_session conf ops)
         (Some (w, (asm_run (conf_limits conf) ops (asm_quiet 0)).2)) ∧
       abs w = (asm_run (conf_limits conf) ops (asm_quiet 0)).1.
Proof.
  intros Hc Ho. destruct (asm_run _ _ _) as [s outs] eqn:E.
  by apply wm_session_outs.
Qed.

Lemma wsmsg_session_refines_witness :
  ∃ w, runs (wm_session small_conf [OpAdd [0x81; 2; 104]; OpAdd [105]; OpGetMessage empty_buffer])
         (Some (w, [OutAdd true; OutAdd true; OutMessage (Some ([104; 105], 1))])) ∧
       abs w = asm_quiet 1.
Proof.
  apply (wsmsg_session_refines small_conf
    [OpAdd [0x81; 2; 104]; OpAdd [105]; OpGetMessage empty_buffer]); [apply small_conf_ok|].
  repeat constructor; done.
Defined.

(** Operations that deliver transfers are calls the component accepts. *)
Lemma t_ops_ok conf dst t :
  conf_small conf → buffer_wf dst → b_max_length dst = 0 →
  transfer_ok (conf_limits conf) t → Forall wm_op_ok (t_ops dst t).
Proof.
  intros [Hf _] Hd Hm [Hfs _ _ Hw Hch]. simpl in *. apply Forall_app. split; [|by constructor; [|constructor]].
  apply Forall_fmap, Forall_forall. intros c Hin. simpl.
  assert (Forall is_byte (concat (t_chunks t))) as Hb.
  { rewrite Hw. unfold wire. apply Forall_concat, Forall_fmap.
    eapply Forall_impl; [|exact Hfs]. intros f [Hf' _]. by apply encode_frame_bytes. }
  rewrite Forall_concat, Forall_forall in Hb. split; [by apply Hb|].
  rewrite Forall_forall in Hch. destruct (Hch c Hin). lia.
Qed.

(** C8: delivery.  Messages within the configured limits, each fragmented in any way that
    RFC 6455 allows, masked or not, are delivered one after the other: each message whole,
    unmasked, with the opcode of its first frame.  A message comes in reads of its own, cut
    anywhere (in headers and masking keys, too) into pieces of at most
    [max_frame_size - 13] bytes ([transfer_ok]): of a longer read what does not fit is lost
    ([wsmsg_add_drops_silently]), and two messages in one read are an error.
    Allocations succeed. *)
Theorem wsmsg_messages_delivered conf dst ts :
  conf_small conf → buffer_wf dst → b_max_length dst = 0 →
  Forall (transfer_ok (conf_limits conf)) ts →
  ∃ w op, runs (wm_session conf (ts ≫= t_ops dst)) (Some (w, ts ≫= t_outs)) ∧
          abs w = asm_quiet op.
Proof.
  intros Hc Hd Hm Hts.
  destruct (asm_run_transfers (conf_limits conf) dst ts 0) as [op E]; [destruct Hc; simpl; lia|done|].
  destruct (wm_session_outs conf (ts ≫= t_ops dst) (asm_quiet op) (ts ≫= t_outs))
    as (w & ? & ?); eauto. apply Forall_bind. eapply Forall_impl; [|exact Hts]. intros t Ht. by apply (t_ops_ok conf).
Qed.

(** A masked text message in two fragments, cut inside both headers. *)
Definition hello_transfer : transfer :=
  let f1 := Frame false 1 (Some [1; 2; 3; 4]) [104; 101; 108] in
  let f2 := Frame true 0 (Some [9; 9; 9; 9]) [108; 111] in
  let w := wire [f1; f2] in
  Transfer [f1; f2] [ztake 1 w; ztake 9 (zdrop 1 w); zdrop 10 w].

Lemma hello_transfer_ok : transfer_ok (conf_limits small_conf) hello_transfer.
Proof.
  split; [|done|done|done|].
  - constructor; [|constructor; [|constructor]].
    all: split; [split; simpl; try done|by right].
    all: try (intros key [= <-]; split; [done|]); decided.
  - decided.
Qed.

Lemma wsmsg_messages_delivered_witness :
  ∃ w op, runs (wm_session small_conf ([hello_transfer; hello_transfer] ≫= t_ops empty_buffer))
    (Some (w, [OutAdd true; OutAdd true; OutAdd true; OutMessage (Some ([104; 101; 108; 108; 111], 1));
               OutAdd true; OutAdd true; OutAdd true; OutMessage (Some ([104; 101; 108; 108; 111], 1))])) ∧
    abs w = asm_quiet op.
Proof.
  apply (wsmsg_messages_delivered small_conf empty_buffer [hello_transfer; hello_transfer]);
    [apply small_conf_ok|apply empty_buffer_wf|done|].
  constructor; [|constructor; [|constructor]]; apply hello_transfer_ok.
Defined.

(** Side conditions of the machine's equations. *)
Ltac machine_side :=
  first [done | by rewrite ?app_nil_r | simpl; auto; first [lia | by right; zl | idtac]].

Ltac machine_add :=
  first [done | right;
    match goal with |- _ <= lim_in ?l => let c := eval unfold l in l in
      match c with conf_limits ?c => change (lim_in l) with (2 * max_frame_size c) end end;
    cbn [a_in asm_quiet]; zl].

(** ** Control frames *)

(** C22: interleaving.  A control frame between the fragments of a message is
    handed out at once with its payload, and the message goes on unharmed.
    Allocations succeed. *)
Theorem wsmsg_control_interleaved conf dst f1 c f2 :
  conf_small conf → buffer_wf dst → b_max_length dst = 0 →
  Forall (frame_fits (max_frame_size conf)) [f1; c; f2] →
  fragments_ok false [f1; f2] → is_control (f_opcode c) = true → f_fin c = true →
  zlen (payloads [f1; f2]) <= max_message_size conf →
  zlen (wire [f1; c; f2]) <= 2 * max_frame_size conf →
  ∃ w, runs (wm_session conf [OpAdd (wire [f1; c; f2]); OpGetMessage dst; OpGetFrame dst;
                              OpGetMessage dst])
    (Some (w, [OutAdd true; OutMessage None; OutFrame (Some (f_payload c, f_hdr c));
               OutMessage (Some (f_payload f1 ++ f_payload f2, f_opcode f1))])) ∧
    abs w = asm_quiet (f_opcode f1).
Proof.
  intros Hc Hd Hm Hfit Hfr Hctl Hcfin Hmsg Hin.
  pose proof (wire_bytes _ (frames_fit_ok _ _ Hfit)) as Hb.
  pose proof (wire_bytes _ (frames_fit_ok _ _ (Forall_inv_tail Hfit))) as Hb1.
  pose proof (wire_bytes _ (frames_fit_ok _ _ (Forall_inv_tail (Forall_inv_tail Hfit)))) as Hb2.
  inversion_clear Hfit as [|?? Hf1 H]. inversion_clear H as [|?? Hfc H'].
  inversion_clear H' as [|?? Hf2 _]. destruct Hfr as (Hc1 & Hs1 & Hfin1 & Hc2 & Hs2 & Hfin2).
  pose proof Hc as [Hr Hr']. set (l := conf_limits conf).
  rewrite !payloads_cons, !zlen_app in Hmsg. change (zlen (payloads [])) with 0 in Hmsg.
  pose proof (zlen_nonneg (f_payload f1)). pose proof (zlen_nonneg (f_payload f2)).
  apply wm_session_outs; [done|each; simpl; auto; split; [done|lia]|].
  fold l. cbn [asm_run asm_do]. rewrite asm_add_idle by (done || by right).
  rewrite (asm_go_data l f1 (wire [c; f2])); [|machine_side..].
  rewrite (asm_go_control l c (wire [f2])); [|machine_side..].
  rewrite Hfin1, asm_get_message_none by done.
  rewrite (asm_get_frame_pending l _ (f_hdr c) (f_payload c)) by done. cbn [a_in a_msg a_op a_started].
  rewrite (asm_go_data l f2 []); [|machine_side..].
  rewrite Hfin2, asm_go_empty, asm_get_message_full by done. simpl.
  by rewrite asm_go_empty.
Qed.

Definition ping_between : list frame :=
  [Frame false 1 None [104]; Frame true 9 (Some [1; 2; 3; 4]) [7; 7]; Frame true 0 None [105]].

Lemma wsmsg_control_interleaved_witness :
  ∃ w, runs (wm_session small_conf [OpAdd (wire ping_between); OpGetMessage empty_buffer;
                                    OpGetFrame empty_buffer; OpGetMessage empty_buffer])
    (Some (w, [OutAdd true; OutMessage None; OutFrame (Some ([7; 7], Hdr true 9 true));
               OutMessage (Some ([104; 105], 1))])) ∧
    abs w = asm_quiet 1.
Proof.
  apply (wsmsg_control_interleaved small_conf empty_buffer (Frame false 1 None [104])
    (Frame true 9 (Some [1; 2; 3; 4]) [7; 7]) (Frame true 0 None [105])); try done.
  - apply empty_buffer_wf.
  - each; (split; [split; simpl; try done|by right]).
    all: try (intros key [= <-]; split; [done|]); decided.
Defined.

(** ** Two messages in one read *)

(** C35: two whole messages that arrive in one read are not delivered: the loop
    runs on over the complete first message, takes the first frame of the
    second for a protocol violation, and the connection fails, although both
    messages are valid; in two reads with a [wsmsg_get_message] between them
    the same bytes are delivered.  Allocations succeed. *)
Theorem wsmsg_two_messages_one_read conf dst f1 f2 :
  conf_small conf → buffer_wf dst → b_max_length dst = 0 →
  Forall (frame_fits (max_frame_size conf)) [f1; f2] →
  fragments_ok false [f1] → fragments_ok false [f2] →
  zlen (f_payload f1) <= max_message_size conf → zlen (f_payload f2) <= max_message_size conf →
  zlen (wire [f1; f2]) <= 2 * max_frame_size conf →
  (∃ w, runs (wm_session conf [OpAdd (wire [f1; f2])]) (Some (w, [OutAdd true])) ∧
        wsmsg_fail w = true) ∧
  (∃ w, runs (wm_session conf [OpAdd (encode_frame f1); OpGetMessage dst;
                               OpAdd (encode_frame f2); OpGetMessage dst])
     (Some (w, [OutAdd true; OutMessage (Some (f_payload f1, f_opcode f1));
                OutAdd true; OutMessage (Some (f_payload f2, f_opcode f2))]))).
Proof.
  intros Hc Hd Hm Hfit (Hc1 & Hs1 & Hfin1) (Hc2 & Hs2 & Hfin2) Hm1 Hm2 Hin.
  pose proof (wire_bytes _ (frames_fit_ok _ _ Hfit)) as Hb.
  inversion_clear Hfit as [|?? Hf1 H]. inversion_clear H as [|?? Hf2 _].
  pose proof (encode_frame_bytes f1 (proj1 Hf1)). pose proof (encode_frame_bytes f2 (proj1 Hf2)).
  pose proof Hc as [Hr Hr']. set (l := conf_limits conf).
  change (wire [f1; f2]) with (encode_frame f1 ++ encode_frame f2 ++ []) in *.
  rewrite !zlen_app in Hin. change (zlen (@nil Z)) with 0 in Hin.
  pose proof (zlen_nonneg (encode_frame f1)). pose proof (zlen_nonneg (encode_frame f2)).
  split.
  - edestruct (wm_session_outs conf [OpAdd (encode_frame f1 ++ encode_frame f2 ++ [])])
      as (w & Hrun & Ha); [done|each; split; [done|zl]| |].
    { fold l. cbn [asm_run asm_do]. rewrite asm_add_idle by machine_add.
      rewrite (asm_go_data l f1 (encode_frame f2 ++ [])); [|machine_side..].
      rewrite (asm_go_mismatch l f2 []); machine_side. }
    exists w. split; [done|]. by injection Ha.
  - edestruct (wm_session_outs conf [OpAdd (encode_frame f1); OpGetMessage dst;
      OpAdd (encode_frame f2); OpGetMessage dst]) as (w & Hrun & Ha);
      [done|each; simpl; auto; split; auto; lia| |by exists w].
    fold l. cbn [asm_run asm_do]. rewrite asm_add_idle by machine_add.
    rewrite (asm_go_data l f1 []); [|machine_side..].
    rewrite Hfin1, asm_go_empty, asm_get_message_full by done. simpl.
    rewrite asm_go_empty by done.
    rewrite asm_add_idle by machine_add.
    rewrite (asm_go_data l f2 []); [|machine_side..].
    rewrite Hfin2, asm_go_empty, asm_get_message_full by done. done.
Qed.

Lemma wsmsg_two_messages_one_read_witness :
  let f1 := Frame true 1 (Some [1; 2; 3; 4]) [104] in
  let f2 := Frame true 2 (Some [5; 6; 7; 8]) [105; 106] in
  (∃ w, runs (wm_session small_conf [OpAdd (wire [f1; f2])]) (Some (w, [OutAdd true])) ∧
        wsmsg_fail w = true) ∧
  (∃ w, runs (wm_session small_conf [OpAdd (encode_frame f1); OpGetMessage empty_buffer;
                                     OpAdd (encode_frame f2); OpGetMessage empty_buffer])
     (Some (w, [OutAdd true; OutMessage (Some ([104], 1));
                OutAdd true; OutMessage (Some ([105; 106], 2))]))).
Proof.
  intros f1 f2.
  apply (wsmsg_two_messages_one_read small_conf empty_buffer f1 f2); try done.
  - apply empty_buffer_wf.
  - each; (split; [split; simpl; try done|by right]).
    all: try (intros key [= <-]; split; [done|]); decided.
Defined.

(** ** Limits *)

(** A frame longer than [max_frame_size] that still fits the receive buffer
    is neither refused nor delivered whole: the client gets its first
    [max_frame_size] bytes as if they were the message. *)
Theorem wsmsg_oversize_frame_truncated conf dst f :
  conf_small conf → buffer_wf dst → b_max_length dst = 0 →
  frame_ok f → fragments_ok false [f] →
  max_frame_size conf < zlen (f_payload f) → zlen (encode_frame f) <= 2 * max_frame_size conf →
  max_frame_size conf <= max_message_size conf →
  ∃ w, runs (wm_session conf [OpAdd (encode_frame f); OpGetMessage dst])
    (Some (w, [OutAdd true;
               OutMessage (Some (ztake (max_frame_size conf) (f_payload f), f_opcode f))])) ∧
    abs w = asm_quiet (f_opcode f).
Proof.
  intros Hc Hd Hm Hf (Hc1 & Hs1 & Hfin1) Hlong Hin Hmsg.
  pose proof (encode_frame_bytes f Hf) as Hb. pose proof Hc as [Hr Hr'].
  set (l := conf_limits conf). set (p := ztake (max_frame_size conf) (f_payload f)).
  assert (zlen p = max_frame_size conf) as Hp by (unfold p; zl).
  apply wm_session_outs; [done|each; simpl; auto; split; [done|lia]|].
  fold l. cbn [asm_run asm_do]. rewrite asm_add_idle by machine_add.
  assert (asm_step l (Asm (encode_frame f) None [] 0 false false false) =
    (true, Asm [] None p (f_opcode f) true true false)) as E.
  { unfold asm_step. cbn [a_in]. rewrite <-(app_nil_r (encode_frame f)).
    rewrite next_frame_encode_limit by (simpl; auto; lia).
    change (lim_frame l) with (max_frame_size conf). unfold take_limit.
    destruct (Z.eqb_spec (max_frame_size conf) 0); [lia|].
    rewrite Z.min_r by lia. fold p. unfold asm_dispatch. simpl. rewrite Hc1, Hs1, Hfin1. simpl.
    by rewrite append_limit_fits by (right; simpl; zl). }
  cbn [asm_quiet a_in a_ctl a_msg a_op a_started a_full a_err app].
  rewrite (asm_go_again l _ (Asm [] None p (f_opcode f) true true false));
    [|exact Hb|apply Forall_nil_2|exact E]. rewrite asm_go_empty by done.
  rewrite asm_get_message_full by done. by rewrite asm_go_empty.
Qed.

Lemma wsmsg_oversize_frame_truncated_witness :
  let f := Frame true 2 None (replicate 100 7) in
  ∃ w, runs (wm_session small_conf [OpAdd (encode_frame f); OpGetMessage empty_buffer])
    (Some (w, [OutAdd true; OutMessage (Some (replicate 64 7, 2))])) ∧ abs w = asm_quiet 2.
Proof.
  intros f.
  apply (wsmsg_oversize_frame_truncated small_conf empty_buffer f); try done.
  - apply empty_buffer_wf.
  - split; [done|done| |done]. decided.
Defined.

(** Bytes that find no room in the receive buffer are dropped without a sign:
    when a read fills the buffer, [wsmsg_add] reports success whatever follows,
    and the component goes on as if the rest had never been sent. *)
Theorem wsmsg_add_drops_silently conf data rest :
  conf_small conf → Forall is_byte (data ++ rest) →
  zlen data = 2 * max_frame_size conf → zlen rest <= 2 ^ 60 →
  ∃ w w', runs (wm_session conf [OpAdd (data ++ rest)]) (Some (w, [OutAdd true])) ∧
          runs (wm_session conf [OpAdd data]) (Some (w', [OutAdd true])) ∧ abs w = abs w'.
Proof.
  intros Hc Hb Hd Hr. pose proof Hc as [Hf _]. pose proof (zlen_nonneg rest).
  assert (∀ d, Forall is_byte d → zlen d <= 2 ^ 61 → ztake (2 * max_frame_size conf) d = data →
    zlen data <= zlen d →
    ∃ w, runs (wm_session conf [OpAdd d]) (Some (w, [OutAdd true])) ∧
         abs w = asm_go (conf_limits conf) (Asm data None [] 0 false false false)) as Hd'.
  { intros d Hdb Hdl Htake Hle. apply wm_session_outs; [done|each; by split|].
    simpl. unfold asm_add, append_limit. simpl.
    destruct (Z.eqb_spec (zlen d) 0); [lia|].
    destruct (Z.eqb_spec (2 * max_frame_size conf) 0); [lia|].
    change (zlen []) with 0. destruct (Z.ltb_spec 0 (2 * max_frame_size conf)); [|lia].
    by rewrite Z.sub_0_r, Htake. }
  pose proof Hb as [Hb1 _]%Forall_app.
  destruct (Hd' (data ++ rest)) as (w & ? & Ha); [done|zl|by rewrite ztake_app_exact by lia|zl|].
  destruct (Hd' data) as (w' & ? & Ha'); [done|lia|by rewrite ztake_ge by lia|lia|].
  exists w, w'. split_and!; auto. by rewrite Ha, Ha'.
Qed.

Lemma wsmsg_add_drops_silently_witness :
  let data := 0x82 :: 126 :: 0 :: 200 :: replicate 124 7 in
  ∃ w w', runs (wm_session small_conf [OpAdd (data ++ replicate 76 7)]) (Some (w, [OutAdd true])) ∧
          runs (wm_session small_conf [OpAdd data]) (Some (w', [OutAdd true])) ∧ abs w = abs w'.
Proof.
  intros data.
  apply (wsmsg_add_drops_silently small_conf data (replicate 76 7)); [apply small_conf_ok| |done|done].
  decided.
Defined.

(** ** One frame *)

(** What [get_frame] makes of the bytes received, by the decoder of RFC 6455.  [n]: the
    payload's length, of which four bytes are read; a length that does not fit
    them loses its upper half. *)
Definition frame_result (e : env) (src buffer : buffer_t)
    '((fs, hdr, src', buffer') : frame_status * option frame_hdr * buffer_t * buffer_t) : Prop :=
  buffer_wf src' ∧ buffer_wf buffer' ∧
  match decode_header (contents src) with
  | HMore => fs = FS_BUILDING ∧ hdr = None ∧ src' = src ∧ buffer' = buffer
  | HError => fs = FS_ERROR ∧ hdr = None ∧ src' = src ∧ buffer' = buffer
  | HHeader h hl off len =>
      let n := if len <? 2 ^ 32 then len else len mod 2 ^ 32 in
      (e = Hostile ∧ fs = FS_ERROR ∧ hdr = None ∧ src' = src) ∨
      if zlen (contents src) <? off + n then fs = FS_BUILDING ∧ hdr = None ∧ src' = src
      else fs = FS_READY ∧ hdr = Some h ∧ contents src' = zdrop (off + n) (contents src) ∧
           contents buffer' = frame_payload h hl (contents src)
             (ztake (take_limit (b_max_length buffer) n) (zdrop off (contents src)))
  end.

(** C19: [get_frame] against the header decoder of RFC 6455, as long as the bytes that it
    copies before it knows whether the frame is whole lie in the receive buffer's memory
    ([frame_readable]).  It takes the branch the decoder takes: more bytes are needed, a
    reserved bit is set, or there is a header; then it waits for the whole frame,
    consumes exactly that, and yields its payload unmasked.  Two things differ from the
    RFC: a length of 4 GiB or more is read modulo 2^32, and a payload beyond the
    buffer's limit is cut to it.  When an allocation fails the frame is an error. *)
Theorem get_frame_correct e src buffer :
  buffer_wf src → buffer_wf buffer → frame_readable src buffer →
  wp e (get_frame src buffer) (frame_result e src buffer).
Proof.
  intros Hs Hb Hr. eapply wp_mono; [by apply get_frame_spec|].
  intros [[[fs hdr] src'] buffer'] (Hs' & Hb' & _ & _ & _ & Hres). split; [done|]. split; [done|].
  pose proof (contents_bytes _ Hs) as Hby. rewrite read_header_low in Hres by done.
  destruct (decode_header (contents src)) as [| |h hl off len] eqn:E; [done|done|]. cbn [low_length] in Hres.
  assert ((if len <? 2 ^ 32 then len else len mod 2 ^ 32) = len mod 2 ^ 32) as ->.
  { pose proof (decode_header_length _ _ _ _ _ Hby E). destruct (Z.ltb_spec len (2 ^ 32)); [|done].
    by rewrite Z.mod_small. }
  destruct Hres as [(-> & -> & -> & ->)|Hres]; [by left|right]. by rewrite accepted_clear in Hres.
Qed.

(** Round trip: the wire format of any frame, masked or not, with any opcode
    and any payload up to 4 GiB, followed by any bytes, is read back by
    [get_frame] as the frame it came from, and the bytes after it stay. *)
Theorem get_frame_decodes src buffer f rest :
  buffer_wf src → buffer_wf buffer → frame_ok f →
  contents src = encode_frame f ++ rest →
  b_max_length buffer = 0 ∨ zlen (f_payload f) <= b_max_length buffer →
  ∃ src' buffer', runs (get_frame src buffer) (FS_READY, Some (f_hdr f), src', buffer') ∧
    contents src' = rest ∧ contents buffer' = f_payload f.
Proof.
  intros Hs Hb Hf Hc Hl. pose proof (zlen_contents _ Hs) as Hlen.
  rewrite Hc, zlen_app, zlen_encode_frame in Hlen by done. pose proof (zlen_nonneg rest).
  assert (frame_readable src buffer) as Hr.
  { intros h hl off len Hdec. rewrite Hc, decode_encode in Hdec by done. simplify_eq.
    rewrite accepted_clear, take_limit_fits by done. destruct Hs. lia. }
  destruct (wp_benign_runs _ _ (get_frame_next Benign src buffer Hs Hb Hr))
    as ([[[fs hdr] src'] buffer'] & E & H'). destruct H' as (_ & _ & _ & _ & _ & Hn).
  rewrite Hc, next_frame_encode in Hn by (first [done | destruct Hb; lia]).
  destruct Hn as [(-> & -> & ? & ?)|(_ & _ & ?)]; [eauto 6|done].
Qed.

Definition received (c : list Z) : buffer_t := Buffer (c ++ replicate 64 0) (zlen c) (zlen c + 64) 0.

Lemma received_wf c : Forall is_byte c → zlen c <= 2 ^ 40 → buffer_wf (received c).
Proof.
  intros Hb Hl. pose proof (zlen_nonneg c).
  split; cbn [received b_data b_length b_capacity b_max_length]; unfold PTRDIFF_MAX; try lia;
    [by rewrite zlen_app|].
  apply Forall_app. split; [done|]. by apply Forall_replicate.
Qed.

Lemma received_contents c : contents (received c) = c.
Proof. unfold contents, received. simpl. by rewrite ztake_app_exact. Qed.

(** A whole frame, and a header that announces 2^32 + 1 bytes. *)
Lemma get_frame_correct_witness :
  wp Hostile (get_frame (received [0x81; 0x02; 104; 105]) empty_buffer)
    (frame_result Hostile (received [0x81; 0x02; 104; 105]) empty_buffer) ∧
  wp Hostile (get_frame (received [0x82; 0x7f; 0; 0; 0; 1; 0; 0; 0; 1; 7]) empty_buffer)
    (frame_result Hostile (received [0x82; 0x7f; 0; 0; 0; 1; 0; 0; 0; 1; 7]) empty_buffer).
Proof.
  split; (apply get_frame_correct; [apply received_wf; [decided|done]|apply empty_buffer_wf|]);
    intros h hl off len; rewrite received_contents; intros [= <- <- <- <-]; by vm_compute.
Defined.

Lemma get_frame_decodes_witness :
  let f := Frame true 1 (Some [1; 2; 3; 4]) [104; 105] in
  ∃ src' buffer', runs (get_frame (received (encode_frame f ++ [9])) empty_buffer)
    (FS_READY, Some (Hdr true 1 true), src', buffer') ∧
    contents src' = [9] ∧ contents buffer' = [104; 105].
Proof.
  intros f.
  apply (get_frame_decodes (received (encode_frame f ++ [9])) empty_buffer f [9]).
  - apply received_wf; [decided|done].
  - apply empty_buffer_wf.
  - split; try done; [intros key [= <-]; split; [done|]|]; decided.
  - apply received_contents.
  - by left.
Defined.
