(* ===== verification/WsTake.v ===== *)
(** What one call on the message object of a connection leaves to do.

    The loop of [wsconn_process_frame] takes out control frames and messages
    until nothing is pending.  This file measures what is pending and gives the
    three calls of the loop in the form its proofs use. *)

From S2P Require Import Prelude Buffer Config WsMessage WsFrameSpec WsMessageSpec Rfc6455 Assembly.

(** Bytes to decode, a control frame to hand out, a message to hand out. *)
Definition asm_pending (s : asm) : Z :=
  zlen (a_in s) + (if a_ctl s is Some _ then 1 else 0) + Z.b2z (a_full s).

Lemma asm_pending_nonneg s : 0 <= asm_pending s.
Proof. unfold asm_pending. zlen_pos. destruct (a_ctl s), (a_full s); simpl; lia. Qed.

Lemma next_frame_rest_bytes limit c h p rest :
  Forall is_byte c → next_frame limit c = NFrame h p rest → Forall is_byte rest.
Proof.
  unfold next_frame. intros Hc. destruct (read_header c); [done|done|].
  case_match; [done|]. intros [= _ _ <-]. auto with zlist.
Qed.

(** Every flag that a step sets costs a frame, which has two bytes or more. *)
Lemma asm_step_pending l s b s' : Forall is_byte (a_in s) → asm_step l s = (b, s') →
  asm_pending s' <= asm_pending s ∧ Forall is_byte (a_in s').
Proof.
  intros Hb. unfold asm_step, asm_dispatch, asm_pending.
  destruct (next_frame _ _) as [| |h p rest] eqn:Hn; [by intros [= <- <-]|by intros [= <- <-]|].
  pose proof (next_frame_rest _ _ _ _ _ Hb Hn). pose proof (next_frame_rest_bytes _ _ _ _ _ Hb Hn).
  assert (∀ x : option (frame_hdr * list Z), 0 <= (if x is Some _ then 1 else 0) <= 1) as Hx by (by intros []).
  assert (∀ b : bool, 0 <= Z.b2z b <= 1) as Hy by (by intros []).
  zlen_pos. pose proof (Hx (a_ctl s)). pose proof (Hy (a_full s)).
  repeat case_match; intros; simplify_eq/=; (split; [|done]); simpl in *; lia.
Qed.

Lemma asm_loop_pending l fuel s : Forall is_byte (a_in s) →
  asm_pending (asm_loop l fuel s) <= asm_pending s.
Proof.
  revert s. induction fuel as [|fuel IH]; intros s Hb; cbn [asm_loop]; [done|].
  destruct (asm_step l s) as [b s'] eqn:E.
  destruct (asm_step_pending _ _ _ _ Hb E) as [Hle Hb']. destruct b; [|done].
  etransitivity; [by apply IH|done].
Qed.

Lemma asm_process_pending l s : Forall is_byte (a_in s) → asm_pending (asm_process l s) <= asm_pending s.
Proof. intros. unfold asm_process. case_match; [by apply asm_loop_pending|done]. Qed.

(** A failed object has nothing more to give. *)
Definition wm_pending (w : wsmsg_t) : Z := if wm_error w then 0 else asm_pending (abs w).

Lemma refines_pending e w s : refines e w s → wm_pending w <= asm_pending s.
Proof.
  pose proof (asm_pending_nonneg s). unfold wm_pending.
  intros [<-|[_ ->]]; [by destruct (wm_error w)|done].
Qed.

Lemma refines_exact e w s : e ≠ Hostile → refines e w s → abs w = s.
Proof. by intros ? [?|[? _]]. Qed.

Section take.
Context (e : env).
Implicit Types (w : wsmsg_t) (dst : buffer_t).

Lemma abs_in_bytes w : wm_small w → Forall is_byte (a_in (abs w)).
Proof. intros [[] _ _ _ _]. by apply contents_bytes. Qed.

Lemma wm_small_readable_self w : wm_small w → wm_readable w.
Proof.
  intros Hs. replace w with (wm_set_frame_buffer (wm_frame_buffer w) w) by by destruct w.
  apply wm_small_readable; [done|apply Hs|done|lia].
Qed.

Lemma wm_small_keeps w w' : wm_small w → wsmsg_wf w' → wm_same w w' →
  wm_small w' ∧ wm_limits w' = wm_limits w.
Proof. intros ? ? [? ?]. split; [apply (wm_small_same w); auto; lia|done]. Qed.

Lemma take_message w dst :
  wm_small w → wm_message w = true → wm_error w = false → buffer_wf dst → b_max_length dst = 0 →
  wp e (wsmsg_get_message w dst) (λ '(res, w', dst', op),
    wm_small w' ∧ wm_limits w' = wm_limits w ∧ buffer_wf dst' ∧ b_max_length dst' = 0 ∧
    wm_pending w' < wm_pending w ∧ op = Some (wm_message_opcode w) ∧
    (e ≠ Hostile → contents dst' = a_msg (abs w) ∧
       abs w' = asm_process (wm_limits w) (Asm (a_in (abs w)) (a_ctl (abs w)) [] (a_op (abs w)) false false false))).
Proof.
  intros Hs Hm He Hd Hmax. eapply wp_mono.
  { apply wsmsg_get_message_refines; [apply Hs|done|done|by apply wm_small_readable_self]. }
  intros [[[res w'] dst'] op] (Hw' & Hd' & Hmax' & Hsame & Hres).
  destruct (wm_small_keeps w w') as [Hs' Hl']; [done|done|done|].
  unfold asm_get_message in Hres. change (a_full (abs w)) with (wm_message w) in Hres.
  change (a_err (abs w)) with (wm_error w) in Hres. rewrite Hm, He in Hres.
  destruct Hres as [-> Hres]. do 4 (split; [done|]).
  assert (∀ m, asm_pending (asm_process (wm_limits w)
            (Asm (a_in (abs w)) (a_ctl (abs w)) m (a_op (abs w)) false false false)) < wm_pending w) as Hp.
  { intros m. eapply Z.le_lt_trans; [by apply asm_process_pending, abs_in_bytes|].
    unfold wm_pending, asm_pending. rewrite He. change (a_full (abs w)) with (wm_message w).
    rewrite Hm. cbn [a_in a_ctl a_full Z.b2z]. lia. }
  split; [|split; [done|]].
  - destruct Hres as [(_ & _ & Href)|(_ & _ & Href)];
      (eapply Z.le_lt_trans; [by eapply refines_pending|apply Hp]).
  - intros Hnh. destruct Hres as [(_ & Hc & Href)|(_ & ? & _)]; [|done].
    split; [done|]. by eapply refines_exact.
Qed.

Lemma take_frame w dst :
  wm_small w → wm_frame w = true → wm_error w = false → buffer_wf dst → b_max_length dst = 0 →
  wp e (wsmsg_get_frame w dst) (λ '(res, w', dst', hdr),
    wm_small w' ∧ wm_limits w' = wm_limits w ∧ buffer_wf dst' ∧ b_max_length dst' = 0 ∧
    if res : bool then
      wm_pending w' < wm_pending w ∧ hdr = Some (Hdr (wm_fin w) (wm_opcode w) (wm_mask w)) ∧
      contents dst' = contents (wm_frame_data w) ∧
      (e ≠ Hostile → abs w' = asm_process (wm_limits w)
         (Asm (a_in (abs w)) None (a_msg (abs w)) (a_op (abs w)) (a_started (abs w)) (a_full (abs w)) false))
    else e = Hostile).
Proof.
  intros Hs Hf He Hd Hmax. pose proof (wm_small_lengths _ Hs) as (_ & _ & Hlen). eapply wp_mono.
  { apply wsmsg_get_frame_refines; [apply Hs|done|done|by apply wm_small_readable_self|lia]. }
  intros [[[res w'] dst'] hdr] (Hw' & Hd' & Hmax' & Hsame & Hres).
  destruct (wm_small_keeps w w') as [Hs' Hl']; [done|done|done|]. do 4 (split; [done|]).
  unfold asm_get_frame in Hres. change (a_err (abs w)) with (wm_error w) in Hres.
  assert (a_ctl (abs w) = Some (Hdr (wm_fin w) (wm_opcode w) (wm_mask w), contents (wm_frame_data w))) as Hctl
    by (unfold abs; cbn [a_ctl]; by rewrite Hf).
  rewrite Hctl, He in Hres. destruct Hres as [-> [(-> & Hc & Href)|(-> & ?)]]; [|done].
  split; [|split; [done|split; [done|]]].
  - eapply Z.le_lt_trans; [by eapply refines_pending|].
    eapply Z.le_lt_trans; [by apply asm_process_pending, abs_in_bytes|].
    unfold wm_pending, asm_pending. rewrite He, Hctl. cbn [a_in a_ctl a_full]. lia.
  - intros Hnh. by eapply refines_exact.
Qed.

Lemma add_bytes w data :
  wm_small w → Forall is_byte data → zlen data <= 2 ^ 61 →
  wp e (wsmsg_add w data) (λ '(ok, w'),
    wm_small w' ∧ wm_limits w' = wm_limits w ∧
    (e ≠ Hostile → (ok, abs w') = asm_add (wm_limits w) (abs w) data)).
Proof.
  intros Hs Hd Hl. pose proof (wm_small_lengths _ Hs) as (? & ? & _). unfold INT_MAX in *.
  eapply wp_mono.
  { apply wsmsg_add_refines; [apply Hs|done|lia|]. intros. by apply wm_small_readable. }
  intros [ok w'] (Hw' & Hl' & Hc' & Hres). split; [by apply (wm_small_same w)|]. split; [done|].
  intros Hnh. destruct (asm_add _ _ _) as [ok' s']. destruct Hres as [[-> Href]|[? _]]; [|done].
  f_equal. by eapply refines_exact.
Qed.

Lemma wm_pending_fuel w : wm_small w → wm_pending w <= b_length (wm_frame_buffer w) + 2.
Proof.
  intros [[] _ _ _ _]. unfold wm_pending, asm_pending.
  change (a_in (abs w)) with (contents (wm_frame_buffer w)). rewrite zlen_contents by done.
  destruct (wm_error w); [destruct ww_frame_buffer; lia|].
  destruct (a_ctl (abs w)), (a_full (abs w)); simpl; lia.
Qed.
End take.
