(* ===== verification/BufferProps.v ===== *)
(** * Buffers: properties

    [buffer_t] is a queue of bytes with a limit: the operations of [util.c] on
    the array, its length and its capacity are appending to, and removing
    from, a list. *)

From S2P Require Import Prelude Buffer Config WsMessage WsFrameSpec WsMessageSpec Rfc6455 Assembly WsMessageProps.

Inductive buf_op :=
  | BAppend (src : list Z) (off len : Z)
  | BSet (src : list Z) (off len : Z)
  | BRemove (n : Z)
  | BClear
  | BGet (n : Z).

(** The source object holds the bytes asked for. *)
Definition buf_op_ok (o : buf_op) : Prop :=
  match o with
  | BAppend src off len | BSet src off len =>
      Forall is_byte src ∧ 0 <= off ∧ 0 <= len ∧ off + len <= zlen src ∧ zlen src <= 2 ^ 32
  | BRemove n | BGet n => 0 <= n
  | BClear => True
  end.

(** What the caller sees: a result code, or bytes. *)
Inductive buf_out := BOk (ok : bool) | BBytes (d : list Z).

Definition buf_do (o : buf_op) (b : buffer_t) : M (buffer_t * buf_out) :=
  match o with
  | BAppend src off len => '(ok, b') ← buffer_append b src off len; mret (b', BOk ok)
  | BSet src off len => '(ok, b') ← buffer_set_data b src off len; mret (b', BOk ok)
  | BRemove n => b' ← buffer_remove_data b n; mret (b', BOk true)
  | BClear => mret (buffer_clear b, BOk true)
  | BGet n => d ← buffer_get_data b (replicate (Z.to_nat n) 0) n; mret (b, BBytes d)
  end.

(** The list machine; [None]: the call is outside the contract. *)
Definition queue_do (limit : Z) (o : buf_op) (q : list Z) : option (list Z * buf_out) :=
  match o with
  | BAppend src off len =>
      Some (match append_limit limit q (ztake len (zdrop off src)) with
            | Some q' => (q', BOk true)
            | None => (q, BOk false)
            end)
  | BSet src off len =>
      Some (match append_limit limit [] (ztake len (zdrop off src)) with
            | Some q' => (q', BOk true)
            | None => ([], BOk false)
            end)
  | BRemove n => if n <=? zlen q then Some (zdrop n q, BOk true) else None
  | BClear => Some ([], BOk true)
  | BGet n => if n <=? zlen q then Some (q, BBytes (ztake n q)) else None
  end.

Fixpoint buf_run (ops : list buf_op) (b : buffer_t) : M (buffer_t * list buf_out) :=
  match ops with
  | [] => mret (b, [])
  | o :: ops' =>
      '(b', out) ← buf_do o b; '(b'', outs) ← buf_run ops' b'; mret (b'', out :: outs)
  end.

Fixpoint queue_run (limit : Z) (ops : list buf_op) (q : list Z) : option (list Z * list buf_out) :=
  match ops with
  | [] => Some (q, [])
  | o :: ops' =>
      '(q', out) ← queue_do limit o q;
      '(q'', outs) ← queue_run limit ops' q';
      Some (q'', out :: outs)
  end.

Lemma append_limit_small limit q p m :
  append_limit limit q p = Some m → zlen m <= zlen q + zlen p.
Proof.
  unfold append_limit. zlen_pos. destruct (zlen p =? 0); [intros [= <-]; lia|].
  destruct (limit =? 0); [intros [= <-]; zl|].
  destruct (Z.ltb_spec (zlen q) limit); [|done]. intros [= <-].
  rewrite zlen_app. unfold ztake, zlen in *. rewrite length_take. lia.
Qed.

Lemma buf_do_refines b o q' out :
  buffer_wf b → b_length b <= 2 ^ 61 → buf_op_ok o →
  queue_do (b_max_length b) o (contents b) = Some (q', out) →
  wp Benign (buf_do o b) (λ '(b', out'),
    buffer_wf b' ∧ b_max_length b' = b_max_length b ∧ contents b' = q' ∧ out' = out ∧
    b_length b' <= b_length b + 2 ^ 32).
Proof.
  intros Hb Hl Ho Hq. pose proof (zlen_contents b Hb) as Hlen.
  assert (∀ b0 src off len, buffer_wf b0 → b_length b0 <= 2 ^ 61 →
    b_max_length b0 = b_max_length b →
    Forall is_byte src ∧ 0 <= off ∧ 0 <= len ∧ off + len <= zlen src ∧ zlen src <= 2 ^ 32 →
    wp Benign (buffer_append b0 src off len) (λ '(ok, b'),
      buffer_wf b' ∧ b_max_length b' = b_max_length b ∧
      (contents b', BOk ok) =
        match append_limit (b_max_length b) (contents b0) (ztake len (zdrop off src)) with
        | Some m => (m, BOk true) | None => (contents b0, BOk false) end ∧
      b_length b' <= b_length b0 + 2 ^ 32)) as Happ.
  { intros b0 src off len Hb0 Hl0 Hm0 (? & ? & ? & ? & ?).
    eapply wp_mono; [apply buffer_append_refines; auto; unfold PTRDIFF_MAX; lia|].
    intros [ok b'] (Hb' & Hm & _ & Hr). rewrite Hm0 in *. split_and!; auto.
    - destruct (append_limit _ _ _); [|by destruct Hr as [-> ->]].
      by destruct Hr as [[-> ->]|(_ & _ & ?)].
    - destruct (append_limit _ _ _) as [m|] eqn:E; [|destruct Hr as [_ ->]; lia].
      destruct Hr as [[_ Hc]|(_ & _ & ?)]; [|done].
      apply append_limit_small in E. rewrite <-Hc, !zlen_contents, zlen_slice in E by done. lia. }
  destruct o as [src off len|src off len|n| |n]; simpl in Hq; cbn [buf_do].
  - wstep. eapply wp_mono; [by apply Happ|]. intros [ok b'] (? & ? & E & ?). apply wp_ret.
    rewrite <-E in Hq. by simplify_eq.
  - wstep. unfold buffer_set_data. eapply wp_mono; [apply Happ; auto with buf; simpl; lia|].
    intros [ok b'] (? & ? & E & ?). apply wp_ret. rewrite buffer_clear_contents in E.
    rewrite <-E in Hq. simplify_eq. split_and!; try done. simpl in *. destruct Hb. lia.
  - simpl in Ho. destruct (Z.leb_spec n (zlen (contents b))); [|done]. simplify_eq.
    wstep. eapply wp_mono; [apply buffer_remove_data_spec; auto; lia|].
    intros b' (? & ? & ? & ? & ?). apply wp_ret. split_and!; auto; lia.
  - simplify_eq. apply wp_ret. split_and!; auto with buf. simpl. destruct Hb. lia.
  - simpl in Ho. destruct (Z.leb_spec n (zlen (contents b))); [|done]. simplify_eq.
    unfold buffer_get_data. pose proof Hb as []. wstep. wstep.
    eapply wp_opt; [apply mem_read_Some; lia|].
    assert (zlen (replicate (Z.to_nat n) 0) = n) by (unfold zlen; rewrite length_replicate; lia).
    assert (zlen (ztake n (zdrop 0 (b_data b))) = n) as Hz by zl.
    eapply wp_opt; [apply mem_write_Some; lia|]. apply wp_ret. split_and!; auto; [|lia].
    rewrite Hz, Z.add_0_l, zdrop_0, ztake_0, zdrop_ge, app_nil_r by lia. simpl.
    unfold contents. by rewrite ztake_ztake by lia.
Qed.

(** C23: a buffer is a bounded queue of bytes: any sequence of appends, stores,
    removals, clears and reads, when allocations succeed, behaves as on a list, truncated at
    [max_length]; reallocation, capacity and the [memmove] never show. *)
Theorem buffer_refines_queue ops b q outs :
  buffer_wf b → b_length b + 2 ^ 32 * zlen ops <= 2 ^ 61 → Forall buf_op_ok ops →
  queue_run (b_max_length b) ops (contents b) = Some (q, outs) →
  ∃ b', runs (buf_run ops b) (b', outs) ∧ buffer_wf b' ∧ contents b' = q.
Proof.
  intros Hb Hl Ho Hq. cut (wp Benign (buf_run ops b) (λ '(b', outs'),
    outs' = outs ∧ buffer_wf b' ∧ contents b' = q)).
  { intros ([b' outs'] & E & -> & ? & ?). eauto. }
  revert b q outs Hb Hl Hq. induction Ho as [|o ops Ho _ IH]; intros b q outs Hb Hl Hq.
  { simpl in Hq. simplify_eq. by apply wp_ret. }
  rewrite zlen_cons in Hl. pose proof (zlen_nonneg ops). simpl in Hq.
  destruct (queue_do _ _ _) as [[q' out]|] eqn:Eo; [|done]. simpl in Hq.
  destruct (queue_run _ _ q') as [[q'' outs']|] eqn:Er; [|done]. simpl in Hq. simplify_eq.
  cbn [buf_run]. wstep. eapply wp_mono; [apply (buf_do_refines b o q' out); auto; lia|].
  intros [b' out'] (? & Hm & Hc & -> & ?). wstep.
  eapply wp_mono; [apply (IH b' q outs'); auto; [lia|by rewrite Hm, Hc]|].
  intros [b'' outs''] (-> & ? & ?). by apply wp_ret.
Qed.

Lemma buffer_refines_queue_witness :
  ∃ b', runs (buf_run [BAppend [1; 2; 3; 4] 1 3; BRemove 1; BAppend [9] 0 1; BGet 2] empty_buffer)
    (b', [BOk true; BOk true; BOk true; BBytes [3; 4]]) ∧ buffer_wf b' ∧ contents b' = [3; 4; 9].
Proof.
  apply (buffer_refines_queue [BAppend [1; 2; 3; 4] 1 3; BRemove 1; BAppend [9] 0 1; BGet 2]).
  - apply empty_buffer_wf.
  - done.
  - each; simpl; try done; split_and!; try done; decided.
  - done.
Defined.

(** C26: [unmask] computes the masking of RFC 6455, section 5.3, octet [i] with
    octet [i mod 4] of the key, in place on the first [len] bytes, and
    unmasking twice restores the data. *)
Theorem unmask_correct data len mask :
  0 <= len <= zlen data → 4 <= zlen mask →
  ∃ d, unmask data len mask = Some d ∧ unmask d len mask = Some data ∧ zlen d = zlen data ∧
    ∀ i x k, 0 <= i < len → znth data i = Some x → znth mask (i mod 4) = Some k →
      znth d i = Some (Z.lxor x k).
Proof.
  intros Hl Hm. exists (xor_mask mask 0 (ztake len data) ++ zdrop len data).
  assert (zlen (xor_mask mask 0 (ztake len data)) = len) as Hz by (rewrite zlen_xor_mask; zl).
  rewrite unmask_spec by done. split_and!; [done| |rewrite zlen_app; zl|].
  - rewrite unmask_spec by (rewrite ?zlen_app; zl). f_equal.
    rewrite ztake_app_exact, zdrop_app_exact by lia. by rewrite xor_mask_involutive, ztake_zdrop.
  - intros i x k Hi Hx Hk. rewrite znth_app_l by lia.
    assert (znth (ztake len data) i = Some x) as Hx' by (rewrite znth_ztake; [done|lia]).
    clear Hz Hx. revert Hx'. generalize (ztake len data). intros l Hx'.
    assert (∀ j, 0 <= j → znth mask ((j + i) mod 4) = Some k →
      znth (xor_mask mask j l) i = Some (Z.lxor x k)) as Hj; [|by apply (Hj 0)].
    clear Hk. destruct Hi as [Hi _]. revert i Hi Hx'.
    induction l as [|y l IH]; intros i Hi Hx' j Hj Hk; [by rewrite znth_lookup in Hx' by done|].
    cbn [xor_mask]. rewrite znth_lookup in Hx' by done. rewrite znth_lookup by done.
    destruct (Z.eq_dec i 0) as [->|].
    + simpl in *. rewrite Z.add_0_r in Hk. by simplify_eq; rewrite Hk.
    + assert (Z.to_nat i = S (Z.to_nat (i - 1))) as E by lia. rewrite E in *. simpl in *.
      rewrite <-znth_lookup by lia. apply IH; [lia|by rewrite znth_lookup by lia|lia|].
      by replace (j + 1 + (i - 1)) with (j + i) by lia.
Qed.

Lemma unmask_correct_witness :
  ∃ d, unmask [10; 20; 30; 40; 50; 60] 5 [1; 2; 3; 4] = Some d ∧
    unmask d 5 [1; 2; 3; 4] = Some [10; 20; 30; 40; 50; 60] ∧ zlen d = 6 ∧
    ∀ i x k, 0 <= i < 5 → znth [10; 20; 30; 40; 50; 60] i = Some x →
      znth [1; 2; 3; 4] (i mod 4) = Some k → znth d i = Some (Z.lxor x k).
Proof. by apply (unmask_correct [10; 20; 30; 40; 50; 60] 5 [1; 2; 3; 4]). Defined.
