(* ===== verification/WsFrame.v ===== *)
(** * Outgoing frames: [wsconn_write_frame] and the close frame of [wsserver.c]

    A frame is put together in a buffer of its own and handed to
    [evbuffer_add] in one piece; the model returns that piece.  The host is
    little-endian, as the byte swaps of [htons] suppose. *)

From S2P Require Import Prelude Buffer Config WsMessage WsFrameSpec WsMessageSpec Rfc6455.

(** [htons] of an [uint16_t], and the bytes of an integer in memory. *)
Definition htons (v : Z) : Z := u16 (Z.lor (Z.shiftl v 8) (Z.shiftr v 8)).
Fixpoint le_bytes (n : nat) (v : Z) : list Z :=
  match n with O => [] | S n' => u8 v :: le_bytes n' (Z.shiftr v 8) end.

(** The array [block1] and how many bytes of it are sent. *)
Definition frame_block1 (size : Z) : option (list Z * Z) :=
  let block1 := replicate 9 0 in
  if size <=? 125 then
    b ← mem_write block1 0 [u8 size]; Some (b, 1)
  else if size <? Z.shiftl 2 16 - 1 then
    b ← mem_write block1 0 [126];
    b ← mem_write b 1 (le_bytes 2 (htons (u16 size)));
    Some (b, 3)
  else
    b ← mem_write block1 0 [127];
    b ← mem_write b 5 (le_bytes 4 (htons (u16 (u32 size))));
    Some (b, 9).

(** What [wsconn_write_frame] passes to [evbuffer_add], [None] when it gives up
    without writing.  [data] is the object the caller's pointer refers to. *)
Definition wsconn_write_frame (opcode : Z) (data : list Z) (size : Z) : M (option (list Z)) :=
  let block0 := [u8 (0x80 + Z.land 0x0f opcode)] in
  r ← buffer_create 0;
  match r with
  | None => mret None
  | Some buffer =>
      '(res, buffer) ← buffer_append buffer block0 0 1;
      if negb res then mret None else
      '(block1, block1_size) ← opt (frame_block1 size);
      '(res, buffer) ← buffer_append buffer block1 0 block1_size;
      if negb res then mret None else
      '(res, buffer) ← buffer_append buffer data 0 size;
      if negb res then mret None else
      let '(message, message_size) := buffer_peek_data buffer in
      out ← opt (mem_read message 0 message_size);
      _ ← buffer_remove_data buffer message_size;
      mret (Some out)
  end.

Definition wsconn_write (data : list Z) (size : Z) : M (option (list Z)) :=
  wsconn_write_frame OPCODE_TEXT data size.

(** The payload of the close frame; a null [reason] is [None]. *)
Definition close_payload (status : Z) (reason : option (list Z)) (reason_size : Z)
    : M (option buffer_t) :=
  r ← buffer_create 0;
  match r with
  | None => mret None
  | Some buffer =>
      if 0 <? status then
        '(res, buffer) ← buffer_append buffer (le_bytes 2 (htons status)) 0 2;
        if negb res then mret None else
        match reason with
        | Some reason =>
            if 0 <? reason_size then
              '(res, buffer) ← buffer_append buffer reason 0 reason_size;
              if negb res then mret None else mret (Some buffer)
            else mret (Some buffer)
        | None => mret (Some buffer)
        end
      else mret (Some buffer)
  end.

(** The close frame of [wsconn_initiate_close]. *)
Definition close_frame (status : Z) (reason : option (list Z)) (reason_size : Z)
    : M (option (list Z)) :=
  r ← close_payload status reason reason_size;
  match r with
  | None => mret None
  | Some buffer =>
      let '(message, message_size) := buffer_peek_data buffer in
      out ← wsconn_write_frame OPCODE_CLOSE message message_size;
      _ ← buffer_remove_data buffer message_size;
      mret out
  end.

(** ** What is written *)

Lemma htons_bytes v : 0 <= v < 2 ^ 16 → le_bytes 2 (htons v) = [v / 2 ^ 8; v mod 2 ^ 8].
Proof.
  intros Hv. assert (Z.shiftr v 8 = v / 2 ^ 8) as E by (by rewrite Z.shiftr_div_pow2).
  unfold htons. rewrite E, lor_add_low.
  2,3: change (2 ^ 8) with 256; change (2 ^ 16) with 65536 in *; Z.div_mod_to_equations; lia.
  unfold le_bytes. rewrite Z.shiftr_div_pow2 by lia. unfold u16, u8.
  change (2 ^ 8) with 256. change (2 ^ 16) with 65536 in *.
  f_equal; [|f_equal]; Z.div_mod_to_equations; lia.
Qed.

(** The header octets after the first, for every size. *)
Definition block1_octets (size : Z) : list Z :=
  if size <=? 125 then [size]
  else if size <? 131071 then [126; u16 size / 2 ^ 8; u16 size mod 2 ^ 8]
  else [127; 0; 0; 0; 0; u16 size / 2 ^ 8; u16 size mod 2 ^ 8; 0; 0].

Lemma frame_block1_spec size : 0 <= size < 2 ^ 32 →
  ∃ b n, frame_block1 size = Some (b, n) ∧ 0 <= n <= 9 ∧ zlen b = 9 ∧ Forall is_byte b ∧
         ztake n b = block1_octets size.
Proof.
  intros Hs. unfold frame_block1, block1_octets. change (Z.shiftl 2 16 - 1) with 131071.
  assert (0 <= u16 size < 2 ^ 16) as Hu by (apply Z.mod_pos_bound; lia).
  assert (is_byte (u16 size / 2 ^ 8) ∧ is_byte (u16 size mod 2 ^ 8)) as [H1 H2].
  { unfold is_byte. change (2 ^ 8) with 256. change (2 ^ 16) with 65536 in *.
    Z.div_mod_to_equations. lia. }
  destruct (Z.leb_spec size 125); [|destruct (Z.ltb_spec size 131071)].
  - unfold u8. rewrite Z.mod_small by lia. eexists _, _. split; [done|].
    split_and!; try done. constructor; [unfold is_byte; lia|decided].
  - rewrite htons_bytes by done. eexists _, _. split; [done|].
    split_and!; try done. constructor; [done|]. constructor; [done|]. constructor; [done|decided].
  - assert (le_bytes 4 (htons (u16 (u32 size))) = [u16 size / 2 ^ 8; u16 size mod 2 ^ 8; 0; 0]) as E.
    { replace (u32 size) with size by (unfold u32; by rewrite Z.mod_small).
      pose proof (htons_bytes _ Hu) as Hh. simpl in Hh |- *. injection Hh as -> ->.
      assert (Z.shiftr (Z.shiftr (htons (u16 size)) 8) 8 = 0) as ->; [|done].
      rewrite Z.shiftr_shiftr, Z.shiftr_div_pow2 by lia. apply Z.div_small.
      unfold htons, u16. apply Z.mod_pos_bound. lia. }
    rewrite E. eexists _, _. split; [done|]. split_and!; try done.
    do 5 (constructor; [done|]). constructor; [done|]. constructor; [done|decided].
Qed.

Definition written (opcode : Z) (data : list Z) : list Z :=
  (0x80 + opcode) :: block1_octets (zlen data) ++ data.

Lemma land_opcode opcode : 0 <= opcode < 16 → u8 (0x80 + Z.land 0x0f opcode) = 128 + opcode.
Proof.
  intros. rewrite Z.land_comm. change 15 with (Z.ones 4). rewrite Z.land_ones by lia.
  unfold u8. change (2 ^ 4) with 16. change (2 ^ 8) with 256. Z.div_mod_to_equations. lia.
Qed.

(** Appending to an unlimited buffer. *)
Lemma wsconn_write_frame_spec e opcode data tail :
  0 <= opcode < 16 → Forall is_byte (data ++ tail) → zlen data < 2 ^ 32 →
  wp e (wsconn_write_frame opcode (data ++ tail) (zlen data)) (λ r,
    match r with Some out => out = written opcode data | None => e = Hostile end).
Proof.
  intros Hop Hb Hs. pose proof (zlen_nonneg data). unfold wsconn_write_frame.
  rewrite land_opcode by done. wstep. eapply wp_mono; [by apply buffer_create_spec|].
  intros [b|]; [|intros; by apply wp_ret]. intros (Hwf & Hc & Hm & _). wstep.
  pose proof (zlen_contents _ Hwf) as Hl. rewrite Hc in Hl. change (zlen []) with 0 in Hl.
  eapply wp_mono.
  { apply buffer_append_unlimited; try done; [|rewrite <-Hl; done].
    constructor; [unfold is_byte; lia|done]. }
  intros [[] b1] (Hwf1 & Hm1 & Hr1); [|by apply wp_ret]. simpl negb. cbv iota. wstep.
  pose proof (zlen_contents _ Hwf1) as Hl1. rewrite Hr1, Hc in Hl1.
  change (zlen ([] ++ ztake 1 (zdrop 0 [128 + opcode]))) with 1 in Hl1.
  destruct (frame_block1_spec (zlen data)) as (blk & n & E & Hn & Hz & Hbb & Ht); [lia|].
  eapply wp_opt; [exact E|]. cbv beta iota. wstep. unfold PTRDIFF_MAX.
  eapply wp_mono; [apply buffer_append_unlimited; unfold PTRDIFF_MAX; auto; lia|].
  intros [[] b2] (Hwf2 & Hm2 & Hr2); [|by apply wp_ret]. simpl negb. cbv iota. wstep.
  pose proof (zlen_contents _ Hwf2) as Hl2. rewrite Hr2, zlen_app, zdrop_0, zlen_ztake in Hl2 by lia.
  rewrite zlen_contents in Hl2 by done.
  eapply wp_mono; [apply buffer_append_unlimited; unfold PTRDIFF_MAX; auto; rewrite ?zlen_app;
    pose proof (zlen_nonneg tail); lia|].
  intros [[] b3] (Hwf3 & Hm3 & Hr3); [|by apply wp_ret]. simpl negb. cbv iota.
  unfold buffer_peek_data. cbv iota. wstep. pose proof Hwf3 as [].
  eapply wp_opt; [apply mem_read_Some; lia|]. wstep.
  eapply wp_mono; [apply buffer_remove_data_spec; auto; lia|]. intros _ _. apply wp_ret.
  change (ztake (b_length b3) (zdrop 0 (b_data b3))) with (contents b3).
  rewrite Hr3, Hr2, Hr1, Hc, !zdrop_0, Ht. unfold written.
  rewrite ztake_app_exact by done. simpl. done.
Qed.

(** From 65536 bytes on the 16-bit form loses the length. *)
Lemma written_overflow opcode data rest :
  0 <= opcode < 16 → 65536 <= zlen data < 131071 →
  next_frame 0 (written opcode data ++ rest) =
    NFrame (Hdr true opcode false) (ztake (zlen data - 65536) data)
           (zdrop (zlen data - 65536) data ++ rest).
Proof.
  intros Hop Hs. unfold written, block1_octets.
  destruct (Z.leb_spec (zlen data) 125); [lia|]. destruct (Z.ltb_spec (zlen data) 131071); [|lia].
  assert (u16 (zlen data) = zlen data - 65536) as ->.
  { unfold u16. change (2 ^ 16) with 65536. Z.div_mod_to_equations. lia. }
  destruct (octet0_bits true opcode Hop) as (B0 & B1 & B2 & _).
  change (0x80 + opcode) with (128 * Z.b2z true + opcode).
  set (n := zlen data - 65536). unfold next_frame, read_header. cbn [app].
  rewrite B0, B1, B2. simpl negb. cbv iota. rewrite be_2 by lia.
  change (Z.land 126 128) with 0. change (Z.land 126 127) with 126. simpl. cbv iota.
  rewrite !zlen_cons, zlen_app. zlen_pos.
  destruct (Z.ltb_spec (1 + (1 + (1 + (1 + (zlen data + zlen rest))))) (4 + n)); [lia|].
  assert (∀ l : list Z, zdrop 4 (128 * 1 + opcode :: 126 :: n / 2 ^ 8 :: n mod 2 ^ 8 :: l) = l) as H4 by done.
  f_equal.
  - unfold frame_payload. cbn [h_mask]. unfold take_limit. cbn [Z.eqb].
    rewrite <-(ztake_app_le n data rest) by lia. f_equal.
  - transitivity (zdrop n (data ++ rest)); [|by apply zdrop_app_le; lia].
    unfold zdrop; by rewrite (Z2Nat.inj_add 4 n) by lia.
Qed.

(** Up to 65535 bytes the header is the one of RFC 6455. *)
Lemma written_encode opcode data : zlen data <= 65535 →
  written opcode data = encode_frame (Frame true opcode None data).
Proof.
  intros Hs. pose proof (zlen_nonneg data).
  unfold written, encode_frame, block1_octets, length7, length_ext, masked, f_mask. simpl.
  destruct (Z.leb_spec (zlen data) 125); [done|].
  destruct (Z.leb_spec (zlen data) 65535); [|lia]. destruct (Z.ltb_spec (zlen data) 131071); [|lia].
  unfold u16. by rewrite Z.mod_small by lia.
Qed.

(** ** The close frame *)

Definition close_bytes (status : Z) (reason : option (list Z)) : list Z :=
  if 0 <? status then [status / 2 ^ 8; status mod 2 ^ 8] ++ default [] reason else [].

(** The object at [reason] may be longer than the size that is passed. *)
Lemma close_payload_spec e status reason tail :
  0 <= status < 2 ^ 16 → Forall is_byte (default [] reason) → zlen (default [] reason) < 2 ^ 31 →
  Forall is_byte tail →
  wp e (close_payload status ((λ r, r ++ tail) <$> reason) (zlen (default [] reason))) (λ r,
    match r with
    | Some b => buffer_wf b ∧ b_max_length b = 0 ∧ contents b = close_bytes status reason
    | None => e = Hostile
    end).
Proof.
  intros Hst Hb Hl Htl. set (n := zlen _). pose proof (zlen_nonneg (default [] reason)) as Hn. fold n in Hn.
  unfold close_payload, close_bytes. wstep. eapply wp_mono; [by apply buffer_create_spec|].
  intros [b|]; [|intros; by apply wp_ret]. intros (Hwf & Hc & Hm & _).
  pose proof (zlen_contents _ Hwf) as Hbl. rewrite Hc in Hbl. change (zlen []) with 0 in Hbl.
  destruct (Z.ltb_spec 0 status); [|by apply wp_ret].
  rewrite htons_bytes by done. assert (Forall is_byte [status / 2 ^ 8; status mod 2 ^ 8]).
  { each; unfold is_byte; change (2 ^ 8) with 256; change (2 ^ 16) with 65536 in *;
      Z.div_mod_to_equations; lia. }
  wstep. eapply wp_mono; [apply buffer_append_unlimited; unfold PTRDIFF_MAX; auto; try done; lia|].
  intros [[] b1] (Hwf1 & Hm1 & Hr1); [|by apply wp_ret]. simpl negb. cbv iota.
  rewrite Hc, zdrop_0 in Hr1. cbn [app] in Hr1. rewrite ztake_ge in Hr1 by done.
  pose proof (zlen_contents _ Hwf1) as Hl1. rewrite Hr1 in Hl1.
  destruct reason as [reason|]; [|by apply wp_ret].
  change (default [] (Some reason)) with reason in *. cbn [fmap option_fmap option_map].
  pose proof (Forall_app_2 _ _ _ Hb Htl) as Hbt. pose proof (zlen_nonneg tail). zlen_pos.
  destruct (Z.ltb_spec 0 n).
  - wstep. change (zlen [status / 2 ^ 8; status mod 2 ^ 8]) with 2 in Hl1. unfold n in *.
    eapply wp_mono; [apply buffer_append_unlimited; unfold PTRDIFF_MAX; auto;
      rewrite ?zlen_app; simpl in *; lia|].
    intros [[] b2] (Hwf2 & Hm2 & Hr2); apply wp_ret; [|done]. split_and!; auto.
    by rewrite Hr2, Hr1, zdrop_0, ztake_app_exact.
  - apply wp_ret. split_and!; auto. unfold n in *. simpl in *.
    by rewrite (zlen_0_nil reason) by lia.
Qed.

Lemma close_frame_spec e status reason :
  0 <= status < 2 ^ 16 → Forall is_byte (default [] reason) → zlen (default [] reason) < 2 ^ 31 →
  wp e (close_frame status reason (zlen (default [] reason))) (λ r,
    match r with
    | Some out => out = written OPCODE_CLOSE (close_bytes status reason)
    | None => e = Hostile
    end).
Proof.
  intros Hst Hb Hl. unfold close_frame. wstep.
  replace reason with ((λ r, r ++ []) <$> reason) at 1 by (by destruct reason; simpl; rewrite ?app_nil_r).
  eapply wp_mono; [by apply close_payload_spec|].
  intros [b|]; [|intros; by apply wp_ret]. intros (Hwf & Hm & Hc).
  unfold buffer_peek_data. cbv iota. wstep.
  pose proof (zlen_contents _ Hwf) as Hlen. pose proof Hwf as [].
  assert (zlen (contents b) < 2 ^ 32).
  { rewrite Hc. unfold close_bytes. bcase; [rewrite zlen_app|done].
    change (zlen [_; _]) with 2. lia. }
  rewrite (data_contents b) by done. rewrite <-Hlen at 2. rewrite <-Hc.
  eapply wp_mono; [apply wsconn_write_frame_spec; [done| |done]|].
  { by rewrite <-data_contents. }
  intros [out|] Hout; wstep; (eapply wp_mono; [apply buffer_remove_data_spec; auto; lia|]);
    intros _ _; by apply wp_ret.
Qed.
