(* ===== verification/WsFrameProps.v ===== *)
(** * Outgoing frames: properties *)

From S2P Require Import Prelude Buffer Config WsMessage WsFrameSpec WsMessageSpec Rfc6455 Assembly WsMessageProps WsFrame.

(** C20: [wsconn_write_frame] has no undefined behaviour and writes the frame RFC
    6455 prescribes, final and unmasked, for every payload of at most 65535
    bytes; it writes nothing only when an allocation fails. *)
Theorem write_frame_correct e opcode data :
  0 <= opcode < 16 → Forall is_byte data → zlen data <= 65535 →
  wp e (wsconn_write_frame opcode data (zlen data)) (λ r,
    match r with
    | Some out => out = encode_frame (Frame true opcode None data)
    | None => e = Hostile
    end).
Proof.
  intros Hop Hb Hs. pose proof (wsconn_write_frame_spec e opcode data []) as Hw.
  rewrite app_nil_r in Hw. eapply wp_mono; [apply Hw; auto; lia|].
  intros [out|]; [intros ->; by apply written_encode|done].
Qed.

Lemma write_frame_correct_witness :
  wp Benign (wsconn_write_frame 1 [104; 105] 2) (λ r,
    match r with Some out => out = [0x81; 2; 104; 105] | None => Benign = Hostile end).
Proof. apply (write_frame_correct Benign 1 [104; 105]); [done|decided|done]. Defined.

(** C21: round trip: what [wsconn_write] sends for a text of at most 65535 bytes is
    read back by [get_frame], of the component at the other end, as one final
    text frame with that payload and nothing after it.  Allocations succeed. *)
Theorem write_read_roundtrip data :
  Forall is_byte data → zlen data <= 65535 →
  ∃ out src' buffer',
    runs (wsconn_write data (zlen data)) (Some out) ∧
    runs (get_frame (received out) empty_buffer)
      (FS_READY, Some (Hdr true OPCODE_TEXT false), src', buffer') ∧
    contents src' = [] ∧ contents buffer' = data.
Proof.
  intros Hb Hs. pose proof (wsconn_write_frame_spec Benign OPCODE_TEXT data []) as Hw.
  rewrite app_nil_r in Hw. destruct Hw as ([out|] & E & Hout); [done|done|lia| |done].
  rewrite written_encode in Hout by done. set (f := Frame true OPCODE_TEXT None data) in *.
  assert (frame_ok f) as Hf by (split; simpl; try done; lia).
  assert (buffer_wf (received out)) as Hr.
  { rewrite Hout. apply received_wf; [by apply encode_frame_bytes|].
    rewrite zlen_encode_frame by done. unfold payload_off, header_len, length_ext, f_mask. simpl.
    repeat bcase; unfold zlen in *; simpl; lia. }
  assert (frame_readable (received out) empty_buffer) as Hread.
  { intros h hl off len. rewrite received_contents, Hout, <-(app_nil_r (encode_frame f)).
    rewrite decode_encode by done. intros [= _ _ <- <-].
    rewrite accepted_clear, take_limit_fits by (by left).
    change (b_capacity (received ?x)) with (zlen x + 64).
    rewrite app_nil_r, zlen_encode_frame by done. change (f_payload f) with data. lia. }
  destruct (wp_benign_runs _ _ (get_frame_next Benign _ _ Hr empty_buffer_wf Hread))
    as ([[[fs hdr] src'] buffer'] & E' & H). destruct H as (_ & _ & _ & _ & _ & Hn).
  rewrite received_contents, Hout, <-(app_nil_r (encode_frame f)), next_frame_encode in Hn
    by (done || by left).
  destruct Hn as [(-> & -> & ? & ?)|(_ & _ & ?)]; [|done].
  exists out, src', buffer'. by split_and!.
Qed.

Lemma write_read_roundtrip_witness :
  ∃ out src' buffer',
    runs (wsconn_write [104; 105] 2) (Some out) ∧
    runs (get_frame (received out) empty_buffer)
      (FS_READY, Some (Hdr true OPCODE_TEXT false), src', buffer') ∧
    contents src' = [] ∧ contents buffer' = [104; 105].
Proof. apply (write_read_roundtrip [104; 105]); [decided|done]. Defined.

Definition payload_of (n : Z) : list Z := replicate (Z.to_nat n) 7.

Lemma zlen_payload_of n : 0 <= n → zlen (payload_of n) = n.
Proof. intros. unfold payload_of, zlen. rewrite length_replicate. lia. Qed.

Lemma payload_of_bytes n : Forall is_byte (payload_of n).
Proof. unfold payload_of. apply Forall_replicate. by split. Qed.

(** A payload of 65536 to 131070 bytes gets the 16-bit length form. *)
Lemma write_frame_16bit opcode data :
  0 <= opcode < 16 → Forall is_byte data → 65536 <= zlen data < 131071 →
  next_frame 0 (written opcode data) = NFrame (Hdr true opcode false) (ztake (zlen data - 65536) data)
                                         (zdrop (zlen data - 65536) data).
Proof.
  intros Hop Hb Hs. pose proof (written_overflow opcode data [] Hop Hs) as Hw.
  by rewrite !app_nil_r in Hw.
Qed.

(** A longer one gets the 64-bit form, its low word swapped by [htons]. *)
Lemma write_frame_64bit opcode data :
  0 <= opcode < 16 → Forall is_byte data → 131071 <= zlen data < 2 ^ 32 →
  decode_header (written opcode data) =
    HHeader (Hdr true opcode false) 10 10 (65536 * (zlen data mod 65536)).
Proof.
  intros Hop Hb Hs. unfold written, block1_octets.
  destruct (Z.leb_spec (zlen data) 125); [lia|]. destruct (Z.ltb_spec (zlen data) 131071); [lia|].
  destruct (octet0_bits true opcode Hop) as (B0 & B1 & B2 & _).
  change (0x80 + opcode) with (128 * Z.b2z true + opcode).
  unfold decode_header. cbn [app]. rewrite B0, B1, B2. simpl negb. cbv iota.
  change (Z.land 127 128) with 0. change (Z.land 127 127) with 127. cbn -[zlen be ztake].
  match goal with |- context [zlen ?l <? 8] => destruct (Z.ltb_spec (zlen l) 8) as [Hl|_] end.
  { rewrite !zlen_cons in Hl. zlen_pos. lia. }
  simpl. f_equal.
  unfold be, u16. simpl foldl. change (2 ^ 16) with 65536. change (2 ^ 8) with 256.
  Z.div_mod_to_equations. lia.
Qed.

(** C36: payloads of 65536 bytes or more are written with a wrong length.  Below
    131071 bytes the 16-bit form is used and the length is lost modulo 65536: the
    receiver takes the first [n - 65536] bytes for the whole frame and the rest
    of the payload for further frames.  From 131071 bytes on the 64-bit form
    is used, but [htons] instead of [htonl] swaps its low word: the receiver
    reads the length [65536 * (n mod 65536)]. *)
Theorem write_frame_overflow opcode data :
  0 <= opcode < 16 → Forall is_byte data → 65536 <= zlen data < 2 ^ 32 →
  ∃ out, runs (wsconn_write_frame opcode data (zlen data)) (Some out) ∧
    if zlen data <? 131071 then
      next_frame 0 out = NFrame (Hdr true opcode false) (ztake (zlen data - 65536) data)
                           (zdrop (zlen data - 65536) data)
    else decode_header out = HHeader (Hdr true opcode false) 10 10 (65536 * (zlen data mod 65536)).
Proof.
  intros Hop Hb Hs. pose proof (wsconn_write_frame_spec Benign opcode data []) as Hw.
  rewrite app_nil_r in Hw. destruct Hw as ([out|] & E & Hout); [done|done|lia| |done]; subst out.
  eexists. split; [exact E|]. destruct (Z.ltb_spec (zlen data) 131071).
  - apply write_frame_16bit; [done|done|lia].
  - apply write_frame_64bit; [done|done|lia].
Qed.

Lemma write_frame_overflow_witness :
  ∃ out, runs (wsconn_write_frame 1 (payload_of 131072) (zlen (payload_of 131072))) (Some out) ∧
    if zlen (payload_of 131072) <? 131071 then
      next_frame 0 out = NFrame (Hdr true 1 false) (ztake (zlen (payload_of 131072) - 65536) (payload_of 131072))
                           (zdrop (zlen (payload_of 131072) - 65536) (payload_of 131072))
    else decode_header out = HHeader (Hdr true 1 false) 10 10 (65536 * (zlen (payload_of 131072) mod 65536)).
Proof.
  apply (write_frame_overflow 1 (payload_of 131072)); [done|apply payload_of_bytes|].
  by rewrite zlen_payload_of.
Defined.

(** The close frame carries the status code in network byte order followed by
    the reason, or nothing at all when the status is 0. *)
Theorem close_frame_correct e status reason :
  0 <= status < 2 ^ 16 → Forall is_byte (default [] reason) →
  zlen (default [] reason) <= 65533 →
  wp e (close_frame status reason (zlen (default [] reason))) (λ r,
    match r with
    | Some out =>
        out = encode_frame (Frame true OPCODE_CLOSE None
                (if 0 <? status
                 then [status / 256; status mod 256] ++ default [] reason else []))
    | None => e = Hostile
    end).
Proof.
  intros Hst Hb Hl. eapply wp_mono; [apply close_frame_spec; auto; lia|].
  intros [out|]; [|done]. intros ->. unfold close_bytes. rewrite written_encode; [done|].
  bcase; [rewrite zlen_app; change (zlen [_; _]) with 2; lia|done].
Qed.

Lemma close_frame_correct_witness :
  wp Benign (close_frame 1001 (Some (bs "bye")) 3) (λ r,
    match r with
    | Some out => out = [0x88; 5; 3; 233; 98; 121; 101]
    | None => Benign = Hostile
    end).
Proof. apply (close_frame_correct Benign 1001 (Some (bs "bye"))); [done|decided|done]. Defined.
