(* ===== verification/Expat.v ===== *)
(** The XML parser (Expat), a parameter of the development.

    [streamparse.c] and [framer.c] register handlers with a parser created by
    [XML_ParserCreateNS(NULL, '\xFF')] and feed it with [XML_Parse], which
    calls the handlers.  Class [Expat] is that interface: a feed yields the
    status, the handler calls in their order and the parser's next state.  With
    each call come the values [XML_GetCurrentByteIndex] and
    [XML_GetCurrentByteCount] have during it.

    [xml_stream] is a document as a list of tokens and [expat_reads] the
    documented behaviour on such a document; [script] is a concrete
    parser, which has that behaviour. *)

From S2P Require Import Prelude CString Config.

Inductive xml_event :=
  | StartElement (el : list Z) (attr : list (list Z * list Z)) (index count : Z)
  | EndElement (el : list Z) (index count : Z).

Definition ev_end (e : xml_event) : Z :=
  match e with StartElement _ _ i n | EndElement _ i n => i + n end.

(** [xml_fresh]: a parser just created.  [XML_Parse p s len]: [false] is
    [XML_STATUS_ERROR]. *)
Class Expat (P : Type) := {
  xml_fresh : P;
  XML_Parse : P → list Z → Z → bool * list xml_event * P
}.

(** A pointer to an object that may have been freed. *)
Inductive ptr (A : Type) := Null | Dangling | Live (a : A).
Arguments Null {A}.
Arguments Dangling {A}.
Arguments Live {A} a.

Definition live {A} (p : ptr A) : M A :=
  match p with Live a => mret a | _ => ub end.
(** [free] and the destructors built on it take a null pointer. *)
Definition free_ptr {A} (p : ptr A) : M () :=
  match p with Dangling => ub | _ => mret () end.

(** A null result when memory runs out. *)
Definition XML_ParserCreateNS {P} `{Expat P} : M (option P) :=
  ok ← malloc_ok 1;
  mret (if (ok : bool) then Some xml_fresh else None).

Lemma wp_parser_create {P} `{Expat P} e (Q : option P → Prop) :
  e ≠ Hostile → Q (Some xml_fresh) → wp e XML_ParserCreateNS Q.
Proof. intros. unfold XML_ParserCreateNS. wstep. apply wp_alloc_ok; [done|done|]. by apply wp_ret. Qed.

(** ** Documents *)

(** The bytes of a token and what it is.  [XText] is whatever has no handler:
    text, white space, comments, the XML declaration. *)
Inductive xtok :=
  | XOpen (el : list Z) (attr : list (list Z * list Z)) (raw : list Z)
  | XClose (el : list Z) (raw : list Z)
  | XEmpty (el : list Z) (attr : list (list Z * list Z)) (raw : list Z)
  | XText (raw : list Z).

Definition x_raw (t : xtok) : list Z :=
  match t with XOpen _ _ r | XClose _ r | XEmpty _ _ r | XText r => r end.
Definition raw (ts : list xtok) : list Z := concat (x_raw <$> ts).

(** An empty element has two events; the byte count of the second is 0. *)
Definition events_of (pos : Z) (t : xtok) : list xml_event :=
  match t with
  | XOpen el a r => [StartElement el a pos (zlen r)]
  | XClose el r => [EndElement el pos (zlen r)]
  | XEmpty el a r => [StartElement el a pos (zlen r); EndElement el (pos + zlen r) 0]
  | XText _ => []
  end.
Fixpoint events_at (pos : Z) (ts : list xtok) : list xml_event :=
  match ts with
  | [] => []
  | t :: ts => events_of pos t ++ events_at (pos + zlen (x_raw t)) ts
  end.

Lemma raw_cons t ts : raw (t :: ts) = x_raw t ++ raw ts.
Proof. done. Qed.
Lemma raw_app ts us : raw (ts ++ us) = raw ts ++ raw us.
Proof. unfold raw. by rewrite fmap_app, concat_app. Qed.
Lemma events_at_app pos ts us :
  events_at pos (ts ++ us) = events_at pos ts ++ events_at (pos + zlen (raw ts)) us.
Proof.
  revert pos. induction ts as [|t ts IH]; intros pos; simpl.
  - by rewrite Z.add_0_r.
  - rewrite IH, raw_cons, zlen_app, app_assoc. do 2 f_equal. lia.
Qed.

(** [inv p n D]: parser [p] has been fed the first [n] bytes of the document and
    has delivered the events [D].  Fed the next bytes, in a piece of any
    length, it reports no error and delivers further events of the document, in
    order, none before its last byte has been fed. *)
Record expat_reads {P} `{Expat P} (ts : list xtok) (inv : P → Z → list xml_event → Prop) := {
  er_fresh : inv xml_fresh 0 [];
  er_parse p n D message len :
    inv p n D → 0 <= len <= zlen message → len <= INT_MAX →
    ztake len (zdrop n (raw ts)) = ztake len message →
    ∃ evs p', XML_Parse p message len = (true, evs, p') ∧
      inv p' (n + len) (D ++ evs) ∧ (D ++ evs) `prefix_of` events_at 0 ts ∧
      Forall (λ e, ev_end e <= n + len) (D ++ evs)
}.
Arguments er_fresh {_ _ _ _}.
Arguments er_parse {_ _ _ _}.

(** A parser that delivers every event as soon as its last byte is fed. *)
Definition expat_prompt {P} (ts : list xtok) (inv : P → Z → list xml_event → Prop) : Prop :=
  ∀ p n D, inv p n D → D = filter (λ e, ev_end e <= n) (events_at 0 ts).

(** ** A concrete parser

    [script ts] parses the document [ts]: its state is the number of bytes fed. *)

Definition script (ts : list xtok) : Expat Z := {|
  xml_fresh := 0;
  XML_Parse n _ len :=
    (true, filter (λ e, n < ev_end e ∧ ev_end e <= n + len) (events_at 0 ts), n + len)
|}.
Definition script_inv (ts : list xtok) (p n : Z) (D : list xml_event) : Prop :=
  p = n ∧ 0 <= n ∧ D = filter (λ e, ev_end e <= n) (events_at 0 ts).

(** Events end in their order. *)
Lemma events_after pos ts e : e ∈ events_at pos ts → pos <= ev_end e.
Proof.
  revert pos. induction ts as [|t ts IH]; simpl; intros pos He; [by apply elem_of_nil in He|].
  rewrite elem_of_app in He. destruct He as [He|He]; [|apply IH in He; zlen_pos; lia].
  destruct t; simpl in He; zlen_pos; rewrite ?elem_of_cons, elem_of_nil in He;
    repeat destruct He as [He|He]; subst; simpl; done || lia.
Qed.

Lemma events_before pos ts e : e ∈ events_at pos ts → ev_end e <= pos + zlen (raw ts).
Proof.
  revert pos. induction ts as [|t ts IH]; simpl; intros pos He; [by apply elem_of_nil in He|].
  rewrite elem_of_app in He. rewrite raw_cons, zlen_app. destruct He as [He|He].
  - destruct t; simpl in He; simpl; zlen_pos; rewrite ?elem_of_cons, elem_of_nil in He;
      repeat destruct He as [He|He]; subst; simpl; done || lia.
  - apply IH in He. lia.
Qed.

Lemma filter_none {A} (Q : A → Prop) `{∀ a, Decision (Q a)} (l : list A) : (∀ a, a ∈ l → ¬ Q a) → filter Q l = [].
Proof.
  induction l as [|a l IH]; intros Hl; [done|]. rewrite filter_cons_False.
  - apply IH. intros b Hb. apply Hl, elem_of_cons. by right.
  - apply Hl, elem_of_cons. by left.
Qed.

Lemma filter_every {A} (Q : A → Prop) `{∀ a, Decision (Q a)} (l : list A) : (∀ a, a ∈ l → Q a) → filter Q l = l.
Proof.
  induction l as [|a l IH]; intros Hl; [done|]. rewrite filter_cons_True.
  - f_equal. apply IH. intros b Hb. apply Hl, elem_of_cons. by right.
  - apply Hl, elem_of_cons. by left.
Qed.

(** Cutting the events at two points: those up to the first and those between. *)
Lemma events_cut pos ts n m : n <= m →
  filter (λ e, ev_end e <= n) (events_at pos ts) ++
    filter (λ e, n < ev_end e ∧ ev_end e <= m) (events_at pos ts) =
  filter (λ e, ev_end e <= m) (events_at pos ts) ∧
  filter (λ e, ev_end e <= m) (events_at pos ts) `prefix_of` events_at pos ts.
Proof.
  intros Hnm. revert pos. induction ts as [|t ts IH]; intros pos; simpl; [by split|].
  rewrite !list.filter_app. set (q := pos + zlen (x_raw t)). specialize (IH q) as [IH1 IH2].
  assert (∀ e, e ∈ events_of pos t → ev_end e = q) as Hend.
  { intros e He. unfold q. destruct t; simpl in He; rewrite ?elem_of_cons, elem_of_nil in He;
      repeat destruct He as [He|He]; subst; simpl; done || lia. }
  assert (∀ (Q : xml_event → Prop) `{∀ e, Decision (Q e)}, (∀ e, ev_end e = q → Q e) →
    filter Q (events_of pos t) = events_of pos t) as Hall.
  { intros Q ? HQ. apply filter_every. intros e He. by apply HQ, Hend. }
  assert (∀ e, e ∈ events_at q ts → q <= ev_end e) as Hafter by (intros; by apply (events_after _ ts)).
  destruct (decide (q <= n)).
  - rewrite (Hall (λ e, ev_end e <= n)), (Hall (λ e, ev_end e <= m)) by (intros ? ->; lia).
    rewrite (filter_none (λ e, n < ev_end e ∧ ev_end e <= m) (events_of pos t))
      by (intros e ->%Hend; lia).
    simpl. rewrite <-app_assoc, IH1. split; [done|]. by apply prefix_app.
  - rewrite !(filter_none (λ e, ev_end e <= n)) by
      (first [intros e ->%Hend; lia|intros e ?%Hafter; lia]). simpl. destruct (decide (q <= m)).
    + rewrite (Hall (λ e, n < ev_end e ∧ ev_end e <= m)), (Hall (λ e, ev_end e <= m))
        by (intros ? ->; lia).
      rewrite <-IH1, (filter_none (λ e, ev_end e <= n) (events_at q ts)) in IH2 |- *
        by (intros e ?%Hafter; lia).
      simpl in *. split; [done|]. apply prefix_app. exact IH2.
    + rewrite !(filter_none (λ e, n < ev_end e ∧ ev_end e <= m)), !(filter_none (λ e, ev_end e <= m)) by
        (first [intros e ->%Hend; lia|intros e ?%Hafter; lia]). simpl. split; [done|apply prefix_nil].
Qed.

Lemma script_reads ts : Forall (λ e, 0 < ev_end e) (events_at 0 ts) →
  expat_reads (H := script ts) ts (script_inv ts).
Proof.
  intros Hpos. rewrite Forall_forall in Hpos. split.
  - split_and!; [done|done|]. symmetry. apply filter_none. intros e He%list_elem_of_In ?.
    specialize (Hpos _ He). simpl in *. lia.
  - intros p n D message len (-> & Hn & ->) Hlen _ _. eexists _, _. split; [done|].
    destruct (events_cut 0 ts n (n + len)) as [-> Hp]; [lia|].
    split; [split_and!; [done|lia|done]|]. split; [done|]. apply Forall_forall. intros e He%list_elem_of_In.
    by apply list_elem_of_filter in He as [? _].
Qed.

Lemma script_prompt ts : expat_prompt ts (script_inv ts).
Proof. by intros p n D (_ & _ & ->). Qed.
