(* ===== verification/StreamParse.v ===== *)
(** The stream header parser (streamparse.c): it takes the server's name from
    the attribute "to" of the first stream element the browser opens.  The
    end-element and namespace handlers of the source do nothing and have no
    definition. *)

From S2P Require Import Prelude CString Config Expat.

Section streamparse.
Context {P : Type} `{Expat P}.

Record streamparser_t := Streamparser {
  sp_parser : ptr P;
  sp_error : bool;
  sp_server : option (list Z)
}.

Definition sp_set_server (v : option (list Z)) (p : streamparser_t) : streamparser_t :=
  Streamparser (sp_parser p) (sp_error p) v.

(** The separator [XML_ParserCreateNS] puts between namespace and name. *)
Definition SEPARATOR : Z := 255.
Definition STREAM_NS : list Z := bs "http://etherx.jabber.org/streams".
Definition STREAM : list Z := bs "stream".

(** The loop over the attributes: the value of the first "to". *)
Fixpoint find_to (attr : list (list Z * list Z)) : option (list Z) :=
  match attr with
  | [] => None
  | (name, value) :: attr' => if strcmp_eq name (bs "to") then Some value else find_to attr'
  end.

Definition streamparser_start (p : streamparser_t) (el : list Z) (attr : list (list Z * list Z))
    : M streamparser_t :=
  match strchr el SEPARATOR with
  | Some before =>
      match sp_server p with
      | None =>
          namespace ← strdup (ztake before el);
          element ← strdup (zdrop (before + 1) el);
          namespace ← opt namespace;
          if strcmp_eq namespace STREAM_NS then
            element ← opt element;
            if strcmp_eq element STREAM then
              match find_to attr with
              | Some v => (server ← strdup v; mret (sp_set_server server p))
              | None => mret p
              end
            else mret p
          else mret p
      | Some _ => mret p
      end
  | None => mret p
  end.

Definition streamparser_event (p : streamparser_t) (e : xml_event) : M streamparser_t :=
  match e with
  | StartElement el attr _ _ => streamparser_start p el attr
  | EndElement _ _ _ => mret p
  end.

Fixpoint streamparser_events (p : streamparser_t) (evs : list xml_event) : M streamparser_t :=
  match evs with
  | [] => mret p
  | e :: evs => (p ← streamparser_event p e; streamparser_events p evs)
  end.

Definition streamparser_initialize (p : streamparser_t) : M (bool * streamparser_t) :=
  _ ← free_ptr (sp_parser p);
  r ← XML_ParserCreateNS;
  match r with
  | Some x => mret (true, Streamparser (Live x) false (sp_server p))
  | None => mret (false, Streamparser Null (sp_error p) (sp_server p))
  end.

Definition streamparser_create : M (option streamparser_t) :=
  ok ← malloc_ok 24;
  if (ok : bool) then
    '(ok, p) ← streamparser_initialize (Streamparser Null false None);
    mret (if (ok : bool) then Some (sp_set_server None p) else None)
  else mret None.

Definition streamparser_reset (p : streamparser_t) : M (bool * streamparser_t) :=
  streamparser_initialize p.

(** A null [data] is undefined behaviour of [strlen]. *)
Definition streamparser_add (p : streamparser_t) (data : option (list Z))
    : M (bool * streamparser_t) :=
  data ← opt data;
  x ← live (sp_parser p);
  let '(status, evs, x) := XML_Parse x data (to_int (zlen data)) in
  p ← streamparser_events p evs;
  if (status : bool) then mret (true, Streamparser (Live x) (sp_error p) (sp_server p))
  else mret (false, Streamparser (Live x) true (sp_server p)).

Definition streamparser_is_error (p : streamparser_t) : bool := sp_error p.
Definition streamparser_has_server (p : streamparser_t) : bool :=
  if sp_server p is Some _ then true else false.
Definition streamparser_get_server (p : streamparser_t) : option (list Z) := sp_server p.
Definition streamparser_delete (p : streamparser_t) : M () := free_ptr (sp_parser p).
End streamparse.
Arguments streamparser_t P : clear implicits.

(** ** What the handlers find *)

Definition opens_stream (el : list Z) : bool := bool_decide (el = STREAM_NS ++ SEPARATOR :: STREAM).

(** The first "to" of an element that opens the stream. *)
Fixpoint server_of (evs : list xml_event) : option (list Z) :=
  match evs with
  | [] => None
  | StartElement el attr _ _ :: evs =>
      match (if opens_stream el then find_to attr else None) with
      | Some v => Some v
      | None => server_of evs
      end
  | EndElement _ _ _ :: evs => server_of evs
  end.

(** Strings that [strdup] can copy. *)
Definition ev_small (e : xml_event) : Prop :=
  match e with
  | StartElement el attr _ _ => zlen el < 2 ^ 62 ∧ Forall (λ '(_, v), zlen v < 2 ^ 62) attr
  | EndElement _ _ _ => True
  end.

Lemma strchr_split s c k : strchr s c = Some k →
  0 <= k < zlen s ∧ s = ztake k s ++ c :: zdrop (k + 1) s.
Proof.
  revert k. induction s as [|d s IH]; simpl; intros k Hk; [done|].
  rewrite zlen_cons. zlen_pos. destruct (Z.eqb_spec d c) as [->|].
  - simplify_eq. split; [lia|]. by rewrite zdrop_cons, zdrop_0 by lia.
  - destruct (strchr s c) as [j|]; [|done]. simpl in Hk. simplify_eq.
    destruct (IH j eq_refl) as [Hj E]. split; [lia|].
    rewrite ztake_cons, zdrop_cons by lia. cbn [app]. f_equal. rewrite E at 1. do 3 f_equal; lia.
Qed.

Lemma find_to_small attr v : Forall (λ '(_, v), zlen v < 2 ^ 62) attr → find_to attr = Some v → zlen v < 2 ^ 62.
Proof.
  induction attr as [|[n w] attr IH]; simpl; intros Ha Hv; [done|].
  apply Forall_cons_iff in Ha as [? ?]. destruct (strcmp_eq _ _); [by simplify_eq|auto].
Qed.

Section spec.
Context {P : Type} `{Expat P} (e : env) (He : e ≠ Hostile).
Implicit Types (p : streamparser_t P).

Definition or_else (a b : option (list Z)) : option (list Z) := if a is Some _ then a else b.

Lemma streamparser_event_spec p ev : ev_small ev →
  wp e (streamparser_event p ev) (λ p', p' = sp_set_server (or_else (sp_server p) (server_of [ev])) p).
Proof using He.
  intros Hs. assert (∀ v, sp_server p = v → sp_set_server v p = p) as Hsame by (intros v <-; by destruct p).
  destruct ev as [el attr i n|el i n]; cbn [streamparser_event server_of].
  2: { apply wp_ret. symmetry. apply Hsame. by destruct (sp_server p). }
  destruct Hs as [Hel Hattr]. unfold streamparser_start, opens_stream.
  destruct (strchr el SEPARATOR) as [k|] eqn:Ek.
  2: { apply wp_ret. rewrite bool_decide_eq_false_2; [|by intros ->].
       symmetry. apply Hsame. by destruct (sp_server p). }
  destruct (strchr_split _ _ _ Ek) as [Hk Esplit].
  destruct (sp_server p) as [s|] eqn:Esp; [by apply wp_ret; symmetry; apply Hsame|].
  assert (2 ^ 62 < PTRDIFF_MAX) as Hbig by done. simpl in Hbig.
  wstep. apply wp_strdup; [done|rewrite zlen_ztake; lia|].
  wstep. apply wp_strdup; [done|rewrite zlen_zdrop; lia|]. wstep. apply wp_ret.
  unfold strcmp_eq. destruct (decide (el = STREAM_NS ++ SEPARATOR :: STREAM)) as [->|Hne].
  - assert (k = 32) as -> by (vm_compute in Ek; by simplify_eq).
    rewrite (bool_decide_eq_true_2 (ztake _ _ = _)) by (vm_compute; reflexivity). wstep. apply wp_ret.
    rewrite !bool_decide_eq_true_2 by (vm_compute; reflexivity).
    destruct (find_to attr) as [v|] eqn:Ev; [|by apply wp_ret; symmetry; apply Hsame].
    wstep. apply wp_strdup; [done|apply find_to_small in Ev; [lia|done]|]. by apply wp_ret.
  - rewrite (bool_decide_eq_false_2 (el = _)) by done.
    destruct (bool_decide_reflect (ztake k el = STREAM_NS)) as [E1|];
      [|by apply wp_ret; symmetry; apply Hsame].
    wstep. apply wp_ret. rewrite bool_decide_eq_false_2; [by apply wp_ret; symmetry; apply Hsame|].
    intros E2. apply Hne. by rewrite Esplit, E1, E2.
Qed.

Lemma server_of_cons ev evs : server_of (ev :: evs) = or_else (server_of [ev]) (server_of evs).
Proof. destruct ev; simpl; [by destruct (if opens_stream el then _ else _)|done]. Qed.

Lemma streamparser_events_spec p evs : Forall ev_small evs →
  wp e (streamparser_events p evs) (λ p', p' = sp_set_server (or_else (sp_server p) (server_of evs)) p).
Proof using He.
  intros Hs. revert p. induction Hs as [|ev evs Hev _ IH]; intros p; cbn [streamparser_events].
  { apply wp_ret. by destruct p as [? ? [?|]]. }
  wstep. eapply wp_mono; [by apply streamparser_event_spec|]. intros p' ->.
  eapply wp_mono; [apply IH|]. intros p'' ->. rewrite (server_of_cons ev evs).
  by destruct p as [? ? [?|]], (server_of [ev]).
Qed.

(** Data Expat gets: its verdict, the error flag and the name found. *)
Lemma streamparser_add_spec p x data status evs x' :
  sp_parser p = Live x → zlen data <= INT_MAX →
  XML_Parse x data (zlen data) = (status, evs, x') → Forall ev_small evs →
  wp e (streamparser_add p (Some data)) (λ '(ok, p'),
    ok = status ∧
    p' = Streamparser (Live x') (sp_error p || negb status) (or_else (sp_server p) (server_of evs))).
Proof using He.
  intros Hp Hd Hx Hs. unfold streamparser_add. wstep. apply wp_ret. wstep. rewrite Hp.
  apply wp_ret. zlen_pos. rewrite to_int_small by (unfold INT_MIN, INT_MAX in *; lia). rewrite Hx.
  wstep. eapply wp_mono; [by apply streamparser_events_spec|]. intros p' ->.
  destruct status; apply wp_ret; (split; [done|]); simpl; by rewrite ?orb_false_r, ?orb_true_r.
Qed.
End spec.

(** C39: the name of the server.  Whatever Expat reports for the data, the parser
    ends with Expat's verdict as its result and error flag, and with the "to"
    of the first element so far that opens an XMPP stream and has one; a name
    once found never changes.  Allocations succeed. *)
Theorem streamparser_add_correct {P} `{Expat P} e (p : streamparser_t P) x data status evs x' :
  e ≠ Hostile → sp_parser p = Live x → zlen data <= INT_MAX →
  XML_Parse x data (zlen data) = (status, evs, x') → Forall ev_small evs →
  wp e (streamparser_add p (Some data)) (λ '(ok, p'),
    ok = status ∧
    p' = Streamparser (Live x') (sp_error p || negb status)
           (or_else (sp_server p) (server_of evs))).
Proof. intros He. apply (streamparser_add_spec e He). Qed.

(** The browser opens a stream to "example.org". *)
Definition open_toks : list xtok :=
  [XOpen (STREAM_NS ++ SEPARATOR :: STREAM) [(bs "xml:lang", bs "en"); (bs "to", bs "example.org")]
     (bs "<stream:stream xml:lang='en' to='example.org'>")].
Definition open_text : list Z := raw open_toks.

Example streamparser_add_correct_witness :
  server_of (events_at 0 open_toks) = Some (bs "example.org") ∧
  wp Garbage (streamparser_add (H := script open_toks) (Streamparser (Live 0) false None) (Some open_text))
    (λ '(ok, p'),
      ok = true ∧
      p' = Streamparser (Live (zlen open_text)) false (Some (bs "example.org"))).
Proof.
  split; [by vm_compute|].
  apply (streamparser_add_correct (H := script open_toks) Garbage (Streamparser (Live 0) false None) 0
           open_text true (events_at 0 open_toks) (zlen open_text)); try done.
  each. split; [done|]. each; done.
Defined.
