(* ===== verification/Framer.v ===== *)
(** The stanza framer (framer.c): it cuts the XML stream of the server into its
    opening tag, its stanzas and its closing tag.

    The handlers, run inside [XML_Parse], note where each of them lies in the
    stream, as frames of an index and a size; [framer_add] then stores the bytes
    and [framer_get_frame] takes the first frame out of them. *)

From S2P Require Import Prelude CString Config Expat Buffer StreamParse.

Record frame_t := Span { fr_index : Z; fr_size : Z }.

Section framer.
Context {P : Type} `{Expat P}.

(** [f_list] is the list from [head] to [tail]; [f_list_freed] tells that its
    nodes have been freed while [head] still points to them. *)
Record framer_t := Framer {
  f_parser : ptr P;
  f_level : Z;
  f_error : bool;
  f_start : Z;
  f_list : list frame_t;
  f_list_freed : bool;
  f_buffer : ptr buffer_t;
  f_buffer_index : Z
}.

Definition f_set_parser p f := Framer p (f_level f) (f_error f) (f_start f) (f_list f) (f_list_freed f) (f_buffer f) (f_buffer_index f).
Definition f_set_level v f := Framer (f_parser f) v (f_error f) (f_start f) (f_list f) (f_list_freed f) (f_buffer f) (f_buffer_index f).
Definition f_set_error f := Framer (f_parser f) (f_level f) true (f_start f) (f_list f) (f_list_freed f) (f_buffer f) (f_buffer_index f).
Definition f_set_start v f := Framer (f_parser f) (f_level f) (f_error f) v (f_list f) (f_list_freed f) (f_buffer f) (f_buffer_index f).
Definition f_set_list v f := Framer (f_parser f) (f_level f) (f_error f) (f_start f) v (f_list_freed f) (f_buffer f) (f_buffer_index f).
Definition f_set_buffer b i f := Framer (f_parser f) (f_level f) (f_error f) (f_start f) (f_list f) (f_list_freed f) b i.

(** A framer nothing of which has been freed. *)
Definition framer_whole f : Prop :=
  ∃ p b, f_parser f = Live p ∧ f_buffer f = Live b ∧ f_list_freed f = false.

(** A framer as [framer_create] makes it. *)
Definition framer_fresh f : Prop :=
  ∃ b, f = Framer (Live xml_fresh) 0 false 0 [] false (Live b) 0 ∧
    buffer_wf b ∧ b_max_length b = 0 ∧ contents b = [].

Lemma framer_fresh_whole f : framer_fresh f → framer_whole f.
Proof. intros (b & -> & _). by exists xml_fresh, b. Qed.

Definition framer_create : M (option framer_t) :=
  ok ← malloc_ok 64;
  if negb ok then mret None else
  p ← XML_ParserCreateNS;
  match p with
  | None => mret None
  | Some p =>
      b ← buffer_create 0;
      mret ((λ b, Framer (Live p) 0 false 0 [] false (Live b) 0) <$> b)
  end.

(** What [framer_cleanup] leaves behind. *)
Definition framer_cleanup (f : framer_t) : M framer_t :=
  _ ← free_ptr (f_parser f);
  _ ← free_ptr (f_buffer f);
  if f_list_freed f && negb (bool_decide (f_list f = [])) then ub
  else mret (Framer Null (f_level f) (f_error f) (f_start f) (f_list f) true Null
               (f_buffer_index f)).

Definition framer_delete (f : framer_t) : M () := _ ← framer_cleanup f; mret ().

Definition framer_initialize (f : framer_t) : M (bool * framer_t) :=
  f ← framer_cleanup f;
  p ← XML_ParserCreateNS;
  match p with
  | None => mret (false, f)
  | Some p =>
      b ← buffer_create 0;
      match b with
      | None => mret (false, Framer Dangling 0 false 0 [] false Null 0)
      | Some b => mret (true, Framer (Live p) 0 false 0 [] false (Live b) 0)
      end
  end.

Definition framer_reset (f : framer_t) : M (bool * framer_t) := framer_initialize f.

Definition framer_has_frame (f : framer_t) : bool := negb (bool_decide (f_list f = [])).

(** A failed allocation drops the frame. *)
Definition framer_add_frame (f : framer_t) (index size : Z) : M framer_t :=
  ok ← malloc_ok 16;
  if negb ok then mret f
  else if f_list_freed f && negb (bool_decide (f_list f = [])) then ub
  else mret (f_set_list (f_list f ++ [Span index size]) f).

Definition framer_remove_frame (f : framer_t) : M framer_t :=
  match f_list f with
  | [] => mret f
  | _ :: l => if f_list_freed f then ub else mret (f_set_list l f)
  end.

(** The bare name of an element, [None] when it has no namespace. *)
Definition bare_name (el : list Z) : option (list Z) :=
  (λ sep, zdrop (sep + 1) el) <$> strchr el SEPARATOR.

Definition framer_start (f : framer_t) (el : list Z) (index count : Z) : M framer_t :=
  f ← match bare_name el with
      | Some name =>
          if strcmp_eq name STREAM then
            framer_add_frame (f_set_level 0 f) (to_int index) (to_int count)
          else if f_level f =? 1 then mret (f_set_start (to_int index) f)
          else mret f
      | None => mret f
      end;
  level ← opt (int_op (f_level f + 1));
  mret (f_set_level level f).

Definition framer_end (f : framer_t) (el : list Z) (index count : Z) : M framer_t :=
  level ← opt (int_op (f_level f - 1));
  let f := f_set_level level f in
  if level =? 1 then
    let end_index := to_int (index + to_int count) in
    size ← opt (int_op (end_index - f_start f));
    framer_add_frame f (f_start f) size
  else
    match bare_name el with
    | Some name =>
        if strcmp_eq name STREAM then framer_add_frame f (to_int index) (to_int count)
        else mret f
    | None => mret f
    end.

Definition framer_event (f : framer_t) (e : xml_event) : M framer_t :=
  match e with
  | StartElement el _ index count => framer_start f el index count
  | EndElement el index count => framer_end f el index count
  end.

Fixpoint framer_events (f : framer_t) (evs : list xml_event) : M framer_t :=
  match evs with
  | [] => mret f
  | e :: evs => (f ← framer_event f e; framer_events f evs)
  end.

(** [length] is the number of bytes at [message] that are used. *)
Definition framer_add (f : framer_t) (message : list Z) (length : Z) : M (bool * framer_t) :=
  p ← live (f_parser f);
  let '(status, evs, p) := XML_Parse p message (to_int length) in
  f ← framer_events f evs;
  let f := f_set_parser (Live p) f in
  if negb status then mret (false, f_set_error f)
  else
    b ← live (f_buffer f);
    '(_, b) ← buffer_append b message 0 length;
    mret (true, f_set_buffer (Live b) (f_buffer_index f) f).

(** The common first part of both extractions: bytes before the frame are
    removed. *)
Definition framer_skip (f : framer_t) (index : Z) : M framer_t :=
  if f_buffer_index f <? index then
    delta ← opt (int_op (index - f_buffer_index f));
    b ← live (f_buffer f);
    b ← buffer_remove_data b delta;
    i ← opt (int_op (f_buffer_index f + delta));
    mret (f_set_buffer (Live b) i f)
  else mret f.

(** The common last part: the frame's bytes and the frame are removed. *)
Definition framer_drop (f : framer_t) (b : buffer_t) (size : Z) : M framer_t :=
  b ← buffer_remove_data b size;
  f ← framer_remove_frame (f_set_buffer (Live b) (f_buffer_index f) f);
  mret (f_set_buffer (f_buffer f) (to_int (szt (f_buffer_index f + size))) f).

Definition framer_head (f : framer_t) : M frame_t :=
  match f_list f with
  | s :: _ => if f_list_freed f then ub else mret s
  | [] => ub
  end.

(** The frame in memory of its own, [None] when the allocation fails. *)
Definition framer_get_frame (f : framer_t) : M (option (list Z * Z) * framer_t) :=
  s ← framer_head f;
  f ← framer_skip f (fr_index s);
  let tmp_size := szt (fr_size s) in
  r ← malloc tmp_size;
  match r with
  | None => mret (None, f)
  | Some tmp_data =>
      b ← live (f_buffer f);
      data ← buffer_get_data b tmp_data tmp_size;
      f ← framer_drop f b tmp_size;
      mret (Some (data, tmp_size), f)
  end.

(** The frame in the array of [data], cut at its capacity. *)
Definition framer_get_frame2 (f : framer_t) (data : data_t) : M (data_t * Z * framer_t) :=
  s ← framer_head f;
  f ← framer_skip f (fr_index s);
  let tmp_size := szt (fr_size s) in
  b ← live (f_buffer f);
  data ← buffer_get_data2 b data tmp_size;
  f ← framer_drop f b tmp_size;
  mret (data, tmp_size, f).
End framer.
Arguments framer_t P : clear implicits.
