(* ===== verification/FramerSpec.v ===== *)
(** What the framer computes.

    A stream is an opening tag, stanzas with bytes between them, and a closing
    tag ([xstream]).  [spans] says where its parts lie.  The handlers, run on
    the events of the stream, note exactly these spans ([stream_events]); fed
    the bytes in any pieces, the framer keeps the invariant [fr_rel], and
    takes the parts out of its buffer whole ([framer_feed], [framer_take2]). *)

From S2P Require Import Prelude CString Config Expat Buffer StreamParse Framer.

(** ** The handlers as a function on three of the members *)

Record fview := View { v_level : Z; v_start : Z; v_list : list frame_t }.

Definition view_event (v : fview) (e : xml_event) : option fview :=
  match e with
  | StartElement el _ i n =>
      let v := match bare_name el with
               | Some name =>
                   if strcmp_eq name STREAM
                   then View 0 (v_start v) (v_list v ++ [Span (to_int i) (to_int n)])
                   else if v_level v =? 1 then View (v_level v) (to_int i) (v_list v) else v
               | None => v
               end in
      level ← int_op (v_level v + 1);
      Some (View level (v_start v) (v_list v))
  | EndElement el i n =>
      level ← int_op (v_level v - 1);
      if level =? 1 then
        size ← int_op (to_int (i + to_int n) - v_start v);
        Some (View level (v_start v) (v_list v ++ [Span (v_start v) size]))
      else
        Some (View level (v_start v)
          (match bare_name el with
           | Some name => if strcmp_eq name STREAM then v_list v ++ [Span (to_int i) (to_int n)]
                          else v_list v
           | None => v_list v
           end))
  end.

Fixpoint view_events (v : fview) (evs : list xml_event) : option fview :=
  match evs with
  | [] => Some v
  | e :: evs => v' ← view_event v e; view_events v' evs
  end.

Lemma view_events_app v evs evs' :
  view_events v (evs ++ evs') = (v' ← view_events v evs; view_events v' evs').
Proof.
  revert v. induction evs as [|e evs IH]; intros v; [done|]. simpl.
  destruct (view_event v e); simpl; [apply IH|done].
Qed.

(** Frames are only ever added at the end. *)
Lemma view_event_extends v e v' : view_event v e = Some v' → v_list v `prefix_of` v_list v'.
Proof.
  destruct e as [el a i n|el i n]; simpl; intros Hv.
  - destruct (int_op _) in Hv; [|done]. simpl in Hv. simplify_eq. simpl.
    destruct (bare_name el); [|reflexivity]. destruct (strcmp_eq _ _); [by apply prefix_app_r|].
    destruct (_ =? _); reflexivity.
  - destruct (int_op (v_level v - 1)) as [l|] in Hv; [|done]. simpl in Hv. destruct (l =? 1).
    + destruct (int_op _) in Hv; [|done]. simpl in Hv. simplify_eq. simpl. by apply prefix_app_r.
    + simplify_eq. simpl. destruct (bare_name el); [|reflexivity].
      destruct (strcmp_eq _ _); [by apply prefix_app_r|reflexivity].
Qed.

Lemma view_events_extends v evs v' :
  view_events v evs = Some v' → v_list v `prefix_of` v_list v'.
Proof.
  revert v. induction evs as [|e evs IH]; simpl; intros v Hv; [by simplify_eq|].
  destruct (view_event v e) as [v1|] eqn:E; [|done].
  etrans; [by eapply view_event_extends|by apply IH].
Qed.

Section events.
Context {P : Type} `{Expat P}.
Implicit Types (f : framer_t P).

Definition f_view (f : framer_t P) : fview := View (f_level f) (f_start f) (f_list f).
Definition f_set_view (v : fview) (f : framer_t P) : framer_t P :=
  f_set_list (v_list v) (f_set_start (v_start v) (f_set_level (v_level v) f)).

Lemma f_set_view_same f : f_set_view (f_view f) f = f.
Proof. by destruct f. Qed.

Context (e : env) (He : e ≠ Hostile).

Lemma framer_add_frame_spec f i n :
  f_list_freed f = false →
  wp e (framer_add_frame f i n) (λ f', f' = f_set_list (f_list f ++ [Span i n]) f).
Proof using He.
  intros Hf. unfold framer_add_frame. wstep. apply wp_alloc_ok; [done|done|]. simpl.
  rewrite Hf. by apply wp_ret.
Qed.

Lemma framer_event_spec f ev v :
  f_list_freed f = false → view_event (f_view f) ev = Some v →
  wp e (framer_event f ev) (λ f', f' = f_set_view v f).
Proof using He.
  intros Hf Hv. destruct ev as [el a i n|el i n]; simpl in *.
  - unfold framer_start. wstep.
    assert (∀ f1 : framer_t P, (level ← int_op (f_level f1 + 1); Some (View level (f_start f1) (f_list f1))) = Some v →
      f_set_list [] (f_set_start 0 (f_set_level 0 f1)) = f_set_list [] (f_set_start 0 (f_set_level 0 f)) →
      wp e (level ← opt (int_op (f_level f1 + 1)); mret (f_set_level level f1)) (λ f', f' = f_set_view v f)) as Hlast.
    { intros f1 Hv1 E. destruct (int_op (f_level f1 + 1)) as [l|]; [|done]. simpl in Hv1. simplify_eq.
      wstep. eapply wp_opt; [done|]. apply wp_ret. destruct f, f1. unfold f_set_view, f_set_level, f_set_start, f_set_list in *.
      simpl in *. by simplify_eq. }
    destruct (bare_name el) as [name|]; [|apply wp_ret; by apply Hlast].
    destruct (strcmp_eq name STREAM).
    + eapply wp_mono; [by apply framer_add_frame_spec|]. intros f1 ->. by apply Hlast.
    + destruct (f_level f =? 1); apply wp_ret; by apply Hlast.
  - unfold framer_end. destruct (int_op (f_level f - 1)) as [l|]; [|done]. simpl in Hv.
    wstep. eapply wp_opt; [done|]. cbv zeta. destruct (l =? 1).
    + change (f_start (f_set_level l f)) with (f_start f).
      destruct (int_op (to_int (i + to_int n) - f_start f)); [|done]. simpl in Hv. simplify_eq.
      wstep. eapply wp_opt; [done|]. eapply wp_mono; [by apply framer_add_frame_spec|]. by intros f1 ->.
    + simplify_eq. destruct (bare_name el) as [name|]; [|by apply wp_ret].
      destruct (strcmp_eq name STREAM); [|by apply wp_ret].
      eapply wp_mono; [by apply framer_add_frame_spec|]. by intros f1 ->.
Qed.

Lemma framer_events_spec f evs v :
  f_list_freed f = false → view_events (f_view f) evs = Some v →
  wp e (framer_events f evs) (λ f', f' = f_set_view v f).
Proof using He.
  revert f. induction evs as [|ev evs IH]; intros f Hf Hv; simpl in *.
  { simplify_eq. apply wp_ret. by rewrite f_set_view_same. }
  destruct (view_event (f_view f) ev) as [v1|] eqn:E; [|done]. wstep.
  eapply wp_mono; [by apply framer_event_spec|]. intros f1 ->.
  assert (f_view (f_set_view v1 f) = v1) as Ev by (by destruct v1).
  eapply wp_mono; [apply IH; [done|by rewrite Ev]|]. intros f2 ->. by destruct v.
Qed.
End events.

(** ** Streams *)

Definition has_namespace (el : list Z) : bool := if bare_name el is Some _ then true else false.
Definition is_stream (el : list Z) : bool :=
  if bare_name el is Some name then strcmp_eq name STREAM else false.

(** An [int] counts the levels. *)
Definition MAX_DEPTH : Z := 2 ^ 30.

(** The rest of an element inside [d] open elements, up to its closing tag: no
    element in it is called "stream". *)
Fixpoint inner (d : Z) (ts : list xtok) : bool :=
  match ts with
  | [] => false
  | XOpen el _ _ :: ts => negb (is_stream el) && (d <? MAX_DEPTH) && inner (d + 1) ts
  | XClose el _ :: ts =>
      negb (is_stream el) &&
      (if d =? 1 then match ts with [] => true | _ => false end else inner (d - 1) ts)
  | XEmpty el _ _ :: ts => negb (is_stream el) && inner d ts
  | XText _ :: ts => inner d ts
  end.

(** A stanza: one element, in a namespace. *)
Definition stanza_ok (ts : list xtok) : bool :=
  match ts with
  | XEmpty el _ _ :: [] => has_namespace el && negb (is_stream el)
  | XOpen el _ _ :: ts => has_namespace el && negb (is_stream el) && inner 1 ts
  | _ => false
  end.

Inductive item := Gap (r : list Z) | Stanza (ts : list xtok).
Definition item_toks (i : item) : list xtok :=
  match i with Gap r => [XText r] | Stanza ts => ts end.
Definition item_ok (i : item) : bool :=
  match i with Gap _ => true | Stanza ts => stanza_ok ts end.

Record xstream := XStream {
  xs_prolog : list Z;
  xs_name : list Z;
  xs_attr : list (list Z * list Z);
  xs_open : list Z;
  xs_items : list item;
  xs_close : list Z
}.

Definition body (items : list item) : list xtok := concat (item_toks <$> items).
Definition toks (x : xstream) : list xtok :=
  XText (xs_prolog x) :: XOpen (xs_name x) (xs_attr x) (xs_open x) ::
  body (xs_items x) ++ [XClose (xs_name x) (xs_close x)].

Arguments toks : simpl never.

Record stream_ok (x : xstream) : Prop := {
  so_name : is_stream (xs_name x) = true;
  so_items : forallb item_ok (xs_items x) = true;
  so_bytes : Forall is_byte (raw (toks x));
  so_size : zlen (raw (toks x)) <= INT_MAX }.

(** The parts the framer is to hand out, and where they lie. *)
Definition stanzas (items : list item) : list (list Z) :=
  items ≫= λ i, match i with Gap _ => [] | Stanza ts => [raw ts] end.
Definition parts (x : xstream) : list (list Z) :=
  xs_open x :: stanzas (xs_items x) ++ [xs_close x].

Fixpoint item_spans (pos : Z) (items : list item) : list frame_t :=
  match items with
  | [] => []
  | Gap r :: items => item_spans (pos + zlen r) items
  | Stanza ts :: items => Span pos (zlen (raw ts)) :: item_spans (pos + zlen (raw ts)) items
  end.
Definition spans (x : xstream) : list frame_t :=
  let p := zlen (xs_prolog x) in
  let q := p + zlen (xs_open x) in
  Span p (zlen (xs_open x)) :: item_spans q (xs_items x) ++
  [Span (q + zlen (raw (body (xs_items x)))) (zlen (xs_close x))].

Definition slice (s : list Z) (f : frame_t) : list Z := ztake (fr_size f) (zdrop (fr_index f) s).

(** Spans that follow each other from [lo] on, the last ending at [hi]. *)
Fixpoint ordered (lo hi : Z) (fs : list frame_t) : Prop :=
  match fs with
  | [] => lo <= hi
  | f :: fs => lo <= fr_index f ∧ 0 <= fr_size f ∧ ordered (fr_index f + fr_size f) hi fs
  end.

Lemma ordered_le lo hi fs : ordered lo hi fs → lo <= hi.
Proof.
  revert lo. induction fs as [|f fs IH]; simpl; intros lo Ho; [done|].
  destruct Ho as (? & ? & Ho). specialize (IH _ Ho). lia.
Qed.

Lemma ordered_app lo mid hi fs gs : ordered lo mid fs → ordered mid hi gs → ordered lo hi (fs ++ gs).
Proof.
  revert lo. induction fs as [|f fs IH]; simpl; intros lo Ho Hg.
  - destruct gs as [|g gs]; simpl in *; [lia|]. destruct Hg as (? & ? & ?). split_and!; auto; lia.
  - destruct Ho as (? & ? & ?). eauto.
Qed.

Lemma body_cons i items : body (i :: items) = item_toks i ++ body items.
Proof. done. Qed.

Lemma raw_text r : raw [XText r] = r.
Proof. unfold raw. simpl. by rewrite app_nil_r. Qed.

(** ** The events of a stream *)

Ltac ints := unfold INT_MAX, INT_MIN, MAX_DEPTH in *.
Ltac view_ints :=
  repeat match goal with
  | |- context [to_int ?z] => rewrite (to_int_small z) by (ints; lia)
  | |- context [int_op ?z] => rewrite (int_op_small z) by (ints; lia)
  end;
  cbn [mbind option_bind v_level v_start v_list].

Lemma is_stream_case {A} el (a b c : A) :
  is_stream el = false →
  (match bare_name el with Some name => if strcmp_eq name STREAM then a else b | None => c end) =
  if has_namespace el then b else c.
Proof. unfold is_stream, has_namespace. destruct (bare_name el); [|done]. by intros ->. Qed.

Lemma inner_view d ts p start l :
  inner d ts = true → 1 <= d <= MAX_DEPTH → 0 <= start <= p → p + zlen (raw ts) <= INT_MAX →
  view_events (View (d + 1) start l) (events_at p ts) =
    Some (View 1 start (l ++ [Span start (p + zlen (raw ts) - start)])).
Proof.
  revert d p. induction ts as [|t ts IH]; intros d p Hi Hd Hp Hz; [done|].
  rewrite raw_cons, zlen_app in *. zlen_pos. cbn [events_at]. rewrite view_events_app.
  destruct t as [el a r|el r|el a r|r]; cbn [x_raw events_of] in *; cbn [inner] in Hi.
  - apply andb_prop in Hi as [Hi Hin]. apply andb_prop in Hi as [Hs Hdm].
    apply negb_true_iff in Hs. apply Z.ltb_lt in Hdm.
    cbn [view_events view_event v_level v_start v_list]. rewrite (is_stream_case _ _ _ _ Hs).
    replace (d + 1 =? 1) with false by (symmetry; apply Z.eqb_neq; lia).
    destruct (has_namespace el); cbn [v_level v_start v_list]; view_ints;
      (rewrite IH by (auto; lia)); do 5 f_equal; lia.
  - apply andb_prop in Hi as [Hs Hi]. apply negb_true_iff in Hs.
    cbn [view_events view_event v_level v_start v_list]. view_ints.
    rewrite (is_stream_case _ _ _ _ Hs).
    replace (d + 1 - 1) with d by lia. destruct (Z.eqb_spec d 1) as [->|].
    + destruct ts; [|done]. change (raw []) with (@nil Z) in *. rewrite zlen_nil in *.
      view_ints. cbn. do 5 f_equal. lia.
    + view_ints. replace (if has_namespace el then l else l) with l by (by destruct (has_namespace el)).
      replace d with (d - 1 + 1) by lia. rewrite IH by (auto; lia). do 5 f_equal. lia.
  - apply andb_prop in Hi as [Hs Hi]. apply negb_true_iff in Hs.
    assert ((d + 1 =? 1) = false) as Hl by (apply Z.eqb_neq; lia).
    cbn [view_events view_event v_level v_start v_list]. rewrite (is_stream_case _ _ _ _ Hs), Hl.
    replace (if has_namespace el then _ else _) with (View (d + 1) start l)
      by (by destruct (has_namespace el)).
    cbn [v_level v_start v_list]. view_ints. replace (d + 1 + 1 - 1) with (d + 1) by lia.
    view_ints. rewrite Hl, (is_stream_case _ _ _ _ Hs).
    replace (if has_namespace el then l else l) with l by (by destruct (has_namespace el)).
    cbn [view_events mbind option_bind]. rewrite IH by (auto; lia). do 5 f_equal. lia.
  - cbn [view_events mbind option_bind]. rewrite IH by (auto; lia). do 5 f_equal. lia.
Qed.

Lemma stanza_view ts p start l :
  stanza_ok ts = true → 0 <= p → 0 <= start → p + zlen (raw ts) <= INT_MAX →
  view_events (View 1 start l) (events_at p ts) =
    Some (View 1 p (l ++ [Span p (zlen (raw ts))])).
Proof.
  intros Hs Hp Hst Hz. destruct ts as [|[el a r|el r|el a r|r] ts]; try done; simpl in Hs.
  - apply andb_prop in Hs as [Hs Hin]. apply andb_prop in Hs as [Hn Hs].
    apply negb_true_iff in Hs. rewrite raw_cons, zlen_app in *. zlen_pos.
    cbn [events_at events_of x_raw] in *. rewrite view_events_app.
    cbn [view_events view_event v_level v_start v_list]. rewrite (is_stream_case _ _ _ _ Hs), Hn.
    cbn [Z.eqb Pos.eqb v_level v_start v_list]. view_ints.
    rewrite (inner_view 1) by (auto; ints; lia). do 5 f_equal. lia.
  - destruct ts; [|done]. apply andb_prop in Hs as [Hn Hs]. apply negb_true_iff in Hs.
    rewrite raw_cons, zlen_app in *. change (raw []) with (@nil Z) in *. rewrite zlen_nil in *.
    zlen_pos. cbn [events_at events_of x_raw app] in *.
    cbn [view_events view_event v_level v_start v_list]. rewrite (is_stream_case _ _ _ _ Hs), Hn.
    cbn [Z.eqb Pos.eqb v_level v_start v_list]. view_ints.
    change (1 + 1 - 1) with 1. view_ints. cbn [Z.eqb Pos.eqb]. view_ints. do 6 f_equal. lia.
Qed.

Lemma items_view items p start l :
  forallb item_ok items = true → 0 <= p → 0 <= start → p + zlen (raw (body items)) <= INT_MAX →
  ∃ start', view_events (View 1 start l) (events_at p (body items)) =
              Some (View 1 start' (l ++ item_spans p items)).
Proof.
  revert p start l. induction items as [|i items IH]; intros p start l Hi Hp Hst Hz.
  { exists start. simpl. by rewrite app_nil_r. }
  simpl in Hi. apply andb_prop in Hi as [Hi Hrest]. rewrite body_cons, raw_app, zlen_app in *.
  rewrite events_at_app, view_events_app. zlen_pos. destruct i as [r|ts]; cbn [item_toks item_ok] in *.
  - rewrite raw_text in *. cbn [events_at events_of x_raw app view_events mbind option_bind item_spans].
    apply IH; auto; lia.
  - rewrite stanza_view by (auto; lia). cbn [mbind option_bind].
    destruct (IH (p + zlen (raw ts)) p (l ++ [Span p (zlen (raw ts))])) as [s' E]; [done|lia|lia|lia|].
    exists s'. rewrite E. simpl. by rewrite <-app_assoc.
Qed.

Lemma raw_toks x :
  raw (toks x) = xs_prolog x ++ xs_open x ++ raw (body (xs_items x)) ++ xs_close x.
Proof.
  unfold toks. rewrite !raw_cons, raw_app. unfold raw at 2. simpl. by rewrite app_nil_r.
Qed.

(** The handlers note the spans of the stream. *)
Lemma stream_events x : stream_ok x →
  ∃ start, view_events (View 0 0 []) (events_at 0 (toks x)) = Some (View 0 start (spans x)).
Proof.
  intros [Hn Hi _ Hz]. rewrite raw_toks, !zlen_app in Hz. zlen_pos.
  unfold toks. cbn [events_at events_of x_raw app]. rewrite Z.add_0_l.
  set (p := zlen (xs_prolog x)) in *.
  unfold is_stream in Hn. destruct (bare_name (xs_name x)) as [name|] eqn:En; [|done].
  cbn [view_events view_event v_level v_start v_list app]. rewrite En, Hn.
  cbn [v_level v_start v_list app]. view_ints. rewrite events_at_app, view_events_app.
  destruct (items_view (xs_items x) (p + zlen (xs_open x)) 0 [Span p (zlen (xs_open x))])
    as [s' E]; [done|lia|lia|lia|].
  change (0 + 1) with 1. rewrite E. cbn [mbind option_bind]. exists s'.
  cbn [events_at events_of x_raw app view_events view_event v_level v_start v_list].
  view_ints. cbn [Z.eqb Z.sub Z.add Z.opp Z.pos_sub]. rewrite En, Hn. view_ints.
  unfold spans. fold p. by destruct (1 - 1 =? 1) eqn:?.
Qed.

(** The spans follow each other, and their bytes are the parts. *)
Lemma item_spans_ordered items p : 0 <= p →
  ordered p (p + zlen (raw (body items))) (item_spans p items).
Proof.
  revert p. induction items as [|[r|ts] items IH]; intros p Hp.
  - cbn [item_spans ordered]. zlen_pos. lia.
  - rewrite body_cons, raw_app, zlen_app. cbn [item_toks item_spans]. rewrite raw_text. zlen_pos.
    specialize (IH (p + zlen r)). eapply (ordered_app _ (p + zlen r) _ []); simpl; [lia|].
    rewrite Z.add_assoc. apply IH. lia.
  - rewrite body_cons, raw_app, zlen_app. cbn [item_toks item_spans ordered fr_index fr_size].
    zlen_pos. split_and!; [lia|lia|]. rewrite Z.add_assoc. apply IH. lia.
Qed.

Lemma spans_ordered x : ordered 0 (zlen (raw (toks x))) (spans x).
Proof.
  rewrite raw_toks, !zlen_app. zlen_pos. unfold spans. simpl. split_and!; [lia|lia|].
  eapply ordered_app; [apply item_spans_ordered; lia|]. simpl. lia.
Qed.

Lemma slice_app pre s rest f :
  fr_index f = zlen pre → fr_size f = zlen s → slice (pre ++ s ++ rest) f = s.
Proof.
  intros Hi Hs. unfold slice. rewrite Hi, Hs, zdrop_app_exact by done. by apply ztake_app_exact.
Qed.

Lemma item_spans_slices items pre rest :
  slice (pre ++ raw (body items) ++ rest) <$> item_spans (zlen pre) items = stanzas items.
Proof.
  revert pre. induction items as [|[r|ts] items IH]; intros pre; [done| |].
  - rewrite body_cons, raw_app. cbn [item_toks item_spans]. rewrite raw_text.
    rewrite <-app_assoc, app_assoc, <-zlen_app. apply IH.
  - rewrite body_cons, raw_app. cbn [item_toks item_spans fmap list_fmap].
    unfold stanzas. cbn [mbind list_bind app]. f_equal.
    + rewrite <-app_assoc. by apply slice_app.
    + rewrite <-app_assoc, app_assoc, <-zlen_app. apply IH.
Qed.

Lemma spans_slices x : slice (raw (toks x)) <$> spans x = parts x.
Proof.
  rewrite raw_toks. unfold spans, parts. cbn [fmap list_fmap]. rewrite fmap_app. f_equal; [|f_equal].
  - by apply slice_app.
  - rewrite app_assoc, <-zlen_app. apply item_spans_slices.
  - cbn [fmap list_fmap]. f_equal.
    rewrite <-(app_nil_r (xs_close x)) at 1. rewrite (app_assoc (xs_open x)), (app_assoc (xs_prolog x)).
    apply slice_app; [|done]. cbn [fr_index]. rewrite !zlen_app. lia.
Qed.

(** ** Prefixes of the events *)

Lemma view_event_prepend a l s b e :
  view_event (View l s (a ++ b)) e =
    (λ v, View (v_level v) (v_start v) (a ++ v_list v)) <$> view_event (View l s b) e.
Proof.
  destruct e as [el ? i n|el i n]; cbn [view_event v_level v_start v_list].
  - destruct (bare_name el); [destruct (strcmp_eq _ _); [|destruct (l =? 1)]|];
      cbn [v_level v_start v_list]; destruct (int_op _); simpl; by rewrite <-?app_assoc.
  - destruct (int_op (l - 1)); [|done]. cbn [mbind option_bind]. destruct (_ =? 1).
    + destruct (int_op _); simpl; by rewrite <-?app_assoc.
    + destruct (bare_name el); [destruct (strcmp_eq _ _)|]; simpl; by rewrite <-?app_assoc.
Qed.

Lemma view_events_prepend a l s b evs :
  view_events (View l s (a ++ b)) evs =
    (λ v, View (v_level v) (v_start v) (a ++ v_list v)) <$> view_events (View l s b) evs.
Proof.
  revert l s b. induction evs as [|e evs IH]; intros l s b; [done|]. simpl.
  rewrite view_event_prepend. destruct (view_event _ e) as [[l' s' b']|]; [|done]. simpl. apply IH.
Qed.

Definition ev_ok (n : Z) (e : xml_event) : Prop :=
  match e with StartElement _ _ i c | EndElement _ i c => 0 <= i ∧ 0 <= c ∧ i + c <= n end.
Definition ends_by (n : Z) (f : frame_t) : Prop := fr_index f + fr_size f <= n.

Lemma events_nonneg pos ts e : 0 <= pos → e ∈ events_at pos ts → ev_ok (ev_end e) e.
Proof.
  revert pos. induction ts as [|t ts IH]; simpl; intros pos Hp He; [by apply elem_of_nil in He|].
  rewrite elem_of_app in He. destruct He as [He|He]; [|eapply IH; [|exact He]; zlen_pos; lia].
  destruct t; simpl in He; zlen_pos; rewrite ?elem_of_cons, elem_of_nil in He;
    repeat destruct He as [He|He]; subst; simpl; done || lia.
Qed.

(** A frame ends where the event that completes it ends. *)
Lemma view_events_ends n evs v v' : n <= INT_MAX →
  view_events v evs = Some v' → Forall (ev_ok n) evs →
  Forall (ends_by n) (v_list v) → Forall (ends_by n) (v_list v').
Proof.
  intros Hn. revert v. induction evs as [|e evs IH]; simpl; intros v Hv He Hl; [by simplify_eq|].
  destruct (view_event v e) as [v1|] eqn:E; [|done]. apply Forall_cons_iff in He as [He Hes].
  eapply IH; [exact Hv|exact Hes|]. clear IH Hv Hes. assert (∀ i c, 0 <= i → 0 <= c → i + c <= n →
    Forall (ends_by n) (v_list v ++ [Span (to_int i) (to_int c)])) as Hadd.
  { intros i c ? ? ?. apply Forall_app_2; [done|]. repeat constructor. unfold ends_by. simpl.
    rewrite !to_int_small by (ints; lia). lia. }
  destruct e as [el a i c|el i c]; cbn [view_event] in E; destruct He as (Hi & Hc & Hic).
  - destruct (int_op _) in E; [|done]. simpl in E. simplify_eq. cbn [v_list].
    destruct (bare_name el); [destruct (strcmp_eq _ _); [by apply Hadd|by destruct (_ =? _)]|done].
  - destruct (int_op (v_level v - 1)) as [l|]; [|done]. cbn [mbind option_bind] in E.
    destruct (l =? 1).
    + destruct (int_op (_ - v_start v)) as [z|] eqn:Ez; [|done]. simpl in E. simplify_eq. cbn [v_list].
      apply Forall_app_2; [done|]. repeat constructor. unfold ends_by. simpl.
      rewrite !to_int_small in Ez by (ints; rewrite ?to_int_small by (ints; lia); lia).
      unfold int_op in Ez. destruct (_ && _); simplify_eq. lia.
    + simplify_eq. cbn [v_list]. destruct (bare_name el); [destruct (strcmp_eq _ _); [by apply Hadd|]|]; done.
Qed.

Lemma ordered_mid lo hi fs gs : ordered lo hi (fs ++ gs) → ∃ mid, ordered lo mid fs ∧ ordered mid hi gs.
Proof.
  revert lo. induction fs as [|f fs IH]; simpl; intros lo Ho.
  - exists lo. split; [lia|]. by destruct gs.
  - destruct Ho as (? & ? & Ho). destruct (IH _ Ho) as (mid & ? & ?). eauto.
Qed.
