(* ===== verification/FramerProps.v ===== *)
(** Properties of the stanza framer: fed a stream in any pieces it hands out the
    opening tag, every stanza and the closing tag, each whole and nothing else;
    and what happens to a stanza without a namespace. *)

From S2P Require Import Prelude CString Config Expat Buffer StreamParse Framer FramerSpec.

(** ** The invariant

    [fr_rel n D taken f]: framer [f] has been fed [n] bytes of the stream, Expat has
    delivered the events [D], and the frames [taken] have been taken out. *)

Section framer.
Context {P : Type} `{Expat P} (x : xstream) (inv : P → Z → list xml_event → Prop).
Context (e : env) (He : e ≠ Hostile) (Hx : stream_ok x) (Hr : expat_reads (toks x) inv).
Implicit Types (f : framer_t P).

Record fr_rel (n : Z) (D : list xml_event) (taken : list frame_t) f : Prop := {
  fr_parser : ∃ p, f_parser f = Live p ∧ inv p n D;
  fr_view : ∃ v, view_events (View 0 0 []) D = Some v ∧ v_level v = f_level f ∧
                 v_start v = f_start f ∧ v_list v = taken ++ f_list f;
  fr_prefix : D `prefix_of` events_at 0 (toks x);
  fr_ends : Forall (λ ev, ev_end ev <= n) D;
  fr_freed : f_list_freed f = false;
  fr_buffer : ∃ b, f_buffer f = Live b ∧ buffer_wf b ∧ b_max_length b = 0 ∧
                   contents b = zdrop (f_buffer_index f) (ztake n (raw (toks x)));
  fr_bounds : 0 <= f_buffer_index f <= n ∧ n <= zlen (raw (toks x));
  fr_order : ∀ fs, spans x = taken ++ fs → ordered (f_buffer_index f) (zlen (raw (toks x))) fs
}.

Lemma prefix_view D : D `prefix_of` events_at 0 (toks x) →
  ∃ v later, view_events (View 0 0 []) D = Some v ∧ spans x = v_list v ++ later.
Proof using Hx.
  intros [D' E]. destruct (stream_events x Hx) as [s Hs]. rewrite E, view_events_app in Hs.
  destruct (view_events _ D) as [v|]; [|done]. simpl in Hs. exists v.
  destruct (view_events_extends _ _ _ Hs) as [later El]. simpl in El. eauto.
Qed.

Lemma fr_frames_end n D taken f s : fr_rel n D taken f → s ∈ f_list f → ends_by n s.
Proof using Hx.
  intros [_ (v & Ev & _ & _ & El) Hp Hends _ _ [_ Hn] _] Hin.
  assert (Forall (ends_by n) (v_list v)) as Hf.
  { eapply view_events_ends; [|exact Ev| |done]; [destruct Hx; lia|].
    apply Forall_forall. intros ev Hev. rewrite Forall_forall in Hends.
    specialize (Hends _ Hev). destruct Hp as [D' ED].
    assert (ev_ok (ev_end ev) ev) as Hok.
    { apply (events_nonneg 0 (toks x)); [done|]. rewrite ED. apply elem_of_app. left. by apply list_elem_of_In. }
    destruct ev; simpl in *; lia. }
  rewrite El in Hf. apply Forall_app in Hf as [_ Hf]. rewrite Forall_forall in Hf.
  by apply Hf, list_elem_of_In.
Qed.

(** The state [framer_create] and [framer_reset] leave. *)
Lemma fr_rel_start p b :
  inv p 0 [] → buffer_wf b → b_max_length b = 0 → contents b = [] →
  fr_rel 0 [] [] (Framer (Live p) 0 false 0 [] false (Live b) 0).
Proof.
  intros. split; simpl; try done.
  - eauto.
  - by eexists.
  - apply prefix_nil.
  - eexists. split_and!; eauto.
  - zlen_pos. lia.
  - intros fs Es. simpl in Es. subst fs. apply spans_ordered.
Qed.

Lemma framer_create_spec : wp e framer_create (λ r, ∃ f, r = Some f ∧ fr_rel 0 [] [] f).
Proof using He Hr.
  unfold framer_create. wstep. apply wp_alloc_ok; [done|done|]. cbn [negb].
  wstep. apply wp_parser_create; [done|]. wstep.
  eapply wp_mono; [by apply buffer_create_spec|]. intros [b|]; [|done]. intros (Hb & Hc & Hm & _).
  apply wp_ret. simpl. eexists. split; [done|]. apply fr_rel_start; auto. apply Hr.
Qed.

(** Whatever state it is in, provided nothing in it has been freed. *)
Lemma framer_reset_spec p b l s i err lv :
  wp e (framer_reset (Framer (Live p) lv err s l false (Live b) i)) (λ '(ok, f),
    ok = true ∧ fr_rel 0 [] [] f).
Proof using He Hr.
  unfold framer_reset, framer_initialize, framer_cleanup. simpl free_ptr.
  wstep. wstep. apply wp_ret. wstep. apply wp_ret. apply wp_ret.
  wstep. apply wp_parser_create; [done|]. wstep.
  eapply wp_mono; [by apply buffer_create_spec|]. intros [b'|]; [|done]. intros (Hb & Hc & Hm & _).
  apply wp_ret. split; [done|]. apply fr_rel_start; auto. apply Hr.
Qed.

(** Feeding the next [len] bytes. *)
Lemma framer_feed n D taken f message len :
  fr_rel n D taken f → Forall is_byte message → 0 <= len <= zlen message → len <= INT_MAX →
  n + len <= zlen (raw (toks x)) → ztake len message = ztake len (zdrop n (raw (toks x))) →
  wp e (framer_add f message len) (λ '(ok, f'), ok = true ∧ ∃ D', fr_rel (n + len) D' taken f').
Proof using He Hr Hx.
  intros Hf Hm Hlen Hmax Hn Hd.
  pose proof Hf as [(p & Hp & Hi) (v & Ev & Hlv & Hst & El) Hpre Hends Hfr (b & Hb & Hwf & Hml & Hc) [Hbi _] Ho].
  destruct (er_parse Hr p n D message len) as (evs & p' & Ep & Hi' & Hpre' & Hends'); [done..|].
  destruct (prefix_view _ Hpre') as (v2 & later & Ev2 & Esp).
  pose proof Ev2 as Ev2'. rewrite view_events_app, Ev in Ev2'. simpl in Ev2'.
  destruct v as [l0 s0 fl]. simpl in *. subst l0 s0 fl.
  rewrite view_events_prepend in Ev2'.
  destruct (view_events _ evs) as [v3|] eqn:Ev3; [|done]. simpl in Ev2'. simplify_eq.
  unfold framer_add. wstep. unfold live. rewrite Hp. apply wp_ret. rewrite to_int_small by (ints; lia).
  rewrite Ep. wstep. eapply wp_mono; [apply framer_events_spec; [done|done|exact Ev3]|].
  intros f1 ->. cbn [negb]. wstep. cbn. rewrite Hb.
  apply wp_ret. wstep. destruct Hx as [_ _ _ Hsz].
  assert (b_length b = n - f_buffer_index f) as Hbl.
  { rewrite <-(zlen_contents b Hwf), Hc. rewrite zlen_zdrop; rewrite zlen_ztake; lia. }
  eapply wp_mono; [apply buffer_append_unlimited; try done; try lia; ints; unfold PTRDIFF_MAX; lia|].
  intros [[] b'] (Hwf' & Hml' & Hc'); [|done]. apply wp_ret. split; [done|]. exists (D ++ evs).
  destruct v3 as [l3 s3 fl3]. simpl in *. split; simpl; try done.
  - eauto.
  - eexists. split_and!; [exact Ev2|done..].
  - eexists. split_and!; [done|done|done|]. rewrite Hc', Hc, zdrop_0, Hd.
    rewrite <-zdrop_app_le by (rewrite zlen_ztake; lia). f_equal.
    rewrite <-(ztake_zdrop n (raw (toks x))) at 3. rewrite ztake_app_ge by (rewrite zlen_ztake; lia).
    rewrite zlen_ztake by lia. do 2 f_equal. lia.
  - lia.
Qed.

(** ** Taking a frame out *)

Lemma fr_head_span n D taken f s l : fr_rel n D taken f → f_list f = s :: l →
  ∃ later, spans x = taken ++ s :: l ++ later.
Proof using Hx.
  intros [_ (v & Ev & _ & _ & El) Hp _ _ _ _ _] E.
  destruct (prefix_view _ Hp) as (v' & later & Ev' & Esp). rewrite Ev in Ev'. simplify_eq.
  exists later. rewrite Esp, El, E. by rewrite <-app_assoc.
Qed.

(** Where the head frame lies. *)
Lemma fr_head_bounds n D taken f s l : fr_rel n D taken f → f_list f = s :: l →
  f_buffer_index f <= fr_index s ∧ 0 <= fr_size s ∧ fr_index s + fr_size s <= n ∧ n <= INT_MAX.
Proof using Hx.
  intros Hf E. destruct (fr_head_span _ _ _ _ _ _ Hf E) as [later Esp].
  destruct (fr_order _ _ _ _ Hf _ Esp) as (? & ? & _). split_and!; [done|done| |].
  - eapply fr_frames_end; [exact Hf|]. rewrite E. apply elem_of_cons. by left.
  - destruct Hx, Hf. lia.
Qed.

Lemma framer_skip_spec n D taken f s l :
  fr_rel n D taken f → f_list f = s :: l →
  wp e (framer_skip f (fr_index s)) (λ f',
    fr_rel n D taken f' ∧ f_list f' = s :: l ∧ f_buffer_index f' = fr_index s).
Proof using Hx.
  intros Hf E. destruct (fr_head_bounds _ _ _ _ _ _ Hf E) as (Hi & Hs & Hn & Hmax).
  destruct (fr_head_span _ _ _ _ _ _ Hf E) as [later Esp].
  pose proof Hf as [? ? ? ? ? (b & Hb & Hwf & Hml & Hc) Hbi Ho]. unfold framer_skip.
  destruct (Z.ltb_spec (f_buffer_index f) (fr_index s)); [|apply wp_ret; split_and!; auto; lia].
  wstep. eapply wp_opt; [apply int_op_small; ints; lia|]. wstep. rewrite Hb. apply wp_ret. wstep.
  assert (b_length b = n - f_buffer_index f) as Hbl.
  { rewrite <-(zlen_contents b Hwf), Hc. rewrite zlen_zdrop; rewrite zlen_ztake; lia. }
  eapply wp_mono; [apply buffer_remove_data_spec; [done|lia]|]. intros b' (Hwf' & Hml' & _ & _ & Hc').
  wstep. eapply wp_opt; [apply int_op_small; ints; lia|]. apply wp_ret.
  replace (f_buffer_index f + (fr_index s - f_buffer_index f)) with (fr_index s) by lia.
  split_and!; [|done|done]. split; simpl; try done.
  - eexists. split_and!; [done|done|congruence|]. rewrite Hc', Hc, zdrop_zdrop by lia. f_equal. lia.
  - lia.
  - intros fs Efs. rewrite Esp in Efs. apply app_inv_head in Efs as <-.
    destruct (Ho _ Esp) as (? & ? & ?). split_and!; [lia|done|done].
Qed.

Lemma framer_drop_spec n D taken f s l b :
  fr_rel n D taken f → f_list f = s :: l → f_buffer_index f = fr_index s → f_buffer f = Live b →
  wp e (framer_drop f b (fr_size s)) (λ f', fr_rel n D (taken ++ [s]) f' ∧ f_list f' = l).
Proof using Hx.
  intros Hf E Ei Eb. destruct (fr_head_bounds _ _ _ _ _ _ Hf E) as (_ & Hs & Hn & Hmax).
  destruct (fr_head_span _ _ _ _ _ _ Hf E) as [later Esp].
  pose proof Hf as [? (v & Ev & Hlv & Hst & El) ? ? Hfr (b1 & Hb & Hwf & Hml & Hc) Hbi Ho]. simplify_eq.
  rewrite Eb in Hb. injection Hb as <-.
  assert (b_length b = n - f_buffer_index f) as Hbl.
  { rewrite <-(zlen_contents b Hwf), Hc. rewrite zlen_zdrop; rewrite zlen_ztake; lia. }
  unfold framer_drop. wstep. eapply wp_mono; [apply buffer_remove_data_spec; [done|lia]|].
  intros b' (Hwf' & Hml' & _ & _ & Hc'). wstep. unfold framer_remove_frame. cbn. rewrite E, Hfr.
  apply wp_ret. apply wp_ret. cbn. rewrite szt_small, to_int_small by (ints; lia).
  split; [|done]. split; simpl; try done.
  - exists v. split_and!; auto. rewrite El, E, <-app_assoc. done.
  - eexists. split_and!; [done|done|congruence|]. rewrite Hc', Hc, zdrop_zdrop by lia. done.
  - lia.
  - intros fs Efs. rewrite <-app_assoc in Efs. cbn [app] in Efs.
    destruct (Ho _ Efs) as (_ & _ & ?). by rewrite Ei.
Qed.

Lemma contents_slice n D taken f s l b :
  fr_rel n D taken f → f_list f = s :: l → f_buffer_index f = fr_index s → f_buffer f = Live b →
  fr_size s <= b_length b ∧ ztake (fr_size s) (b_data b) = slice (raw (toks x)) s.
Proof using Hx.
  intros Hf E Ei Eb. destruct (fr_head_bounds _ _ _ _ _ _ Hf E) as (_ & Hs & Hn & Hmax).
  destruct Hf as [_ _ _ _ _ (b1 & Hb & Hwf & _ & Hc) Hbi _]. rewrite Eb in Hb. injection Hb as <-.
  assert (b_length b = n - f_buffer_index f) as Hbl.
  { rewrite <-(zlen_contents b Hwf), Hc. rewrite zlen_zdrop; rewrite zlen_ztake; lia. }
  split; [lia|]. transitivity (ztake (fr_size s) (contents b)).
  { unfold contents. rewrite ztake_ztake by lia. done. }
  rewrite Hc, Ei. unfold slice.
  rewrite !ztake_zdrop_comm by lia. rewrite ztake_ztake by lia. done.
Qed.

Lemma framer_take n D taken f s l :
  fr_rel n D taken f → f_list f = s :: l →
  wp e (framer_get_frame f) (λ '(r, f'),
    r = Some (slice (raw (toks x)) s, fr_size s) ∧ fr_rel n D (taken ++ [s]) f' ∧ f_list f' = l).
Proof using He Hx.
  intros Hf E. destruct (fr_head_bounds _ _ _ _ _ _ Hf E) as (_ & Hs & Hn & Hmax).
  unfold framer_get_frame, framer_head. rewrite E, (fr_freed _ _ _ _ Hf).
  wstep. apply wp_ret. wstep. eapply wp_mono; [by apply framer_skip_spec|].
  clear f Hf E. intros f (Hf & E & Ei).
  assert (0 <= fr_index s) by (destruct (fr_bounds _ _ _ _ Hf); lia).
  cbv zeta. rewrite szt_small by (ints; lia). wstep.
  apply wp_malloc; [done|intros [?|?]; [done|ints; unfold PTRDIFF_MAX in *; lia]|].
  intros a Ha _ _. destruct (fr_buffer _ _ _ _ Hf) as (b & Hb & Hwf & _). wstep. rewrite Hb.
  apply wp_ret. wstep. destruct (contents_slice _ _ _ _ _ _ b Hf E Ei Hb) as [Hle Hsl].
  unfold buffer_get_data. pose proof Hwf as []. wstep. eapply wp_opt; [apply mem_read_Some; lia|].
  rewrite zdrop_0, Hsl. assert (zlen (slice (raw (toks x)) s) = fr_size s) as Hz by (rewrite <-Hsl; zl).
  eapply wp_opt; [apply mem_write_Some; lia|]. rewrite ztake_0, Hz, zdrop_ge, app_nil_r by lia. wstep.
  eapply wp_mono; [by eapply framer_drop_spec|]. intros f' [? ?]. by apply wp_ret.
Qed.

Lemma framer_take2 n D taken f s l data :
  fr_rel n D taken f → f_list f = s :: l → zlen (d_buffer data) = d_capacity data →
  wp e (framer_get_frame2 f data) (λ '(data', size, f'),
    size = fr_size s ∧ fr_rel n D (taken ++ [s]) f' ∧ f_list f' = l ∧
    d_capacity data' = d_capacity data ∧ zlen (d_buffer data') = d_capacity data' ∧
    d_length data' = Z.min (fr_size s) (d_capacity data) ∧
    ztake (d_length data') (d_buffer data') = ztake (d_length data') (slice (raw (toks x)) s) ∧
    (Forall is_byte (d_buffer data) → Forall is_byte (d_buffer data'))).
Proof using He Hx.
  intros Hf E Hd. destruct (fr_head_bounds _ _ _ _ _ _ Hf E) as (_ & Hs & Hn & Hmax).
  unfold framer_get_frame2, framer_head. rewrite E, (fr_freed _ _ _ _ Hf).
  wstep. apply wp_ret. wstep. eapply wp_mono; [by apply framer_skip_spec|].
  clear f Hf E. intros f (Hf & E & Ei). cbv zeta.
  assert (0 <= fr_index s) by (destruct (fr_bounds _ _ _ _ Hf); lia).
  rewrite szt_small by (ints; lia). destruct (fr_buffer _ _ _ _ Hf) as (b & Hb & Hwf & _). wstep. rewrite Hb.
  apply wp_ret. destruct (contents_slice _ _ _ _ _ _ b Hf E Ei Hb) as [Hle Hsl]. pose proof Hwf as [].
  wstep. unfold buffer_get_data2. zlen_pos. eapply wp_mono; [apply data_set_data_spec; [done|done|lia]|].
  intros data' (Hl & Hc & Hz & Ht & Hby). wstep. eapply wp_mono; [by eapply framer_drop_spec|].
  intros f' [? ?]. apply wp_ret. split_and!; auto. rewrite Ht, <-Hsl, ztake_ztake; [done|lia].
Qed.
End framer.

(** ** Sessions: the bytes arrive in pieces, and all frames are taken after each *)

Section session.
Context {P : Type} `{Expat P}.
Implicit Types (f : framer_t P).

Fixpoint framer_drain (fuel : nat) f : M (list (list Z) * framer_t P) :=
  match fuel with
  | O => ub
  | S fuel =>
      if framer_has_frame f then
        '(r, f) ← framer_get_frame f;
        match r with
        | Some (data, _) => ('(outs, f) ← framer_drain fuel f; mret (data :: outs, f))
        | None => mret ([], f)
        end
      else mret ([], f)
  end.

Fixpoint framer_session (chunks : list (list Z)) f : M (list (list Z)) :=
  match chunks with
  | [] => mret []
  | c :: chunks =>
      '(_, f) ← framer_add f c (zlen c);
      '(outs, f) ← framer_drain (S (length (f_list f))) f;
      rest ← framer_session chunks f;
      mret (outs ++ rest)
  end.

(** From a new framer on; nothing when it cannot be created. *)
Definition framer_stream (chunks : list (list Z)) : M (list (list Z)) :=
  r ← framer_create;
  match r with Some f => framer_session chunks f | None => mret [] end.

Context (x : xstream) (inv : P → Z → list xml_event → Prop).
Context (e : env) (He : e ≠ Hostile) (Hx : stream_ok x) (Hr : expat_reads (toks x) inv).
Local Abbreviation R := (raw (toks x)).

Lemma framer_drain_spec fuel n D taken f :
  fr_rel x inv n D taken f → (length (f_list f) < fuel)%nat →
  wp e (framer_drain fuel f) (λ '(outs, f'),
    outs = slice R <$> f_list f ∧ fr_rel x inv n D (taken ++ f_list f) f' ∧ f_list f' = []).
Proof using He Hx.
  revert taken f. induction fuel as [|fuel IH]; intros taken f Hf Hl; [lia|]. cbn [framer_drain].
  unfold framer_has_frame. destruct (f_list f) as [|s l] eqn:E.
  { apply wp_ret. rewrite app_nil_r. done. }
  rewrite bool_decide_eq_false_2 by done. cbn [negb].
  wstep. eapply wp_mono; [by eapply framer_take|]. intros [r f1] (-> & Hf1 & E1).
  wstep. eapply wp_mono; [apply (IH _ _ Hf1); rewrite E1; simpl in Hl; lia|].
  intros [outs f2] (-> & Hf2 & E2). apply wp_ret. rewrite E1 in *. rewrite <-app_assoc in Hf2. done.
Qed.

Lemma framer_session_spec chunks n D taken f :
  fr_rel x inv n D taken f → f_list f = [] → Forall (λ c, zlen c <= INT_MAX) chunks →
  concat chunks `prefix_of` zdrop n R →
  wp e (framer_session chunks f) (λ outs,
    ∃ D' taken' f', fr_rel x inv (n + zlen (concat chunks)) D' (taken ++ taken') f' ∧
      f_list f' = [] ∧ outs = slice R <$> taken').
Proof using He Hx Hr.
  revert n D taken f. induction chunks as [|c chunks IH]; intros n D taken f Hf E Hc Hp.
  { apply wp_ret. exists D, [], f. simpl. rewrite app_nil_r, zlen_nil, Z.add_0_r. done. }
  apply Forall_cons_iff in Hc as [Hc Hcs]. cbn [framer_session concat] in *.
  destruct (fr_bounds _ _ _ _ _ _ Hf) as [Hb Hn]. destruct Hp as [rest Hp].
  assert (zlen (zdrop n R) = zlen c + zlen (concat chunks) + zlen rest) as Hz.
  { rewrite Hp, !zlen_app. lia. }
  rewrite zlen_zdrop in Hz by lia. zlen_pos.
  assert (Forall is_byte c) as Hcb.
  { assert (Forall is_byte (zdrop n R)) as Hb' by (apply Forall_zdrop; by destruct Hx).
    rewrite Hp in Hb'. apply Forall_app in Hb' as [Hb' _]. by apply Forall_app in Hb' as [? _]. }
  wstep. eapply wp_mono; [eapply framer_feed; try done; try lia|].
  { rewrite Hp, ztake_all, <-app_assoc. symmetry. by apply ztake_app_exact. }
  intros [ok f1] (-> & D1 & Hf1). wstep.
  eapply wp_mono; [apply (framer_drain_spec _ _ _ _ _ Hf1); lia|].
  intros [outs f2] (-> & Hf2 & E2). wstep.
  eapply wp_mono; [eapply (IH _ _ _ _ Hf2 E2 Hcs)|].
  { exists rest. rewrite <-zdrop_zdrop by lia. rewrite Hp, <-app_assoc. by apply zdrop_app_exact. }
  intros outs (D3 & taken3 & f3 & Hf3 & E3 & ->). apply wp_ret.
  exists D3, (f_list f1 ++ taken3), f3. rewrite zlen_app, Z.add_assoc, app_assoc, fmap_app. done.
Qed.

(** Once its list is empty, the framer has handed out a first part of the parts,
    and all of them at the end of the stream. *)
Lemma fr_rel_parts n D taken f : fr_rel x inv n D taken f → f_list f = [] →
  slice R <$> taken `prefix_of` parts x ∧
  (expat_prompt (toks x) inv → n = zlen R → slice R <$> taken = parts x).
Proof using Hx.
  intros [(p & _ & Hi) (v & Ev & _ & _ & El) Hpre _ _ _ _ _] E.
  rewrite E, app_nil_r in El. rewrite <-(spans_slices x).
  destruct (prefix_view x Hx _ Hpre) as (v' & later & Ev' & Esp). rewrite Ev in Ev'.
  injection Ev' as <-. rewrite <-El. split; [rewrite Esp, fmap_app; by apply prefix_app_r|].
  intros Hprompt ->. specialize (Hprompt _ _ _ Hi).
  rewrite filter_every in Hprompt; [|intros ev Hev; by apply events_before in Hev].
  subst D. destruct (stream_events x Hx) as [s Hs]. rewrite Hs in Ev. by simplify_eq.
Qed.

Lemma framer_stream_spec chunks :
  Forall (λ c, zlen c <= INT_MAX) chunks → concat chunks `prefix_of` R →
  wp e (framer_stream chunks) (λ outs,
    outs `prefix_of` parts x ∧ (expat_prompt (toks x) inv → concat chunks = R → outs = parts x)).
Proof using He Hx Hr.
  intros Hc Hp. unfold framer_stream. wstep. eapply wp_mono; [by apply framer_create_spec|].
  intros r (f & -> & Hf). eapply wp_mono; [apply (framer_session_spec _ _ _ _ _ Hf); auto|].
  { destruct (fr_view _ _ _ _ _ _ Hf) as (v & Ev & _ & _ & El). simpl in Ev. simplify_eq. simpl in El.
    by rewrite <-El. }
  intros outs (D & taken & f' & Hf' & E' & ->). destruct (fr_rel_parts _ _ _ _ Hf' E') as [Hpre Hall].
  split; [done|]. intros Hprompt Hc'. apply Hall; [done|]. by rewrite Hc'.
Qed.
End session.

(** ** Properties *)

(** C37: extraction.  For every XML stream of a server whose stanzas are in a
    namespace and hold no element called "stream", cut into pieces anywhere, the
    framer has no undefined behaviour and hands out the opening tag, the stanzas
    and the closing tag in their order, each with exactly its bytes and without
    the bytes between them: always a first part of that list, and the whole list
    when Expat delivers events promptly and the whole stream has arrived.  Allocations succeed. *)
Theorem framer_extracts_stanzas {P} `{Expat P} e x inv chunks :
  e ≠ Hostile → stream_ok x → expat_reads (toks x) inv →
  Forall (λ c, zlen c <= INT_MAX) chunks → concat chunks `prefix_of` raw (toks x) →
  wp e (framer_stream chunks) (λ outs,
    outs `prefix_of` parts x ∧
    (expat_prompt (toks x) inv → concat chunks = raw (toks x) → outs = parts x)).
Proof. intros He Hx Hr Hc Hp. by eapply framer_stream_spec. Qed.

(** A server's stream, as Expat names its elements. *)
Definition in_ns (ns name : list Z) : list Z := ns ++ SEPARATOR :: name.
Definition CLIENT : list Z := bs "jabber:client".
Definition sample_stream : xstream :=
  XStream (bs "<?xml version='1.0'?>") (in_ns STREAM_NS STREAM) []
    (bs "<stream:stream xmlns='jabber:client'>")
    [Gap CRLF;
     Stanza [XOpen (in_ns CLIENT (bs "message")) [] (bs "<message>");
             XOpen (in_ns CLIENT (bs "body")) [] (bs "<body>"); XText (bs "hi");
             XClose (in_ns CLIENT (bs "body")) (bs "</body>");
             XClose (in_ns CLIENT (bs "message")) (bs "</message>")];
     Gap CRLF; Stanza [XEmpty (in_ns CLIENT (bs "presence")) [] (bs "<presence/>")]]
    (bs "</stream:stream>").

Definition sample_chunks : list (list Z) :=
  [ztake 30 (raw (toks sample_stream)); zdrop 30 (raw (toks sample_stream))].

Lemma sample_stream_ok : stream_ok sample_stream.
Proof. split; decided. Qed.

Lemma sample_stream_reads :
  expat_reads (H := script (toks sample_stream)) (toks sample_stream) (script_inv (toks sample_stream)).
Proof. apply script_reads. decided. Qed.

Example framer_extracts_stanzas_witness :
  wp Garbage (framer_stream (H := script (toks sample_stream)) sample_chunks) (λ outs,
    outs `prefix_of` parts sample_stream ∧
    (expat_prompt (toks sample_stream) (script_inv (toks sample_stream)) →
     concat sample_chunks = raw (toks sample_stream) → outs = parts sample_stream)).
Proof.
  apply (framer_extracts_stanzas (H := script (toks sample_stream)));
    [done|apply sample_stream_ok|apply sample_stream_reads|decided|].
  exists []. vm_compute. reflexivity.
Defined.

(** A stanza without a namespace, and memory that holds the letter "x". *)
Definition bare_toks : list xtok :=
  [XOpen (in_ns STREAM_NS STREAM) [] (bs "<s:stream>"); XEmpty (bs "a") [] (bs "<a/>")].
Definition leftover : tape := replicate 6 (Some (λ _, 120)).

(** A stanza that is in no namespace is taken to begin where the previous
    one did: the framer hands out the stanza followed by bytes of the heap it
    never wrote, its buffer's length wraps around, and the next bytes from the
    server are written outside the buffer. *)
Example framer_stanza_without_namespace :
  (∃ t, framer_stream (H := script bare_toks) [bs "<s:stream><a/>"] leftover =
     Some ([bs "<s:stream>"; bs "<a/>xxxxxxxxxx"], t)) ∧
  framer_stream (H := script bare_toks) [bs "<s:stream><a/>"; bs "<b/>"] leftover = None.
Proof. split; [eexists|]; vm_compute; reflexivity. Qed.
