(* ===== verification/Libevent.v ===== *)
(** libevent and the system log, as the program uses them.

    An event buffer is a queue of bytes that belongs to libevent: class
    [Evbuffer] has its operations, [EvbufferLaws] their documented behaviour,
    and [evbuffer_list] is a concrete one.  libevent's own allocations are
    taken to succeed. *)

From S2P Require Import Prelude CString Config.

(** [evbuffer_readln] is called with [EVBUFFER_EOL_CRLF] only: a line ends with
    a line feed, or a carriage return and a line feed, which it drops. *)
Class Evbuffer (B : Type) := {
  evbuffer_new : B;
  evbuffer_get_length : B → Z;
  evbuffer_add : B → list Z → B;
  evbuffer_remove : B → Z → list Z * B;
  evbuffer_readln : B → option (list Z * B)
}.

Class EvbufferLaws (B : Type) `{Evbuffer B} := {
  ev_bytes : B → list Z;
  ev_new : ev_bytes evbuffer_new = [];
  ev_length b : evbuffer_get_length b = zlen (ev_bytes b);
  ev_add b d : ev_bytes (evbuffer_add b d) = ev_bytes b ++ d;
  ev_remove b n d b' : 0 <= n → evbuffer_remove b n = (d, b') →
    d = ztake n (ev_bytes b) ∧ ev_bytes b' = zdrop n (ev_bytes b);
  ev_readln b line b' : evbuffer_readln b = Some (line, b') →
    (10 ∉ line) ∧ (ev_bytes b = line ++ 10 :: ev_bytes b' ∧ (∀ l, line ≠ l ++ [13]) ∨
                    ev_bytes b = line ++ 13 :: 10 :: ev_bytes b');
  ev_readln_none b : evbuffer_readln b = None → 10 ∉ ev_bytes b
}.

(** The two buffers of a [bufferevent]. *)
Record bufferevent (B : Type) := Bev { bev_input : B; bev_output : B }.
Arguments Bev {B} _ _.
Arguments bev_input {B} _.
Arguments bev_output {B} _.

(** What an event callback is told. *)
Record bev_events := Events { ev_connected : bool; ev_error : bool; ev_eof : bool }.

(** ** A concrete event buffer *)

Fixpoint split_line (s : list Z) : option (list Z * list Z) :=
  match s with
  | [] => None
  | 10 :: s => Some ([], s)
  | 13 :: 10 :: s => Some ([], s)
  | c :: s => '(line, rest) ← split_line s; Some (c :: line, rest)
  end.

#[export] Instance evbuffer_list : Evbuffer (list Z) := {|
  evbuffer_new := [];
  evbuffer_get_length := zlen;
  evbuffer_add b d := b ++ d;
  evbuffer_remove b n := (ztake n b, zdrop n b);
  evbuffer_readln := split_line
|}.

Lemma split_line_cons c s : c ≠ 10 → (c ≠ 13 ∨ head s ≠ Some 10) →
  split_line (c :: s) = ('(line, rest) ← split_line s; Some (c :: line, rest)).
Proof.
  intros Hc Hs. cbn [split_line]. destruct (decide (c = 13)) as [->|].
  - destruct s as [|d s]; [done|]. destruct (decide (d = 10)) as [->|]; [by destruct Hs|].
    destruct d as [|d|d]; try done. do 4 (destruct d as [d|d|]; try done).
  - destruct c as [|c|c]; try done. do 4 (destruct c as [c|c|]; try done).
Qed.

Lemma split_line_spec s : match split_line s with
  | Some (line, rest) =>
      (10 ∉ line) ∧ (s = line ++ 10 :: rest ∧ (∀ l, line ≠ l ++ [13]) ∨ s = line ++ 13 :: 10 :: rest)
  | None => 10 ∉ s
  end.
Proof.
  induction s as [|c s IH]; [by apply not_elem_of_nil|].
  destruct (decide (c = 10)) as [->|Hc]; [cbn; split; [apply not_elem_of_nil|left; split; [done|by intros []]]|].
  destruct (decide (c = 13 ∧ head s = Some 10)) as [[-> Hs]|Hs].
  { destruct s as [|d s]; [done|]. simpl in Hs. simplify_eq. cbn. split; [apply not_elem_of_nil|by right]. }
  rewrite split_line_cons by
    first [done | destruct (decide (c = 13)); [right; naive_solver|by left]].
  destruct (split_line s) as [[line rest]|]; simpl.
  - destruct IH as [Hl Hsplit]. rewrite not_elem_of_cons. split; [done|].
    destruct Hsplit as [[Es Hlast]| ->]; [left|by right]. split; [by rewrite Es|].
    intros [|d l] El; simplify_eq/=; [by apply Hs|by eapply Hlast].
  - by rewrite not_elem_of_cons.
Qed.

#[export] Instance evbuffer_list_laws : EvbufferLaws (list Z).
Proof.
  refine {| ev_bytes := λ b : list Z, b |}; simpl; try done.
  - intros b n d b' _ E. by simplify_eq.
  - intros b line b' E. pose proof (split_line_spec b) as Hs. by rewrite E in Hs.
  - intros b E. pose proof (split_line_spec b) as Hs. by rewrite E in Hs.
Defined.

(** ** The log (log.c)

    [logopen] masks the messages above the configured priority; a masked message
    is not formatted.  [LOG conf priority valid]: the call of [LOG] with a
    message whose format and arguments are [valid] or not. *)
Definition logged (conf : jsconf_t) (priority : Z) : bool := priority <=? log_level conf.
Definition LOG (conf : jsconf_t) (priority : Z) (valid : bool) : M () :=
  if logged conf priority && negb valid then ub else mret ().
