(* ===== verification/WsServer.v ===== *)
(** The connections of the WebSocket server (wsserver.c).

    A connection lives from [wsconn_create] to [wsconn_delete].  libevent calls
    [wsconn_read_cb], [wsconn_write_cb] and [wsconn_event_cb]; the connection
    calls back its client, the connection manager, through [ss_cb].  The
    client's object [custom_ctx] has type [C], so the whole file is parametric
    in the client, as the source is. *)

From S2P Require Import Prelude CString Str Config Buffer WsMessage WsFrame RqParser Libevent.

Inductive ws_state_t := WS_ST_START | WS_ST_RECEIVING | WS_ST_CLOSING | WS_ST_CLOSED.
Inductive cm_state_t := CM_ST_START | CM_ST_CREATED | CM_ST_CLOSING | CM_ST_CLOSED.
Inductive ws_what := WSCB_CONNECTED | WSCB_MESSAGE | WSCB_CLOSE | WSCB_DELETE.
#[export] Instance ws_state_eq_dec : EqDecision ws_state_t.
Proof. solve_decision. Defined.
#[export] Instance cm_state_eq_dec : EqDecision cm_state_t.
Proof. solve_decision. Defined.

(** The callback reads [conn->message_buffer], which is gone when the connection is
    being deleted, and changes its own object. *)
Definition ws_cb_t (C : Type) : Type := option buffer_t → ws_what → C → M C.

Record wsserver_t (C : Type) := Wsserver {
  ss_create_cb : M (option C);
  ss_delete_cb : C → M ();
  ss_cb : option (ws_cb_t C);
  ss_conf : jsconf_t
}.
Arguments Wsserver {C} _ _ _ _.
Arguments ss_create_cb {C} _.
Arguments ss_delete_cb {C} _.
Arguments ss_cb {C} _.
Arguments ss_conf {C} _.

(** [c_freed]: the object has been freed. *)
Record wsconn_t (C B : Type) := Wsconn {
  c_server : wsserver_t C;
  c_ws_state : ws_state_t;
  c_cm_state : cm_state_t;
  c_fl_ws_closing : bool;
  c_fl_cm_closed : bool;
  c_bev : bufferevent B;
  c_req : request_t;
  c_wsmsg : wsmsg_t;
  c_message_buffer : buffer_t;
  c_ctx : C;
  c_status : Z;
  c_freed : bool
}.
Arguments Wsconn {C B} _ _ _ _ _ _ _ _ _ _ _ _.
Arguments c_server {C B} _.
Arguments c_ws_state {C B} _.
Arguments c_cm_state {C B} _.
Arguments c_fl_ws_closing {C B} _.
Arguments c_fl_cm_closed {C B} _.
Arguments c_bev {C B} _.
Arguments c_req {C B} _.
Arguments c_wsmsg {C B} _.
Arguments c_message_buffer {C B} _.
Arguments c_ctx {C B} _.
Arguments c_status {C B} _.
Arguments c_freed {C B} _.

Section wsserver.
Context {C B : Type} `{Evbuffer B}.
Variable SHA1 : list Z → list Z.
Variable fnmatch : list Z → list Z → bool.
Implicit Types (c : wsconn_t C B).

(** Assignments to members. *)
Definition c_set_ws_state v c : wsconn_t C B := Wsconn (c_server c) v (c_cm_state c) (c_fl_ws_closing c) (c_fl_cm_closed c) (c_bev c) (c_req c) (c_wsmsg c) (c_message_buffer c) (c_ctx c) (c_status c) (c_freed c).
Definition c_set_cm_state v c : wsconn_t C B := Wsconn (c_server c) (c_ws_state c) v (c_fl_ws_closing c) (c_fl_cm_closed c) (c_bev c) (c_req c) (c_wsmsg c) (c_message_buffer c) (c_ctx c) (c_status c) (c_freed c).
Definition c_set_ws_closing c : wsconn_t C B := Wsconn (c_server c) (c_ws_state c) (c_cm_state c) true (c_fl_cm_closed c) (c_bev c) (c_req c) (c_wsmsg c) (c_message_buffer c) (c_ctx c) (c_status c) (c_freed c).
Definition c_set_cm_closed v c : wsconn_t C B := Wsconn (c_server c) (c_ws_state c) (c_cm_state c) (c_fl_ws_closing c) v (c_bev c) (c_req c) (c_wsmsg c) (c_message_buffer c) (c_ctx c) (c_status c) (c_freed c).
Definition c_set_bev v c : wsconn_t C B := Wsconn (c_server c) (c_ws_state c) (c_cm_state c) (c_fl_ws_closing c) (c_fl_cm_closed c) v (c_req c) (c_wsmsg c) (c_message_buffer c) (c_ctx c) (c_status c) (c_freed c).
Definition c_set_req v c : wsconn_t C B := Wsconn (c_server c) (c_ws_state c) (c_cm_state c) (c_fl_ws_closing c) (c_fl_cm_closed c) (c_bev c) v (c_wsmsg c) (c_message_buffer c) (c_ctx c) (c_status c) (c_freed c).
Definition c_set_wsmsg v c : wsconn_t C B := Wsconn (c_server c) (c_ws_state c) (c_cm_state c) (c_fl_ws_closing c) (c_fl_cm_closed c) (c_bev c) (c_req c) v (c_message_buffer c) (c_ctx c) (c_status c) (c_freed c).
Definition c_set_message_buffer v c : wsconn_t C B := Wsconn (c_server c) (c_ws_state c) (c_cm_state c) (c_fl_ws_closing c) (c_fl_cm_closed c) (c_bev c) (c_req c) (c_wsmsg c) v (c_ctx c) (c_status c) (c_freed c).
Definition c_set_ctx v c : wsconn_t C B := Wsconn (c_server c) (c_ws_state c) (c_cm_state c) (c_fl_ws_closing c) (c_fl_cm_closed c) (c_bev c) (c_req c) (c_wsmsg c) (c_message_buffer c) v (c_status c) (c_freed c).
Definition c_set_status v c : wsconn_t C B := Wsconn (c_server c) (c_ws_state c) (c_cm_state c) (c_fl_ws_closing c) (c_fl_cm_closed c) (c_bev c) (c_req c) (c_wsmsg c) (c_message_buffer c) (c_ctx c) v (c_freed c).
Definition c_set_freed c : wsconn_t C B := Wsconn (c_server c) (c_ws_state c) (c_cm_state c) (c_fl_ws_closing c) (c_fl_cm_closed c) (c_bev c) (c_req c) (c_wsmsg c) (c_message_buffer c) (c_ctx c) (c_status c) true.

Definition c_set_input v c := c_set_bev (Bev v (bev_output (c_bev c))) c.
Definition c_set_output v c := c_set_bev (Bev (bev_input (c_bev c)) v) c.
Definition c_conf c : jsconf_t := ss_conf (c_server c).

(** Any use of a freed connection is undefined behaviour. *)
Definition alive c : M () := if c_freed c then ub else mret ().

(** The call of the client's callback, [c_call] when it must be set and
    [c_notify] when the code tests it first. *)
Definition c_call (what : ws_what) (mb : option buffer_t) c : M (wsconn_t C B) :=
  cb ← opt (ss_cb (c_server c));
  ctx ← cb mb what (c_ctx c);
  mret (c_set_ctx ctx c).
Definition c_notify (what : ws_what) (mb : option buffer_t) c : M (wsconn_t C B) :=
  match ss_cb (c_server c) with Some _ => c_call what mb c | None => mret c end.

(** The object is freed before the last message, which names it, is logged. *)
Definition wsconn_delete c : M (wsconn_t C B) :=
  _ ← alive c;
  c ← c_notify WSCB_DELETE None c;
  _ ← LOG (c_conf c) LOG_INFO false;
  mret (c_set_freed c).

Definition wsconn_close c : M (wsconn_t C B) :=
  _ ← alive c;
  let c := c_set_ws_state WS_ST_CLOSED c in
  if bool_decide (c_cm_state c = CM_ST_CREATED) then
    c ← c_call WSCB_CLOSE (Some (c_message_buffer c)) c;
    mret (c_set_cm_state CM_ST_CLOSING c)
  else if c_fl_cm_closed c then wsconn_delete c
  else mret c.

Definition wsconn_close_send c : M (wsconn_t C B) :=
  _ ← alive c;
  let c := c_set_ws_state WS_ST_CLOSING c in
  if bool_decide (c_cm_state c = CM_ST_CREATED) then
    c ← c_call WSCB_CLOSE (Some (c_message_buffer c)) c;
    mret (c_set_cm_state CM_ST_CLOSING c)
  else mret c.

(** The frame goes to the output buffer in one piece, or not at all. *)
Definition conn_write_frame (opcode : Z) (data : list Z) (size : Z) c : M (wsconn_t C B) :=
  out ← wsconn_write_frame opcode data size;
  mret (match out with
        | Some message => c_set_output (evbuffer_add (bev_output (c_bev c)) message) c
        | None => c
        end).

Definition conn_write (data : list Z) (size : Z) c : M (wsconn_t C B) :=
  _ ← alive c; conn_write_frame OPCODE_TEXT data size c.

Definition wsconn_initiate_close (status : Z) (reason : option (list Z)) (reason_size : Z) c
    : M (wsconn_t C B) :=
  _ ← alive c;
  if c_fl_ws_closing c then mret c else
  r ← close_payload status reason reason_size;
  c ← (match r with
       | None => mret c
       | Some buffer =>
           let '(message, message_size) := buffer_peek_data buffer in
           c ← conn_write_frame OPCODE_CLOSE message message_size c;
           _ ← buffer_remove_data buffer message_size;
           let c := c_set_ws_state WS_ST_CLOSING c in
           if bool_decide (c_cm_state c = CM_ST_CREATED) then
             c ← c_call WSCB_CLOSE (Some (c_message_buffer c)) c;
             mret (c_set_cm_state CM_ST_CLOSING c)
           else mret c
       end);
  mret (c_set_ws_closing (c_set_ws_state WS_ST_CLOSING c)).

Definition CLOSED_REASON : list Z := bs "XMPP server closed".

Definition wsconn_onclosed c : M (wsconn_t C B) :=
  _ ← alive c;
  let c := c_set_cm_closed true (c_set_cm_state CM_ST_CLOSED c) in
  match c_ws_state c with
  | WS_ST_RECEIVING => wsconn_initiate_close 1001 (Some CLOSED_REASON) (zlen CLOSED_REASON) c
  | WS_ST_CLOSED => wsconn_delete c
  | _ => mret c
  end.

(** ** The handshake *)

Definition wsconn_handshake c : M (wsconn_t C B) :=
  b ← local_array 1024;
  response ← opt (str_init b 1024);
  '(res, response) ← rq_analyze SHA1 fnmatch (c_req c) (c_conf c) response;
  text ← opt (mem_read (s_buffer response) 0 (str_get_length response));
  let c := c_set_output (evbuffer_add (bev_output (c_bev c)) text) c in
  if (res : bool) then
    c ← c_notify WSCB_CONNECTED (Some (c_message_buffer c)) c;
    let c := c_set_cm_closed false (c_set_ws_state WS_ST_RECEIVING c) in
    c_notify WSCB_CONNECTED (Some (c_message_buffer c)) c
  else wsconn_close c.

(** The loop over the lines; each takes at least one byte out of the input, so
    more fuel than bytes never runs out.  A line is used as a C string. *)
Fixpoint read_lines (fuel : nat) c : M (wsconn_t C B) :=
  match fuel with
  | O => ub
  | S fuel =>
      match evbuffer_readln (bev_input (c_bev c)) with
      | Some (line, input) =>
          let c := c_set_input input c in
          line ← opt (cstr (line ++ [0]) 0);
          req ← rq_add_line (c_req c) line;
          let c := c_set_req req c in
          if rq_is_error req then (_ ← LOG (c_conf c) LOG_ERR true; wsconn_close c)
          else if rq_done req then wsconn_handshake c
          else read_lines fuel c
      | None => (_ ← LOG (c_conf c) LOG_INFO true; mret c)
      end
  end.

(** ** Frames and messages *)

(** A close frame: [None] in the result when memory runs out. *)
Definition on_close_frame (buffer : buffer_t) c : M (option (wsconn_t C B)) :=
  r ← buffer_create 0;
  match r with
  | None => mret None
  | Some reason =>
      '(c, reason) ←
        (if buffer_get_length buffer <? 2 then mret (c_set_status 1001 c, reason)
         else
           status ← opt (ntohs_at (b_data buffer) 0);
           reason ← (if 2 <? buffer_get_length buffer then
                       '(_, reason) ← buffer_set_data reason (b_data buffer) 2
                                        (szt (buffer_get_length buffer - 2));
                       mret reason
                     else mret reason);
           mret (c_set_status status c, reason));
      c ← wsconn_initiate_close (c_status c) (Some (b_data reason)) (buffer_get_length reason) c;
      mret (Some c)
  end.

(** One pass of the loop of [wsconn_process_frame]: [true] when it goes round
    again.  [buffer] receives control frames. *)
Definition frame_step (buffer : buffer_t) c : M (bool * buffer_t * wsconn_t C B) :=
  if wsmsg_fail (c_wsmsg c) then
    _ ← LOG (c_conf c) LOG_ERR true;
    c ← wsconn_close c; mret (false, buffer, c)
  else if wsmsg_has_frame (c_wsmsg c) then
    '(res, w, buffer, hdr) ← wsmsg_get_frame (c_wsmsg c) buffer;
    let c := c_set_wsmsg w c in
    if negb res then
      _ ← LOG (c_conf c) LOG_ERR true;
      c ← wsconn_close c; mret (false, buffer, c)
    else
      hdr ← opt hdr;
      if h_opcode hdr =? OPCODE_CLOSE then
        r ← on_close_frame buffer c;
        match r with
        | Some c => mret (false, buffer, c)
        | None => (c ← wsconn_close c; mret (false, buffer, c))
        end
      else if h_opcode hdr =? OPCODE_PING then
        c ← conn_write_frame OPCODE_PONG (b_data buffer) (buffer_get_length buffer) c;
        mret (false, buffer, c)
      else mret (true, buffer, c)
  else if negb (wsmsg_has_message (c_wsmsg c)) then mret (false, buffer, c)
  else
    '(_, w, mb, opcode) ← wsmsg_get_message (c_wsmsg c) (c_message_buffer c);
    let c := c_set_message_buffer mb (c_set_wsmsg w c) in
    opcode ← opt opcode;
    match ss_cb (c_server c) with
    | Some _ =>
        if opcode =? OPCODE_TEXT then
          c ← c_call WSCB_MESSAGE (Some (c_message_buffer c)) c; mret (true, buffer, c)
        else if opcode =? OPCODE_BINARY then
          _ ← LOG (c_conf c) LOG_ERR true;
          c ← wsconn_close c; mret (false, buffer, c)
        else mret (true, buffer, c)
    | None => mret (true, buffer, c)
    end.

Fixpoint frame_loop (fuel : nat) (buffer : buffer_t) c : M (wsconn_t C B) :=
  match fuel with
  | O => ub
  | S fuel =>
      '(again, buffer, c) ← frame_step buffer c;
      if (again : bool) then frame_loop fuel buffer c else mret c
  end.

(** Each pass that goes round again takes out a frame or a message, and another
    one needs at least two bytes of the receive buffer. *)
Definition frame_fuel (w : wsmsg_t) : nat := S (S (S (Z.to_nat (b_length (wm_frame_buffer w))))).

Definition wsconn_process_frame c : M (wsconn_t C B) :=
  r ← buffer_create 0;
  match r with
  | None => mret c
  | Some buffer =>
      let length := evbuffer_get_length (bev_input (c_bev c)) in
      ok ← malloc_ok length;
      if negb ok then (_ ← LOG (c_conf c) LOG_WARNING true; mret c) else
      let '(data, input) := evbuffer_remove (bev_input (c_bev c)) length in
      let c := c_set_input input c in
      '(_, w) ← wsmsg_add (c_wsmsg c) data;
      frame_loop (frame_fuel w) buffer (c_set_wsmsg w c)
  end.

(** ** The callbacks of libevent *)

Definition wsconn_read_cb c : M (wsconn_t C B) :=
  _ ← alive c;
  match c_ws_state c with
  | WS_ST_START => read_lines (S (Z.to_nat (evbuffer_get_length (bev_input (c_bev c))))) c
  | WS_ST_RECEIVING => wsconn_process_frame c
  | _ => mret c
  end.

Definition wsconn_write_cb c : M (wsconn_t C B) :=
  _ ← alive c;
  if bool_decide (c_ws_state c = WS_ST_CLOSING) && (evbuffer_get_length (bev_output (c_bev c)) =? 0)
  then wsconn_delete c else mret c.

(** The format of the logged message ends in the invalid conversion "%h". *)
Definition wsconn_event_cb (events : bev_events) c : M (wsconn_t C B) :=
  _ ← alive c;
  _ ← LOG (c_conf c) LOG_INFO false;
  if ev_error events || ev_eof events then wsconn_close c else mret c.

(** ** Creation *)

(** [bufferevent_socket_new] may yield a null pointer, which the code uses. *)
Definition wsconn_create (s : wsserver_t C) : M (option (wsconn_t C B)) :=
  ok ← malloc_ok 400;
  if negb ok then mret None else
  bev ← malloc_ok 1;
  req ← rq_create;
  match req with None => (_ ← LOG (ss_conf s) LOG_ERR true; mret None) | Some req =>
  wsmsg ← wsmsg_create (ss_conf s);
  match wsmsg with None => (_ ← LOG (ss_conf s) LOG_ERR true; mret None) | Some wsmsg =>
  mb ← buffer_create 0;
  match mb with None => (_ ← LOG (ss_conf s) LOG_ERR true; mret None) | Some mb =>
  ctx ← ss_create_cb s;
  match ctx with None => mret None | Some ctx =>
  if negb bev then ub else
  mret (Some (Wsconn s WS_ST_START CM_ST_CREATED false true (Bev evbuffer_new evbuffer_new)
                req wsmsg mb ctx 0 false))
  end end end end.

Definition ws_accept_conn_cb (s : wsserver_t C) : M (option (wsconn_t C B)) :=
  c ← wsconn_create s;
  _ ← LOG (ss_conf s) LOG_ERR true;
  mret c.

(** The server before it is configured: its pointers are null.  [bound]: libevent
    could bind the listener; [mask]: what [logopen] has set.  [memset] comes before
    the null test. *)
Definition ws_create (mask : jsconf_t) (bound : bool) : M (option (wsserver_t C)) :=
  ok ← malloc_ok 56;
  if negb ok then ub else
  if negb bound then mret None else
  _ ← LOG mask LOG_INFO true;
  mret (Some (Wsserver (mret None) (λ _, mret ()) None config_zero)).

Definition ws_set_config (conf : jsconf_t) (s : wsserver_t C) : wsserver_t C :=
  Wsserver (ss_create_cb s) (ss_delete_cb s) (ss_cb s) conf.
Definition ws_set_cb (create_cb : M (option C)) (delete_cb : C → M ()) (cb : option (ws_cb_t C))
    (s : wsserver_t C) : wsserver_t C :=
  Wsserver create_cb delete_cb cb (ss_conf s).
Definition ws_get_cb (s : wsserver_t C) : option (ws_cb_t C) := ss_cb s.
End wsserver.
