(* ===== verification/CManager.v ===== *)
(** The connection manager (cmanager.c): the client of the WebSocket server.

    It finds the XMPP server's name in the browser's first messages, connects,
    forwards the browser's later messages to the server, cuts the server's
    stream into stanzas and writes each of them to the browser as a text message.
    [cm_readcb] and [cm_eventcb] are callbacks of the connection with the
    server; they reach the browser's connection through [cm->conn], so
    their model is a function on that connection, whose [custom_ctx] is the
    manager. *)

From S2P Require Import Prelude CString Str Config Buffer WsMessage WsFrame RqParser Expat StreamParse Framer Libevent WsServer.

(** The states [ST_START], [ST_CONNECT] and [ST_FORWARD]. *)
Inductive cm_phase := CM_START | CM_CONNECT | CM_FORWARD.
#[export] Instance cm_phase_eq_dec : EqDecision cm_phase.
Proof. solve_decision. Defined.

(** [cm_connecting]: the host name, a pointer, and the port that
    [bufferevent_socket_connect_hostname] has been called with.  [cm_freed]: the
    object has been freed. *)
Record cmanager_t (P B : Type) := Cmanager {
  cm_state : cm_phase;
  cm_parser : option (streamparser_t P);
  cm_server : option (list Z);
  cm_bev : option (bufferevent B);
  cm_dnsbase : bool;
  cm_connecting : option (option (list Z) * Z);
  cm_buffer : option buffer_t;
  cm_framer : option (framer_t P);
  cm_freed : bool
}.
Arguments Cmanager {P B} _ _ _ _ _ _ _ _ _.
Arguments cm_state {P B} _.
Arguments cm_parser {P B} _.
Arguments cm_server {P B} _.
Arguments cm_bev {P B} _.
Arguments cm_dnsbase {P B} _.
Arguments cm_connecting {P B} _.
Arguments cm_buffer {P B} _.
Arguments cm_framer {P B} _.
Arguments cm_freed {P B} _.

Section cmanager.
Context {P B : Type} `{Expat P} `{Evbuffer B}.
Implicit Types (cm : cmanager_t P B) (c : wsconn_t (cmanager_t P B) B).

Definition cm_set_state v cm : cmanager_t P B := Cmanager v (cm_parser cm) (cm_server cm) (cm_bev cm) (cm_dnsbase cm) (cm_connecting cm) (cm_buffer cm) (cm_framer cm) (cm_freed cm).
Definition cm_set_parser v cm : cmanager_t P B := Cmanager (cm_state cm) v (cm_server cm) (cm_bev cm) (cm_dnsbase cm) (cm_connecting cm) (cm_buffer cm) (cm_framer cm) (cm_freed cm).
Definition cm_set_server v cm : cmanager_t P B := Cmanager (cm_state cm) (cm_parser cm) v (cm_bev cm) (cm_dnsbase cm) (cm_connecting cm) (cm_buffer cm) (cm_framer cm) (cm_freed cm).
Definition cm_set_bev v cm : cmanager_t P B := Cmanager (cm_state cm) (cm_parser cm) (cm_server cm) v (cm_dnsbase cm) (cm_connecting cm) (cm_buffer cm) (cm_framer cm) (cm_freed cm).
Definition cm_set_dnsbase v cm : cmanager_t P B := Cmanager (cm_state cm) (cm_parser cm) (cm_server cm) (cm_bev cm) v (cm_connecting cm) (cm_buffer cm) (cm_framer cm) (cm_freed cm).
Definition cm_set_connecting v cm : cmanager_t P B := Cmanager (cm_state cm) (cm_parser cm) (cm_server cm) (cm_bev cm) (cm_dnsbase cm) v (cm_buffer cm) (cm_framer cm) (cm_freed cm).
Definition cm_set_buffer v cm : cmanager_t P B := Cmanager (cm_state cm) (cm_parser cm) (cm_server cm) (cm_bev cm) (cm_dnsbase cm) (cm_connecting cm) v (cm_framer cm) (cm_freed cm).
Definition cm_set_framer v cm : cmanager_t P B := Cmanager (cm_state cm) (cm_parser cm) (cm_server cm) (cm_bev cm) (cm_dnsbase cm) (cm_connecting cm) (cm_buffer cm) v (cm_freed cm).
Definition cm_set_freed cm : cmanager_t P B := Cmanager (cm_state cm) (cm_parser cm) (cm_server cm) (cm_bev cm) (cm_dnsbase cm) (cm_connecting cm) (cm_buffer cm) (cm_framer cm) true.

Definition cm_alive cm : M () := if cm_freed cm then ub else mret ().

(** [memset] is called before the null test. *)
Definition cm_create : M (option (cmanager_t P B)) :=
  ok ← malloc_ok 64;
  if negb ok then ub else
  parser ← streamparser_create;
  match parser with None => mret None | Some parser =>
  buffer ← buffer_create 0;
  match buffer with None => mret None | Some buffer =>
  framer ← framer_create;
  mret ((λ framer, Cmanager CM_START (Some parser) None None false None (Some buffer)
                     (Some framer) false) <$> framer)
  end end.

Definition cm_reset cm : M (bool * cmanager_t P B) :=
  _ ← cm_alive cm;
  p ← opt (cm_parser cm);
  '(ok, p) ← streamparser_reset p;
  mret (ok, cm_set_parser (Some p) cm).

(** Everything the manager owns is released and its pointers are cleared. *)
Definition cm_close cm : M (cmanager_t P B) :=
  _ ← cm_alive cm;
  _ ← (match cm_framer cm with Some f => framer_delete f | None => mret () end);
  _ ← (match cm_parser cm with Some p => streamparser_delete p | None => mret () end);
  mret (Cmanager (cm_state cm) None None None false (cm_connecting cm) None None (cm_freed cm)).

Definition cm_delete cm : M (cmanager_t P B) :=
  cm ← cm_close cm; mret (cm_set_freed cm).

Definition XMPP_PORT : Z := 5222.

Definition cm_connect cm : M (cmanager_t P B) :=
  ok ← malloc_ok 1;
  if negb ok then mret (cm_set_bev None cm) else
  let cm := cm_set_bev (Some (Bev evbuffer_new evbuffer_new)) cm in
  ok ← malloc_ok 1;
  if negb ok then mret (cm_set_dnsbase false cm) else
  mret (cm_set_connecting (Some (cm_server cm, XMPP_PORT)) (cm_set_dnsbase true cm)).

Definition strndup (s : list Z) (n : Z) : M (option (list Z)) :=
  strdup (default (ztake n s) (until_nul (ztake n s))).

(** [bufferevent_write] to the server. *)
Definition cm_send (data : list Z) cm : M (cmanager_t P B) :=
  bev ← opt (cm_bev cm);
  mret (cm_set_bev (Some (Bev (bev_input bev) (evbuffer_add (bev_output bev) data))) cm).

Definition cm_onmessage cm (message : list Z) (message_length : Z) : M (cmanager_t P B) :=
  _ ← cm_alive cm;
  match cm_state cm with
  | CM_START =>
      message_str ← strndup message message_length;
      parser ← opt (cm_parser cm);
      '(_, parser) ← streamparser_add parser message_str;
      let cm := cm_set_parser (Some parser) cm in
      if streamparser_is_error parser then mret cm else
      buffer ← opt (cm_buffer cm);
      '(_, buffer) ← buffer_append buffer message 0 message_length;
      let cm := cm_set_buffer (Some buffer) cm in
      match streamparser_get_server parser with
      | Some server =>
          server ← strdup server;
          cm ← cm_connect (cm_set_server server cm);
          mret (cm_set_state CM_CONNECT cm)
      | None => mret cm
      end
  | CM_FORWARD =>
      data ← opt (mem_read message 0 message_length);
      cm_send data cm
  | CM_CONNECT => mret cm
  end.

(** The callback the WebSocket server gets. *)
Definition cmanager : ws_cb_t (cmanager_t P B) := λ message_buffer what cm,
  match what with
  | WSCB_CONNECTED => mret cm
  | WSCB_MESSAGE =>
      mb ← opt message_buffer;
      cm_onmessage cm (b_data mb) (buffer_get_length mb)
  | WSCB_CLOSE => cm_close cm
  | WSCB_DELETE => cm_delete cm
  end.

Definition cm_wsserver (conf : jsconf_t) : wsserver_t (cmanager_t P B) :=
  ws_set_cb cm_create (λ cm, _ ← cm_delete cm; mret ()) (Some cmanager)
    (Wsserver (mret None) (λ _, mret ()) None conf).

(** ** Data from the server *)

Definition is_prefix (prefix str : list Z) : bool :=
  if zlen str <? zlen prefix then false else strcmp_eq (ztake (zlen prefix) str) prefix.

Definition c_update_cm (f : cmanager_t P B → cmanager_t P B) c : wsconn_t (cmanager_t P B) B :=
  c_set_ctx (f (c_ctx c)) c.

(** The loop that feeds the framer, at most 1024 bytes at a time.  [buf] is the
    local array; [false] in the result is the early return. *)
Fixpoint readcb_loop (fuel : nat) (begin : bool) (buf : list Z) c
    : M (bool * wsconn_t (cmanager_t P B) B) :=
  match fuel with
  | O => ub
  | S fuel =>
      bev ← opt (cm_bev (c_ctx c));
      let '(data, input) := evbuffer_remove (bev_input bev) 1024 in
      let n := zlen data in
      if n <=? 0 then mret (true, c) else
      let c := c_update_cm (cm_set_bev (Some (Bev input (bev_output bev)))) c in
      buf ← opt (mem_write buf 0 data);
      buf ← opt (mem_write buf n [0]);
      text ← opt (cstr buf 0);
      framer ← opt (cm_framer (c_ctx c));
      framer ← (if begin && (is_prefix (bs "<?xml") text || is_prefix (bs "<stream:stream") text)
                then ('(_, framer) ← framer_reset framer; mret framer)
                else mret framer);
      '(res, framer) ← framer_add framer buf n;
      let c := c_update_cm (cm_set_framer (Some framer)) c in
      if (res : bool) then readcb_loop fuel false buf c else mret (false, c)
  end.

(** The loop that writes the frames to the browser. *)
Fixpoint forward_loop (fuel : nat) (data : data_t) c : M (wsconn_t (cmanager_t P B) B) :=
  match fuel with
  | O => ub
  | S fuel =>
      framer ← opt (cm_framer (c_ctx c));
      if framer_has_frame framer then
        '(data, _, framer) ← framer_get_frame2 framer data;
        let c := c_update_cm (cm_set_framer (Some framer)) c in
        c ← conn_write (data_get_buffer data) (data_get_length data) c;
        forward_loop fuel data c
      else mret c
  end.

Definition DATA_BUFFER_SIZE : Z := 65536.

(** The static array is never read before it is written in the same call, so
    it is modelled as a local one. *)
Definition cm_readcb c : M (wsconn_t (cmanager_t P B) B) :=
  _ ← cm_alive (c_ctx c);
  buf ← local_array 1025;
  data_buffer ← local_array DATA_BUFFER_SIZE;
  let data := data_init data_buffer DATA_BUFFER_SIZE in
  bev ← opt (cm_bev (c_ctx c));
  '(ok, c) ← readcb_loop (S (Z.to_nat (evbuffer_get_length (bev_input bev)))) true buf c;
  if negb ok then mret c else
  framer ← opt (cm_framer (c_ctx c));
  forward_loop (S (length (f_list framer))) data c.

(** ** Events of the connection with the server *)

Definition cm_eventcb (events : bev_events) c : M (wsconn_t (cmanager_t P B) B) :=
  _ ← cm_alive (c_ctx c);
  if ev_connected events then
    buffer ← opt (cm_buffer (c_ctx c));
    let '(data, length) := buffer_peek_data buffer in
    out ← opt (mem_read data 0 length);
    cm ← cm_send out (c_ctx c);
    buffer ← buffer_remove_data buffer length;
    mret (c_set_ctx (cm_set_state CM_FORWARD (cm_set_buffer (Some buffer) cm)) c)
  else if ev_error events then
    c ← wsconn_onclosed c;
    cm ← cm_close (c_ctx c);
    mret (c_set_ctx cm c)
  else mret c.
End cmanager.
