(* ===== verification/WsConn.v ===== *)
(** The life of a connection: what the WebSocket server promises its client, and
    what it needs from it.

    [WsClient] is the contract between the two: a client object is created
    open, gets messages while it is open, is closed once and deleted once.
    Against it the callbacks of wsserver.c keep [conn_inv], the invariant on
    [ws_state], [cm_state] and the two flags. *)

From S2P Require Import Prelude CString Str Config Buffer WsMessage WsFrameSpec WsMessageSpec Rfc6455 Assembly WsTake WsFrame RqParser Libevent WsServer.

(** The client's side of the contract, in environment [e].  [cl_shutdown]: the
    client releases its resources of its own accord, after it has told the
    server with [wsconn_onclosed]. *)
Class WsClient {C} (e : env) (s : wsserver_t C) := {
  cl_cb : ws_cb_t C;
  cl_registered : ss_cb s = Some cl_cb;
  cl_open : C → Prop;
  cl_closed : C → Prop;
  cl_shutdown : C → M C;
  cl_create : wp e (ss_create_cb s) (λ r,
    match r with Some ctx => cl_open ctx | None => e = Hostile end);
  cl_connected mb ctx : cl_open ctx → wp e (cl_cb mb WSCB_CONNECTED ctx) cl_open;
  cl_message mb ctx : buffer_wf mb → (e ≠ Hostile → b_length mb <= INT_MAX) → cl_open ctx →
    wp e (cl_cb (Some mb) WSCB_MESSAGE ctx) cl_open;
  cl_close mb ctx : cl_open ctx → wp e (cl_cb mb WSCB_CLOSE ctx) cl_closed;
  cl_delete mb ctx : cl_open ctx ∨ cl_closed ctx → wp e (cl_cb mb WSCB_DELETE ctx) (λ _, True);
  cl_shutdown_ok ctx : cl_open ctx → wp e (cl_shutdown ctx) cl_closed
}.

Lemma wp_LOG e conf priority valid (Q : () → Prop) :
  valid = true ∨ logged conf priority = false → Q () → wp e (LOG conf priority valid) Q.
Proof.
  intros Hv HQ. unfold LOG. destruct Hv as [->| ->]; rewrite ?andb_false_r; by apply wp_ret.
Qed.

(** A bound on the bytes that wait in an input buffer. *)
Definition input_limit (n : Z) : Prop := 0 <= n <= 2 ^ 61.

Section conn.
Context {C B : Type} `{EvbufferLaws B}.
Context (SHA1 : list Z → list Z) (fnmatch : list Z → list Z → bool).
Context (e : env) (s : wsserver_t C) `{!WsClient e s}.
Context (Hlog : logged (ss_conf s) LOG_INFO = false).
Context (N : Z) (HN : input_limit N).
Implicit Types (c : wsconn_t C B) (buffer : buffer_t).

(** ** The invariant *)

(** At most [n] bytes have arrived and not been read. *)
Definition input_ok c (n : Z) : Prop :=
  Forall is_byte (ev_bytes (bev_input (c_bev c))) ∧ zlen (ev_bytes (bev_input (c_bev c))) <= n.

Record conn_base c : Prop := {
  cb_live : c_freed c = false;
  cb_server : c_server c = s;
  cb_wsmsg : wm_small (c_wsmsg c);
  cb_message : buffer_wf (c_message_buffer c);
  cb_unlimited : b_max_length (c_message_buffer c) = 0;
  cb_input : input_ok c N
}.

(** The client is open exactly while [cm_state] is [CM_ST_CREATED]. *)
Definition conn_phase c : Prop :=
  match c_ws_state c, c_cm_state c with
  | WS_ST_RECEIVING, CM_ST_CREATED =>
      cl_open (c_ctx c) ∧ c_fl_ws_closing c = false ∧ c_fl_cm_closed c = false
  | WS_ST_CLOSING, CM_ST_CREATED =>
      cl_open (c_ctx c) ∧ c_fl_ws_closing c = true ∧ c_fl_cm_closed c = false ∧ e = Hostile
  | WS_ST_CLOSING, CM_ST_CLOSING =>
      cl_closed (c_ctx c) ∧ c_fl_ws_closing c = true ∧ c_fl_cm_closed c = false
  | WS_ST_CLOSING, CM_ST_CLOSED =>
      cl_closed (c_ctx c) ∧ c_fl_ws_closing c = true ∧ c_fl_cm_closed c = true
  | WS_ST_CLOSED, CM_ST_CLOSING => cl_closed (c_ctx c)
  | _, _ => False
  end.

Definition conn_inv c : Prop := c_freed c = true ∨ (conn_base c ∧ conn_phase c).

(** How far the life has gone. *)
Definition life c : nat :=
  if c_freed c then 3 else
  match c_ws_state c with
  | WS_ST_START | WS_ST_RECEIVING => 0
  | WS_ST_CLOSING => 1
  | WS_ST_CLOSED => 2
  end.

Definition after c c' : Prop := conn_inv c' ∧ (life c <= life c')%nat.

Lemma after_freed c c' : c_freed c' = true → after c c'.
Proof.
  intros Hf. split; [by left|]. unfold life at 2. rewrite Hf. unfold life.
  destruct (c_freed c), (c_ws_state c); lia.
Qed.

Lemma after_same c c' : conn_base c' → conn_phase c' → c_freed c = false →
  c_ws_state c' = c_ws_state c → after c c'.
Proof. intros Hb Hp Hf Hs. split; [by right|]. unfold life. by rewrite Hf, Hs, (cb_live _ Hb). Qed.

Lemma after_trans c1 c2 c3 : after c1 c2 → after c2 c3 → after c1 c3.
Proof. intros [_ ?] [? ?]. split; [done|lia]. Qed.

(** A connection that receives. *)
Definition receiving c : Prop :=
  conn_base c ∧ c_ws_state c = WS_ST_RECEIVING ∧ c_cm_state c = CM_ST_CREATED ∧
  cl_open (c_ctx c) ∧ c_fl_ws_closing c = false ∧ c_fl_cm_closed c = false.

Lemma receiving_phase c : receiving c → conn_phase c.
Proof. intros (_ & Hw & Hc & ?). unfold conn_phase. by rewrite Hw, Hc. Qed.

Lemma phase_receiving c : conn_base c → conn_phase c → c_ws_state c = WS_ST_RECEIVING → receiving c.
Proof.
  unfold conn_phase, receiving. intros Hb Hp Hw. rewrite Hw in *.
  destruct (c_cm_state c); [done| |done|done]. destruct Hp as (? & ? & ?). done.
Qed.

Lemma receiving_update c v buffer :
  receiving c → wm_small v → buffer_wf buffer → b_max_length buffer = 0 →
  receiving (c_set_message_buffer buffer (c_set_wsmsg v c)).
Proof. intros ([] & ?) **. split; [by split|done]. Qed.

Lemma receiving_wsmsg c v : receiving c → wm_small v → receiving (c_set_wsmsg v c).
Proof. intros ([] & ?) **. split; [by split|done]. Qed.

(** ** Calls of the client *)

Lemma c_call_spec c what mb (Q : C → Prop) :
  c_server c = s → wp e (cl_cb mb what (c_ctx c)) Q →
  wp e (c_call what mb c) (λ c', ∃ ctx, Q ctx ∧ c' = c_set_ctx ctx c).
Proof using.
  intros Hs Hc. unfold c_call. wstep. rewrite Hs. eapply wp_opt; [apply cl_registered|].
  wstep. eapply wp_mono; [done|]. intros ctx ?. apply wp_ret. by exists ctx.
Qed.

Lemma wsconn_delete_ok c :
  c_freed c = false → c_server c = s → cl_open (c_ctx c) ∨ cl_closed (c_ctx c) →
  wp e (wsconn_delete c) (λ c', c_freed c' = true).
Proof using Hlog.
  intros Hf Hs Hc. unfold wsconn_delete, alive. rewrite Hf. wstep. apply wp_ret. wstep.
  unfold c_notify. rewrite Hs, cl_registered.
  eapply wp_mono; [apply c_call_spec; [done|by apply cl_delete]|].
  intros c' (ctx & _ & ->). wstep. apply wp_LOG; [|by apply wp_ret].
  right. unfold c_conf. cbn [c_server c_set_ctx]. by rewrite Hs.
Qed.

(** The client is open iff the server thinks it is. *)
Lemma phase_client c : conn_phase c → cl_open (c_ctx c) ∨ cl_closed (c_ctx c).
Proof. unfold conn_phase. destruct (c_ws_state c), (c_cm_state c); intros; destruct_and?; auto; done. Qed.

Lemma wsconn_close_ok c : conn_base c → conn_phase c → wp e (wsconn_close c) (after c).
Proof using Hlog.
  intros Hb Hp. pose proof Hb as [Hf Hs Hw Hm Hu Hin]. unfold wsconn_close, alive. rewrite Hf.
  wstep. apply wp_ret. cbn [c_cm_state c_fl_cm_closed c_set_ws_state].
  unfold conn_phase in Hp. destruct (c_cm_state c) eqn:Ecm.
  - by destruct (c_ws_state c).
  - rewrite bool_decide_eq_true_2 by done. wstep.
    eapply wp_mono; [apply (c_call_spec _ _ _ cl_closed); [done|apply cl_close]|].
    { cbn. by destruct (c_ws_state c); destruct_and?. }
    intros c' (ctx & Hctx & ->). apply wp_ret. split; [right; split; [by split|done]|].
    unfold life. cbn. rewrite Hf. destruct (c_ws_state c); lia.
  - rewrite bool_decide_eq_false_2 by done. destruct (c_fl_cm_closed c) eqn:Efl.
    + eapply wp_mono; [apply wsconn_delete_ok; try done|].
      { cbn. right. by destruct (c_ws_state c); destruct_and?. }
      intros c' ?. by apply after_freed.
    + apply wp_ret. split; [right; split; [by split|]|].
      * unfold conn_phase. cbn. rewrite Ecm. by destruct (c_ws_state c); destruct_and?.
      * unfold life. cbn. rewrite Hf. destruct (c_ws_state c); lia.
  - rewrite bool_decide_eq_false_2 by done. destruct (c_ws_state c) eqn:Ews; try done.
    destruct Hp as (? & ? & Efl). rewrite Efl.
    eapply wp_mono; [apply wsconn_delete_ok; try done; by right|].
    intros c' ?. by apply after_freed.
Qed.

(** ** Closing from the server's side *)

Lemma conn_write_frame_spec opcode data tail c :
  0 <= opcode < 16 → Forall is_byte (data ++ tail) → zlen data < 2 ^ 32 →
  wp e (conn_write_frame opcode (data ++ tail) (zlen data) c) (λ c',
    c' = c_set_output (evbuffer_add (bev_output (c_bev c)) (written opcode data)) c ∨
    (e = Hostile ∧ c' = c)).
Proof using.
  intros. unfold conn_write_frame. wstep. eapply wp_mono; [by apply wsconn_write_frame_spec|].
  intros [out|] Hout; apply wp_ret; [left; by rewrite Hout|by right].
Qed.

(** The same for the contents of a buffer. *)
Lemma conn_write_buffer_spec opcode b c :
  0 <= opcode < 16 → buffer_wf b → b_length b < 2 ^ 32 →
  wp e (conn_write_frame opcode (b_data b) (b_length b) c) (λ c',
    c' = c_set_output (evbuffer_add (bev_output (c_bev c)) (written opcode (contents b))) c ∨
    (e = Hostile ∧ c' = c)).
Proof using.
  intros Hop Hb Hl. pose proof Hb as []. rewrite data_contents by done.
  rewrite <-(zlen_contents b) by done. apply conn_write_frame_spec; [done| |].
  - by rewrite zlen_contents, <-data_contents by done.
  - by rewrite zlen_contents.
Qed.

(** The connection after its close frame has been written and its client, when
    it still was open, has been told. *)
Definition closing (frame : list Z) (cm : cm_state_t) (ctx : C) c : wsconn_t C B :=
  c_set_ws_closing (c_set_ws_state WS_ST_CLOSING (c_set_cm_state cm (c_set_ctx ctx
    (c_set_output (evbuffer_add (bev_output (c_bev c)) frame) c)))).

(** [closes frame cm P c c']: from [c] the server has begun the close handshake
    with [frame], [cm_state] is [cm] and the client's object satisfies [P]. *)
Definition closes (frame : list Z) (cm : cm_state_t) (P : C → Prop) c c' : Prop :=
  ∃ ctx, P ctx ∧ c' = closing frame cm ctx c.

Lemma initiate_close_spec status reason tail c :
  conn_base c → c_fl_ws_closing c = false → c_ws_state c = WS_ST_RECEIVING →
  cl_open (c_ctx c) →
  0 <= status < 2 ^ 16 → Forall is_byte (reason ++ tail) → zlen reason < 2 ^ 31 →
  wp e (wsconn_initiate_close status (Some (reason ++ tail)) (zlen reason) c) (λ c',
    conn_base c' ∧ c_ws_state c' = WS_ST_CLOSING ∧ c_fl_ws_closing c' = true ∧
    c_fl_cm_closed c' = c_fl_cm_closed c ∧
    (if decide (c_cm_state c = CM_ST_CREATED)
     then c_cm_state c' = CM_ST_CLOSING ∧ cl_closed (c_ctx c') ∨
          c_cm_state c' = CM_ST_CREATED ∧ cl_open (c_ctx c') ∧ e = Hostile
     else c_cm_state c' = c_cm_state c ∧ cl_open (c_ctx c')) ∧
    (e ≠ Hostile →
     let frame := written OPCODE_CLOSE (close_bytes status (Some reason)) in
     if decide (c_cm_state c = CM_ST_CREATED) then closes frame CM_ST_CLOSING cl_closed c c'
     else closes frame (c_cm_state c) (eq (c_ctx c)) c c')).
Proof using.
  intros [Hf Hs Hw Hm Hu Hin] Hfl Hws Hopen Hst Hb Hl.
  pose proof Hb as Hb'. apply Forall_app in Hb' as [Hb1 Hb2].
  unfold wsconn_initiate_close, alive. rewrite Hf, Hfl. wstep. apply wp_ret. wstep.
  change (Some (reason ++ tail)) with ((λ r, r ++ tail) <$> Some reason).
  change (zlen reason) with (zlen (default [] (Some reason))).
  eapply wp_mono; [by apply close_payload_spec|]. intros [b|] Hcp; wstep.
  2: { apply wp_ret. wstep. split; [by split|]. cbn. do 3 (split; [done|]).
       split; [|done]. destruct (decide _); [right|]; done. }
  destruct Hcp as (Hwf & Hmax & Hc). unfold buffer_peek_data. cbv iota beta. wstep.
  assert (b_length b < 2 ^ 32) as Hbl.
  { rewrite <-(zlen_contents b), Hc by done. unfold close_bytes. change (default [] _) with reason.
    bcase; [rewrite zlen_app; change (zlen [_; _]) with 2; lia|done]. }
  eapply wp_mono; [by apply conn_write_buffer_spec|]. intros c1 Hc1. wstep.
  pose proof Hwf as []. eapply wp_mono; [apply buffer_remove_data_spec; [done|lia]|]. intros b' _.
  assert (c_cm_state c1 = c_cm_state c ∧ c_ctx c1 = c_ctx c ∧ c_server c1 = s) as (Ecm & Ectx & Es).
  { destruct Hc1 as [->|[_ ->]]; done. }
  cbn [c_cm_state c_set_ws_state]. rewrite Ecm.
  destruct (decide (c_cm_state c = CM_ST_CREATED)) as [Ecr|Ecr].
  - rewrite bool_decide_eq_true_2 by done. wstep.
    eapply wp_mono; [apply (c_call_spec _ _ _ cl_closed); [done|apply cl_close; cbn; by rewrite Ectx]|].
    intros c2 (ctx & Hctx & ->). apply wp_ret. wstep.
    split; [destruct Hc1 as [->|[_ ->]]; by split|]. cbn. do 2 (split; [done|]).
    split; [by destruct Hc1 as [->|[_ ->]]|]. split; [by left|].
    intros Hnh. exists ctx. split; [done|]. destruct Hc1 as [->|[? _]]; [|done].
    rewrite Hc. done.
  - rewrite bool_decide_eq_false_2 by done. do 2 apply wp_ret.
    split; [destruct Hc1 as [->|[_ ->]]; by split|]. cbn. do 2 (split; [done|]).
    split; [by destruct Hc1 as [->|[_ ->]]|]. split; [by rewrite Ecm, Ectx|].
    intros Hnh. exists (c_ctx c). split; [done|]. destruct Hc1 as [->|[? _]]; [|done].
    rewrite Hc. by destruct c.
Qed.

Lemma initiate_close_after status reason tail c :
  receiving c → 0 <= status < 2 ^ 16 → Forall is_byte (reason ++ tail) → zlen reason < 2 ^ 31 →
  wp e (wsconn_initiate_close status (Some (reason ++ tail)) (zlen reason) c) (λ c',
    after c c' ∧
    (e ≠ Hostile → closes (written OPCODE_CLOSE (close_bytes status (Some reason))) CM_ST_CLOSING
                     cl_closed c c')).
Proof using.
  intros (Hb & Hws & Hcm & Hopen & Hfl & Hfc) **.
  eapply wp_mono; [by apply initiate_close_spec|].
  intros c' (Hb' & Hws' & Hfl' & Hfc' & Hcl & Hf'). rewrite Hcm in Hcl, Hf'. simpl in Hcl, Hf'.
  split; [|done]. split.
  - right. split; [done|]. unfold conn_phase. rewrite Hws'.
    destruct Hcl as [(-> & ?)|(-> & ? & ?)]; rewrite Hfc'; done.
  - unfold life. rewrite (cb_live _ Hb), Hws. lia.
Qed.

(** What the client does when its own peer is gone. *)
Definition client_gone c : M (wsconn_t C B) :=
  c ← wsconn_onclosed c;
  ctx ← cl_shutdown (c_ctx c);
  mret (c_set_ctx ctx c).

Definition server_gone_frame : list Z := written OPCODE_CLOSE (close_bytes 1001 (Some CLOSED_REASON)).

Lemma client_gone_ok c :
  conn_base c → conn_phase c → c_cm_state c = CM_ST_CREATED →
  wp e (client_gone c) (λ c', after c c' ∧
    (e ≠ Hostile → c_ws_state c = WS_ST_RECEIVING →
     closes server_gone_frame CM_ST_CLOSED cl_closed (c_set_cm_closed true c) c')).
Proof using.
  intros Hb Hp Hcm. pose proof Hb as [Hf Hs Hw Hm Hu Hin].
  unfold client_gone, wsconn_onclosed, alive. rewrite Hf. wstep. wstep. wstep.
  set (c1 := c_set_cm_closed true _). assert (conn_base c1) as Hb1 by by split.
  assert (cl_open (c_ctx c)) as Hopen.
  { unfold conn_phase in Hp. rewrite Hcm in Hp. by destruct (c_ws_state c); destruct_and?. }
  unfold conn_phase in Hp. rewrite Hcm in Hp. cbn [c1 c_ws_state c_set_cm_closed c_set_cm_state].
  destruct (c_ws_state c) eqn:Hws; try done.
  - eapply wp_mono.
    { rewrite <-(app_nil_r CLOSED_REASON) at 1. apply initiate_close_spec; first [done|by destruct_and!|decided]. }
    intros c2 (Hb2 & Hws2 & Hfl2 & Hfc2 & [Hcm2 Hctx2] & Hx2). wstep.
    eapply wp_mono; [by apply cl_shutdown_ok|]. intros ctx Hctx. apply wp_ret. split.
    + split; [right; split; [by destruct Hb2; split|]|].
      * unfold conn_phase. cbn. rewrite Hws2, Hcm2. cbn. by rewrite Hfc2.
      * unfold life. cbn. rewrite Hf, Hws. lia.
    + intros Hnh _. destruct (Hx2 Hnh) as (ctx2 & <- & ->). exists ctx. split; [done|].
      by destruct c.
  - wstep. wstep. eapply wp_mono; [by apply cl_shutdown_ok|]. intros ctx Hctx. apply wp_ret.
    split; [|done]. apply after_same; [by split| |done|done]. unfold conn_phase. cbn. rewrite Hws.
    by destruct_and!.
Qed.

(** ** Frames *)

(** The answer to a close frame: its own status and reason. *)
Definition close_echo (p : list Z) : list Z :=
  if zlen p <? 2 then close_bytes 1001 (Some [])
  else close_bytes (be (ztake 2 p)) (Some (zdrop 2 p)).

Definition control_result (op : Z) (p : list Z) c (again : bool) c' : Prop :=
  if op =? OPCODE_CLOSE then
    again = false ∧ closes (written OPCODE_CLOSE (close_echo p)) CM_ST_CLOSING cl_closed
                      (c_set_status (if zlen p <? 2 then 1001 else be (ztake 2 p)) c) c'
  else if op =? OPCODE_PING then
    again = false ∧ c' = c_set_output (evbuffer_add (bev_output (c_bev c)) (written OPCODE_PONG p)) c
  else again = true ∧ c' = c.

Lemma receiving_status v c : receiving c → receiving (c_set_status v c).
Proof. intros ([] & ?). split; [by split|done]. Qed.

Lemma ntohs_at_0 b : buffer_wf b → 2 <= b_length b →
  ntohs_at (b_data b) 0 = Some (be (ztake 2 (contents b))) ∧ 0 <= be (ztake 2 (contents b)) < 2 ^ 16.
Proof.
  intros Hb Hl. pose proof (contents_bytes _ Hb) as Hby. pose proof (zlen_contents _ Hb) as Hz.
  rewrite (data_contents b) by done.
  destruct (contents b) as [|x [|y l]]; [change (zlen []) with 0 in *; lia|
    change (zlen [x]) with 1 in *; lia|].
  apply Forall_cons_iff in Hby as [Hx Hby]. apply Forall_cons_iff in Hby as [Hy _].
  change (ztake 2 (x :: y :: l)) with [x; y]. split.
  - apply ntohs_at_spec; [|done|done]. rewrite mem_read_Some by (rewrite ?zlen_app, ?zlen_cons; zlen_pos; lia).
    done.
  - unfold be, is_byte in *. simpl. change (2 ^ 16) with 65536. lia.
Qed.

Lemma on_close_frame_ok buffer c :
  receiving c → buffer_wf buffer → b_length buffer <= 2 ^ 30 →
  wp e (on_close_frame buffer c) (λ r,
    match r with
    | Some c' => after c c' ∧ (e ≠ Hostile → control_result OPCODE_CLOSE (contents buffer) c false c')
    | None => e = Hostile
    end).
Proof using.
  intros Hc Hb Hl. pose proof (zlen_contents _ Hb) as Hz. pose proof Hb as [].
  unfold on_close_frame, control_result. rewrite Z.eqb_refl.
  wstep. eapply wp_mono; [by apply buffer_create_spec|]. intros [reason|]; [|intros; by apply wp_ret].
  intros (Hr & Hrc & Hrm & _). wstep.
  set (status := if zlen (contents buffer) <? 2 then 1001 else be (ztake 2 (contents buffer))).
  set (text := if zlen (contents buffer) <? 2 then [] else zdrop 2 (contents buffer)).
  eapply (wp_mono _ _ (λ '(c1, r1), c1 = c_set_status status c ∧ 0 <= status < 2 ^ 16 ∧ buffer_wf r1 ∧
    b_length r1 <= 2 ^ 30 ∧ (e ≠ Hostile → contents r1 = text))).
  { unfold status, text. rewrite Hz. unfold buffer_get_length. destruct (Z.ltb_spec (b_length buffer) 2).
    - apply wp_ret. pose proof (zlen_contents _ Hr) as Hz'. rewrite Hrc in Hz'.
      change (zlen []) with 0 in Hz'. do 4 (split; [done || lia|]). done.
    - destruct (ntohs_at_0 buffer) as [E Hr16]; [done|lia|]. wstep. eapply wp_opt; [exact E|].
      wstep. eapply (wp_mono _ _ (λ r1, buffer_wf r1 ∧ b_length r1 <= 2 ^ 30 ∧
        (e ≠ Hostile → contents r1 = zdrop 2 (contents buffer)))).
      + destruct (Z.ltb_spec 2 (b_length buffer)).
        * rewrite szt_small by lia.
          assert (accepted (buffer_clear reason) (b_length buffer - 2) = b_length buffer - 2) as Ha
            by (unfold accepted; cbn; by rewrite Hrm).
          wstep. eapply wp_mono; [apply buffer_set_data_spec; rewrite ?Ha; auto; unfold PTRDIFF_MAX in *; lia|].
          intros [ok r1] (Hr1 & _ & Hr1c). apply wp_ret. rewrite Ha in Hr1c.
          assert (ztake (b_length buffer - 2) (zdrop 2 (b_data buffer)) = zdrop 2 (contents buffer)) as E1.
          { unfold contents. rewrite ztake_zdrop_comm by lia. do 2 f_equal. lia. }
          rewrite E1 in Hr1c. split; [done|]. rewrite <-(zlen_contents r1) by done.
          destruct ok; [|destruct Hr1c as [? ->]; split; [done|done]]. rewrite Hr1c. split; [|done].
          rewrite zlen_zdrop by lia. lia.
        * apply wp_ret. split; [done|]. split.
          -- rewrite <-(zlen_contents reason), Hrc by done. done.
          -- intros _. rewrite Hrc. symmetry. apply zdrop_ge. lia.
      + intros r1 (? & ? & ?). apply wp_ret. split; [done|]. split; [done|]. done. }
  intros [c1 r1] (-> & Hst & Hr1 & Hr1l & Hr1c). wstep. cbn [c_status c_set_status].
  unfold buffer_get_length. rewrite (data_contents r1), <-(zlen_contents r1) by done.
  eapply wp_mono; [apply initiate_close_after; [by apply receiving_status|done| |]|].
  { rewrite zlen_contents, <-data_contents by done. by destruct Hr1. }
  { rewrite zlen_contents by done. lia. }
  intros c' [Haft Hx]. apply wp_ret. split.
  - destruct Haft. split; [done|]. done.
  - intros Hnh. split; [done|]. specialize (Hx Hnh). rewrite (Hr1c Hnh) in Hx.
    unfold close_echo. unfold status, text in *. by destruct (zlen (contents buffer) <? 2).
Qed.

(** ** One pass of the loop *)

Definition spare buffer : Prop := buffer_wf buffer ∧ b_max_length buffer = 0.

(** What a pass leaves: a connection that receives with less to do, or the end
    of the loop. *)
Definition step_ok c '((again, buffer, c') : bool * buffer_t * wsconn_t C B) : Prop :=
  if again then spare buffer ∧ receiving c' ∧ wm_pending (c_wsmsg c') < wm_pending (c_wsmsg c)
  else after c c'.

Lemma after_receiving c c1 c' : receiving c → receiving c1 → after c1 c' → after c c'.
Proof.
  intros (Hb & Hw & _) (Hb1 & Hw1 & _) [? Hl]. split; [done|]. revert Hl. unfold life at 1.
  rewrite (cb_live _ Hb1), Hw1. unfold life at 2. rewrite (cb_live _ Hb), Hw. done.
Qed.

Lemma receiving_close c c1 : receiving c → receiving c1 → wp e (wsconn_close c1) (after c).
Proof using.
  intros Hc (Hb1 & Hws & Hcm & Hopen & Hfl). pose proof Hb1 as [Hf Hs _ _ _ _].
  unfold wsconn_close, alive. rewrite Hf. wstep. apply wp_ret. cbn [c_cm_state c_set_ws_state]. rewrite Hcm.
  rewrite bool_decide_eq_true_2 by done. wstep.
  eapply wp_mono; [apply (c_call_spec _ _ _ cl_closed); [done|by apply cl_close]|].
  intros c' (ctx & Hctx & ->). apply wp_ret. apply (after_receiving c c1); [done|by split|].
  split; [right; split; [by destruct Hb1; split|]|].
  - done.
  - unfold life. cbn. rewrite Hf, Hws. lia.
Qed.

(** The server's message object, once taken out of. *)
Definition pending_control (w : wsmsg_t) : option (Z * list Z) :=
  if wm_frame w then Some (wm_opcode w, contents (wm_frame_data w)) else None.

Lemma step_control buffer c op p :
  receiving c → spare buffer → wm_error (c_wsmsg c) = false → pending_control (c_wsmsg c) = Some (op, p) →
  wp e (frame_step buffer c) (λ '(again, buffer', c'),
    step_ok c (again, buffer', c') ∧
    (e ≠ Hostile → spare buffer' ∧ ∃ w, wm_small w ∧ wm_limits w = wm_limits (c_wsmsg c) ∧ abs w = asm_process (wm_limits (c_wsmsg c))
         (let s := abs (c_wsmsg c) in Asm (a_in s) None (a_msg s) (a_op s) (a_started s) (a_full s) false) ∧
       control_result op p (c_set_wsmsg w c) again c')).
Proof using.
  intros Hc [Hb Hm] He Hp. pose proof Hc as ([Hf Hs Hw Hmb Hmm Hin] & _).
  unfold pending_control in Hp. destruct (wm_frame (c_wsmsg c)) eqn:Hfr; [|done]. simplify_eq.
  unfold frame_step, wsmsg_fail, wsmsg_has_frame. rewrite He, Hfr. wstep.
  eapply wp_mono; [by apply take_frame|].
  intros [[[res w] b] hdr] (Hw' & Hlim & Hb' & Hm' & Hres).
  assert (receiving (c_set_wsmsg w c)) as Hc' by by apply receiving_wsmsg.
  destruct res; cbn [negb].
  2: { wstep. apply wp_LOG; [by left|]. wstep. eapply wp_mono; [by apply receiving_close|].
       intros c' Ha. apply wp_ret. split; done. }
  destruct Hres as (Hpend & -> & Hbc & Habs). wstep. eapply wp_opt; [done|].
  pose proof (wm_small_lengths _ Hw) as (_ & _ & Hlen).
  assert (b_length b <= 114) as Hbl.
  { destruct Hw as [[_ ? _ _] _ _ _ _]. rewrite <-(zlen_contents b), Hbc, zlen_contents by done. done. }
  cbn [h_opcode]. destruct (Z.eqb_spec (wm_opcode (c_wsmsg c)) OPCODE_CLOSE) as [Eop|Eop].
  { wstep. eapply wp_mono; [apply on_close_frame_ok; [done|done|lia]|]. intros [c'|]; [|intros Hh].
    - intros [Ha Hx]. apply wp_ret. split; [by eapply (after_receiving _ _ _ Hc Hc')|].
      intros Hnh. split; [done|]. exists w. split; [done|]. split; [done|]. split; [by apply Habs|]. rewrite Eop, <-Hbc. by apply Hx.
    - wstep. eapply wp_mono; [by apply receiving_close|]. intros c' Ha. apply wp_ret. by split. }
  destruct (Z.eqb_spec (wm_opcode (c_wsmsg c)) OPCODE_PING) as [Eop'|Eop'].
  { unfold buffer_get_length. wstep.
    eapply wp_mono; [apply conn_write_buffer_spec; [done|done|lia]|]. intros c' Hc1. apply wp_ret.
    split.
    - apply after_same; [..|done|by destruct Hc1 as [->|[_ ->]]]; destruct Hc1 as [->|[_ ->]];
        first [by apply Hc'|by apply (receiving_phase _ Hc')|by destruct Hc' as ([] & _); split].
    - intros Hnh. split; [done|]. exists w. split; [done|]. split; [done|]. split; [by apply Habs|]. rewrite Eop', <-Hbc.
      destruct Hc1 as [->|[? _]]; [|done]. done. }
  apply wp_ret. split; [by split|]. intros Hnh. split; [done|]. exists w. split; [done|]. split; [done|]. split; [by apply Habs|].
  unfold control_result. apply Z.eqb_neq in Eop, Eop'. by rewrite Eop, Eop'.
Qed.

Lemma step_fail buffer c : receiving c → wm_error (c_wsmsg c) = true →
  wp e (frame_step buffer c) (step_ok c).
Proof using.
  intros Hc He. unfold frame_step, wsmsg_fail. rewrite He. wstep. apply wp_LOG; [by left|].
  wstep. eapply wp_mono; [by apply receiving_close|]. intros c' Ha. by apply wp_ret.
Qed.

Lemma step_idle buffer c : wm_error (c_wsmsg c) = false → wm_frame (c_wsmsg c) = false →
  wm_message (c_wsmsg c) = false → wp e (frame_step buffer c) (eq (false, buffer, c)).
Proof using.
  intros He Hf Hm. unfold frame_step, wsmsg_fail, wsmsg_has_frame, wsmsg_has_message.
  rewrite He, Hf, Hm. by apply wp_ret.
Qed.

(** [Q]: what the client does with the message. *)
Lemma step_message (Q : C → Prop) buffer c :
  receiving c → spare buffer → wm_error (c_wsmsg c) = false → wm_frame (c_wsmsg c) = false →
  wm_message (c_wsmsg c) = true →
  (e ≠ Hostile → ∀ mb, buffer_wf mb → contents mb = a_msg (abs (c_wsmsg c)) →
     wp e (cl_cb (Some mb) WSCB_MESSAGE (c_ctx c)) Q) →
  wp e (frame_step buffer c) (λ '(again, buffer', c'),
    step_ok c (again, buffer', c') ∧
    (e ≠ Hostile → wm_message_opcode (c_wsmsg c) = OPCODE_TEXT →
     again = true ∧ ∃ w mb ctx, c' = c_set_ctx ctx (c_set_message_buffer mb (c_set_wsmsg w c)) ∧
       wm_small w ∧ wm_limits w = wm_limits (c_wsmsg c) ∧ spare mb ∧ contents mb = a_msg (abs (c_wsmsg c)) ∧ Q ctx ∧
       abs w = asm_process (wm_limits (c_wsmsg c))
         (let s := abs (c_wsmsg c) in Asm (a_in s) (a_ctl s) [] (a_op s) false false false))).
Proof using.
  intros Hc Hbuf He Hf Hm HQ. pose proof Hc as ([_ Hs Hw Hmb Hmm Hin] & Hws & Hcm & Hopen & Hfl).
  unfold frame_step, wsmsg_fail, wsmsg_has_frame, wsmsg_has_message. rewrite He, Hf, Hm. cbn [negb].
  wstep. eapply wp_mono; [by apply take_message|].
  intros [[[res w] mb] op] (Hw' & Hlim & Hmb' & Hmm' & Hpend & -> & Hx). cbv zeta.
  wstep. eapply wp_opt; [done|].
  set (c1 := c_set_message_buffer mb (c_set_wsmsg w c)).
  assert (receiving c1) as Hc1 by by apply receiving_update.
  change (c_server c1) with (c_server c). rewrite Hs, cl_registered.
  destruct (Z.eqb_spec (wm_message_opcode (c_wsmsg c)) OPCODE_TEXT) as [Eop|Eop].
  2: { destruct (_ =? OPCODE_BINARY).
       - wstep. apply wp_LOG; [by left|]. wstep. eapply wp_mono; [by apply receiving_close|].
         intros c' Ha. apply wp_ret. by split.
       - apply wp_ret. by split. }
  assert (e ≠ Hostile → b_length mb <= INT_MAX) as Hsmall.
  { intros Hnh. destruct (Hx Hnh) as [Hc' _]. rewrite <-(zlen_contents mb), Hc' by done.
    change (a_msg (abs (c_wsmsg c))) with (contents (wm_message_buffer (c_wsmsg c))).
    rewrite zlen_contents by apply Hw. apply (wm_small_lengths _ Hw). }
  wstep. eapply wp_mono; [apply (c_call_spec _ _ _ (λ ctx, cl_open ctx ∧ (e ≠ Hostile → Q ctx)))|].
  { done. }
  { change (c_message_buffer c1) with mb. change (c_ctx c1) with (c_ctx c).
    apply (wp_and_if e _ cl_open Q (e ≠ Hostile)); [by apply cl_message|]. intros Hnh. by apply HQ, Hx. }
  intros c' (ctx & [Hctx HQc] & ->). apply wp_ret. split.
  - split; [done|]. split; [|done]. destruct Hc1 as ([] & ? & ? & _ & ?). split; [by split|done].
  - intros Hnh _. split; [done|]. destruct (Hx Hnh) as [Hcont Habs]. exists w, mb, ctx.
    split_and!; try done. by apply HQc.
Qed.

(** ** The loop *)

Lemma step_any buffer c : receiving c → spare buffer → wp e (frame_step buffer c) (step_ok c).
Proof using.
  intros Hc Hb. destruct (wm_error (c_wsmsg c)) eqn:He; [by apply step_fail|].
  destruct (wm_frame (c_wsmsg c)) eqn:Hf.
  { eapply wp_mono; [eapply step_control; try done; unfold pending_control; by rewrite Hf|].
    by intros [[again b] c'] [? _]. }
  destruct (wm_message (c_wsmsg c)) eqn:Hm.
  - eapply wp_mono; [apply (step_message (λ _, True)); try done|by intros [[again b] c'] [? _]].
    intros Hnh mb Hmb Hcont. eapply wp_mono; [apply cl_message; [done| |apply Hc]|done]. intros _.
    rewrite <-(zlen_contents mb), Hcont by done. pose proof Hc as ([_ _ Hw _ _ Hin] & _).
    change (a_msg (abs (c_wsmsg c))) with (contents (wm_message_buffer (c_wsmsg c))).
    rewrite zlen_contents by apply Hw. apply (wm_small_lengths _ Hw).
  - eapply wp_mono; [by apply step_idle|]. intros r <-. cbn.
    apply after_same; [apply Hc|by apply receiving_phase|apply Hc|done].
Qed.

Lemma frame_loop_ok fuel buffer c :
  receiving c → spare buffer → wm_pending (c_wsmsg c) < Z.of_nat fuel →
  wp e (frame_loop fuel buffer c) (after c).
Proof using.
  revert buffer c. induction fuel as [|fuel IH]; intros buffer c Hc Hb Hl.
  { pose proof (asm_pending_nonneg (abs (c_wsmsg c))). unfold wm_pending in Hl.
    destruct (wm_error _); lia. }
  cbn [frame_loop]. wstep. eapply wp_mono; [by apply step_any|].
  intros [[[] b] c'] Hstep; [|by apply wp_ret]. destruct Hstep as (Hb' & Hc' & Hl').
  eapply wp_mono; [apply IH; [done|done|lia]|]. intros c2. by apply after_receiving.
Qed.

Lemma receiving_input b c : receiving c → ev_bytes b = [] → receiving (c_set_input b c).
Proof using HN.
  intros ([] & ?) Hb. split; [split; try done|done]. unfold input_ok. cbn. rewrite Hb.
  split; [done|]. change (zlen []) with 0. apply HN.
Qed.

(** Up to the loop: the bytes that have arrived go to the message object. *)
Lemma process_frame_loop c (Q : wsconn_t C B → Prop) :
  receiving c → (e = Hostile → Q c) →
  (∀ ok w input buffer, wm_small w → spare buffer → ev_bytes input = [] →
     (e ≠ Hostile → (ok, abs w) = asm_add (wm_limits (c_wsmsg c)) (abs (c_wsmsg c))
                                   (ev_bytes (bev_input (c_bev c)))) →
     wm_limits w = wm_limits (c_wsmsg c) →
     wp e (frame_loop (frame_fuel w) buffer (c_set_wsmsg w (c_set_input input c))) Q) →
  wp e (wsconn_process_frame c) Q.
Proof using HN.
  intros Hc Hh Hloop. pose proof Hc as ([_ _ Hw _ _ [Hby Hlen]] & _).
  unfold wsconn_process_frame. wstep. eapply wp_mono; [by apply buffer_create_spec|].
  intros [buffer|]; [|intros; apply wp_ret; auto]. intros (Hb & _ & Hm & _). cbv zeta.
  rewrite ev_length. zlen_pos. wstep. apply wp_malloc_ok; [done| |].
  { intros [?|?]; [|destruct HN; unfold PTRDIFF_MAX in *; lia]. cbn [negb]. wstep. apply wp_LOG; [by left|].
    apply wp_ret. auto. }
  cbn [negb]. destruct (evbuffer_remove _ _) as [data input] eqn:E. apply ev_remove in E as [-> Ei]; [|done].
  rewrite ztake_all. rewrite zdrop_all in Ei. cbv zeta.
  wstep. eapply wp_mono; [apply add_bytes; [done|done|by etransitivity; [|apply HN]]|]. intros [ok w] (Hw' & Hl & Hx). by eapply Hloop.
Qed.

Lemma process_frame_ok c : receiving c → wp e (wsconn_process_frame c) (after c).
Proof using HN.
  intros Hc. apply process_frame_loop; [done| |].
  - intros _. apply after_same; [apply Hc|by apply receiving_phase|apply Hc|done].
  - intros ok w input buffer Hw Hb Hi _ _.
    assert (receiving (c_set_wsmsg w (c_set_input input c))) as Hc1
      by by apply receiving_wsmsg; [apply receiving_input|].
    eapply wp_mono; [apply frame_loop_ok; [done|done|]|].
    + pose proof (wm_pending_fuel w Hw). unfold frame_fuel. cbn [c_wsmsg c_set_wsmsg].
      destruct Hw as [[[] _ _ _] _ _ _ _]. lia.
    + intros c'. by apply after_receiving.
Qed.
End conn.
