(* ===== verification/WsEvents.v ===== *)
(** Events of an established connection: any sequence of them keeps the
    invariant of WsConn.v, whatever the client, as long as it keeps the contract
    [WsClient]; and how a connection ends. *)

From S2P Require Import Prelude CString Str Config Buffer WsMessage WsFrameSpec WsMessageSpec Rfc6455 Assembly WsTake WsFrame RqParser Libevent WsServer WsConn.

(** What happens to an established connection.  [EvRead]: bytes of the browser
    arrive.  [EvWritten]: so many bytes of the output have gone out; libevent
    calls the write callback when none is left.  [EvEvent]: the event callback.
    [EvClient]: the client works on its own object.  [EvSend]: it writes
    a message to the browser.  [EvServerGone]: its own peer is gone. *)
Inductive conn_event (C : Type) :=
  | EvRead (data : list Z)
  | EvWritten (n : Z)
  | EvEvent (events : bev_events)
  | EvClient (f : C → M C)
  | EvSend (data : list Z)
  | EvServerGone.
Arguments EvRead {C} data.
Arguments EvWritten {C} n.
Arguments EvEvent {C} events.
Arguments EvClient {C} f.
Arguments EvSend {C} data.
Arguments EvServerGone {C}.

Definition ev_received {C} (ev : conn_event C) : Z := match ev with EvRead d => zlen d | _ => 0 end.
Definition received {C} (evs : list (conn_event C)) : Z := foldr (λ ev n, ev_received ev + n) 0 evs.

Section events.
Context {C B : Type} `{EvbufferLaws B}.
Context (SHA1 : list Z → list Z) (fnmatch : list Z → list Z → bool).
Context (e : env) (s : wsserver_t C) `{!WsClient e s}.
Implicit Types (c : wsconn_t C B) (ev : conn_event C) (N : Z).

(** A freed connection has no callbacks any more; a client that is not open does
    nothing of its own accord. *)
Definition conn_do ev c : M (wsconn_t C B) :=
  if c_freed c then mret c else
  let open := bool_decide (c_cm_state c = CM_ST_CREATED) in
  match ev with
  | EvRead d => wsconn_read_cb SHA1 fnmatch (c_set_input (evbuffer_add (bev_input (c_bev c)) d) c)
  | EvWritten n =>
      let '(_, out) := evbuffer_remove (bev_output (c_bev c)) n in
      let c := c_set_output out c in
      if evbuffer_get_length out =? 0 then wsconn_write_cb c else mret c
  | EvEvent events => wsconn_event_cb events c
  | EvClient f => if (open : bool) then (ctx ← f (c_ctx c); mret (c_set_ctx ctx c)) else mret c
  | EvSend d => if (open : bool) then conn_write d (zlen d) c else mret c
  | EvServerGone => if (open : bool) then client_gone e s c else mret c
  end.

Fixpoint conn_run (evs : list (conn_event C)) c : M (wsconn_t C B) :=
  match evs with
  | [] => mret c
  | ev :: evs => (c ← conn_do ev c; conn_run evs c)
  end.

Definition event_ok ev : Prop :=
  match ev with
  | EvRead d => Forall is_byte d
  | EvWritten n => 0 <= n
  | EvClient f => ∀ ctx, cl_open (e := e) (s := s) ctx → wp e (f ctx) (cl_open (e := e) (s := s))
  | EvSend d => Forall is_byte d ∧ zlen d < 2 ^ 32
  | EvEvent _ | EvServerGone => True
  end.

Local Abbreviation base := (conn_base s).
Local Abbreviation phase := (conn_phase e s).
Local Abbreviation after := (after e s).

Lemma base_more N N' c : base N c → N <= N' → base N' c.
Proof. intros [? ? ? ? ? [? ?]] ?. split; try done. split; [done|lia]. Qed.

Lemma base_output b N c : base N c → base N (c_set_output b c).
Proof. intros []. by split. Qed.

Lemma base_read N d c : base N c → Forall is_byte d →
  base (N + zlen d) (c_set_input (evbuffer_add (bev_input (c_bev c)) d) c).
Proof.
  intros [? ? ? ? ? [? ?]] ?. split; try done. unfold input_ok. cbn. rewrite ev_add, zlen_app.
  split; [by apply Forall_app_2|lia].
Qed.

Context (Hlog : logged (ss_conf s) LOG_INFO = false).

(** Bytes arrive, the connection being in its receiving phase or a later one. *)
Lemma conn_do_read_ok d N c :
  input_limit (N + zlen d) → base N c → phase c → Forall is_byte d →
  wp e (conn_do (EvRead d) c) (after (N + zlen d) c).
Proof using.
  intros HN Hb Hp Hev. unfold conn_do. rewrite (cb_live _ _ _ Hb). cbv zeta.
  pose proof (base_read N d c Hb Hev) as Hb'. unfold wsconn_read_cb, alive.
  set (c1 := c_set_input _ c) in *. rewrite (cb_live _ _ _ Hb'). wstep. apply wp_ret.
  assert (phase c1) as Hp1 by done.
  assert (after (N + zlen d) c c1) as Hsame by (by apply after_same; [|done|apply Hb|]).
  change (c_ws_state c1) with (c_ws_state c). destruct (c_ws_state c) eqn:Hws.
  - unfold conn_phase in Hp. by rewrite Hws in Hp.
  - eapply wp_mono; [apply (process_frame_ok e s _ HN); by apply phase_receiving|].
    intros c' [? Hle]. by split.
  - by apply wp_ret.
  - by apply wp_ret.
Qed.

(** Output goes out; with none left a closing connection is freed. *)
Lemma conn_do_written_ok n N c :
  base N c → phase c → wp e (conn_do (EvWritten n) c) (after N c).
Proof using Hlog.
  intros Hb Hp. unfold conn_do. rewrite (cb_live _ _ _ Hb). cbv zeta.
  destruct (evbuffer_remove _ n) as [w out] eqn:E. cbv zeta.
  pose proof (base_output out _ _ Hb) as Hb'.
  assert (after N c (c_set_output out c)) as Hsame by (by apply after_same; [|done|apply Hb|]).
  destruct (_ =? 0); [|by apply wp_ret].
  unfold wsconn_write_cb, alive. rewrite (cb_live _ _ _ Hb'). wstep. apply wp_ret.
  destruct (_ && _); [|by apply wp_ret].
  eapply wp_mono; [apply (wsconn_delete_ok e s Hlog); [apply Hb'|apply Hb'|]|].
  { by apply (phase_client e s). }
  intros c' Hf. by apply after_freed.
Qed.

Lemma conn_do_ok ev N c :
  input_limit (N + ev_received ev) → base N c → phase c → event_ok ev →
  wp e (conn_do ev c) (after (N + ev_received ev) c).
Proof using Hlog.
  intros HN Hb Hp Hev.
  assert (∀ c', base (N + ev_received ev) c' → phase c' → c_ws_state c' = c_ws_state c →
            after (N + ev_received ev) c c') as Hsame.
  { intros c' ? ? ?. apply after_same; [done|done|by apply Hb|done]. }
  assert (ev_received ev = 0 → base (N + ev_received ev) c) as Hb0.
  { intros ->. by rewrite Z.add_0_r. }
  assert (c_cm_state c = CM_ST_CREATED → cl_open (e := e) (s := s) (c_ctx c)) as Hopen.
  { intros Hcm. unfold conn_phase in Hp. rewrite Hcm in Hp.
    by destruct (c_ws_state c); destruct_and?. }
  destruct ev as [d|n|events|f|d|]; cbn [ev_received event_ok] in *;
    [by apply conn_do_read_ok|rewrite Z.add_0_r; by apply conn_do_written_ok|..];
    unfold conn_do; rewrite (cb_live _ _ _ Hb); cbv zeta.
  - unfold wsconn_event_cb, alive. rewrite (cb_live _ _ _ Hb). wstep. apply wp_ret.
    wstep. apply wp_LOG; [right; unfold c_conf; by rewrite (cb_server _ _ _ Hb)|].
    destruct (_ || _); [|apply wp_ret; by apply Hsame; auto].
    by apply (wsconn_close_ok e s Hlog); auto.
  - destruct (bool_decide_reflect (c_cm_state c = CM_ST_CREATED)) as [Hcm|]; [|apply wp_ret; by apply Hsame; auto].
    wstep. eapply wp_mono; [by apply Hev, Hopen|]. intros ctx Hctx. apply wp_ret. apply Hsame; [| |done].
    + destruct (Hb0 eq_refl). by split.
    + revert Hp. unfold conn_phase. cbn. rewrite Hcm. destruct (c_ws_state c); intros; destruct_and?; done.
  - destruct (bool_decide_reflect (c_cm_state c = CM_ST_CREATED)) as [Hcm|]; [|apply wp_ret; by apply Hsame; auto].
    unfold conn_write, alive. rewrite (cb_live _ _ _ Hb). wstep. apply wp_ret. destruct Hev as [Hd Hl].
    eapply wp_mono; [rewrite <-(app_nil_r d) at 1; apply conn_write_frame_spec; [done|by rewrite app_nil_r|done]|].
    intros c' [->|[_ ->]]; [|by apply Hsame; auto]. apply Hsame; [by apply base_output; auto|done|done].
  - destruct (bool_decide_reflect (c_cm_state c = CM_ST_CREATED)) as [Hcm|]; [|apply wp_ret; by apply Hsame; auto].
    eapply wp_mono; [apply client_gone_ok; auto|]. by intros c' [? _].
Qed.

Lemma conn_run_ok evs N c :
  0 <= N → N + received evs <= 2 ^ 61 → conn_inv e s N c → Forall event_ok evs →
  wp e (conn_run evs c) (after (N + received evs) c).
Proof using Hlog.
  intros HN Hl Hinv Hevs. revert N c HN Hl Hinv. induction Hevs as [|ev evs Hev Hevs IH]; intros N c HN Hl Hinv.
  { apply wp_ret. cbn [received foldr] in *. rewrite Z.add_0_r. done. }
  cbn [conn_run received foldr] in *. fold (received evs) in *.
  assert (0 <= ev_received ev) by (destruct ev; cbn; zlen_pos; lia).
  assert (0 <= received evs).
  { clear. induction evs as [|ev evs IH]; cbn [received foldr]; [done|].
    fold (received evs). destruct ev; cbn [ev_received]; zlen_pos; lia. }
  rewrite Z.add_assoc in *. wstep.
  eapply (wp_mono _ _ (after (N + ev_received ev) c)).
  - destruct Hinv as [Hf|[Hb Hp]].
    + unfold conn_do. rewrite Hf. apply wp_ret. split; [by left|done].
    + apply conn_do_ok; try done. split; lia.
  - intros c1 [Hinv1 Hl1]. eapply wp_mono; [apply (IH (N + ev_received ev)); [lia|lia|done]|].
    intros c2 [Hinv2 Hl2]. split; [done|lia].
Qed.

(** ** The end of a connection *)

(** Once its output has gone out, a connection that closes is freed. *)
Lemma drained_freed c n :
  c_freed c = false → c_server c = s → c_ws_state c = WS_ST_CLOSING →
  cl_open (c_ctx c) ∨ cl_closed (c_ctx c) →
  zlen (ev_bytes (bev_output (c_bev c))) <= n →
  wp e (conn_do (EvWritten n) c) (λ c', c_freed c' = true).
Proof using Hlog.
  intros Hf Hs Hws Hcl Hn. unfold conn_do. rewrite Hf. cbv zeta. zlen_pos.
  destruct (evbuffer_remove _ n) as [w out] eqn:E. apply ev_remove in E as [_ E]; [|lia].
  rewrite ev_length, E, zdrop_ge, zlen_nil by done. cbn [Z.eqb]. unfold wsconn_write_cb, alive.
  cbn [c_freed c_set_output c_set_bev c_ws_state c_bev bev_output]. rewrite Hf. wstep. apply wp_ret.
  rewrite bool_decide_eq_true_2 by done. rewrite ev_length, E, zdrop_ge, zlen_nil by done. cbn [andb Z.eqb].
  by apply (wsconn_delete_ok e s Hlog).
Qed.

(** Closed by an event of the socket: nothing frees the connection any more. *)
Definition abandoned c : Prop :=
  c_freed c = false ∧ c_server c = s ∧ c_ws_state c = WS_ST_CLOSED ∧ c_cm_state c = CM_ST_CLOSING ∧
  c_fl_cm_closed c = false.

Lemma abandoned_forever evs c : abandoned c → wp e (conn_run evs c) abandoned.
Proof using Hlog.
  revert c. induction evs as [|ev evs IH]; intros c Ha; [by apply wp_ret|]. cbn [conn_run]. wstep.
  eapply (wp_mono _ _ abandoned); [|done]. clear IH evs. destruct Ha as (Hf & Hs & Hws & Hcm & Hfl).
  unfold conn_do. rewrite Hf, Hcm. cbv zeta. cbn [bool_decide].
  assert (∀ c', c_freed c' = c_freed c → c_server c' = s → c_ws_state c' = WS_ST_CLOSED →
    c_cm_state c' = c_cm_state c → c_fl_cm_closed c' = c_fl_cm_closed c → abandoned c') as Hsame.
  { intros. unfold abandoned. split_and!; congruence. }
  destruct ev as [d|n|events|f|d|]; try (apply wp_ret; by split).
  - unfold wsconn_read_cb, alive. set (c1 := c_set_input _ c).
    change (c_freed c1) with (c_freed c). change (c_ws_state c1) with (c_ws_state c). rewrite Hf, Hws.
    wstep. apply wp_ret. apply wp_ret. by apply Hsame.
  - destruct (evbuffer_remove _ n) as [w out]. cbv zeta. set (c1 := c_set_output out c).
    destruct (_ =? 0); [|apply wp_ret; by apply Hsame]. unfold wsconn_write_cb, alive.
    change (c_freed c1) with (c_freed c). change (c_ws_state c1) with (c_ws_state c). rewrite Hf, Hws.
    wstep. apply wp_ret. apply wp_ret. by apply Hsame.
  - unfold wsconn_event_cb, alive. rewrite Hf. wstep. apply wp_ret. wstep.
    apply wp_LOG; [right; unfold c_conf; by rewrite Hs|].
    destruct (_ || _); [|apply wp_ret; by apply Hsame]. unfold wsconn_close, alive. rewrite Hf.
    wstep. apply wp_ret. cbn [c_cm_state c_set_ws_state c_fl_cm_closed]. rewrite Hcm, Hfl.
    apply wp_ret. by apply Hsame.
Qed.

(** With a log level that shows messages of priority [LOG_INFO], deleting a
    connection logs the names it has just freed, and the event callback logs with
    an invalid format. *)
Lemma verbose_log_ub c t : logged (c_conf c) LOG_INFO = true →
  wsconn_delete c t = None ∧ ∀ events, wsconn_event_cb events c t = None.
Proof using.
  intros Hl. assert (∀ t, LOG (c_conf c) LOG_INFO false t = None) as Hub.
  { intros t'. unfold LOG. by rewrite Hl. }
  unfold wsconn_delete, wsconn_event_cb, alive. destruct (c_freed c); [done|]. split.
  - unfold c_notify, c_call, mbind, M_bind. cbn [mret M_ret]. destruct (ss_cb (c_server c)) as [cb|] eqn:E.
    + cbn [opt mret M_ret]. rewrite ?E. cbn [opt mret M_ret]. destruct (cb None WSCB_DELETE (c_ctx c) t) as [[ctx t']|]; [|done].
      change ((mret (c_set_ctx ctx c) : M _) t') with (Some (c_set_ctx ctx c, t')). cbv iota beta.
      change (c_conf (c_set_ctx ctx c)) with (c_conf c). by rewrite Hub.
    + change ((mret c : M _) t) with (Some (c, t)). cbv iota beta. by rewrite Hub.
  - intros events. unfold mbind, M_bind. change ((mret () : M _) t) with (Some ((), t)). cbv iota beta.
    by rewrite Hub.
Qed.

Lemma closed_by_event N c events : receiving e s N c → ev_error events || ev_eof events = true →
  wp e (conn_do (EvEvent events) c) (λ c', abandoned c' ∧ cl_closed (c_ctx c')).
Proof using Hlog.
  intros ([Hf Hs _ _ _ _] & Hws & Hcm & Hopen & Hfl & Hfc) Hev. unfold conn_do. rewrite Hf. cbv zeta.
  unfold wsconn_event_cb, alive. rewrite Hf, Hev. wstep. apply wp_ret. wstep.
  apply wp_LOG; [right; unfold c_conf; by rewrite Hs|]. unfold wsconn_close, alive. rewrite Hf.
  wstep. apply wp_ret. cbn [c_cm_state c_set_ws_state]. rewrite bool_decide_eq_true_2 by done. wstep.
  eapply wp_mono; [apply (c_call_spec _ _ _ _ _ cl_closed); [done|by apply cl_close]|].
  intros c' (ctx & Hctx & ->). by apply wp_ret.
Qed.
End events.
