(* ===== verification/WsReads.v ===== *)
(** What one read of an established connection does, when allocations succeed:
    a control frame is answered, a message reaches the client. *)

From S2P Require Import Prelude CString Str Config Buffer WsMessage WsFrameSpec WsMessageSpec Rfc6455 Assembly WsTake WsFrame RqParser Libevent WsServer WsConn WsEvents.

Section reads.
Context {C B : Type} `{EvbufferLaws B}.
Context (SHA1 : list Z → list Z) (fnmatch : list Z → list Z → bool).
Context (e : env) (s : wsserver_t C) `{!WsClient e s}.
Context (Hlog : logged (ss_conf s) LOG_INFO = false) (He : e ≠ Hostile).
Implicit Types (c : wsconn_t C B) (N : Z).
Local Abbreviation do_event := (conn_do SHA1 fnmatch e s).
Local Abbreviation run := (conn_run SHA1 fnmatch e s).

Definition in_bytes c : list Z := ev_bytes (bev_input (c_bev c)).
Definition conn_asm c : asm := abs (c_wsmsg c).
Definition conn_limits c : limits := wm_limits (c_wsmsg c).

Definition out_stream c : list Z := ev_bytes (bev_output (c_bev c)).

Lemma out_stream_add d c : out_stream (c_set_output (evbuffer_add (bev_output (c_bev c)) d) c) = out_stream c ++ d.
Proof. apply ev_add. Qed.

(** The server waits for its close frame to go out. *)
Definition closing_down c : Prop :=
  c_freed c = false ∧ c_server c = s ∧ c_ws_state c = WS_ST_CLOSING ∧
  (cl_open (c_ctx c) ∨ cl_closed (c_ctx c)).

Lemma receiving_output N b c : receiving e s N c → receiving e s N (c_set_output b c).
Proof. intros ([] & ?). split; [by split|done]. Qed.

(** The message object has consumed all that has arrived; it may be in the
    middle of a fragmented message. *)
Definition caught_up c : Prop :=
  in_bytes c = [] ∧ a_in (conn_asm c) = [] ∧ asm_idle (conn_asm c) = true.

(** The connection [c] with another message object and input buffer. *)
Definition with_input (w : wsmsg_t) (input : B) c : wsconn_t C B := c_set_wsmsg w (c_set_input input c).

Lemma receiving_with N w input c :
  receiving e s N c → input_limit N → wm_small w → ev_bytes input = [] →
  receiving e s N (with_input w input c).
Proof using. intros. apply receiving_wsmsg; [by apply receiving_input|done]. Qed.

(** A read, up to the loop. *)
Lemma read_loop N c d (Q : wsconn_t C B → Prop) :
  receiving e s N c → input_limit (N + zlen d) → Forall is_byte d → in_bytes c = [] →
  lim_in (conn_limits c) = 0 ∨ zlen (a_in (conn_asm c)) + zlen d <= lim_in (conn_limits c) →
  asm_idle (conn_asm c) = true →
  (∀ w input buffer, wm_small w → spare buffer → ev_bytes input = [] →
     wm_limits w = conn_limits c →
     abs w = asm_go (conn_limits c) (let a := conn_asm c in
       Asm (a_in a ++ d) (a_ctl a) (a_msg a) (a_op a) (a_started a) (a_full a) (a_err a)) →
     wp e (frame_loop (frame_fuel w) buffer (with_input w input c)) Q) →
  wp e (do_event (EvRead d) c) Q.
Proof using He.
  intros Hc HN Hd Hin Hroom Hidle Hloop. pose proof Hc as (Hb & Hws & Hcm & Hopen & Hfl).
  unfold conn_do. rewrite (cb_live _ _ _ Hb). cbv zeta.
  pose proof (base_read s N d c Hb Hd) as Hb'. set (c1 := c_set_input _ c) in *.
  unfold wsconn_read_cb, alive. rewrite (cb_live _ _ _ Hb'). wstep. apply wp_ret.
  change (c_ws_state c1) with (c_ws_state c). rewrite Hws.
  apply (process_frame_loop e s _ HN); [by split|by intros ?|].
  intros ok w input buffer Hw Hsp Hi Hx Hl. specialize (Hx He).
  change (ev_bytes (bev_input (c_bev c1))) with (ev_bytes (evbuffer_add (bev_input (c_bev c)) d)) in Hx.
  rewrite ev_add in Hx. unfold in_bytes in Hin. rewrite Hin in Hx. cbn [app] in Hx.
  change (c_wsmsg c1) with (c_wsmsg c) in *.
  rewrite asm_add_idle in Hx by done. apply (f_equal snd) in Hx.
  exact (Hloop w input buffer Hw Hsp Hi Hl Hx).
Qed.

Lemma abs_pending w h p : a_ctl (abs w) = Some (h, p) → pending_control w = Some (h_opcode h, p).
Proof. unfold abs, pending_control. cbn [a_ctl]. destruct (wm_frame w); [|done]. intros. by simplify_eq. Qed.

Lemma asm_idle_flags a : asm_idle a = true → a_ctl a = None ∧ a_full a = false ∧ a_err a = false.
Proof. unfold asm_idle. destruct (a_full a), (a_ctl a), (a_err a); done. Qed.

Lemma idle_flags w : asm_idle (abs w) = true → wm_message w = false ∧ wm_frame w = false ∧ wm_error w = false.
Proof. rewrite abs_idle. destruct (wm_message w), (wm_frame w), (wm_error w); done. Qed.

(** With nothing to decode the machine stays as it is. *)
Lemma asm_process_empty l a : a_in a = [] → asm_process l a = a.
Proof. intros Ha. unfold asm_process. destruct (asm_idle a); [|done]. by apply asm_go_empty. Qed.

Lemma loop_idle fuel buffer c : asm_idle (conn_asm c) = true →
  wp e (frame_loop (S fuel) buffer c) (eq c).
Proof using.
  intros (Hm & Hf & Her)%idle_flags. cbn [frame_loop]. wstep.
  eapply wp_mono; [by apply step_idle|]. intros r <-. by apply wp_ret.
Qed.

(** ** Control frames *)

Lemma read_control N c f :
  receiving e s N c → input_limit (N + zlen (encode_frame f)) → caught_up c →
  frame_fits (lim_frame (conn_limits c)) f → 0 <= lim_frame (conn_limits c) →
  f_opcode f = OPCODE_CLOSE ∨ f_opcode f = OPCODE_PING → f_fin f = true →
  zlen (encode_frame f) <= lim_in (conn_limits c) →
  wp e (do_event (EvRead (encode_frame f)) c) (λ c',
    ∃ w input, wm_small w ∧ wm_limits w = conn_limits c ∧ abs w = conn_asm c ∧ ev_bytes input = [] ∧
      control_result e s (f_opcode f) (f_payload f) (with_input w input c) false c').
Proof using He.
  intros Hc HN (Hin & Ha & Hidle) Hf Hl Hop Hfin Hroom.
  pose proof (asm_idle_flags _ Hidle) as (Hctl & Hfull & Herr). zlen_pos.
  eapply read_loop; [done|done|apply encode_frame_bytes, Hf|done|rewrite Ha; by right|done|].
  intros w input buffer Hw Hsp Hi Hlim Habs. cbv zeta in Habs. rewrite Ha in Habs. cbn [app] in Habs.
  rewrite (asm_go_control _ f []) in Habs;
    [|done|done|by rewrite app_nil_r|by apply is_control_spec; destruct Hop; auto|done].
  cbn [a_msg a_op a_started a_full a_err] in Habs. unfold frame_fuel. cbn [frame_loop]. wstep.
  assert (receiving e s (N + zlen (encode_frame f)) (with_input w input c)) as Hc'.
  { apply receiving_with; try done. destruct Hc as (Hb & ?). split; [|done].
    apply (base_more s N); [done|lia]. }
  eapply wp_mono.
  { apply (step_control e s (N + zlen (encode_frame f)) buffer _ (f_opcode f) (f_payload f)); [done|done| |].
    - change (a_err (abs w) = false). by rewrite Habs.
    - apply (abs_pending w (f_hdr f)). by rewrite Habs. }
  intros [[again b] c'] [_ Hres]. destruct (Hres He) as (_ & w2 & Hw2 & Hlim2 & Habs2 & Hctlr).
  assert (again = false) as ->.
  { revert Hctlr. unfold control_result. destruct Hop as [-> | ->]; cbn; by intros [? _]. }
  apply wp_ret. exists w2, input. split; [done|]. split; [by rewrite Hlim2|]. split; [|done].
  rewrite Habs2. change (c_wsmsg (with_input w input c)) with w. rewrite Habs.
  cbn [a_in a_msg a_op a_started a_full]. rewrite asm_process_empty by done.
  destruct (conn_asm c). simpl in *. congruence.
Qed.

(** ** Messages *)

Lemma receiving_empty N c : receiving e s N c → in_bytes c = [] → receiving e s 0 c.
Proof.
  intros ([] & ?) Hi. split; [split; try done|done]. unfold input_ok.
  unfold in_bytes in Hi. by rewrite Hi.
Qed.

Lemma receiving_in c : receiving e s 0 c → in_bytes c = [].
Proof.
  intros ([_ _ _ _ _ [_ Hl]] & _). unfold in_bytes. zlen_pos. apply zlen_0_nil. lia.
Qed.

(** The connection after the client has had a message and is left with [ctx]. *)
Definition delivered (Q : C → Prop) (op : Z) c c' : Prop :=
  ∃ w mb input ctx, wm_small w ∧ spare mb ∧ ev_bytes input = [] ∧ abs w = asm_quiet op ∧
    wm_limits w = conn_limits c ∧ Q ctx ∧
    c' = c_set_ctx ctx (c_set_message_buffer mb (with_input w input c)).

Lemma delivered_receiving (Q : C → Prop) op c c' :
  receiving e s 0 c → (∀ ctx, Q ctx → cl_open ctx) → delivered Q op c c' → receiving e s 0 c'.
Proof.
  intros ([] & ? & ? & ? & ? & ?) HQ (w & mb & input & ctx & Hw & [? ?] & Hi & _ & _ & Hctx & ->).
  split; [split; try done|split_and!; try done; by apply HQ].
  unfold input_ok. cbn. by rewrite Hi.
Qed.

(** What the client does with message [m]. *)
Definition takes (Q : C → Prop) (m : list Z) c : Prop :=
  ∀ mb, buffer_wf mb → contents mb = m → wp e (cl_cb (Some mb) WSCB_MESSAGE (c_ctx c)) Q.

Lemma conn_limits_small c N : receiving e s N c →
  0 < lim_frame (conn_limits c) ∧ lim_in (conn_limits c) <= 228.
Proof. intros ([_ _ [_ ? Hin _ _] _ _ _] & _). unfold conn_limits. lia. Qed.

Lemma read_last (Q : C → Prop) m c w input buffer fuel :
  receiving e s 0 c → wm_small w → spare buffer → ev_bytes input = [] → wm_limits w = conn_limits c →
  abs w = asm_message m OPCODE_TEXT → takes Q m c →
  wp e (frame_loop (S (S fuel)) buffer (with_input w input c)) (delivered Q OPCODE_TEXT c).
Proof using He.
  intros Hc Hw Hsp Hi Hl Habs HQ. cbn [frame_loop]. wstep.
  pose proof (receiving_with 0 w input c Hc ltac:(done) Hw Hi) as Hc'.
  eapply wp_mono.
  { apply (step_message e s 0 Q); [done|done|..].
    - change (a_err (abs w) = false). by rewrite Habs.
    - assert (a_ctl (abs w) = None) as Hn by by rewrite Habs. revert Hn. unfold abs. cbn [a_ctl].
      change (c_wsmsg (with_input w input c)) with w. by destruct (wm_frame w).
    - change (a_full (abs w) = true). by rewrite Habs.
    - intros _ mb Hmb Hcont. apply HQ; [done|]. change (contents mb = a_msg (abs w)) in Hcont.
      by rewrite Habs in Hcont. }
  intros [[again b] c'] [Hok Hx]. destruct Hx as (-> & w2 & mb & ctx & -> & Hw2 & Hlim2 & Hmb & Hcont & HQctx & Habs2); [done| |].
  { change (a_op (abs w) = OPCODE_TEXT). by rewrite Habs. }
  assert (abs w2 = asm_quiet OPCODE_TEXT) as Hq.
  { rewrite Habs2. change (c_wsmsg (with_input w input c)) with w. rewrite Habs. by apply asm_process_empty. }
  eapply wp_mono; [apply loop_idle|].
  { change (asm_idle (abs w2) = true). by rewrite Hq. }
  intros c' <-. exists w2, mb, input, ctx. split_and!; try done. by rewrite Hlim2.
Qed.

(** A chunk of a message: the last one delivers it. *)
Lemma read_chunk (Q : C → Prop) m fs chunk todo c :
  receiving e s 0 c → assembling (conn_limits c) OPCODE_TEXT m fs (chunk ++ todo) (conn_asm c) →
  Forall is_byte chunk → zlen m <= lim_message (conn_limits c) →
  zlen (a_in (conn_asm c)) + zlen chunk <= lim_in (conn_limits c) → takes Q m c →
  wp e (do_event (EvRead chunk) c) (λ c',
    (todo = [] ∧ delivered Q OPCODE_TEXT c c') ∨
    (todo ≠ [] ∧ ∃ w input fs', wm_small w ∧ wm_limits w = conn_limits c ∧ ev_bytes input = [] ∧
       c' = with_input w input c ∧
       assembling (conn_limits c) OPCODE_TEXT m fs' todo (abs w) ∧
       zlen (a_in (abs w)) < lim_frame (conn_limits c) + 14)).
Proof using He.
  intros Hc Has Hby Hm Hroom HQ. destruct (conn_limits_small _ _ Hc) as [Hlf Hli].
  assert (asm_idle (conn_asm c) = true) as Hidle.
  { destruct Has as [Hctl Hfull Herr _ _ _ _ _]. unfold asm_idle. by rewrite Hctl, Hfull, Herr. }
  destruct (asm_add_chunk (conn_limits c) OPCODE_TEXT m fs chunk todo (conn_asm c))
    as (s' & Hadd & Hs'); [lia|by right|by right|done|].
  rewrite asm_add_idle in Hadd by (done || by right). apply (f_equal snd) in Hadd. cbn [snd] in Hadd.
  zlen_pos. eapply read_loop; [done|split; lia|done|by apply receiving_in|by right|done|].
  intros w input buffer Hw Hsp Hi Hl Habs. cbv zeta in Habs. rewrite Hadd in Habs.
  destruct Hs' as [[-> ->]|(Htodo & fs' & Has' & Hlen)].
  - eapply wp_mono; [by apply (read_last Q m)|]. intros c' ?. by left.
  - eapply wp_mono; [apply loop_idle|].
    { change (asm_idle (abs w) = true). rewrite Habs. destruct Has' as [Hctl Hfull Herr _ _ _ _ _].
      unfold asm_idle. by rewrite Hctl, Hfull, Herr. }
    intros c' <-. right. split; [done|]. exists w, input, fs'. rewrite Habs.
    split_and!; try done. destruct Hlen; lia.
Qed.

Lemma with_input_twice w1 i1 w2 i2 c : with_input w1 i1 (with_input w2 i2 c) = with_input w1 i1 c.
Proof. by destruct c. Qed.

(** All the chunks of a message. *)
Lemma read_chunks (Q : C → Prop) m chunks fs c :
  receiving e s 0 c → assembling (conn_limits c) OPCODE_TEXT m fs (concat chunks) (conn_asm c) →
  Forall (λ d, d ≠ [] ∧ lim_frame (conn_limits c) + 13 + zlen d <= lim_in (conn_limits c)) chunks →
  Forall is_byte (concat chunks) → zlen m <= lim_message (conn_limits c) →
  zlen (a_in (conn_asm c)) < lim_frame (conn_limits c) + 14 → chunks ≠ [] → takes Q m c →
  wp e (run (EvRead <$> chunks) c) (delivered Q OPCODE_TEXT c).
Proof using He.
  intros Hc Has Hch Hby Hm Hin Hne HQ. revert c fs Hc Has Hch Hby Hm Hin HQ.
  induction chunks as [|d chunks IH]; [done|]. intros c fs Hc Has Hch Hby Hm Hin HQ.
  apply Forall_cons_iff in Hch as [[Hd Hdl] Hch]. cbn [concat] in *. apply Forall_app in Hby as [Hbd Hby].
  rewrite fmap_cons. cbn [conn_run]. wstep.
  eapply wp_mono; [apply (read_chunk Q m fs d (concat chunks)); try done; lia|].
  intros c' [[Hnil Hdel]|(Hne' & w & input & fs' & Hw & Hl & Hi & -> & Has' & Hlen)].
  { assert (chunks = []) as ->; [|by apply wp_ret]. destruct chunks as [|d' chunks]; [done|].
    apply Forall_cons_iff in Hch as [[Hd' _] _]. simpl in Hnil. by apply app_eq_nil in Hnil as [? _]. }
  assert (chunks ≠ []) as Hne2 by by intros ->.
  assert (conn_limits (with_input w input c) = conn_limits c) as Hl' by done.
  eapply wp_mono.
  { eapply (IH Hne2 (with_input w input c)); rewrite ?Hl'; try done.
    by apply (receiving_with 0 w input c Hc). }
  intros c' (w2 & mb & i2 & ctx & Hw2 & Hmb & Hi2 & Hq & Hl2 & HQc & ->).
  exists w2, mb, i2, ctx. rewrite with_input_twice, Hl2, Hl'. done.
Qed.

(** A whole message. *)
Lemma read_transfer (Q : C → Prop) t op0 c :
  receiving e s 0 c → conn_asm c = asm_quiet op0 → transfer_ok (conn_limits c) t →
  t_opcode t = OPCODE_TEXT → takes Q (payloads (t_frames t)) c →
  wp e (run (EvRead <$> t_chunks t) c) (delivered Q OPCODE_TEXT c).
Proof using He.
  intros Hc Hq [Hfs Hfr Hm Hw Hch] Hop HQ. destruct (conn_limits_small _ _ Hc) as [Hlf Hli].
  apply (read_chunks Q (payloads (t_frames t)) _ (t_frames t)); try done.
  - rewrite Hq, Hw. by split.
  - rewrite Hw. by eapply wire_bytes, frames_fit_ok.
  - rewrite Hq. cbn [a_in asm_quiet]. rewrite zlen_nil. lia.
  - intros E. rewrite E in Hw. destruct (t_frames t) as [|f fs]; [done|]. cbn [concat] in Hw.
    rewrite wire_cons in Hw. symmetry in Hw. apply app_eq_nil in Hw as [Hw _].
    pose proof (encode_frame_nonempty f) as Hne. by rewrite Hw in Hne.
Qed.

(** ** The end of the close handshake *)

(** What starts the close handshake, and the close frame the server sends. *)
Inductive close_cause c : conn_event C → list Z → Prop :=
  | browser_closes f :
      caught_up c → frame_fits (lim_frame (conn_limits c)) f → f_fin f = true → f_opcode f = OPCODE_CLOSE →
      zlen (encode_frame f) <= lim_in (conn_limits c) →
      close_cause c (EvRead (encode_frame f)) (written OPCODE_CLOSE (close_echo (f_payload f)))
  | xmpp_server_gone : close_cause c EvServerGone server_gone_frame.

Lemma close_begins N c ev frame :
  receiving e s N c → input_limit (N + ev_received ev) → close_cause c ev frame →
  wp e (do_event ev c) (λ c', closing_down c' ∧ out_stream c' = out_stream c ++ frame).
Proof using He.
  intros Hc HN Hcause. pose proof Hc as ([Hf Hs _ _ _ _] & Hws & Hcm & Hopen & Hfl & Hfc). destruct Hcause.
  - destruct (conn_limits_small _ _ Hc) as [? _].
    eapply wp_mono; [eapply read_control; try done; [lia|by left]|].
    intros c' (w & input & _ & _ & _ & _ & Hres). unfold control_result in Hres.
    match goal with E : f_opcode f = OPCODE_CLOSE |- _ => rewrite E in Hres end.
    change (OPCODE_CLOSE =? OPCODE_CLOSE) with true in Hres. destruct Hres as [_ (ctx & Hctx & ->)].
    split; [|exact (ev_add (bev_output (c_bev c)) _)]. split_and!; try done. by right.
  - unfold conn_do. rewrite Hf, Hcm. cbv zeta. rewrite bool_decide_eq_true_2 by done.
    eapply wp_mono; [apply client_gone_ok with (N := N); [apply Hc|by eapply receiving_phase|done]|].
    intros c' [_ Hres]. destruct (Hres He Hws) as (ctx & Hctx & ->).
    split; [|exact (ev_add (bev_output (c_bev c)) _)]. split_and!; try done. by right.
Qed.

Definition total (ns : list Z) : Z := foldr Z.add 0 ns.

Lemma freed_stays evs c : c_freed c = true → wp e (run evs c) (eq c).
Proof using.
  intros Hf. induction evs as [|ev evs IH]; [by apply wp_ret|]. cbn [conn_run]. wstep.
  unfold conn_do at 1. rewrite Hf. by apply wp_ret.
Qed.

(** The output goes out in any pieces. *)
Lemma drains ns c :
  closing_down c → Forall (λ n, 0 <= n) ns →
  wp e (run (EvWritten <$> ns) c) (λ c',
    (c_freed c' = true ∨ closing_down c') ∧
    (ns ≠ [] → zlen (out_stream c) <= total ns → c_freed c' = true)).
Proof using Hlog.
  revert c. induction ns as [|n ns IH]; intros c Hc Hns.
  { apply wp_ret. split; [by right|done]. }
  pose proof Hc as (Hf & Hs & Hws & Hcl).
  apply Forall_cons_iff in Hns as [Hn Hns]. rewrite fmap_cons. cbn [conn_run total foldr] in *. wstep.
  destruct (Z.le_gt_cases (zlen (out_stream c)) n) as [Hle|Hgt].
  { eapply wp_mono; [by apply drained_freed|]. intros c' Hf'.
    eapply wp_mono; [by apply freed_stays|]. intros c'' <-. split; [by left|done]. }
  unfold conn_do. rewrite Hf. cbv zeta.
  destruct (evbuffer_remove _ n) as [w out] eqn:E. apply ev_remove in E as [_ E]; [|done].
  fold (out_stream c) in E. assert (zlen (ev_bytes out) = zlen (out_stream c) - n) as Hlen.
  { rewrite E, zlen_zdrop; lia. }
  rewrite ev_length, Hlen. destruct (Z.eqb_spec (zlen (out_stream c) - n) 0); [lia|].
  apply wp_ret. eapply wp_mono; [by apply IH|]. intros c' [Hc' Hl']. split; [done|]. intros _ Hl. apply Hl'.
  - intros ->. simpl in Hl. lia.
  - unfold out_stream at 1. cbn. rewrite Hlen. unfold total. lia.
Qed.
End reads.
