(* ===== verification/WsHandshake.v ===== *)
(** The handshake of a connection: the lines of the request, read in any pieces,
    lead to the abstract verdict and response of RqSpec.v. *)

From S2P Require Import Prelude CString Str Config Buffer WsMessage WsMessageSpec Assembly WsMessageProps WsTake WsFrame RqParser RqSpec RqProps Libevent WsServer WsConn WsEvents WsReads.

(** The lines of a request as they travel. *)
Definition CRLF_END : list Z := [13; 10].
Definition request_text (lines : list (list Z)) : list Z := concat ((λ l, l ++ CRLF_END) <$> lines).

(** The abstract parser stops at the line that completes the request or is in
    error; this is the last line. *)
Fixpoint parse_request (lines : list (list Z)) (p : aparse) : option aparse :=
  match lines with
  | [] => None
  | l :: lines =>
      p ← spec_add_line l p;
      if p_error p || p_done p then (if lines is [] then Some p else None) else parse_request lines p
  end.

(** What is known of the client's object when it has been created and until the
    first message. *)
Record greets {C} e (s : wsserver_t C) `{!WsClient e s} (I : C → Prop) : Prop := {
  gr_open ctx : I ctx → cl_open ctx;
  gr_create : wp e (ss_create_cb s) (λ r, match r with Some ctx => I ctx | None => e = Hostile end);
  gr_connected mb ctx : I ctx → wp e (cl_cb mb WSCB_CONNECTED ctx) I
}.

Lemma open_greets {C} e (s : wsserver_t C) `{!WsClient e s} : greets e s cl_open.
Proof. split; [done|apply cl_create|apply cl_connected]. Qed.

Section handshake.
Context {C B : Type} `{EvbufferLaws B}.
Context (SHA1 : list Z → list Z) (fnmatch : list Z → list Z → bool) (Hsha : sha1_ok SHA1).
Context (e : env) (s : wsserver_t C) `{!WsClient e s}.
Context (He : e ≠ Hostile) (I : C → Prop) (HI : greets e s I).
Implicit Types (c : wsconn_t C B) (p : aparse).
Local Abbreviation run := (conn_run SHA1 fnmatch e s).

(** A connection before its handshake. *)
Record starting c : Prop := {
  st_live : c_freed c = false;
  st_server : c_server c = s;
  st_wsmsg : wm_small (c_wsmsg c);
  st_buffer : buffer_wf (c_message_buffer c) ∧ b_max_length (c_message_buffer c) = 0;
  st_state : c_ws_state c = WS_ST_START;
  st_cm : c_cm_state c = CM_ST_CREATED;
  st_open : I (c_ctx c);
  st_closing : c_fl_ws_closing c = false
}.

(** The connection [c] with another request object and input buffer. *)
Definition with_request (h : request_t) (input : B) c : wsconn_t C B := c_set_req h (c_set_input input c).

Lemma starting_with h input c : starting c → starting (with_request h input c).
Proof using. intros []. by split. Qed.

(** A refused connection: the client is closed, the socket stays open. *)
Definition refused c : Prop :=
  c_freed c = false ∧ c_ws_state c = WS_ST_CLOSED ∧ c_cm_state c = CM_ST_CLOSING ∧ cl_closed (c_ctx c).

(** The end of the handshake with parser state [p]: the verdict decides, and the
    response is written; a line in error has no response. *)
Definition handshaken p c c' : Prop :=
  let '(ok, response) := spec_analyze SHA1 fnmatch (p_req p) (ss_conf s) in
  if p_error p then refused c' ∧ out_stream c' = out_stream c
  else out_stream c' = out_stream c ++ response ∧
       if (ok : bool) then receiving e s 0 c' ∧ c_wsmsg c' = c_wsmsg c ∧ I (c_ctx c') else refused c'.

Lemma starting_close c : starting c →
  wp e (wsconn_close c) (λ c', refused c' ∧ out_stream c' = out_stream c).
Proof using HI.
  intros []. unfold wsconn_close, alive. rewrite st_live0. wstep. apply wp_ret.
  cbn [c_cm_state c_set_ws_state]. rewrite bool_decide_eq_true_2 by done. wstep.
  eapply wp_mono; [apply (c_call_spec _ _ _ _ _ cl_closed); [done|by apply cl_close, HI]|].
  intros c' (ctx & Hctx & ->). by apply wp_ret.
Qed.

Lemma wsconn_handshake_spec p c :
  starting c → parse_rel p (c_req c) → p_error p = false → in_bytes c = [] →
  wp e (wsconn_handshake SHA1 fnmatch c) (handshaken p c).
Proof using He Hsha HI.
  intros Hc Hp Herr Hin. pose proof Hc as [Hf Hs Hw [Hb Hm] Hws Hcm Hopen Hfl].
  unfold wsconn_handshake. wstep. apply wp_local_array; [done|]. intros b Hbl Hbb.
  destruct (str_init_spec b 1024 Hbl ltac:(done) Hbb) as (r & Er & Hr). wstep. eapply wp_opt; [exact Er|].
  wstep. eapply wp_mono.
  { apply (rq_analyze_spec SHA1 fnmatch e He Hsha (p_req p)); [apply Hp|eauto with cstr]. }
  intros [ok r'] [Hok Hr']. unfold handshaken. rewrite Herr. unfold c_conf in Hok, Hr'. rewrite Hs in Hok, Hr'.
  destruct (spec_analyze _ _ _ _) as [ok' response]. cbn [fst snd] in *. subst ok'.
  destruct (str_is_length _ _ _ Hr') as (El & Hlt & _ & Et).
  wstep. eapply wp_opt.
  { unfold str_get_length. destruct (str_is_raw _ _ _ Hr') as [_ _ Hz _]. zlen_pos.
    apply mem_read_Some; rewrite ?Hz; lia. }
  rewrite zdrop_0. fold (str_get_length r'). unfold str_get_length. rewrite <-Et. cbv zeta.
  set (c1 := c_set_output _ c).
  assert (starting c1) as Hc1 by by split.
  assert (out_stream c1 = out_stream c ++ response) as Hout by apply out_stream_add.
  destruct ok.
  - assert (∀ c2 mb, c_server c2 = s → I (c_ctx c2) →
      wp e (c_notify WSCB_CONNECTED mb c2) (λ c', ∃ ctx, I ctx ∧ c' = c_set_ctx ctx c2)) as Hnotify.
    { intros c2 mb Hs2 Ho2. unfold c_notify. rewrite Hs2, cl_registered.
      apply (c_call_spec e s c2 _ mb I); [done|by apply HI]. }
    wstep. eapply wp_mono; [by apply Hnotify|]. intros c2 (ctx & Hctx & ->). cbv zeta.
    eapply wp_mono; [by apply Hnotify|]. intros c3 (ctx3 & Hctx3 & ->).
    pose proof (gr_open _ _ _ HI _ Hctx3). split; [exact Hout|].
    split; [|done]. split; [split; try done|done].
    unfold input_ok. change (ev_bytes _) with (in_bytes c). by rewrite Hin.
  - eapply wp_mono; [by apply starting_close|]. intros c' [? E]. split; [by rewrite E|done].
Qed.

(** ** Reading the lines *)

Lemma request_text_cons l lines : request_text (l :: lines) = l ++ 13 :: 10 :: request_text lines.
Proof. unfold request_text. rewrite fmap_cons. cbn [concat]. by rewrite <-app_assoc. Qed.

(** The first line feed of a text is in one place. *)
Lemma first_lf (a b x y : list Z) : a ++ 10 :: x = b ++ 10 :: y → (10 ∉ a) → (10 ∉ b) → a = b ∧ x = y.
Proof.
  revert b. induction a as [|c a IH]; intros [|d b] E Ha Hb; simplify_eq/=; [done| | |].
  - by destruct Hb; apply elem_of_cons; left.
  - by destruct Ha; apply elem_of_cons; left.
  - rewrite not_elem_of_cons in *.
    destruct Ha, Hb, (IH b) as [-> ->]; done.
Qed.

(** A line that the event buffer yields is the next one of the request. *)
Lemma readln_request b line b' l lines later :
  evbuffer_readln b = Some (line, b') → ev_bytes b ++ later = request_text (l :: lines) → (10 ∉ l) →
  line = l ∧ ev_bytes b' ++ later = request_text lines.
Proof.
  intros Hr Ht Hl. apply ev_readln in Hr as [Hline Hsplit]. rewrite request_text_cons in Ht.
  assert (10 ∉ l ++ [13]) as Hl'. { rewrite elem_of_app, elem_of_cons, elem_of_nil. intros [?|[?|?]]; done. }
  change (13 :: 10 :: request_text lines) with ([13] ++ 10 :: request_text lines) in Ht.
  rewrite (app_assoc l) in Ht. destruct Hsplit as [[E Hcr]|E]; rewrite E, <-app_assoc in Ht; cbn [app] in Ht.
  - destruct (first_lf _ _ _ _ Ht) as [El _]; [done|done|]. by destruct (Hcr l).
  - change (13 :: 10 :: ev_bytes b' ++ later) with ([13] ++ 10 :: ev_bytes b' ++ later) in Ht.
    rewrite (app_assoc line) in Ht. destruct (first_lf _ _ _ _ Ht) as [El Er]; [|done|].
    { rewrite elem_of_app, elem_of_cons, elem_of_nil. intros [?|[?|?]]; done. }
    by apply app_inj_tail in El as [-> _].
Qed.

(** Between two reads: some lines are to come, the first of them may have arrived
    in part. *)
Definition awaiting (pf : aparse) (later : list Z) c : Prop :=
  ∃ p lines, parse_rel p (c_req c) ∧ parse_request lines p = Some pf ∧
    in_bytes c ++ later = request_text lines ∧ Forall (λ l, line_ok l ∧ (10 ∉ l)) lines.

Lemma readln_none_later b lines later :
  evbuffer_readln b = None → ev_bytes b ++ later = request_text lines → lines ≠ [] → later ≠ [].
Proof.
  intros Hr Ht Hl ->. apply ev_readln_none in Hr. rewrite app_nil_r in Ht. rewrite Ht in Hr.
  destruct lines as [|l lines]; [done|]. rewrite request_text_cons in Hr. set_solver.
Qed.

Lemma read_lines_spec fuel pf later c :
  starting c → awaiting pf later c → (Z.to_nat (zlen (in_bytes c)) < fuel)%nat →
  wp e (read_lines SHA1 fnmatch fuel c) (λ c',
    (later ≠ [] ∧ starting c' ∧ awaiting pf later c' ∧ c_wsmsg c' = c_wsmsg c ∧
       out_stream c' = out_stream c) ∨
    (later = [] ∧ handshaken pf c c')).
Proof using He Hsha HI.
  revert c. induction fuel as [|fuel IH]; intros c Hc (p & lines & Hp & Hpf & Ht & Hlines) Hfuel; [lia|].
  pose proof (st_server _ Hc) as Hs. cbn [read_lines]. unfold in_bytes in Ht.
  destruct (evbuffer_readln _) as [[line input]|] eqn:Er.
  2: { wstep. apply wp_LOG; [by left|]. apply wp_ret. left.
       split; [eapply readln_none_later; [done|done|by intros ->]|]. split; [done|].
       split; [by exists p, lines|done]. }
  destruct lines as [|l lines]; [done|]. apply Forall_cons_iff in Hlines as [[(Hlc & Hlp & Hll) Hl10] Hlines].
  destruct (readln_request _ _ _ _ _ _ Er Ht Hl10) as [-> Ht'].
  assert ((Z.to_nat (zlen (ev_bytes input)) < fuel)%nat) as Hshort.
  { apply ev_readln in Er as [_ [[E _]|E]]; unfold in_bytes in Hfuel; rewrite E, zlen_app, ?zlen_cons in Hfuel;
      zlen_pos; lia. }
  cbv zeta. wstep. eapply wp_opt; [by apply cstr_app|]. wstep.
  cbn [parse_request] in Hpf. destruct (spec_add_line l p) as [p1|] eqn:Ep; [|done]. cbn [mbind option_bind] in Hpf.
  eapply wp_mono; [by apply (rq_add_line_spec e He l p (c_req c) p1)|]. intros h Hh. cbv zeta.
  set (c1 := c_set_req h _). assert (starting c1) as Hc1 by by apply (starting_with h input).
  rewrite (pr_error _ _ Hh), (pr_done _ _ Hh).
  destruct (p_error p1) eqn:Eerr; cbn [orb] in Hpf.
  { destruct lines; simplify_eq. cbn in Ht'. apply app_eq_nil in Ht' as [Ei ->].
    wstep. apply wp_LOG; [by left|]. eapply wp_mono; [by apply starting_close|].
    intros c' [Href Hout]. right. split; [done|]. unfold handshaken.
    destruct (spec_analyze _ _ _ _) as [ok response]. rewrite Eerr. by split. }
  destruct (p_done p1) eqn:Edone.
  { destruct lines; simplify_eq. cbn in Ht'. apply app_eq_nil in Ht' as [Ei ->].
    eapply wp_mono; [by apply (wsconn_handshake_spec pf c1)|]. intros c' Hh'. by right. }
  eapply wp_mono; [apply (IH c1); [done| |done]|].
  { by exists p1, lines. }
  intros c' Hres. exact Hres.
Qed.

(** One read of a connection that starts. *)
Lemma read_start pf d later c :
  starting c → awaiting pf (d ++ later) c →
  wp e (conn_do SHA1 fnmatch e s (EvRead d) c) (λ c',
    (later ≠ [] ∧ starting c' ∧ awaiting pf later c' ∧ c_wsmsg c' = c_wsmsg c ∧
       out_stream c' = out_stream c) ∨
    (later = [] ∧ handshaken pf c c')).
Proof using He Hsha HI.
  intros Hc (p & lines & Hp & Hpf & Ht & Hlines). unfold conn_do. rewrite (st_live _ Hc). cbv zeta.
  set (c1 := c_set_input _ c). unfold wsconn_read_cb, alive.
  change (c_freed c1) with (c_freed c). rewrite (st_live _ Hc). wstep. apply wp_ret.
  change (c_ws_state c1) with (c_ws_state c). rewrite (st_state _ Hc).
  assert (starting c1) as Hc1 by by apply (starting_with (c_req c)).
  eapply wp_mono; [apply (read_lines_spec _ pf later c1); [done| |]|].
  - exists p, lines. split; [done|]. split; [done|]. split; [|done]. unfold in_bytes. cbn.
    by rewrite ev_add, <-app_assoc.
  - rewrite ev_length. unfold in_bytes. lia.
  - intros c' Hres. exact Hres.
Qed.

(** All the reads of a request. *)
Lemma read_request pf reads c :
  starting c → awaiting pf (concat reads) c → Forall (λ d, d ≠ []) reads → reads ≠ [] →
  wp e (run (EvRead <$> reads) c) (handshaken pf c).
Proof using He Hsha HI.
  intros Hc Ha Hne. revert c Hc Ha. induction Hne as [|d reads Hd Hne IH]; [done|]. intros c Hc Ha _.
  rewrite fmap_cons. cbn [conn_run concat] in *. wstep.
  eapply wp_mono; [by apply (read_start pf d (concat reads))|]. intros c1 [(Hl & Hc1 & Ha1 & Hw & Hout)|[Hl Hh]].
  - eapply wp_mono; [apply (IH c1); [done|done|by intros ->]|]. intros c' Hh. unfold handshaken in *.
    destruct (spec_analyze _ _ _ _) as [ok response]. by rewrite <-Hout, <-Hw.
  - destruct Hne as [|d' reads Hd' _]; [by apply wp_ret|]. cbn [concat] in Hl.
    by apply app_eq_nil in Hl as [? _].
Qed.

(** ** The accepted socket *)

Lemma wsconn_create_spec : conf_small (ss_conf s) →
  wp e (wsconn_create s) (λ r, ∃ c, r = Some c ∧ starting c ∧ parse_rel p_init (c_req c) ∧
    in_bytes c = [] ∧ out_stream c = [] ∧ conn_asm c = asm_quiet 0 ∧ conn_limits c = conf_limits (ss_conf s)).
Proof using He HI.
  intros Hconf. unfold wsconn_create. wstep. apply wp_alloc_ok; [done|done|]. cbn [negb].
  wstep. apply wp_alloc_ok; [done|done|]. wstep. eapply wp_mono; [by apply rq_create_spec|].
  intros r (h & -> & Hh). wstep. eapply wp_mono; [by apply wsmsg_create_small|].
  intros [w|]; [|done]. intros (Hw & Hq & Hl). wstep. eapply wp_mono; [by apply buffer_create_spec|].
  intros [mb|]; [|done]. intros (Hmb & _ & Hm & _). wstep. eapply wp_mono; [apply HI|].
  intros [ctx|] Hctx; [|done]. cbn [negb]. apply wp_ret. eexists. split; [done|].
  split; [by split|]. split; [done|]. split; [apply ev_new|]. split; [apply ev_new|]. done.
Qed.

(** A socket is accepted and sends its request. *)
Definition handshake_session (reads : list (list Z)) : M (option (wsconn_t C B)) :=
  r ← ws_accept_conn_cb s;
  match r with
  | Some c => c ← run (EvRead <$> reads) c; mret (Some c)
  | None => mret None
  end.

Lemma handshake_session_spec lines pf reads :
  conf_small (ss_conf s) → Forall (λ l, line_ok l ∧ (10 ∉ l)) lines → parse_request lines p_init = Some pf →
  Forall (λ d, d ≠ []) reads → concat reads = request_text lines →
  wp e (handshake_session reads) (λ r, ∃ c c', r = Some c' ∧ out_stream c = [] ∧
    conn_asm c = asm_quiet 0 ∧ conn_limits c = conf_limits (ss_conf s) ∧ handshaken pf c c').
Proof using He Hsha HI.
  intros Hconf Hlines Hpf Hne Hcat. unfold handshake_session, ws_accept_conn_cb. wstep. wstep.
  eapply wp_mono; [by apply wsconn_create_spec|].
  intros r (c & -> & Hc & Hh & Hin & Hout & Hq & Hl). wstep. apply wp_LOG; [by left|]. apply wp_ret. wstep.
  eapply wp_mono; [apply (read_request pf); [done| |done|]|].
  - exists p_init, lines. by rewrite Hin.
  - intros ->. destruct lines as [|l lines]; [done|]. rewrite request_text_cons in Hcat. by destruct l.
  - intros c' Hh'. apply wp_ret. by exists c, c'.
Qed.
End handshake.
