(* ===== verification/ManagerClient.v ===== *)
(** The connection manager as the client of the WebSocket server: it keeps the
    contract [WsClient] when allocations succeed. *)

From S2P Require Import Prelude CString Str Config Buffer WsMessage WsMessageSpec WsFrame RqParser Expat StreamParse Framer Libevent WsServer CManager WsConn.

(** Allocations succeed. *)
Class Granted (e : env) : Prop := granted : e ≠ Hostile.
#[export] Instance benign_granted : Granted Benign.
Proof. done. Qed.
#[export] Instance garbage_granted : Granted Garbage.
Proof. done. Qed.

(** Expat's strings can be copied. *)
Class ExpatSmall (P : Type) `{Expat P} : Prop :=
  expat_small (p : P) s n status evs p' : XML_Parse p s n = (status, evs, p') → Forall ev_small evs.

(** The manager with all it owns, and after [cm_close]. *)
Record cm_open {P B} (cm : cmanager_t P B) : Prop := {
  co_live : cm_freed cm = false;
  co_parser : ∃ p x, cm_parser cm = Some p ∧ sp_parser p = Live x;
  co_buffer : ∃ b, cm_buffer cm = Some b ∧ buffer_wf b ∧ b_max_length b = 0;
  co_framer : ∃ f, cm_framer cm = Some f ∧ framer_whole f;
  co_bev : cm_state cm = CM_FORWARD → is_Some (cm_bev cm)
}.

Definition cm_closed {P B} (cm : cmanager_t P B) : Prop :=
  cm_freed cm = false ∧ cm_parser cm = None ∧ cm_framer cm = None.

Section manager.
Context {P B : Type} `{Expat P} `{!ExpatSmall P} `{EvbufferLaws B} (e : env) `{He : !Granted e}.
Implicit Types (cm : cmanager_t P B).

Lemma free_ptr_ok {A} (p : ptr A) (Q : () → Prop) : p ≠ Dangling → Q () → wp e (free_ptr p) Q.
Proof using. intros. destruct p; [by apply wp_ret|done|by apply wp_ret]. Qed.

Lemma framer_delete_ok (f : framer_t P) : framer_whole f → wp e (framer_delete f) (λ _, True).
Proof using.
  intros (p & b & Hp & Hb & Hl). unfold framer_delete, framer_cleanup. rewrite Hp, Hb. wstep.
  wstep. apply free_ptr_ok; [done|]. wstep. apply free_ptr_ok; [done|].
  rewrite Hl. cbn [andb]. apply wp_ret. by apply wp_ret.
Qed.

Lemma framer_create_ok :
  wp e framer_create (λ r, ∃ f : framer_t P, r = Some f ∧ framer_fresh f).
Proof using He.
  unfold framer_create. wstep. apply wp_alloc_ok; [done|done|]. cbn [negb].
  wstep. apply wp_parser_create; [done|]. wstep.
  eapply wp_mono; [by apply buffer_create_spec|]. intros [b|]; [|done]. intros (Hb & Hc & Hm & _).
  apply wp_ret. eexists. split; [done|]. by exists b.
Qed.

(** Nothing has come from the server yet. *)
Definition framer_unused cm : Prop := ∃ f, cm_framer cm = Some f ∧ framer_fresh f.

(** A manager that has not heard from the browser. *)
Record cm_fresh cm : Prop := {
  cf_state : cm_state cm = CM_START;
  cf_parser : cm_parser cm = Some (Streamparser (Live xml_fresh) false None);
  cf_buffer : ∃ b, cm_buffer cm = Some b ∧ buffer_wf b ∧ b_max_length b = 0 ∧ contents b = [];
  cf_framer : framer_unused cm;
  cf_rest : cm_open cm
}.

Lemma cm_create_ok : wp e cm_create (λ r, ∃ cm, r = Some cm ∧ cm_fresh cm).
Proof using He.
  unfold cm_create. wstep. apply wp_alloc_ok; [done|done|]. cbn [negb]. wstep.
  unfold streamparser_create. wstep. apply wp_alloc_ok; [done|done|]. wstep.
  unfold streamparser_initialize. wstep. apply wp_ret. wstep. apply wp_parser_create; [done|].
  wstep. wstep. wstep. eapply wp_mono; [by apply buffer_create_spec|].
  intros [b|]; [|done]. intros (Hb & Hc & Hm & _). wstep.
  eapply wp_mono; [apply framer_create_ok|]. intros r (f & -> & Hf). apply wp_ret.
  eexists. split; [done|]. split; [done|done|by exists b|by exists f|]. split; cbn; try done.
  - by eexists _, _.
  - by exists b.
  - exists f. split; [done|by apply framer_fresh_whole].
Qed.

Lemma cm_close_ok cm : cm_freed cm = false →
  (∃ p, cm_parser cm = Some p ∧ sp_parser p ≠ Dangling) ∨ cm_parser cm = None →
  (∃ f, cm_framer cm = Some f ∧ framer_whole f) ∨ cm_framer cm = None →
  wp e (cm_close cm) cm_closed.
Proof using.
  intros Hf Hp Hfr. unfold cm_close, cm_alive. rewrite Hf. wstep. apply wp_ret. wstep.
  apply (wp_mono _ _ (λ _, True)).
  { destruct Hfr as [(f & -> & Hs)| ->]; [by apply framer_delete_ok|by apply wp_ret]. }
  intros _ _. wstep. apply (wp_mono _ _ (λ _, True)).
  { destruct Hp as [(p & -> & Hs)| ->]; [by apply free_ptr_ok|by apply wp_ret]. }
  intros _ _. apply wp_ret. by split.
Qed.

Lemma cm_open_close cm : cm_open cm → wp e (cm_close cm) cm_closed.
Proof using.
  intros [Hf (p & x & Hp & Hx) _ Hfr _]. apply cm_close_ok; [done| |by left].
  left. exists p. split; [done|]. by rewrite Hx.
Qed.

Lemma cm_delete_ok cm : cm_open cm ∨ cm_closed cm → wp e (cm_delete cm) (λ _, True).
Proof using.
  intros Ho. unfold cm_delete. wstep. apply (wp_mono _ _ cm_closed).
  - destruct Ho as [Ho|(Hf & Hp & Hfr)]; [by apply cm_open_close|]. apply cm_close_ok; auto.
  - intros cm' _. by apply wp_ret.
Qed.

(** ** A message of the browser *)

Definition msg_str (m : list Z) : list Z := default m (until_nul m).

Lemma until_nul_length m k : until_nul m = Some k → zlen k <= zlen m.
Proof.
  revert k. induction m as [|c m IH]; intros k; simpl; [done|]. rewrite zlen_cons.
  destruct (c =? 0); [intros [= <-]; zlen_pos; change (zlen []) with 0; lia|].
  destruct (until_nul m) as [k'|]; [|done]. simpl. intros [= <-]. rewrite zlen_cons.
  specialize (IH k' eq_refl). lia.
Qed.

Lemma msg_str_length m : zlen (msg_str m) <= zlen m.
Proof. unfold msg_str. destruct (until_nul m) eqn:E; simpl; [by eapply until_nul_length|done]. Qed.

(** The connection the manager asks for. *)
Lemma cm_connect_ok cm : wp e (cm_connect cm) (λ cm',
  cm' = cm_set_connecting (Some (cm_server cm, XMPP_PORT))
          (cm_set_dnsbase true (cm_set_bev (Some (Bev evbuffer_new evbuffer_new)) cm))).
Proof using He.
  unfold cm_connect. wstep. apply wp_alloc_ok; [done|done|]. cbn [negb]. cbv zeta.
  wstep. apply wp_alloc_ok; [done|done|]. by apply wp_ret.
Qed.

Lemma cm_open_parser p x cm : sp_parser p = Live x → cm_open cm → cm_open (cm_set_parser (Some p) cm).
Proof using. intros ? []. split; cbn; try done. by eexists _, _. Qed.
Lemma cm_open_buffer b cm : buffer_wf b → b_max_length b = 0 → cm_open cm →
  cm_open (cm_set_buffer (Some b) cm).
Proof using. intros ? ? []. split; cbn; try done. by eexists. Qed.
Lemma cm_open_bev bev cm : cm_open cm → cm_open (cm_set_bev (Some bev) cm).
Proof using. intros []. split; cbn; try done. Qed.
Lemma cm_open_connect h a bev cm : cm_open cm →
  cm_open (cm_set_state CM_CONNECT (cm_set_connecting a (cm_set_dnsbase true
    (cm_set_bev (Some bev) (cm_set_server h cm))))).
Proof using. intros []. split; cbn; try done. Qed.

(** What a message does in each state. *)
Definition after_message (m : list Z) cm cm' : Prop :=
  match cm_state cm with
  | CM_START =>
      ∃ p x status evs x' b b', cm_parser cm = Some p ∧ sp_parser p = Live x ∧
        XML_Parse x (msg_str m) (zlen (msg_str m)) = (status, evs, x') ∧
        cm_buffer cm = Some b ∧ buffer_wf b' ∧ b_max_length b' = 0 ∧
        let p' := Streamparser (Live x') (sp_error p || negb status) (or_else (sp_server p) (server_of evs)) in
        let cm1 := cm_set_parser (Some p') cm in
        if sp_error p' then cm' = cm1 else
        (b_length b + zlen m + 1024 <= PTRDIFF_MAX → contents b' = contents b ++ m) ∧
        let cm2 := cm_set_buffer (Some b') cm1 in
        match sp_server p' with
        | None => cm' = cm2
        | Some host => ∃ h, (zlen host < PTRDIFF_MAX → h = Some host) ∧
            cm' = cm_set_state CM_CONNECT (cm_set_connecting (Some (h, XMPP_PORT)) (cm_set_dnsbase true
              (cm_set_bev (Some (Bev evbuffer_new evbuffer_new)) (cm_set_server h cm2))))
        end
  | CM_CONNECT => cm' = cm
  | CM_FORWARD => ∃ bev, cm_bev cm = Some bev ∧
      cm' = cm_set_bev (Some (Bev (bev_input bev) (evbuffer_add (bev_output bev) m))) cm
  end.

Lemma strdup_total s (Q : option (list Z) → Prop) :
  (∀ r, (zlen s < PTRDIFF_MAX → r = Some s) → Q r) → wp e (strdup s) Q.
Proof using He.
  intros HQ. unfold strdup. wstep. zlen_pos. apply wp_malloc_ok; [lia| |].
  - intros [?|?]; [done|]. apply wp_ret. apply HQ. lia.
  - apply wp_ret. by apply HQ.
Qed.

Lemma cm_onmessage_ok cm mb :
  cm_open cm → buffer_wf mb → b_length mb <= INT_MAX →
  wp e (cm_onmessage cm (b_data mb) (b_length mb)) (λ cm', cm_open cm' ∧ after_message (contents mb) cm cm').
Proof using All.
  intros Ho Hmb Hl. pose proof Ho as [Hf (p & x & Hp & Hx) (b & Hb & Hbwf & Hbm) Hfr Hbev].
  pose proof (zlen_contents _ Hmb) as Hz. pose proof Hmb as [].
  unfold cm_onmessage, cm_alive. rewrite Hf. wstep. apply wp_ret.
  unfold after_message. destruct (cm_state cm) eqn:Hst.
  - wstep. unfold strndup. change (ztake (b_length mb) (b_data mb)) with (contents mb).
    fold (msg_str (contents mb)). pose proof (msg_str_length (contents mb)) as Hml.
    apply wp_strdup; [done|unfold PTRDIFF_MAX, INT_MAX in *; lia|].
    destruct (XML_Parse x (msg_str (contents mb)) (zlen (msg_str (contents mb)))) as [[status evs] x'] eqn:Epar.
    wstep. eapply wp_opt; [exact Hp|]. wstep.
    eapply wp_mono; [eapply streamparser_add_spec; eauto using expat_small; lia|].
    set (p2 := Streamparser (Live x') (sp_error p || negb status) (or_else (sp_server p) (server_of evs))).
    intros [ok p3] [_ ->]. cbv zeta. unfold streamparser_is_error, streamparser_get_server.
    destruct (sp_error p2) eqn:Eerr.
    { apply wp_ret. split; [by eapply cm_open_parser|]. exists p, x, status, evs, x', b, b.
      cbv zeta. fold p2. rewrite Eerr. by split_and!. }
    wstep. eapply wp_opt; [exact Hb|]. wstep. unfold buffer_get_length.
    assert (accepted b (b_length mb) = b_length mb) as Ha by (unfold accepted; by rewrite Hbm).
    eapply wp_mono; [apply buffer_append_spec; rewrite ?Ha; auto; unfold PTRDIFF_MAX, INT_MAX in *; lia|].
    intros [ok2 b'] (Hb' & Hbm' & _ & Hr). rewrite Ha, zdrop_0 in Hr. rewrite Hbm in Hbm'.
    assert (b_length b + zlen (contents mb) + 1024 <= PTRDIFF_MAX → contents b' = contents b ++ contents mb) as Hcont.
    { intros Hfit. destruct ok2; [by destruct Hr as [-> _]|]. destruct Hr as (_ & ? & [?|[?|?]]); [done|lia|lia]. }
    assert (cm_open (cm_set_buffer (Some b') (cm_set_parser (Some p2) cm))) as Ho2
      by (apply cm_open_buffer; [done|done|by eapply cm_open_parser]).
    destruct (sp_server p2) as [host|] eqn:Esrv.
    2: { apply wp_ret. split; [done|]. exists p, x, status, evs, x', b, b'.
         change (or_else (sp_server p) (server_of evs) = None) in Esrv.
         cbv zeta. fold p2. rewrite Eerr. change (sp_server p2) with (or_else (sp_server p) (server_of evs)).
         rewrite Esrv. by split_and!. }
    wstep. apply strdup_total. intros h Hh. wstep.
    eapply wp_mono; [apply cm_connect_ok|]. intros cm' ->. apply wp_ret.
    split; [by apply cm_open_connect|]. exists p, x, status, evs, x', b, b'.
    change (or_else (sp_server p) (server_of evs) = Some host) in Esrv.
    cbv zeta. fold p2. rewrite Eerr. change (sp_server p2) with (or_else (sp_server p) (server_of evs)).
    rewrite Esrv. split_and!; try done. by exists h.
  - apply wp_ret. by split.
  - destruct (Hbev eq_refl) as [bev Ebev]. wstep. eapply wp_opt; [apply mem_read_Some; lia|].
    rewrite zdrop_0. unfold cm_send. wstep. eapply wp_opt; [exact Ebev|]. apply wp_ret.
    split; [by apply cm_open_bev|]. by exists bev.
Qed.

(** ** The contract *)

Lemma cm_message_ok mb cm : buffer_wf mb → (e ≠ Hostile → b_length mb <= INT_MAX) → cm_open cm →
  wp e (cmanager (Some mb) WSCB_MESSAGE cm) cm_open.
Proof using All.
  intros Hmb Hl Ho. unfold cmanager. wstep. apply wp_ret.
  eapply wp_mono; [by apply cm_onmessage_ok; auto|]. by intros cm' [? _].
Qed.

Lemma cm_created : wp e (ss_create_cb (cm_wsserver (P := P) (B := B) config_zero)) (λ r,
  match r with Some cm => cm_open cm | None => e = Hostile end).
Proof using All. eapply wp_mono; [apply cm_create_ok|]. intros r (cm & -> & Hcm). apply Hcm. Qed.

#[export] Instance manager_client (conf : jsconf_t) : WsClient e (cm_wsserver (P := P) (B := B) conf) := {|
  cl_cb := cmanager;
  cl_registered := (eq_refl : ss_cb (cm_wsserver (P := P) (B := B) conf) = Some cmanager);
  cl_open := cm_open;
  cl_closed := cm_closed;
  cl_shutdown := cm_close;
  cl_create := cm_created;
  cl_connected mb cm Ho := wp_ret e cm cm_open Ho;
  cl_message := cm_message_ok;
  cl_close mb cm Ho := cm_open_close cm Ho;
  cl_delete mb cm Ho := cm_delete_ok cm Ho;
  cl_shutdown_ok := cm_open_close
|}.
End manager.
