(* ===== verification/WsConnProps.v ===== *)
(** Properties of the server's connections, against any client that keeps the
    contract [WsClient]; the witnesses have the connection manager as client. *)

From S2P Require Import Prelude CString Str Config Buffer WsMessage WsFrameSpec WsMessageSpec Rfc6455 Assembly WsMessageProps WsTake WsFrame RqParser RqSpec RqProps Expat StreamParse Framer Libevent WsServer CManager WsConn WsEvents WsReads WsHandshake ManagerClient.

(** ** A concrete connection *)

#[export] Instance script_small ts : Forall ev_small (events_at 0 ts) → ExpatSmall (H := script ts) Z.
Proof.
  intros Hs p m n status evs p' [= <- <- <-]. apply Forall_forall. intros ev Hin.
  rewrite Forall_forall in Hs. apply Hs. apply list_elem_of_In.
  apply list_elem_of_In, list_elem_of_filter in Hin as [_ Hin]. done.
Qed.

(** A parser that reports nothing. *)
Definition silent : Expat Z := script [].
#[export] Instance silent_small : ExpatSmall (H := silent) Z.
Proof. apply script_small, Forall_nil_2. Qed.

Local Abbreviation manager := (cmanager_t Z (list Z)).
Local Abbreviation server := (cm_wsserver (H := silent) (B := list Z) config_zero).
Local Abbreviation client := (manager_client (H := silent) Garbage config_zero).

Definition idle_framer : framer_t Z := Framer (Live 0) 0 false 0 [] false (Live empty_buffer) 0.
Definition idle_manager : manager :=
  Cmanager CM_START (Some (Streamparser (Live 0) false None)) None None false None
    (Some empty_buffer) (Some idle_framer) false.
Definition idle_wsmsg : wsmsg_t :=
  Wsmsg false false false (Buffer (replicate 128 0) 0 128 200) (Buffer (replicate 100 0) 0 100 100)
    false 0 false (Buffer (replicate 128 0) 0 128 1000) 0 false 100.
Definition idle_conn : wsconn_t manager (list Z) :=
  Wsconn server WS_ST_RECEIVING CM_ST_CREATED false false (Bev [] []) (blank_request ST_HEADER)
    idle_wsmsg empty_buffer idle_manager 0 false.

Lemma idle_wsmsg_small : wm_small idle_wsmsg.
Proof. split; try (unfold INT_MAX; done). split; try done; split; try done; auto; decided. Qed.

Lemma idle_manager_open : cm_open idle_manager.
Proof.
  split; try done; [by eexists _, _| |eexists; split; [done|by eexists _, _]].
  exists empty_buffer. split; [done|]. split; [apply empty_buffer_wf|done].
Qed.

Lemma idle_receiving : receiving (H0 := evbuffer_list_laws) Garbage server (WsClient0 := client) 0 idle_conn.
Proof.
  split; [split; try done|split_and!; try done; apply idle_manager_open].
  - apply idle_wsmsg_small.
  - apply empty_buffer_wf.
Qed.

Definition sample_sha : list Z → list Z := sample_sha1.
Definition no_fnmatch : list Z → list Z → bool := λ _ _, false.

(** ** A client that keeps the contract when allocations fail

    It counts the messages; [None] when it has been closed. *)
Section counter.
Context (e : env).

Definition counter_cb : ws_cb_t (option nat) := λ _ what n,
  match what with
  | WSCB_CONNECTED => mret n
  | WSCB_MESSAGE => mret (S <$> n)
  | WSCB_CLOSE | WSCB_DELETE => mret None
  end.
Definition counter_server : wsserver_t (option nat) :=
  Wsserver (ok ← malloc_ok 8; mret (if (ok : bool) then Some (Some 0%nat) else None))
    (λ _, mret ()) (Some counter_cb) config_zero.

Lemma counter_created : wp e (ss_create_cb counter_server) (λ r,
  match r with Some n => is_Some n | None => e = Hostile end).
Proof. cbn. wstep. apply wp_malloc_ok; [done|intros [?|?]; [by apply wp_ret|done]|]. apply wp_ret. by eexists. Qed.

Lemma counter_message mb n : buffer_wf mb → (e ≠ Hostile → b_length mb <= INT_MAX) → is_Some n →
  wp e (counter_cb (Some mb) WSCB_MESSAGE n) is_Some.
Proof. intros _ _ [k ->]. apply wp_ret. by eexists. Qed.

#[export] Instance counter_client : WsClient e counter_server := {|
  cl_cb := counter_cb;
  cl_registered := (eq_refl : ss_cb counter_server = Some counter_cb);
  cl_open := is_Some;
  cl_closed n := n = None;
  cl_shutdown _ := mret None;
  cl_create := counter_created;
  cl_connected mb n Hn := wp_ret e n is_Some Hn;
  cl_message := counter_message;
  cl_close mb n _ := wp_ret e None (λ n, n = None) eq_refl;
  cl_delete mb n _ := wp_ret e None (λ _, True) I;
  cl_shutdown_ok n _ := wp_ret e None (λ n, n = None) eq_refl
|}.

Definition counter_conn : wsconn_t (option nat) (list Z) :=
  Wsconn counter_server WS_ST_RECEIVING CM_ST_CREATED false false (Bev [] []) (blank_request ST_HEADER)
    idle_wsmsg empty_buffer (Some 0%nat) 0 false.

Lemma counter_receiving : receiving (H0 := evbuffer_list_laws) e counter_server 0 counter_conn.
Proof.
  split; [split; try done|split_and!; try done; by eexists].
  - apply idle_wsmsg_small.
  - apply empty_buffer_wf.
Qed.
End counter.

(** ** The life of a connection *)

(** C5: an established connection, with any client that keeps the contract [WsClient], any
    bytes of the browser in any reads, any events of the sockets and of the
    client in any order, and allocations that may fail, has no undefined
    behaviour, provided that log messages of priority [LOG_INFO] are masked (otherwise
    [verbose_log_ub] applies): every callback returns, nothing is used after it has been
    freed, the client gets messages only while it is open, is closed at most once and
    deleted once; the states [ws_state] and [cm_state] stay among the reachable pairs of
    [conn_phase], and [ws_state] never goes back.  The connection manager keeps the
    contract when allocations succeed, [counter_client] also when they fail. *)
Theorem conn_lifecycle {C B} `{EvbufferLaws B} SHA1 fnmatch e (s : wsserver_t C) `{!WsClient e s}
    evs N (c : wsconn_t C B) :
  logged (ss_conf s) LOG_INFO = false → receiving e s N c → 0 <= N → N + received evs <= 2 ^ 61 →
  Forall (event_ok e s) evs →
  wp e (conn_run SHA1 fnmatch e s evs c) (λ c',
    conn_inv e s (N + received evs) c' ∧ (life c <= life c')%nat).
Proof.
  intros Hlog Hc HN Hl Hevs. apply conn_run_ok; try done. right. split; [apply Hc|].
  by eapply receiving_phase.
Qed.

Definition stray_events : list (conn_event manager) :=
  [EvRead [0x89; 0x81; 1; 2]; EvSend (bs "<a/>"); EvRead [3; 4; 5; 0x88]; EvWritten 3;
   EvRead [0; 0x81; 0x7f]; EvServerGone; EvEvent (Events false false true); EvWritten 9].

Definition counter_events : list (conn_event (option nat)) :=
  [EvRead [0x89; 0x81; 1; 2]; EvSend (bs "<a/>"); EvRead [3; 4; 5; 0x81]; EvWritten 3;
   EvRead [0x81; 1; 2; 3; 4; 5]; EvServerGone; EvWritten 99].

Example conn_lifecycle_witness :
  wp Hostile (conn_run sample_sha no_fnmatch Hostile counter_server counter_events counter_conn)
    (λ c', conn_inv (H0 := evbuffer_list_laws) Hostile counter_server 14 c' ∧
       (life counter_conn <= life c')%nat) ∧
  wp Garbage (conn_run sample_sha no_fnmatch Garbage server (WsClient0 := client) stray_events idle_conn)
    (λ c', conn_inv (H0 := evbuffer_list_laws) Garbage server (WsClient0 := client) 11 c' ∧
       (life idle_conn <= life c')%nat).
Proof.
  split.
  - apply (conn_lifecycle (H0 := evbuffer_list_laws) sample_sha no_fnmatch Hostile counter_server
      counter_events 0 counter_conn); [done|apply counter_receiving|done|decided|].
    each; cbn [event_ok]; first [done|decided].
  - apply (conn_lifecycle (H0 := evbuffer_list_laws) sample_sha no_fnmatch Garbage server
      (WsClient0 := client) stray_events 0 idle_conn); [done|apply idle_receiving|done|decided|].
    each; cbn [event_ok]; first [done|decided].
Defined.

(** A leak.  When the socket of an established connection reports end of
    file or an error, the client is closed, but the connection waits for a
    [wsconn_onclosed] that a closed client never sends: whatever happens
    afterwards, it is never freed. *)
Theorem eof_never_frees {C B} `{EvbufferLaws B} SHA1 fnmatch e (s : wsserver_t C) `{!WsClient e s}
    events evs N (c : wsconn_t C B) :
  logged (ss_conf s) LOG_INFO = false → receiving e s N c → ev_error events || ev_eof events = true →
  wp e (conn_run SHA1 fnmatch e s (EvEvent events :: evs) c) (λ c',
    c_freed c' = false ∧ c_ws_state c' = WS_ST_CLOSED ∧ c_cm_state c' = CM_ST_CLOSING).
Proof.
  intros Hlog Hc Hev. cbn [conn_run]. wstep. eapply wp_mono; [by eapply closed_by_event|].
  intros c1 [Ha _]. eapply wp_mono; [by apply abandoned_forever|].
  intros c' (? & _ & ? & ? & _). done.
Qed.

Example eof_never_frees_witness :
  wp Garbage (conn_run sample_sha no_fnmatch Garbage server (WsClient0 := client)
      [EvEvent (Events false false true); EvWritten 0; EvEvent (Events false true false)] idle_conn)
    (λ c', c_freed c' = false ∧ c_ws_state c' = WS_ST_CLOSED ∧ c_cm_state c' = CM_ST_CLOSING).
Proof.
  apply (eof_never_frees (H0 := evbuffer_list_laws) sample_sha no_fnmatch Garbage server
    (WsClient0 := client) (Events false false true) _ 0); [done|apply idle_receiving|done].
Defined.

(** ** Control frames and the close handshake *)

(** C13: control frames are answered as RFC 6455 asks, between two messages or
    between the fragments of one: a ping with a pong that carries the same
    data, and nothing else changes; a close frame with a close frame that
    echoes its status and reason, and the client is closed.  Allocations succeed. *)
Theorem control_frames_answered {C B} `{EvbufferLaws B} SHA1 fnmatch e (s : wsserver_t C) `{!WsClient e s}
    N (c : wsconn_t C B) f :
  e ≠ Hostile → receiving e s N c → input_limit (N + zlen (encode_frame f)) → caught_up c →
  frame_fits (lim_frame (conn_limits c)) f → f_fin f = true →
  f_opcode f = OPCODE_PING ∨ f_opcode f = OPCODE_CLOSE →
  zlen (encode_frame f) <= lim_in (conn_limits c) →
  wp e (conn_do SHA1 fnmatch e s (EvRead (encode_frame f)) c) (λ c',
    if f_opcode f =? OPCODE_PING then
      out_stream c' = out_stream c ++ written OPCODE_PONG (f_payload f) ∧ receiving e s N c' ∧
      conn_asm c' = conn_asm c ∧ c_ctx c' = c_ctx c
    else
      out_stream c' = out_stream c ++ written OPCODE_CLOSE (close_echo (f_payload f)) ∧
      closing_down e s c').
Proof.
  intros He Hc HN Hup Hf Hfin Hop Hroom. destruct (conn_limits_small e s _ _ Hc) as [Hl _].
  eapply wp_mono; [eapply read_control; try done; [lia|destruct Hop; auto]|].
  intros c' (w & input & Hw & _ & Habs & Hi & Hres). unfold control_result in Hres.
  assert (0 <= N) as HN0 by (destruct Hc as ([_ _ _ _ _ [_ Hle]] & _); zlen_pos; lia).
  destruct Hop as [E|E]; rewrite E in *.
  - change (OPCODE_PING =? OPCODE_CLOSE) with false in Hres. change (OPCODE_PING =? OPCODE_PING) with true in *.
    destruct Hres as [_ ->]. split; [exact (ev_add (bev_output (c_bev c)) _)|]. split; [|done].
    apply receiving_output. apply receiving_with; [done|destruct HN; split; zlen_pos; lia|done|done].
  - change (OPCODE_CLOSE =? OPCODE_CLOSE) with true in Hres. change (OPCODE_CLOSE =? OPCODE_PING) with false.
    destruct Hres as [_ (ctx & Hctx & ->)]. split; [exact (ev_add (bev_output (c_bev c)) _)|].
    destruct Hc as ([? ? _ _ _ _] & _). split; [done|]. split; [done|]. split; [done|].
    by right.
Qed.

(** A ping between two messages. *)
Definition sample_ping : frame := Frame true OPCODE_PING (Some [1; 2; 3; 4]) [7; 8].
Definition sample_close : frame := Frame true OPCODE_CLOSE (Some [1; 2; 3; 4]) [3; 232; 98; 121; 101].

Lemma sample_frames_fit : Forall (frame_fits 100) [sample_ping; sample_close].
Proof.
  each; (split; [split; simpl; try done|by right]).
  all: try (intros key [= <-]; split; [done|]); decided.
Qed.

Example control_frames_answered_witness :
  wp Garbage (conn_do sample_sha no_fnmatch Garbage server (WsClient0 := client)
      (EvRead (encode_frame sample_ping)) idle_conn)
    (λ c', out_stream c' = out_stream idle_conn ++ [0x8a; 2; 7; 8] ∧
       receiving (H0 := evbuffer_list_laws) Garbage server (WsClient0 := client) 0 c' ∧
       conn_asm c' = conn_asm idle_conn ∧ c_ctx c' = c_ctx idle_conn).
Proof.
  apply (control_frames_answered (H0 := evbuffer_list_laws) sample_sha no_fnmatch Garbage server
    (WsClient0 := client) 0 idle_conn sample_ping); try done.
  - apply idle_receiving.
  - pose proof sample_frames_fit as Hf. by apply Forall_inv in Hf.
  - by left.
Defined.

(** C12: the close handshake completes, with log messages of priority [LOG_INFO]
    masked.  When the browser sends a close frame, or the client calls [wsconn_onclosed], as
    the connection manager does on an error of the XMPP server's connection (an end of
    file never gets there), the server sends its close frame, and once the output has
    gone out, in pieces of any size, the connection and its client are freed.
    Allocations succeed. *)
Theorem close_completes {C B} `{EvbufferLaws B} SHA1 fnmatch e (s : wsserver_t C) `{!WsClient e s}
    N (c : wsconn_t C B) ev frame ns :
  e ≠ Hostile → logged (ss_conf s) LOG_INFO = false →
  receiving e s N c → input_limit (N + ev_received ev) → close_cause c ev frame →
  Forall (λ n, 0 <= n) ns → ns ≠ [] → zlen (out_stream c) + zlen frame <= total ns →
  wp e (conn_run SHA1 fnmatch e s (ev :: (EvWritten <$> ns)) c) (λ c', c_freed c' = true).
Proof.
  intros He Hlog Hc HN Hcause Hns Hne Hl. cbn [conn_run]. wstep.
  eapply wp_mono; [by eapply close_begins|]. intros c1 [Hc1 Hout].
  eapply wp_mono; [by apply drains|]. intros c' [_ Hfreed]. apply Hfreed; [done|]. by rewrite Hout, zlen_app.
Qed.

Example close_completes_witness :
  wp Garbage (conn_run sample_sha no_fnmatch Garbage server (WsClient0 := client)
      (EvRead (encode_frame sample_close) :: (EvWritten <$> [3; 0; 4])) idle_conn)
    (λ c', c_freed c' = true).
Proof.
  apply (close_completes (H0 := evbuffer_list_laws) sample_sha no_fnmatch Garbage server
    (WsClient0 := client) 0 idle_conn _ [0x88; 5; 3; 232; 98; 121; 101]); try done.
  - apply idle_receiving.
  - apply (browser_closes idle_conn sample_close); try done.
    pose proof sample_frames_fit as Hf. by apply Forall_inv_tail, Forall_inv in Hf.
  - decided.
Defined.

(** ** The handshake *)


Local Abbreviation small_server := (cm_wsserver (H := silent) (B := list Z) small_conf).
Local Abbreviation small_client := (manager_client (H := silent) Garbage small_conf).

Definition sample_reads : list (list Z) :=
  [ztake 30 (request_text sample_request); zdrop 30 (request_text sample_request)].

