(* ===== verification/Termination.v ===== *)
(** The loops that take frames and messages out of a connection end, without
    regard to the fuel that the model gives them: a bound on the passes that
    follow one another, for any allocations, and no pass is undefined. *)

From S2P Require Import Prelude CString Str Config Buffer WsMessage WsFrameSpec WsMessageSpec Rfc6455 Assembly WsMessageProps WsTake WsFrame RqParser Expat StreamParse Framer Libevent WsServer CManager WsConn ManagerClient WsConnProps.

(** The tapes of an environment. *)
Definition tape_ok (e : env) (t : tape) : Prop :=
  match e with Benign => t = [] | Garbage => Forall is_Some t | Hostile => True end.

Lemma wp_outcome {A} e (m : M A) Q t : wp e m Q → tape_ok e t →
  ∃ a t', m t = Some (a, t') ∧ Q a ∧ tape_ok e t'.
Proof.
  destruct e; simpl; [|auto|].
  - intros (a & E & HQ) ->. by exists a, [].
  - intros Hm _. destruct (Hm t) as (a & t' & E & HQ). by exists a, t'.
Qed.

(** A loop that goes round by [R], whose states satisfy [I] and each of whose passes
    lowers [m] by at least [k]. *)
Section passes.
Context {S : Type} (R : S → S → Prop) (I : S → Prop) (m : S → Z) (k : Z) (Hk : 0 < k).
Context (Hpos : ∀ x, I x → 0 <= m x) (Hpass : ∀ x y, I x → R x y → I y ∧ m y + k <= m x).

Lemma passes_bounded n x y : I x → nsteps R n x y → I y ∧ k * Z.of_nat n <= m x.
Proof using Hpos Hpass.
  intros Hx Hn. revert Hx. induction Hn as [x|n x y z Hxy Hyz IH]; intros Hx.
  - split; [done|]. specialize (Hpos x Hx). lia.
  - destruct (Hpass x y Hx Hxy) as [Hy Hlt]. destruct (IH Hy). split; [done|lia].
Qed.

Lemma passes_end x : I x → Acc (flip R) x.
Proof using Hk Hpos Hpass.
  assert (∀ i x, I x → m x < Z.of_nat i → Acc (flip R) x) as Hacc.
  { intros i. induction i as [|i IH]; intros y Hy Hi; [specialize (Hpos y Hy); lia|].
    constructor. intros z Hz. destruct (Hpass y z Hy Hz). apply IH; [done|lia]. }
  intros Hx. apply (Hacc (Datatypes.S (Z.to_nat (m x)))); [done|]. specialize (Hpos x Hx). lia.
Qed.
End passes.

(** ** The loop of [_wsmsg_process] *)

Definition wsmsg_pass (x y : wsmsg_t * tape) : Prop := wsmsg_step x.1 x.2 = Some ((true, y.1), y.2).

Definition wsmsg_running e (x : wsmsg_t * tape) : Prop := wm_small x.1 ∧ wm_frame x.1 = false ∧ tape_ok e x.2.

Lemma wsmsg_step_running e x : wsmsg_running e x → ∃ again w t,
  wsmsg_step x.1 x.2 = Some ((again, w), t) ∧
  (again = true → wsmsg_running e (w, t) ∧ b_length (wm_frame_buffer w) + 2 <= b_length (wm_frame_buffer x.1)).
Proof.
  destruct x as [w t]. intros (Hw & Hf & Ht). cbn [fst snd] in *.
  pose proof (wm_small_readable_self w Hw) as Hr.
  destruct (wp_outcome e (wsmsg_step w) _ t (wsmsg_step_refines e w (ws_wf _ Hw) Hf (readable_frame _ _ _ _ eq_refl Hr)) Ht)
    as ([again w'] & t' & E & (Hw' & Hsame & Hres & Hag) & Ht').
  exists again, w', t'. split; [done|]. intros ->. destruct Hres as [Hres|[? _]]; [|done].
  split; [split; [by eapply wm_small_keeps|split; [by apply Hag|done]]|].
  symmetry in Hres. apply asm_step_shrinks in Hres; simpl in *.
  - destruct Hw as [[] _ _ _ _], Hw'. by rewrite !zlen_contents in Hres.
  - destruct Hw as [[] _ _ _ _]. by apply contents_bytes.
Qed.

Lemma wsmsg_pass_running e x y : wsmsg_running e x → wsmsg_pass x y →
  wsmsg_running e y ∧ b_length (wm_frame_buffer y.1) + 2 <= b_length (wm_frame_buffer x.1).
Proof.
  intros Hx Hp. destruct (wsmsg_step_running e x Hx) as (again & w & t & E & Hag).
  destruct y as [w' t']. unfold wsmsg_pass in Hp. cbn [fst snd] in Hp. rewrite Hp in E. simplify_eq. auto.
Qed.

Definition bytes_left (x : wsmsg_t * tape) : Z := b_length (wm_frame_buffer x.1).

Lemma bytes_left_nonneg e x : wsmsg_running e x → 0 <= bytes_left x.
Proof. intros [[[[] _ _ _] _ _ _ _] _]. unfold bytes_left. lia. Qed.

(** ** The loop of [wsconn_process_frame] *)

Section frames.
Context {C B : Type} `{EvbufferLaws B}.
Context (e : env) (s : wsserver_t C) `{!WsClient e s}.
Context (N : Z) (HN : input_limit N).

Definition loop_state : Type := buffer_t * wsconn_t C B * tape.
Definition frame_pass (x y : loop_state) : Prop :=
  let '(b, c, t) := x in let '(b', c', t') := y in frame_step b c t = Some ((true, b', c'), t').

Definition frames_running (x : loop_state) : Prop :=
  let '(b, c, t) := x in receiving e s N c ∧ spare b ∧ tape_ok e t.
Definition frames_left (x : loop_state) : Z := let '(_, c, _) := x in wm_pending (c_wsmsg c).

Lemma frame_step_running b c t : frames_running (b, c, t) → ∃ again b' c' t',
  frame_step b c t = Some ((again, b', c'), t') ∧
  (again = true → frames_running (b', c', t') ∧ frames_left (b', c', t') + 1 <= frames_left (b, c, t)).
Proof using.
  intros (Hc & Hb & Ht).
  destruct (wp_outcome e _ _ t (step_any e s N b c Hc Hb) Ht) as ([[again b'] c'] & t' & E & Hok & Ht').
  exists again, b', c', t'. split; [done|]. intros ->. destruct Hok as (? & ? & ?). split; [done|cbn; lia].
Qed.

Lemma frame_pass_running x y : frames_running x → frame_pass x y → frames_running y ∧ frames_left y + 1 <= frames_left x.
Proof using.
  destruct x as [[b c] t], y as [[b' c'] t']. intros Hx Hp.
  destruct (frame_step_running b c t Hx) as (again & b1 & c1 & t1 & E & Hag).
  cbn in Hp. rewrite Hp in E. simplify_eq. auto.
Qed.

Lemma frames_left_nonneg x : 0 <= frames_left x.
Proof.
  destruct x as [[b c] t]. cbn. unfold wm_pending. case_match; [done|]. apply asm_pending_nonneg.
Qed.
End frames.

(** C7: termination.  On an established connection, with the limits for which wsmessage.c is
    memory safe, whatever a browser has sent, whatever the client does with messages
    and whether allocations succeed or not, the two nested loops that an arrival of
    bytes starts come to an end: a chain of passes of the inner one, which cuts
    frames, is at most half as long as the receive buffer, a chain of passes of the
    outer one, which hands out messages and control frames, at most two longer than
    it; there are no infinite chains; and wherever they have got to, the next pass is
    defined. *)
Theorem loops_terminate {C B} `{EvbufferLaws B} e (s : wsserver_t C) `{!WsClient e s} N b (c : wsconn_t C B) w t :
  input_limit N → receiving e s N c → spare b →
  wm_small w → wm_frame w = false → tape_ok e t →
  (∀ n y, nsteps wsmsg_pass n (w, t) y →
     2 * Z.of_nat n <= b_length (wm_frame_buffer w) ∧ is_Some (wsmsg_step y.1 y.2)) ∧
  Acc (flip wsmsg_pass) (w, t) ∧
  (∀ n b' c' t', nsteps frame_pass n (b, c, t) (b', c', t') →
     Z.of_nat n <= b_length (wm_frame_buffer (c_wsmsg c)) + 2 ∧ is_Some (frame_step b' c' t')) ∧
  Acc (flip frame_pass) (b, c, t).
Proof.
  intros HN Hc Hb Hw Hf Ht.
  assert (wsmsg_running e (w, t)) as Hx by done. assert (frames_running e s N (b, c, t)) as Hy by done.
  split; [|split; [|split]].
  - intros n y Hn.
    destruct (passes_bounded _ _ bytes_left 2 (bytes_left_nonneg e) (wsmsg_pass_running e) n _ y Hx Hn) as [Hrun Hle].
    split; [done|]. destruct (wsmsg_step_running e y Hrun) as (again & w' & t' & -> & _). by eexists.
  - by apply (passes_end _ _ bytes_left 2 eq_refl (bytes_left_nonneg e) (wsmsg_pass_running e)).
  - intros n b' c' t' Hn.
    destruct (passes_bounded _ _ frames_left 1 (λ x _, frames_left_nonneg x) (frame_pass_running e s N) n _ _ Hy Hn)
      as [Hrun Hle].
    destruct Hc as ([_ _ Hwc _ _ _] & _). pose proof (wm_pending_fuel _ Hwc). split; [cbn in *; lia|].
    destruct (frame_step_running e s N b' c' t' Hrun) as (again & b1 & c1 & t1 & -> & _). by eexists.
  - by apply (passes_end _ _ frames_left 1 eq_refl (λ x _, frames_left_nonneg x) (frame_pass_running e s N)).
Qed.

(** Two pings and a message wait in the receive buffer. *)
Definition busy_bytes : list Z :=
  encode_frame sample_ping ++ encode_frame sample_ping ++ [0x81; 1; 65].
Definition busy_wsmsg : wsmsg_t :=
  Wsmsg false false false
    (Buffer (busy_bytes ++ replicate (128 - length busy_bytes) 0) (zlen busy_bytes) 128 200)
    (Buffer (replicate 100 0) 0 100 100) false 0 false (Buffer (replicate 128 0) 0 128 1000) 0 false 100.

Lemma busy_wsmsg_small : wm_small busy_wsmsg.
Proof. split; try (unfold INT_MAX; done). split; try done; split; try done; auto; decided. Qed.

Local Abbreviation busy_server := (cm_wsserver (H := silent) (B := list Z) config_zero).
Local Abbreviation busy_client := (manager_client (H := silent) Garbage config_zero).

Example loops_terminate_witness :
  (∀ n y, nsteps wsmsg_pass n (busy_wsmsg, []) y → 2 * Z.of_nat n <= 19 ∧ is_Some (wsmsg_step y.1 y.2)) ∧
  Acc (flip frame_pass) (empty_buffer, idle_conn, []) ∧
  ∃ w t, wsmsg_step busy_wsmsg [] = Some ((false, w), t) ∧ wm_frame w = true.
Proof.
  destruct (loops_terminate (H0 := evbuffer_list_laws) Garbage busy_server (WsClient0 := busy_client) 0 empty_buffer
    idle_conn busy_wsmsg []) as (Hinner & _ & _ & Houter).
  - split; decided.
  - apply idle_receiving.
  - split; [apply empty_buffer_wf|done].
  - apply busy_wsmsg_small.
  - done.
  - apply Forall_nil_2.
  - split; [exact Hinner|]. split; [exact Houter|]. eexists _, _. split; [vm_compute; reflexivity|done].
Defined.
