(* ===== verification/Upstream.v ===== *)
(** From the browser to the XMPP server: the first message opens the connection
    with the server, the later ones are forwarded. *)

From S2P Require Import Prelude CString Str Config Buffer WsMessage WsFrameSpec WsMessageSpec Rfc6455 Assembly WsMessageProps WsTake WsFrame RqParser RqSpec RqProps Expat StreamParse Framer Libevent WsServer CManager WsConn WsEvents WsReads WsHandshake ManagerClient WsConnProps.

Section transfers.
Context {C B : Type} `{EvbufferLaws B}.
Context (SHA1 : list Z → list Z) (fnmatch : list Z → list Z → bool).
Context (e : env) (s : wsserver_t C) `{!WsClient e s}.
Context (He : e ≠ Hostile).
Implicit Types (c : wsconn_t C B).
Local Abbreviation run := (conn_run SHA1 fnmatch e s).

(** Messages arrive, each in reads of its own. *)
Fixpoint messages_arrive (ts : list transfer) c : M (wsconn_t C B) :=
  match ts with
  | [] => mret c
  | t :: ts => c ← run (EvRead <$> t_chunks t) c; messages_arrive ts c
  end.

(** A connection between two messages. *)
Definition between c : Prop := receiving e s 0 c ∧ ∃ op, conn_asm c = asm_quiet op.

Definition text_transfer (l : limits) (t : transfer) : Prop := transfer_ok l t ∧ t_opcode t = OPCODE_TEXT.

Definition message (t : transfer) : list Z := payloads (t_frames t).

(** A message reaches the client whole; [Q] holds of its object afterwards. *)
Lemma message_arrives (Q : C → Prop) t c :
  (∀ ctx, Q ctx → cl_open ctx) → between c → text_transfer (conn_limits c) t →
  (∀ mb, buffer_wf mb → b_length mb <= INT_MAX → contents mb = message t →
     wp e (cl_cb (Some mb) WSCB_MESSAGE (c_ctx c)) Q) →
  wp e (run (EvRead <$> t_chunks t) c) (λ c',
    between c' ∧ Q (c_ctx c') ∧ conn_limits c' = conn_limits c ∧ out_stream c' = out_stream c).
Proof using He.
  intros Hopen [Hrec [op Hq]] [Ht Hop] HQ. pose proof Hrec as ([_ _ Hw _ _ _] & _).
  eapply wp_mono.
  { apply (read_transfer SHA1 fnmatch e s He Q t op); try done.
    intros mb Hmb E. apply HQ; [done| |done]. destruct Ht as [_ _ Hm _ _].
    rewrite <-E, zlen_contents in Hm by done. unfold conn_limits in Hm. destruct Hw as [_ _ _ _ ?]. lia. }
  intros c' Hdel. split; [split|].
  - apply (delivered_receiving e s _ _ _ _ Hrec Hopen Hdel).
  - destruct Hdel as (w & mb & input & ctx & _ & _ & _ & Hq' & _ & _ & ->). by exists OPCODE_TEXT.
  - destruct Hdel as (w & mb & input & ctx & _ & _ & _ & _ & Hl & Hctx & ->). done.
Qed.

(** Every message reaches the client, in order, whole and once: the client's
    object goes from [I ms] to [I (ms ++ ms')]. *)
Lemma messages_reach_client (I : list (list Z) → C → Prop) ts ms c :
  (∀ ms ctx, I ms ctx → cl_open ctx) →
  (∀ ms ctx mb, I ms ctx → buffer_wf mb → b_length mb <= INT_MAX →
     wp e (cl_cb (Some mb) WSCB_MESSAGE ctx) (I (ms ++ [contents mb]))) →
  between c → I ms (c_ctx c) → Forall (text_transfer (conn_limits c)) ts →
  wp e (messages_arrive ts c) (λ c',
    between c' ∧ I (ms ++ (message <$> ts)) (c_ctx c') ∧
    conn_limits c' = conn_limits c ∧ out_stream c' = out_stream c).
Proof using He.
  intros Hopen Hstep Hc HI Hts. revert ms c Hc HI Hts.
  induction ts as [|t ts IH]; intros ms c Hc HI Hts; cbn [messages_arrive].
  { apply wp_ret. by rewrite app_nil_r. }
  apply Forall_cons_iff in Hts as [Ht Hts]. wstep.
  eapply wp_mono; [apply (message_arrives (I (ms ++ [message t])) t); [apply Hopen|done|done|]|].
  { intros mb Hmb Hl <-. by apply Hstep. }
  intros c1 (Hc1 & HI1 & Hl1 & Hout1).
  eapply wp_mono; [apply (IH (ms ++ [message t]) c1); [done|done|by rewrite Hl1]|].
  intros c' (Hc' & HI' & Hl' & Hout). rewrite <-app_assoc in HI'. split; [done|].
  split; [done|]. split; [by rewrite Hl'|by rewrite Hout].
Qed.

(** A ping of the browser. *)
Record ping_fits (l : limits) (f : frame) : Prop := {
  pf_fits : frame_fits (lim_frame l) f;
  pf_fin : f_fin f = true;
  pf_ping : f_opcode f = OPCODE_PING;
  pf_room : zlen (encode_frame f) <= lim_in l
}.

Lemma between_caught_up c : between c → caught_up c.
Proof using. intros [Hrec [op Hq]]. split; [by eapply receiving_in|]. by rewrite Hq. Qed.

(** It is answered, and nothing else changes. *)
Lemma ping_answered f c : between c → ping_fits (conn_limits c) f →
  wp e (run [EvRead (encode_frame f)] c) (λ c',
    between c' ∧ c_ctx c' = c_ctx c ∧ conn_limits c' = conn_limits c ∧
    out_stream c' = out_stream c ++ written OPCODE_PONG (f_payload f)).
Proof using He.
  intros Hc [Hf Hfin Hop Hroom]. pose proof (between_caught_up c Hc) as Hup. destruct Hc as [Hrec [op Hq]].
  destruct (conn_limits_small e s _ _ Hrec) as [Hl Hli]. cbn [conn_run]. wstep. zlen_pos.
  eapply wp_mono; [eapply (read_control SHA1 fnmatch e s He 0 c f); try done; [split; lia|lia|by right]|].
  intros c' (w & input & Hw & Hlim & Habs & Hi & Hres). apply wp_ret. unfold control_result in Hres. rewrite Hop in Hres.
  change (OPCODE_PING =? OPCODE_CLOSE) with false in Hres. change (OPCODE_PING =? OPCODE_PING) with true in Hres.
  destruct Hres as [_ ->]. split; [split|split; [done|split]].
  - apply receiving_output. apply receiving_with; [done|split; lia|done|done].
  - exists op. by rewrite <-Hq, <-Habs.
  - exact Hlim.
  - exact (ev_add (bev_output (c_bev c)) _).
Qed.
End transfers.

(** ** The manager *)

Section upstream.
Context {P B : Type} `{Expat P} `{!ExpatSmall P} `{EvbufferLaws B}.
Context (SHA1 : list Z → list Z) (fnmatch : list Z → list Z → bool).
Context (e : env) `{Hg : !Granted e} (conf : jsconf_t).
Local Abbreviation manager := (cmanager_t P B).
Local Abbreviation server := (cm_wsserver (P := P) (B := B) conf).
Implicit Types (cm : manager) (c : wsconn_t manager B).

(** The connection that the manager has asked for is one with [host]. *)
Definition connected_to (host : list Z) cm : Prop := cm_connecting cm = Some (Some host, XMPP_PORT).

(** The manager has asked for a connection with [host] and keeps [text] for it. *)
Definition connecting (host text : list Z) cm : Prop :=
  cm_open cm ∧ cm_state cm = CM_CONNECT ∧ connected_to host cm ∧ framer_unused cm ∧
  (∃ bev, cm_bev cm = Some bev ∧ ev_bytes (bev_output bev) = [] ∧ ev_bytes (bev_input bev) = []) ∧
  ∃ b, cm_buffer cm = Some b ∧ buffer_wf b ∧ contents b = text.

(** The manager forwards to [host]; [sent] is what the server has been sent, and all it
    has sent has been read. *)
Definition forwarding (host sent : list Z) cm : Prop :=
  cm_open cm ∧ cm_state cm = CM_FORWARD ∧ connected_to host cm ∧
  ∃ bev, cm_bev cm = Some bev ∧ ev_bytes (bev_output bev) = sent ∧ ev_bytes (bev_input bev) = [].

Lemma find_to_server_small evs host : Forall ev_small evs → server_of evs = Some host → zlen host < PTRDIFF_MAX.
Proof.
  induction 1 as [|ev evs Hev _ IH]; [done|]. destruct ev as [el attr i n|el i n]; cbn [server_of]; [|exact IH].
  destruct (if opens_stream el then find_to attr else None) as [v|] eqn:E; [|exact IH].
  destruct (opens_stream el); [|done]. intros [= <-]. destruct Hev as [_ Ha].
  pose proof (find_to_small _ _ Ha E). unfold PTRDIFF_MAX. lia.
Qed.

(** The manager waits for the server's name: Expat has read [text] and is in state [p]. *)
Definition opening (p : P) (text : list Z) cm : Prop :=
  cm_open cm ∧ cm_state cm = CM_START ∧ cm_parser cm = Some (Streamparser (Live p) false None) ∧
  framer_unused cm ∧ ∃ b, cm_buffer cm = Some b ∧ buffer_wf b ∧ b_max_length b = 0 ∧ contents b = text.

Lemma fresh_opening cm : cm_fresh cm → opening xml_fresh [] cm.
Proof using. intros []. done. Qed.

(** A message before the server's name is known. *)
Lemma opening_message p text cm mb evs p' :
  opening p text cm → buffer_wf mb → b_length mb <= INT_MAX → (0 ∉ contents mb) →
  zlen text + zlen (contents mb) <= INT_MAX →
  XML_Parse p (contents mb) (zlen (contents mb)) = (true, evs, p') →
  wp e (cmanager (Some mb) WSCB_MESSAGE cm) (λ cm',
    match server_of evs with
    | Some host => connecting host (text ++ contents mb) cm'
    | None => opening p' (text ++ contents mb) cm'
    end).
Proof using All.
  intros (Ho & Hst & Hp & Hfr & b & Hb & Hbwf & Hbm & Hbc) Hmb Hl Hnul Hsum Hpar.
  unfold cmanager. wstep. apply wp_ret. eapply wp_mono; [by apply cm_onmessage_ok|].
  intros cm' [Ho' Hafter]. unfold after_message in Hafter. rewrite Hst in Hafter.
  destruct Hafter as (q & x & status & evs' & x2 & b0 & b' & Eq & Ex & Epar & Eb & Hb' & Hbm' & Hrest).
  rewrite Hp in Eq. injection Eq as <-. cbn [sp_parser] in Ex. injection Ex as <-.
  assert (msg_str (contents mb) = contents mb) as Estr.
  { unfold msg_str. destruct (until_nul (contents mb)) as [k|] eqn:E; [|done].
    apply until_nul_inv in E as (rest & E & _). destruct Hnul. rewrite E. set_solver. }
  rewrite Estr, Hpar in Epar. injection Epar as <- <- <-. rewrite Hb in Eb. injection Eb as <-.
  cbv zeta in Hrest. cbn [sp_error sp_server orb negb or_else] in Hrest.
  destruct Hrest as [Hcont Hrest]. rewrite Hbc in Hcont. specialize (Hcont ltac:(
    rewrite <-(zlen_contents b), Hbc by done; unfold PTRDIFF_MAX, INT_MAX in *; lia)).
  destruct (server_of evs) as [host|] eqn:Ehost; [|subst; by split; [|split; [|split; [|split; [|exists b']]]]].
  destruct Hrest as (h & Hh & ->). pose proof (expat_small _ _ _ _ _ _ Hpar) as Hsmall.
  rewrite (Hh (find_to_server_small _ _ Hsmall Ehost)) in *. split; [done|]. split; [done|]. split; [done|].
  split; [exact Hfr|]. split; [eexists; split; [done|split; apply ev_new]|]. by exists b'.
Qed.

(** Messages that arrive while the connection is being made are dropped. *)
Lemma connecting_drops host text (cm : manager) mb :
  connecting host text cm → buffer_wf mb → b_length mb <= INT_MAX →
  wp e (cmanager (Some mb) WSCB_MESSAGE cm) (connecting host text).
Proof using All.
  intros Hc Hmb Hl. pose proof Hc as (Ho & Hst & _). unfold cmanager. wstep. apply wp_ret.
  eapply wp_mono; [by apply cm_onmessage_ok|]. intros cm' [_ Hafter].
  unfold after_message in Hafter. rewrite Hst in Hafter. by subst.
Qed.

Lemma forwarding_sends host sent (cm : manager) mb :
  forwarding host sent cm → buffer_wf mb → b_length mb <= INT_MAX →
  wp e (cmanager (Some mb) WSCB_MESSAGE cm) (λ cm',
    forwarding host (sent ++ contents mb) cm' ∧ cm_framer cm' = cm_framer cm).
Proof using All.
  intros (Ho & Hst & Hto & bev & Ebev & Hsent & Hin) Hmb Hl. unfold cmanager. wstep. apply wp_ret.
  eapply wp_mono; [by apply cm_onmessage_ok|]. intros cm' [Ho' Hafter].
  unfold after_message in Hafter. rewrite Hst in Hafter. destruct Hafter as (bev' & Ebev' & ->).
  rewrite Ebev in Ebev'. injection Ebev' as <-. split; [|done]. split; [done|]. split; [done|]. split; [exact Hto|].
  eexists. split; [done|]. cbn [bev_output]. by rewrite ev_add, Hsent.
Qed.

(** The connection with the server is up: what has been kept is sent. *)
Lemma connected_flushes host text c :
  between e server c → connecting host text (c_ctx c) →
  wp e (cm_eventcb (Events true false false) c) (λ c',
    between e server c' ∧ forwarding host text (c_ctx c') ∧ framer_unused (c_ctx c') ∧
    conn_limits c' = conn_limits c ∧ out_stream c' = out_stream c).
Proof using All.
  intros [Hrec Hq] (Ho & Hst & Hto & Hfr & (bev & Ebev & Hout & Hin) & b & Eb & Hb & Hc).
  unfold cm_eventcb, cm_alive. rewrite (co_live _ Ho). wstep. apply wp_ret. cbn [ev_connected].
  pose proof Hb as []. wstep. eapply wp_opt; [exact Eb|]. unfold buffer_peek_data. cbv iota beta.
  wstep. eapply wp_opt; [apply mem_read_Some; lia|]. rewrite zdrop_0. fold (contents b). rewrite Hc.
  unfold cm_send. wstep. wstep. eapply wp_opt; [exact Ebev|]. apply wp_ret.
  wstep. eapply wp_mono; [apply buffer_remove_data_spec; [done|lia]|].
  intros b' (Hb' & Hbm & _). apply wp_ret.
  assert (cm_open (cm_set_state CM_FORWARD (cm_set_buffer (Some b')
    (cm_set_bev (Some (Bev (bev_input bev) (evbuffer_add (bev_output bev) text))) (c_ctx c))))) as Ho'.
  { destruct Ho as [? ? (b0 & Eb0 & _ & Hm0) ? ?]. rewrite Eb in Eb0. injection Eb0 as <-.
    split; cbn; try done. exists b'. by rewrite Hbm. }
  split; [|split; [split; [done|split; [done|split; [exact Hto|]]]|done]].
  - split; [|exact Hq]. destruct Hrec as ([] & ? & ? & _ & ?). split; [by split|]. done.
  - eexists. split; [done|]. cbn [bev_output]. by rewrite ev_add, Hout.
Qed.
(** The browser's messages up to the server's answer: those of the header, and some
    that are too early. *)
Definition upstream_open (header early : list transfer) c : M (wsconn_t manager B) :=
  c ← messages_arrive SHA1 fnmatch e server header c;
  c ← messages_arrive SHA1 fnmatch e server early c;
  cm_eventcb (Events true false false) c.

Definition upstream_session (header early late : list transfer) c : M (wsconn_t manager B) :=
  c ← upstream_open header early c;
  messages_arrive SHA1 fnmatch e server late c.

(** Expat, in state [p], reads the messages [ms] without an error and finds [host] in
    the last of them. *)
Inductive names_server : P → list (list Z) → list Z → Prop :=
  | names_last p m evs p' host :
      (0 ∉ m) → XML_Parse p m (zlen m) = (true, evs, p') → server_of evs = Some host →
      names_server p [m] host
  | names_later p m evs p' ms host :
      (0 ∉ m) → XML_Parse p m (zlen m) = (true, evs, p') → server_of evs = None →
      names_server p' ms host → names_server p (m :: ms) host.

Definition texts (ts : list transfer) : list Z := concat (message <$> ts).

Lemma header_arrives p text c t evs p' :
  between e server c → opening p text (c_ctx c) → text_transfer (conn_limits c) t →
  (0 ∉ message t) → zlen text + zlen (message t) <= INT_MAX →
  XML_Parse p (message t) (zlen (message t)) = (true, evs, p') →
  wp e (conn_run SHA1 fnmatch e server (EvRead <$> t_chunks t) c) (λ c',
    between e server c' ∧
    match server_of evs with
    | Some host => connecting host (text ++ message t) (c_ctx c')
    | None => opening p' (text ++ message t) (c_ctx c')
    end ∧ conn_limits c' = conn_limits c ∧ out_stream c' = out_stream c).
Proof using All.
  intros Hc Hctx Ht Hnul Hl Hpar.
  apply (message_arrives SHA1 fnmatch e server Hg
    (λ cm, match server_of evs with
           | Some host => connecting host (text ++ message t) cm
           | None => opening p' (text ++ message t) cm
           end) t); [|done|done|].
  - intros cm. by destruct (server_of evs); intros [? _].
  - intros mb Hmb Hmbl E. rewrite <-E in *. by apply (opening_message p).
Qed.

Lemma headers_arrive ts p text host c :
  between e server c → opening p text (c_ctx c) → Forall (text_transfer (conn_limits c)) ts →
  names_server p (message <$> ts) host → zlen text + zlen (texts ts) <= INT_MAX →
  wp e (messages_arrive SHA1 fnmatch e server ts c) (λ c',
    between e server c' ∧ connecting host (text ++ texts ts) (c_ctx c') ∧
    conn_limits c' = conn_limits c ∧ out_stream c' = out_stream c).
Proof using All.
  revert p text c. induction ts as [|t ts IH]; intros p text c Hc Hctx Hts Hname Hl; [inversion Hname|].
  apply Forall_cons_iff in Hts as [Ht Hts]. unfold texts in *. rewrite fmap_cons in *. cbn [concat messages_arrive] in *.
  rewrite zlen_app in Hl. pose proof (zlen_nonneg (concat (message <$> ts))) as Hl0. wstep.
  inversion Hname as [? ? evs p' ? Hnul Hpar Hhost|? ? evs p' ? ? Hnul Hpar Hhost Hlater]; subst;
    (eapply wp_mono; [eapply (header_arrives p text c t evs p'); try done; lia|]); rewrite Hhost;
    intros c1 (Hc1 & Hctx1 & Hl1 & Hout1).
  - destruct ts; [|done]. apply wp_ret. cbn [concat fmap list_fmap]. by rewrite app_nil_r.
  - eapply wp_mono; [apply (IH p' (text ++ message t) c1 Hc1 Hctx1); rewrite ?Hl1, ?zlen_app; [done|done|lia]|].
    intros c2 (? & ? & -> & ->). by rewrite <-app_assoc in *.
Qed.

(** What opens a stream with [host] within the limits [l]. *)
Record opens (l : limits) (host : list Z) (header early : list transfer) : Prop := {
  op_messages : Forall (text_transfer l) (header ++ early);
  op_names : names_server xml_fresh (message <$> header) host;
  op_size : zlen (texts header) <= INT_MAX
}.

Lemma upstream_open_spec header early host c :
  between e server c → cm_fresh (c_ctx c) → opens (conn_limits c) host header early →
  wp e (upstream_open header early c) (λ c',
    between e server c' ∧ forwarding host (texts header) (c_ctx c') ∧ framer_unused (c_ctx c') ∧
    conn_limits c' = conn_limits c ∧ out_stream c' = out_stream c).
Proof using All.
  intros Hc Hfresh [[Hh Hearly]%Forall_app Hname Hsize]. unfold upstream_open. wstep.
  eapply wp_mono; [apply (headers_arrive header xml_fresh [] host); try done; by apply fresh_opening|].
  intros c1 (Hc1 & Hconn & Hl1 & Hout1). cbn [app] in Hconn. wstep.
  eapply wp_mono.
  { apply (messages_reach_client SHA1 fnmatch e server Hg (λ _, connecting host (texts header)) early []); try done.
    - by intros _ ctx [? _].
    - intros _ ctx mb Hctx. by apply connecting_drops.
    - by rewrite Hl1. }
  intros c2 (Hc2 & Hconn2 & Hl2 & Hout2). eapply wp_mono; [by eapply connected_flushes|].
  intros c3 (Hc3 & Hfwd & Hfr & Hl3 & Hout3). split; [done|]. split; [done|]. split; [done|].
  by rewrite Hl3, Hl2, Hl1, Hout3, Hout2, Hout1.
Qed.

Lemma upstream_spec header early late host c :
  between e server c → cm_fresh (c_ctx c) → opens (conn_limits c) host header early →
  Forall (text_transfer (conn_limits c)) late →
  wp e (upstream_session header early late c) (λ c',
    between e server c' ∧ forwarding host (texts header ++ texts late) (c_ctx c') ∧
    out_stream c' = out_stream c).
Proof using All.
  intros Hc Hfresh Hopen Hlate.
  unfold upstream_session. wstep. eapply wp_mono; [by eapply upstream_open_spec|].
  intros c1 (Hc1 & Hfwd & _ & Hl1 & Hout1). eapply wp_mono.
  { apply (messages_reach_client SHA1 fnmatch e server Hg
      (λ ms, forwarding host (texts header ++ concat ms)) late []); try done.
    - by intros ms ctx [? _].
    - intros ms ctx mb Hctx Hmb Hl. rewrite concat_app, app_assoc. cbn [concat]. rewrite app_nil_r.
      eapply wp_mono; [by apply forwarding_sends|]. by intros cm' [? _].
    - cbn [concat]. by rewrite app_nil_r.
    - by rewrite Hl1. }
  intros c2 (Hc2 & Hfwd2 & _ & Hout2). split; [done|]. split; [exact Hfwd2|]. by rewrite Hout2, Hout1.
Qed.
End upstream.

(** C10: from the browser to the server.  On an established connection the
    browser opens an XMPP stream with one or several text messages, and the
    manager asks for a connection with the server they name, port 5222; these messages, and
    those that follow once that connection is up, reach the server as one stream of
    bytes, whole, unmasked and in order, and nothing is written to the browser.  Messages
    that arrive before are lost.  Each message is within the configured limits,
    in any fragments, and comes in reads of its own, cut anywhere into pieces of
    at most [max_frame_size - 13] bytes.  Allocations succeed. *)
Theorem upstream_delivers {P B} `{Expat P} `{!ExpatSmall P} `{EvbufferLaws B} SHA1 fnmatch e `{!Granted e}
    conf header early late host (c : wsconn_t (cmanager_t P B) B) :
  between e (cm_wsserver conf) c → cm_fresh (c_ctx c) →
  opens (P := P) (conn_limits c) host header early → Forall (text_transfer (conn_limits c)) late →
  wp e (upstream_session SHA1 fnmatch e conf header early late c) (λ c',
    between e (cm_wsserver conf) c' ∧
    forwarding host (texts header ++ texts late) (c_ctx c') ∧
    out_stream c' = out_stream c).
Proof. intros. by eapply upstream_spec. Qed.

(** A message in one masked frame and one read. *)
Definition one_read (s : list Z) : transfer :=
  let f := Frame true OPCODE_TEXT (Some [1; 2; 3; 4]) s in Transfer [f] [encode_frame f].

#[local] Instance open_small : ExpatSmall (H := script open_toks) Z.
Proof. apply script_small. each. split; [decided|]. each; decided. Qed.

Definition open_conn : wsconn_t (cmanager_t Z (list Z)) (list Z) :=
  Wsconn (cm_wsserver (H := script open_toks) config_zero) WS_ST_RECEIVING CM_ST_CREATED false false
    (Bev [] []) (blank_request ST_HEADER) idle_wsmsg empty_buffer idle_manager 0 false.

Local Abbreviation open_client := (manager_client (H := script open_toks) Garbage config_zero).

Lemma idle_manager_fresh : cm_fresh (H := script open_toks) idle_manager.
Proof.
  split; [done|done| | |apply idle_manager_open].
  - exists empty_buffer. split_and!; try done. apply empty_buffer_wf.
  - eexists. split; [done|]. exists empty_buffer. split_and!; try done. apply empty_buffer_wf.
Qed.

Lemma open_between :
  between (H0 := evbuffer_list_laws) Garbage (cm_wsserver (H := script open_toks) config_zero)
    (WsClient0 := open_client) open_conn.
Proof.
  split; [|by exists 0]. split; [split; try done|split_and!; try done; apply idle_manager_open].
  - apply idle_wsmsg_small.
  - apply empty_buffer_wf.
Qed.

Lemma one_read_ok l s : Forall is_byte s → zlen s <= 125 → zlen s <= lim_frame l → zlen s <= lim_message l →
  lim_frame l + 19 + zlen s <= lim_in l → text_transfer l (one_read s).
Proof.
  intros Hs Hl Hlf Hlm Hli. set (f := Frame true OPCODE_TEXT (Some [1; 2; 3; 4]) s).
  assert (frame_ok f) as Hf.
  { split; [done| |done|change (zlen s < 2 ^ 32); lia]. intros key [= <-]. split; [done|decided]. }
  assert (zlen (encode_frame f) = zlen s + 6) as Hlen.
  { rewrite zlen_encode_frame by done. unfold payload_off, header_len, length_ext, f. cbn [f_payload f_mask f_key].
    destruct (Z.leb_spec (zlen s) 125); [|lia]. change (zlen []) with 0. lia. }
  split; [|done]. split; [|done| |by unfold wire; cbn|].
  - each. split; [done|]. by right.
  - change (zlen (s ++ []) <= lim_message l). by rewrite app_nil_r.
  - each. split; [done|]. change (lim_frame l + 13 + zlen (encode_frame f) <= lim_in l). lia.
Qed.

(** A stream header in two messages. *)
Definition open_messages : list transfer := [one_read (ztake 20 open_text); one_read (zdrop 20 open_text)].
Definition two_messages : list transfer := [one_read (bs "<a/>"); one_read (bs "<b/>")].

Example upstream_delivers_witness :
  wp Garbage (upstream_session (H := script open_toks) sample_sha no_fnmatch Garbage config_zero
      open_messages [one_read (bs "<lost/>")] two_messages open_conn)
    (λ c', between (H0 := evbuffer_list_laws) Garbage (cm_wsserver (H := script open_toks) config_zero)
             (WsClient0 := open_client) c' ∧
       forwarding (bs "example.org") (open_text ++ bs "<a/><b/>") (c_ctx c') ∧ out_stream c' = []).
Proof.
  eapply wp_mono.
  { apply (upstream_delivers (H := script open_toks) sample_sha no_fnmatch Garbage config_zero
      open_messages [one_read (bs "<lost/>")] two_messages (bs "example.org") open_conn).
    - apply open_between.
    - apply idle_manager_fresh.
    - split; [each; apply one_read_ok; decided| |decided].
      eapply names_later; [decided|reflexivity|by vm_compute|].
      eapply names_last; [decided|reflexivity|by vm_compute].
    - each; apply one_read_ok; decided. }
  intros c' (Hb & Hf & Ho). split; [exact Hb|]. split; [|exact Ho].
  replace (open_text ++ bs "<a/><b/>") with (texts open_messages ++ texts two_messages) by (vm_compute; reflexivity).
  exact Hf.
Defined.
