(* ===== verification/Relay.v ===== *)
(** From the server to the browser: [cm_readcb] turns the server's XML stream
    into WebSocket text messages, one for each part of the stream. *)

From S2P Require Import Prelude CString Str Config Buffer WsMessage WsFrameSpec WsMessageSpec Rfc6455 WsFrame RqParser Expat StreamParse Framer FramerSpec FramerProps Libevent WsServer CManager.

(** A C string cut at a terminator, or the whole text. *)
Definition upto_nul (d : list Z) : list Z := default d (until_nul d).

Lemma until_nul_terminated d rest : until_nul (d ++ 0 :: rest) = Some (upto_nul d).
Proof.
  unfold upto_nul. induction d as [|c d IH]; simpl; [done|].
  destruct (c =? 0); [done|]. rewrite IH. by destruct (until_nul d).
Qed.

Lemma cstr_terminated d rest : cstr (d ++ 0 :: rest) 0 = Some (upto_nul d).
Proof.
  unfold cstr. rewrite zdrop_0, until_nul_terminated. zlen_pos.
  repeat (bcase; simpl); done || lia.
Qed.

(** The test for the restart of a stream, on the first piece of a read. *)
Definition restarts (d : list Z) : bool :=
  let text := upto_nul (ztake 1024 d) in
  is_prefix (bs "<?xml") text || is_prefix (bs "<stream:stream") text.

(** What is written for a part: the data buffer holds 65536 bytes. *)
Definition part_frame (s : list Z) : list Z := written OPCODE_TEXT (ztake DATA_BUFFER_SIZE s).

Section relay.
Context {P B : Type} `{Expat P} `{EvbufferLaws B}.
Context (x : xstream) (inv : P → Z → list xml_event → Prop).
Context (e : env) (He : e ≠ Hostile) (Hx : stream_ok x) (Hr : expat_reads (toks x) inv).
Implicit Types (c : wsconn_t (cmanager_t P B) B) (f : framer_t P).
Local Abbreviation R := (raw (toks x)).

Lemma fr_rel_whole n D taken f : fr_rel x inv n D taken f → framer_whole f.
Proof. intros [(p & ? & _) _ _ _ ? (b & ? & _) _ _]. exists p, b. done. Qed.

Lemma framer_reset_whole f : framer_whole f →
  wp e (framer_reset f) (λ '(ok, f'), ok = true ∧ fr_rel x inv 0 [] [] f').
Proof using He Hr.
  intros (p & b & Hp & Hb & Hf). destruct f. simpl in *. subst. by apply framer_reset_spec.
Qed.

(** The connection with both sides up: the browser's object, the manager and its
    connection to the server. *)
Definition c_with (f : framer_t P) (bev : bufferevent B) c : wsconn_t (cmanager_t P B) B :=
  c_update_cm (λ cm, cm_set_framer (Some f) (cm_set_bev (Some bev) cm)) c.

Record relaying (f : framer_t P) (pending : list Z) c : Prop := {
  rl_alive : c_freed c = false;
  rl_cm : cm_freed (c_ctx c) = false;
  rl_bev : ∃ bev, cm_bev (c_ctx c) = Some bev ∧ ev_bytes (bev_input bev) = pending;
  rl_framer : cm_framer (c_ctx c) = Some f
}.

Lemma c_with_same f bev c : cm_bev (c_ctx c) = Some bev → cm_framer (c_ctx c) = Some f → c_with f bev c = c.
Proof.
  destruct c as [? ? ? ? ? ? ? ? ? [] ? ?]. simpl. intros -> ->. done.
Qed.

(** Before a piece is fed: the framer is to be reset, or has its place in the
    stream. *)
Definition ready (begin : bool) (d : list Z) (n : Z) (D : list xml_event) (taken : list frame_t) f : Prop :=
  if begin && restarts d then framer_whole f ∧ n = 0 ∧ D = [] ∧ taken = []
  else fr_rel x inv n D taken f.

(** A new framer is ready for any beginning. *)
Lemma fresh_ready begin d f : framer_fresh f → ready begin d 0 [] [] f.
Proof using Hr.
  intros Hf. unfold ready. destruct (_ && _); [split; [by apply framer_fresh_whole|done]|].
  destruct Hf as (b & -> & Hb & Hm & Hc). apply fr_rel_start; [apply Hr|done..].
Qed.

Lemma ready_bounds begin d n D taken f : ready begin d n D taken f → 0 <= n.
Proof. unfold ready. destruct (_ && _); [intros (_ & -> & _); lia|]. intros [_ _ _ _ _ _ ? _]. lia. Qed.

(** The next piece of what has arrived: at most 1024 bytes. *)
Lemma piece_cut {A} (d : list A) : let k := zlen (ztake 1024 d) in
  k <= 1024 ∧ k <= zlen d ∧ (d ≠ [] → 0 < k) ∧ ztake 1024 d = ztake k d ∧ zdrop 1024 d = zdrop k d.
Proof using.
  intros k. unfold k. rewrite zlen_ztake_min by done. zlen_pos. split; [lia|]. split; [lia|]. split.
  - intros Hd. destruct d; [done|]. rewrite zlen_cons. zlen_pos. lia.
  - destruct (Z.le_ge_cases 1024 (zlen d)); [by rewrite !Z.min_l by lia|].
    by rewrite !Z.min_r, ztake_all, ztake_ge, zdrop_all, zdrop_ge by lia.
Qed.

(** What is to come lies in the stream. *)
Lemma pending_bounds n d : 0 <= n → d ≠ [] → d `prefix_of` zdrop n R →
  n + zlen d <= zlen R ∧ Forall is_byte d.
Proof using Hx.
  intros Hn Hd0 [later Hd]. split.
  - assert (zlen (zdrop n R) = zlen d + zlen later) as Hsz by (by rewrite Hd, zlen_app).
    destruct (Z.le_gt_cases n (zlen R)); [rewrite zlen_zdrop in Hsz by lia; zlen_pos; lia|].
    rewrite zdrop_ge, zlen_nil in Hsz by lia. destruct d; [done|]. rewrite zlen_cons in Hsz. zlen_pos. lia.
  - assert (Forall is_byte (zdrop n R)) as Hall by (apply Forall_zdrop; by destruct Hx).
    rewrite Hd in Hall. by apply Forall_app in Hall as [? _].
Qed.

(** A piece and its terminator in the local array. *)
Lemma fill_array buf p : zlen buf = 1025 → Forall is_byte buf → zlen p <= 1024 → Forall is_byte p →
  ∃ b1 rest, mem_write buf 0 p = Some b1 ∧ mem_write b1 (zlen p) [0] = Some (p ++ 0 :: rest) ∧
    zlen (p ++ 0 :: rest) = 1025 ∧ Forall is_byte (p ++ 0 :: rest).
Proof using.
  intros Hb Hbb Hp Hpb. zlen_pos. eexists _, (zdrop (zlen p + 1) buf).
  assert (zlen (p ++ 0 :: zdrop (zlen p + 1) buf) = 1025) as Hz.
  { rewrite zlen_app, zlen_cons, zlen_zdrop by lia. lia. }
  split; [apply mem_write_Some; lia|]. rewrite ztake_0, Z.add_0_l. cbn [app]. split; [|split; [done|]].
  - rewrite mem_write_Some; [|lia|rewrite zlen_app, zlen_zdrop by lia; change (zlen [0]) with 1; lia].
    rewrite ztake_app_exact by done. rewrite zdrop_app_ge by (change (zlen [0]) with 1; lia).
    change (zlen [0]) with 1. replace (zlen p + 1 - zlen p) with 1 by lia. by rewrite zdrop_zdrop by lia.
  - apply Forall_app_2; [done|]. constructor; [by split|by apply Forall_zdrop].
Qed.

(** The framer is reset when the piece begins a stream. *)
Lemma reset_ready begin d n D taken f : ready begin d n D taken f →
  wp e (if begin && restarts d then ('(_, f) ← framer_reset f; mret f) else mret f)
    (λ f', fr_rel x inv n D taken f').
Proof using He Hr.
  unfold ready. destruct (_ && _); [|intros; by apply wp_ret]. intros (Hw & -> & -> & ->).
  wstep. eapply wp_mono; [by apply framer_reset_whole|]. intros [ok f1] [_ ?]. by apply wp_ret.
Qed.

Lemma readcb_loop_spec fuel begin buf c f n D taken d :
  relaying f d c → ready begin d n D taken f → zlen buf = 1025 → Forall is_byte buf →
  d `prefix_of` zdrop n R → (Z.to_nat (zlen d) < fuel)%nat →
  (d = [] → begin && restarts d = false) →
  wp e (readcb_loop fuel begin buf c) (λ '(ok, c'),
    ok = true ∧ ∃ D' f' bev', fr_rel x inv (n + zlen d) D' taken f' ∧
      ev_bytes (bev_input bev') = [] ∧ bev_output <$> cm_bev (c_ctx c) = Some (bev_output bev') ∧
      c' = c_with f' bev' c).
Proof using He Hr Hx.
  revert begin buf c f n D taken d.
  induction fuel as [|fuel IH]; intros begin buf c f n D taken d Hc Hf Hb Hbb Hd Hfuel He0; [lia|].
  pose proof (ready_bounds _ _ _ _ _ _ Hf) as Hn0.
  cbn [readcb_loop]. destruct (rl_bev _ _ _ Hc) as (bev & Ebev & Ein).
  wstep. eapply wp_opt; [exact Ebev|].
  destruct (evbuffer_remove (bev_input bev) 1024) as [data input] eqn:Erem.
  apply ev_remove in Erem as [-> Eleft]; [|done]. rewrite Ein in *. cbv zeta.
  destruct (decide (d = [])) as [->|Hd0].
  { unfold ready in Hf. rewrite He0 in Hf by done. apply wp_ret. split; [done|].
    exists D, f, bev. rewrite zlen_nil, Z.add_0_r. rewrite c_with_same, Ebev; [done|done|apply Hc]. }
  destruct (piece_cut d) as (Hk1 & Hk2 & Hk3 & Ek & Edrop). specialize (Hk3 Hd0).
  destruct (pending_bounds n d Hn0 Hd0 Hd) as [HnR Hdb]. destruct Hd as [later Hd].
  set (k := zlen (ztake 1024 d)) in *. destruct (Z.leb_spec k 0); [lia|].
  destruct (fill_array buf (ztake 1024 d)) as (b1 & rest & Ew1 & Ew2 & Hb' & Hbb'); [done|done|lia|auto with zlist|].
  fold k in Ew2. wstep. eapply wp_opt; [exact Ew1|]. wstep. eapply wp_opt; [exact Ew2|].
  wstep. eapply wp_opt; [apply cstr_terminated|].
  wstep. eapply wp_opt; [apply Hc|]. fold (restarts d). wstep.
  eapply wp_mono; [by apply reset_ready|]. intros f1 Hf1. wstep.
  eapply wp_mono; [eapply (framer_feed x inv e He Hx Hr _ _ _ _ (ztake 1024 d ++ 0 :: rest) k Hf1); auto; try lia|].
  { unfold INT_MAX. lia. }
  { rewrite ztake_app_exact, Ek, Hd by done. by rewrite ztake_app_le by lia. }
  intros [ok f2] (-> & D2 & Hf2). set (c2 := c_update_cm _ _).
  assert (c2 = c_with f2 (Bev input (bev_output bev)) c) as Ec2 by done.
  eapply wp_mono; [apply (IH false _ c2 f2 (n + k) D2 taken (zdrop k d)); try done|].
  - rewrite Ec2. destruct Hc as [? ? _ _]. split; try done. cbn. eexists. split; [done|].
    cbn. by rewrite Eleft.
  - exists later. rewrite <-zdrop_zdrop, Hd by lia. by rewrite zdrop_app_le by lia.
  - rewrite zlen_zdrop by lia. lia.
  - intros [ok c'] (-> & D' & f' & bev' & Hf' & Eb' & Eo & ->). split; [done|].
    exists D', f', bev'. rewrite zlen_zdrop in Hf' by lia.
    replace (n + k + (zlen d - k)) with (n + zlen d) in Hf' by lia. rewrite Ebev, Ec2 in *. done.
Qed.

(** ** Writing the frames *)

Lemma conn_write_spec c data tail : c_freed c = false → Forall is_byte (data ++ tail) →
  zlen data < 2 ^ 32 →
  wp e (conn_write (data ++ tail) (zlen data) c) (λ c',
    c' = c_set_output (evbuffer_add (bev_output (c_bev c)) (written OPCODE_TEXT data)) c).
Proof using He.
  intros Ha Hb Hs. unfold conn_write, alive, conn_write_frame. rewrite Ha. wstep. apply wp_ret. wstep.
  eapply wp_mono; [by apply wsconn_write_frame_spec|]. intros [out|] Hout; [subst out|done].
  by apply wp_ret.
Qed.

(** The manager's own state, and what it has sent to the server. *)
Definition same_manager (cm cm' : cmanager_t P B) : Prop :=
  cm_state cm' = cm_state cm ∧ cm_parser cm' = cm_parser cm ∧ cm_server cm' = cm_server cm ∧
  cm_dnsbase cm' = cm_dnsbase cm ∧ cm_connecting cm' = cm_connecting cm ∧
  cm_buffer cm' = cm_buffer cm ∧ bev_output <$> cm_bev cm' = bev_output <$> cm_bev cm.

(** What a step of the relay leaves alone. *)
Definition same_conn c c' : Prop :=
  same_manager (c_ctx c) (c_ctx c') ∧
  c_server c' = c_server c ∧ c_ws_state c' = c_ws_state c ∧ c_cm_state c' = c_cm_state c ∧
  c_fl_ws_closing c' = c_fl_ws_closing c ∧ c_fl_cm_closed c' = c_fl_cm_closed c ∧
  bev_input (c_bev c') = bev_input (c_bev c) ∧ c_wsmsg c' = c_wsmsg c ∧ c_req c' = c_req c ∧
  c_message_buffer c' = c_message_buffer c.

Lemma same_conn_trans c1 c2 c3 : same_conn c1 c2 → same_conn c2 c3 → same_conn c1 c3.
Proof. unfold same_conn, same_manager.
  intros ((-> & -> & -> & -> & -> & -> & ->) & -> & -> & -> & -> & -> & -> & -> & -> & ->). done. Qed.


Definition out_bytes c : list Z := ev_bytes (bev_output (c_bev c)).

Lemma forward_loop_spec fuel n D taken data c f pending :
  relaying f pending c → fr_rel x inv n D taken f → (length (f_list f) < fuel)%nat →
  zlen (d_buffer data) = DATA_BUFFER_SIZE → d_capacity data = DATA_BUFFER_SIZE →
  Forall is_byte (d_buffer data) →
  wp e (forward_loop fuel data c) (λ c',
    ∃ f', relaying f' pending c' ∧ fr_rel x inv n D (taken ++ f_list f) f' ∧ f_list f' = [] ∧
      same_conn c c' ∧
      out_bytes c' = out_bytes c ++ concat (part_frame <$> (slice R <$> f_list f))).
Proof using He Hx.
  revert taken data c f. induction fuel as [|fuel IH]; intros taken data c f Hc Hf Hl Hd Hcap Hb; [lia|].
  cbn [forward_loop]. wstep. eapply wp_opt; [apply Hc|]. unfold framer_has_frame.
  destruct (f_list f) as [|s l] eqn:E.
  { apply wp_ret. exists f. rewrite app_nil_r. simpl. rewrite app_nil_r. done. }
  rewrite bool_decide_eq_false_2 by done. cbn [negb]. wstep.
  eapply wp_mono; [apply (framer_take2 x inv e He Hx _ _ _ _ _ _ data Hf E); by rewrite Hcap|].
  intros [[data' size] f1] (-> & Hf1 & E1 & Hcap' & Hz' & Hlen' & Ht' & Hby').
  specialize (Hby' Hb). rewrite Hcap in Hcap', Hlen'. unfold data_get_buffer, data_get_length.
  rewrite <-(ztake_zdrop (d_length data') (d_buffer data')) at 1.
  assert (zlen (slice R s) = fr_size s ∧ 0 <= fr_size s) as [Hsl Hs0].
  { destruct (fr_head_bounds x inv Hx _ _ _ _ _ _ Hf E) as (? & ? & ? & _).
    destruct (fr_bounds _ _ _ _ _ _ Hf). unfold slice. rewrite zlen_slice; lia. }
  set (s' := ztake DATA_BUFFER_SIZE (slice R s)).
  assert (ztake (d_length data') (d_buffer data') = s') as Es'.
  { rewrite Ht', Hlen'. unfold s'. destruct (Z.le_ge_cases (fr_size s) DATA_BUFFER_SIZE).
    - rewrite Z.min_l, <-Hsl, ztake_all by lia. by rewrite ztake_ge by lia.
    - by rewrite Z.min_r by lia. }
  assert (zlen s' = d_length data') as Hs'.
  { unfold s'. rewrite Hlen', zlen_ztake_min by done. lia. }
  rewrite Es', <-Hs'. set (c1 := c_update_cm _ _). wstep.
  eapply wp_mono; [apply conn_write_spec|].
  { apply Hc. }
  { rewrite Hs', <-Es', ztake_zdrop. done. }
  { rewrite Hs', Hlen'. unfold DATA_BUFFER_SIZE. lia. }
  intros c2 ->. eapply wp_mono; [apply (IH (taken ++ [s]) data' _ f1)|]; try done.
  - destruct Hc as [? ? (bev & ? & ?) ?]. split; try done. exists bev. done.
  - rewrite E1. simpl in Hl. lia.
  - by rewrite Hz', Hcap'.
  - intros c3 (f3 & Hc3 & Hf3 & E3 & Hsame & Hout). exists f3. rewrite E1, <-app_assoc in Hf3.
    split; [done|]. split; [done|]. split; [done|]. split; [exact Hsame|].
    rewrite Hout, E1. unfold out_bytes at 1, c_set_output. cbn [c_bev c_set_bev bev_output].
    rewrite ev_add, <-app_assoc. reflexivity.
Qed.

(** ** One read *)

(** The server's bytes arrive and libevent calls [cm_readcb]. *)
Definition server_read (d : list Z) c : M (wsconn_t (cmanager_t P B) B) :=
  bev ← opt (cm_bev (c_ctx c));
  cm_readcb (c_update_cm (cm_set_bev (Some (Bev (evbuffer_add (bev_input bev) d) (bev_output bev)))) c).

Lemma server_read_spec c f n D taken d :
  relaying f [] c → ready true d n D taken f → d ≠ [] → d `prefix_of` zdrop n R →
  wp e (server_read d c) (λ c',
    ∃ D' f' taken', relaying f' [] c' ∧ fr_rel x inv (n + zlen d) D' (taken ++ taken') f' ∧
      f_list f' = [] ∧ same_conn c c' ∧
      out_bytes c' = out_bytes c ++ concat (part_frame <$> (slice R <$> taken'))).
Proof using He Hx Hr.
  intros Hc Hf Hd0 Hd. destruct (rl_bev _ _ _ Hc) as (bev & Ebev & Ein).
  unfold server_read. wstep. eapply wp_opt; [exact Ebev|].
  set (c1 := c_update_cm _ _). assert (relaying f d c1) as Hc1.
  { destruct Hc as [? ? _ ?]. split; try done. eexists. split; [done|]. cbn. by rewrite ev_add, Ein. }
  unfold cm_readcb, cm_alive. wstep. rewrite (rl_cm _ _ _ Hc1). apply wp_ret.
  wstep. apply wp_local_array; [done|]. intros buf Hbuf Hbb. wstep.
  apply wp_local_array; [done|]. intros db Hdb Hdbb. cbv zeta.
  destruct (rl_bev _ _ _ Hc1) as (bev1 & Ebev1 & Ein1). wstep. eapply wp_opt; [exact Ebev1|].
  wstep. eapply wp_mono; [eapply (readcb_loop_spec _ _ _ _ _ _ _ _ _ Hc1 Hf); auto|].
  { rewrite ev_length, Ein1. lia. }
  { done. }
  intros [ok c2] (-> & D2 & f2 & bev2 & Hf2 & Eb2 & Eo2 & ->). cbn [negb]. wstep. apply wp_ret.
  assert (relaying f2 [] (c_with f2 bev2 c1)) as Hc2.
  { destruct Hc1 as [? ? _ _]. split; try done. by exists bev2. }
  eapply wp_mono; [eapply (forward_loop_spec _ _ _ _ _ _ _ [] Hc2 Hf2); try done; lia|].
  intros c3 (f3 & Hc3 & Hf3 & E3 & Hsame & Hout). exists D2, f3, (f_list f2).
  do 3 (split; [done|]). split; [|done]. eapply same_conn_trans; [|exact Hsame].
  unfold same_conn, same_manager. cbn in Eo2 |- *. by rewrite Ebev, <-Eo2.
Qed.

(** ** A whole stream *)

Fixpoint relay (reads : list (list Z)) c : M (wsconn_t (cmanager_t P B) B) :=
  match reads with
  | [] => mret c
  | d :: reads => (c ← server_read d c; relay reads c)
  end.

Definition continues (d : list Z) : Prop := d ≠ [] ∧ restarts d = false.

Lemma relay_spec reads c f n D taken :
  relaying f [] c → fr_rel x inv n D taken f → f_list f = [] → Forall continues reads →
  concat reads `prefix_of` zdrop n R →
  wp e (relay reads c) (λ c',
    ∃ D' f' taken', relaying f' [] c' ∧ fr_rel x inv (n + zlen (concat reads)) D' (taken ++ taken') f' ∧
      f_list f' = [] ∧ same_conn c c' ∧
      out_bytes c' = out_bytes c ++ concat (part_frame <$> (slice R <$> taken'))).
Proof using He Hx Hr.
  revert c f n D taken. induction reads as [|d reads IH]; intros c f n D taken Hc Hf E Hk Hp.
  { apply wp_ret. exists D, f, []. cbn. rewrite zlen_nil, Z.add_0_r, !app_nil_r. done. }
  apply Forall_cons_iff in Hk as [[Hd Hk] Hks]. cbn [relay concat] in *.
  pose proof (fr_bounds _ _ _ _ _ _ Hf) as Hb. destruct Hp as [later Hp]. wstep.
  eapply wp_mono; [apply (server_read_spec c f n D taken d Hc); try done|].
  { unfold ready. by rewrite Hk. }
  { exists (concat reads ++ later). by rewrite Hp, <-app_assoc. }
  intros c1 (D1 & f1 & t1 & Hc1 & Hf1 & E1 & Hs1 & Ho1). zlen_pos.
  eapply wp_mono; [eapply (IH _ _ _ _ _ Hc1 Hf1 E1 Hks)|].
  { exists later. rewrite <-zdrop_zdrop, Hp, <-app_assoc by lia. by apply zdrop_app_exact. }
  intros c2 (D2 & f2 & t2 & Hc2 & Hf2 & E2 & Hs2 & Ho2). exists D2, f2, (t1 ++ t2).
  rewrite zlen_app, Z.add_assoc, app_assoc. split; [done|]. split; [done|]. split; [done|].
  split; [by eapply same_conn_trans|].
  rewrite Ho2, Ho1, !fmap_app, concat_app, app_assoc. reflexivity.
Qed.

(** What a stream can start with: a new framer reads any beginning of it, and one that has
    read another stream is reset by a read that begins with a prolog or a tag. *)
Definition starts f (first : list Z) : Prop := framer_fresh f ∨ framer_whole f ∧ restarts first = true.

Lemma relay_stream first reads c f :
  relaying f [] c → starts f first → first ≠ [] → Forall continues reads →
  concat (first :: reads) `prefix_of` R →
  wp e (relay (first :: reads) c) (λ c',
    ∃ f' outs, relaying f' [] c' ∧ framer_whole f' ∧ same_conn c c' ∧
      out_bytes c' = out_bytes c ++ concat (part_frame <$> outs) ∧ outs `prefix_of` parts x ∧
      (expat_prompt (toks x) inv → concat (first :: reads) = R → outs = parts x)).
Proof using He Hx Hr.
  intros Hc Hf Hd Hk Hp. cbn [relay concat] in *. destruct Hp as [later Hp]. wstep.
  eapply wp_mono; [apply (server_read_spec c f 0 [] [] first Hc); try done|].
  { destruct Hf as [Hf|[Hf Hrst]]; [by apply fresh_ready|]. unfold ready. by rewrite Hrst. }
  { exists (concat reads ++ later). by rewrite zdrop_0, Hp, <-app_assoc. }
  intros c1 (D1 & f1 & t1 & Hc1 & Hf1 & E1 & Hs1 & Ho1). cbn [app] in Hf1.
  eapply wp_mono; [eapply (relay_spec _ _ _ _ _ _ Hc1 Hf1 E1 Hk)|].
  { exists later. rewrite Z.add_0_l, Hp, <-app_assoc. by apply zdrop_app_exact. }
  intros c2 (D2 & f2 & t2 & Hc2 & Hf2 & E2 & Hs2 & Ho2).
  destruct (fr_rel_parts x inv Hx _ _ _ _ Hf2 E2) as [Hpre Hall].
  exists f2, (slice R <$> (t1 ++ t2)). split; [done|]. split; [by eapply fr_rel_whole|].
  split; [by eapply same_conn_trans|]. split; [|split; [done|]].
  - rewrite Ho2, Ho1, !fmap_app, concat_app, app_assoc. reflexivity.
  - intros Hprompt Hcat. apply Hall; [done|]. rewrite <-Hcat, zlen_app. lia.
Qed.
End relay.
