(* ===== verification/RelayProps.v ===== *)
(** Properties of the way from the server to the browser. *)

From S2P Require Import Prelude CString Str Config Buffer WsMessage WsFrameSpec WsMessageSpec Rfc6455 Assembly WsMessageProps WsFrame WsFrameProps RqParser RqSpec RqProps Expat StreamParse Framer FramerSpec FramerProps Libevent WsServer CManager Relay.

Definition text_message (s : list Z) : frame := Frame true OPCODE_TEXT None s.

Lemma part_frame_short s : zlen s <= 65535 → part_frame s = encode_frame (text_message s).
Proof.
  intros Hs. unfold part_frame. rewrite ztake_ge by (unfold DATA_BUFFER_SIZE; lia).
  by apply written_encode.
Qed.

Lemma part_frames_wire ps : Forall (λ s, zlen s <= 65535) ps →
  concat (part_frame <$> ps) = wire (text_message <$> ps).
Proof.
  induction 1 as [|s ps Hs _ IH]; [done|]. rewrite !fmap_cons, wire_cons. cbn [concat].
  by rewrite IH, part_frame_short.
Qed.

(** C9: forwarding.  While the browser's connection is up, the server's stream is written to
    the browser as WebSocket text messages: the opening tag, each stanza and the
    closing tag, in order, each whole in one message of its own, nothing else, and
    nothing of the connection's own state changes.  All of them have been written
    when the stream has arrived and Expat is prompt.  Afterwards the next stream can
    follow.  The reads are of any size, with two conditions ([starts], [continues]): the
    first read of a stream that follows another one begins with the whole of
    "<?xml" or "<stream:stream", which a new framer does not need, and no later read
    begins so, since [cm_readcb] takes it for a new stream.  No part is longer than
    65535 bytes.  Allocations succeed. *)
Theorem relay_forwards_stanzas {P B} `{Expat P} `{EvbufferLaws B} e x inv first reads
    (c : wsconn_t (cmanager_t P B) B) f :
  e ≠ Hostile → stream_ok x → expat_reads (toks x) inv → Forall (λ s, zlen s <= 65535) (parts x) →
  relaying f [] c → starts f first → first ≠ [] → Forall continues reads →
  concat (first :: reads) `prefix_of` raw (toks x) →
  wp e (relay (first :: reads) c) (λ c',
    ∃ f' outs, relaying f' [] c' ∧ framer_whole f' ∧ same_conn c c' ∧
      out_bytes c' = out_bytes c ++ wire (text_message <$> outs) ∧ outs `prefix_of` parts x ∧
      (expat_prompt (toks x) inv → concat (first :: reads) = raw (toks x) → outs = parts x)).
Proof.
  intros He Hx Hr Hs Hc Hf Hd Hk Hp. eapply wp_mono; [by eapply (relay_stream x inv e He Hx Hr)|].
  intros c' (f' & outs & Hc' & Hf' & Hsame & Hout & [later Hpre] & Hall). exists f', outs.
  rewrite Hpre in Hs. apply Forall_app in Hs as [Hs _]. rewrite <-part_frames_wire by done.
  split_and!; auto. by exists later.
Qed.

(** A connection in the middle of its life. *)
Definition sample_framer : framer_t Z := Framer (Live 0) 0 false 0 [] false (Live empty_buffer) 0.
Definition sample_manager : cmanager_t Z (list Z) :=
  Cmanager CM_FORWARD None (Some (bs "example.org")) (Some (Bev [] [])) true (Some (Some (bs "example.org"), XMPP_PORT))
    (Some empty_buffer) (Some sample_framer) false.
Definition empty_wsmsg : wsmsg_t :=
  Wsmsg false false false (Buffer (replicate 128 0) 0 128 200) (Buffer (replicate 100 0) 0 100 100)
    false 0 false (Buffer (replicate 128 0) 0 128 1000) 0 false 100.
Definition sample_conn (ts : list xtok) : wsconn_t (cmanager_t Z (list Z)) (list Z) :=
  Wsconn (cm_wsserver (H := script ts) config_zero) WS_ST_RECEIVING CM_ST_CREATED false false
    (Bev [] []) (blank_request ST_HEADER) empty_wsmsg empty_buffer sample_manager 0 false.

Lemma sample_relaying ts : relaying sample_framer [] (sample_conn ts) ∧ framer_whole sample_framer.
Proof. split; [split; try done; by eexists|by exists 0, empty_buffer]. Qed.

Lemma sample_fresh ts : framer_fresh (H := script ts) sample_framer.
Proof. exists empty_buffer. split_and!; try done. apply empty_buffer_wf. Qed.

(** A new framer, with a first read of two bytes. *)
Definition slow_chunks : list (list Z) :=
  [ztake 2 (raw (toks sample_stream)); zdrop 2 (raw (toks sample_stream))].

Lemma relay_forwards_stanzas_witness :
  wp Garbage (relay (H := script (toks sample_stream)) slow_chunks (sample_conn (toks sample_stream)))
    (λ c', ∃ outs, out_bytes c' = out_bytes (sample_conn (toks sample_stream)) ++ wire (text_message <$> outs) ∧
      outs = parts sample_stream) ∧
  wp Garbage (relay (H := script (toks sample_stream)) sample_chunks (sample_conn (toks sample_stream)))
    (λ c', ∃ f' outs, relaying f' [] c' ∧ framer_whole f' ∧
      same_conn (sample_conn (toks sample_stream)) c' ∧
      out_bytes c' = out_bytes (sample_conn (toks sample_stream)) ++ wire (text_message <$> outs) ∧
      outs `prefix_of` parts sample_stream ∧
      (expat_prompt (toks sample_stream) (script_inv (toks sample_stream)) →
       concat sample_chunks = raw (toks sample_stream) → outs = parts sample_stream)).
Proof.
  split.
  - eapply wp_mono.
    { apply (relay_forwards_stanzas (H := script (toks sample_stream)) Garbage sample_stream
        (script_inv (toks sample_stream)) (ztake 2 (raw (toks sample_stream))) [zdrop 2 (raw (toks sample_stream))]
        _ sample_framer); [done|apply sample_stream_ok|apply sample_stream_reads|decided|
        apply sample_relaying|left; apply sample_fresh|by vm_compute| |].
      - each. split; [by vm_compute|by vm_compute].
      - exists []. vm_compute. reflexivity. }
    intros c' (f' & outs & _ & _ & _ & Hout & _ & Hall). exists outs. split; [done|].
    apply Hall; [apply script_prompt|by vm_compute].
  - apply (relay_forwards_stanzas (H := script (toks sample_stream)) Garbage sample_stream _ _ _
      _ sample_framer); [done|apply sample_stream_ok|apply sample_stream_reads|decided|
      apply sample_relaying|right; split; [apply (sample_relaying [])|by vm_compute]|done| |].
    + each. split; [by vm_compute|by vm_compute].
    + exists []. vm_compute. reflexivity.
Defined.

(** C40: a stanza of 65536 bytes or more breaks the connection's framing: it is cut
    at 65536 bytes and written as an empty message, after which the browser
    takes the stanza's own text for frame headers.  Allocations succeed. *)
Theorem relay_long_stanza {P B} `{Expat P} `{EvbufferLaws B} e x inv first reads
    (c : wsconn_t (cmanager_t P B) B) f ps1 s ps2 :
  e ≠ Hostile → stream_ok x → expat_reads (toks x) inv → expat_prompt (toks x) inv →
  relaying f [] c → framer_whole f → first ≠ [] → restarts first = true → Forall continues reads →
  concat (first :: reads) = raw (toks x) →
  parts x = ps1 ++ s :: ps2 → Forall (λ s, zlen s <= 65535) ps1 → 65536 <= zlen s →
  wp e (relay (first :: reads) c) (λ c',
    ∃ rest, out_bytes c' = out_bytes c ++ wire (text_message <$> ps1) ++ rest ∧
      next_frame 0 rest = NFrame (Hdr true OPCODE_TEXT false) []
        (ztake DATA_BUFFER_SIZE s ++ concat (part_frame <$> ps2))).
Proof.
  intros He Hx Hr Hprompt Hc Hf Hd Hrst Hk Hp Hparts Hs1 Hs.
  eapply wp_mono; [eapply (relay_stream x inv e He Hx Hr); try done; [by right|by rewrite Hp]|].
  intros c' (f' & outs & _ & _ & _ & Hout & _ & Hall). rewrite (Hall Hprompt Hp), Hparts in Hout.
  exists (part_frame s ++ concat (part_frame <$> ps2)). split.
  - rewrite Hout, fmap_app, concat_app, part_frames_wire by done. done.
  - unfold part_frame at 1. assert (zlen (ztake DATA_BUFFER_SIZE s) = 65536) as Hz.
    { unfold DATA_BUFFER_SIZE. rewrite zlen_ztake_min; lia. }
    rewrite written_overflow by (done || lia). rewrite Hz. by rewrite ztake_0, zdrop_0.
Qed.

Definition big_stream : xstream :=
  XStream [] (in_ns STREAM_NS STREAM) [] (bs "<stream:stream xmlns='jabber:client'>")
    [Stanza [XOpen (in_ns CLIENT (bs "message")) [] (bs "<message>");
             XText (payload_of 65536);
             XClose (in_ns CLIENT (bs "message")) (bs "</message>")]]
    (bs "</stream:stream>").

Definition big_stanza : list Z := bs "<message>" ++ payload_of 65536 ++ bs "</message>".

Example relay_long_stanza_witness :
  wp Garbage (relay (H := script (toks big_stream)) [raw (toks big_stream)] (sample_conn (toks big_stream)))
    (λ c', ∃ rest,
      out_bytes c' = out_bytes (sample_conn (toks big_stream)) ++
        wire (text_message <$> [xs_open big_stream]) ++ rest ∧
      next_frame 0 rest = NFrame (Hdr true OPCODE_TEXT false) []
        (ztake DATA_BUFFER_SIZE big_stanza ++
         concat (part_frame <$> [xs_close big_stream]))).
Proof.
  apply (relay_long_stanza (H := script (toks big_stream)) Garbage big_stream
    (script_inv (toks big_stream)) (raw (toks big_stream)) [] (sample_conn (toks big_stream))
    sample_framer [xs_open big_stream] big_stanza [xs_close big_stream]).
  - discriminate.
  - split; decided.
  - apply script_reads. decided.
  - apply script_prompt.
  - apply sample_relaying.
  - apply (sample_relaying []).
  - rewrite raw_toks. discriminate.
  - vm_compute. reflexivity.
  - apply Forall_nil_2.
  - cbn [concat]. apply app_nil_r.
  - unfold parts, stanzas, big_stream, big_stanza. cbn [xs_open xs_items xs_close mbind list_bind app].
    rewrite !raw_cons. change (raw []) with (@nil Z). rewrite app_nil_r. reflexivity.
  - each. decided.
  - decided.
Defined.
