(* ===== verification/Gateway.v ===== *)
(** The whole gateway: a browser is accepted, upgrades its connection, opens an
    XMPP stream with the server it names, and the two of them then talk at the
    same time. *)

From S2P Require Import Prelude CString Str Config Buffer WsMessage WsFrameSpec WsMessageSpec Rfc6455 Assembly WsMessageProps WsTake WsFrame WsFrameProps RqParser RqSpec RqProps Expat StreamParse Framer FramerSpec FramerProps Libevent WsServer CManager WsConn WsEvents WsReads WsHandshake ManagerClient WsConnProps Upstream Relay RelayProps.

(** What arrives once both connections are up: a message of the browser, in
    reads of its own, a ping of the browser, or a read from the server. *)
Inductive traffic := FromBrowser (t : transfer) | FromBrowserPing (f : frame) | FromServer (d : list Z).

Definition from_browser : list traffic → list transfer :=
  omap (λ ev, match ev with FromBrowser t => Some t | _ => None end).
Definition browser_pings : list traffic → list frame :=
  omap (λ ev, match ev with FromBrowserPing f => Some f | _ => None end).
Definition from_server : list traffic → list (list Z) :=
  omap (λ ev, match ev with FromServer d => Some d | _ => None end).

(** What is written to the browser: a part of the server's stream, or the answer to a
    ping. *)
Inductive to_browser := Part (s : list Z) | Pong (p : list Z).

Definition written_parts : list to_browser → list (list Z) :=
  omap (λ o, match o with Part s => Some s | Pong _ => None end).
Definition written_pongs : list to_browser → list (list Z) :=
  omap (λ o, match o with Pong p => Some p | Part _ => None end).

Definition item_bytes (o : to_browser) : list Z :=
  match o with Part s => part_frame s | Pong p => written OPCODE_PONG p end.
Definition item_frame (o : to_browser) : frame :=
  match o with Part s => text_message s | Pong p => Frame true OPCODE_PONG None p end.

Lemma written_parts_app os os' : written_parts (os ++ os') = written_parts os ++ written_parts os'.
Proof. apply omap_app. Qed.
Lemma written_pongs_app os os' : written_pongs (os ++ os') = written_pongs os ++ written_pongs os'.
Proof. apply omap_app. Qed.

Lemma written_only_parts ss : written_parts (Part <$> ss) = ss ∧ written_pongs (Part <$> ss) = [].
Proof. induction ss as [|s ss [IH1 IH2]]; [done|]. cbn in *. by rewrite IH1, IH2. Qed.

(** Short items are written as frames. *)
Lemma items_wire os :
  Forall (λ s, zlen s <= 65535) (written_parts os) → Forall (λ p, zlen p <= 65535) (written_pongs os) →
  concat (item_bytes <$> os) = wire (item_frame <$> os).
Proof.
  induction os as [|[s|p] os IH]; [done| |]; cbn [written_parts written_pongs omap list_omap];
    rewrite !fmap_cons, wire_cons; cbn [concat item_bytes item_frame].
  - intros [Hs Hss]%Forall_cons_iff Hp. by rewrite IH, part_frame_short.
  - intros Hss [Hp Hps]%Forall_cons_iff. by rewrite IH, written_encode.
Qed.

(** The server's reads: no read begins like a new stream, but the first may, which a new
    framer waits for. *)
Definition server_reads (fresh : bool) (ds : list (list Z)) : Prop :=
  match ds with
  | [] => True
  | d :: ds => d ≠ [] ∧ (fresh = true ∨ restarts d = false) ∧ Forall continues ds
  end.

Lemma server_reads_tail fresh d ds : server_reads fresh (d :: ds) → server_reads false ds.
Proof. intros (_ & _ & Hds). destruct Hds as [|d' ds' []]; [done|]. split; [done|]. by split; [right|]. Qed.

Section gateway.
Context {P B : Type} `{Expat P} `{!ExpatSmall P} `{EvbufferLaws B}.
Context (SHA1 : list Z → list Z) (fnmatch : list Z → list Z → bool).
Context (e : env) `{Hg : !Granted e} (conf : jsconf_t).
Context (x : xstream) (inv : P → Z → list xml_event → Prop).
Context (Hx : stream_ok x) (Hr : expat_reads (toks x) inv).
Local Abbreviation manager := (cmanager_t P B).
Local Abbreviation server := (cm_wsserver (P := P) (B := B) conf).
Local Abbreviation R := (raw (toks x)).
Implicit Types (c : wsconn_t manager B) (f : framer_t P).

(** ** Both directions at once *)

Fixpoint traffic_run (evs : list traffic) c : M (wsconn_t manager B) :=
  match evs with
  | [] => mret c
  | FromBrowser t :: evs =>
      c ← conn_run SHA1 fnmatch e server (EvRead <$> t_chunks t) c; traffic_run evs c
  | FromBrowserPing f :: evs =>
      c ← conn_run SHA1 fnmatch e server [EvRead (encode_frame f)] c; traffic_run evs c
  | FromServer d :: evs => c ← server_read d c; traffic_run evs c
  end.

(** The connection carries traffic: [sent] has been sent to server [host], and the
    framer is [f]. *)
Definition carrying (host sent : list Z) f c : Prop :=
  between e server c ∧ forwarding host sent (c_ctx c) ∧ cm_framer (c_ctx c) = Some f.

(** The framer's place in the server's stream. *)
Definition placed (fresh : bool) (n : Z) (D : list xml_event) (taken : list frame_t) f : Prop :=
  if fresh then framer_fresh f ∧ n = 0 ∧ D = [] ∧ taken = []
  else fr_rel x inv n D taken f ∧ f_list f = [].

Lemma carrying_relaying host sent f c : carrying host sent f c → relaying f [] c.
Proof using.
  intros ([([] & _) _] & (Ho & _ & _ & bev & Ebev & _ & Hin) & Hf). split; [done|apply Ho|by exists bev|done].
Qed.

(** What the manager has of its own is kept by a step of the relay. *)
Lemma forwarding_same host sent f cm cm' :
  forwarding host sent cm → same_manager cm cm' → cm_freed cm' = false → cm_framer cm' = Some f →
  framer_whole f → (∃ bev, cm_bev cm' = Some bev ∧ ev_bytes (bev_input bev) = []) → forwarding host sent cm'.
Proof using.
  intros ([_ Hp Hb _ _] & Hst & Hto & bev & Ebev & Hs & _) (Est & Ep & _ & _ & Eto & Eb & Eout) Hfr Hf Hw (bev' & Ebev' & Hin).
  rewrite Ebev, Ebev' in Eout. injection Eout as Eout. split; [|split; [|split]].
  - split; rewrite ?Ep, ?Eb; [done|done|done|by exists f|by exists bev'].
  - by rewrite Est.
  - unfold connected_to. by rewrite Eto.
  - exists bev'. by rewrite Eout.
Qed.

Lemma relaying_carrying host sent f f' c c' :
  carrying host sent f c → relaying f' [] c' → framer_whole f' → same_conn c c' →
  carrying host sent f' c' ∧ conn_limits c' = conn_limits c.
Proof using.
  intros ([Hrec [op Hq]] & Hfwd & _) [Hal Hcm Hbev Hfr] Hw
    (Hm & Es & Ews & Ecs & Ewc & Ecc & Ein & Ewm & _ & Emb).
  assert (forwarding host sent (c_ctx c')) as Hfwd' by by eapply forwarding_same.
  destruct Hrec as ([] & ? & ? & ? & ? & ?). split; [split; [split|split]|].
  - split; [|by rewrite Ews, Ecs, Ewc, Ecc; split_and!; try done; apply Hfwd'].
    split; unfold input_ok; by rewrite ?Es, ?Ewm, ?Emb, ?Ein.
  - exists op. unfold conn_asm. by rewrite Ewm.
  - done.
  - done.
  - unfold conn_limits. by rewrite Ewm.
Qed.

Lemma carrying_message host sent f c t :
  carrying host sent f c → text_transfer (conn_limits c) t →
  wp e (conn_run SHA1 fnmatch e server (EvRead <$> t_chunks t) c) (λ c',
    carrying host (sent ++ message t) f c' ∧ conn_limits c' = conn_limits c ∧ out_stream c' = out_stream c).
Proof using All.
  intros (Hc & Hfwd & Hf) Ht. eapply wp_mono.
  { apply (message_arrives SHA1 fnmatch e server Hg
      (λ cm, forwarding host (sent ++ message t) cm ∧ cm_framer cm = cm_framer (c_ctx c)) t c); [|done|done|].
    - by intros cm [[? _] _].
    - intros mb Hmb Hl <-. by apply forwarding_sends. }
  intros c' (Hc' & [Hfwd' Hf'] & ? & ?). split; [|done]. split; [done|]. split; [done|]. by rewrite Hf'.
Qed.

Lemma carrying_ping host sent f c fr :
  carrying host sent f c → ping_fits (conn_limits c) fr →
  wp e (conn_run SHA1 fnmatch e server [EvRead (encode_frame fr)] c) (λ c',
    carrying host sent f c' ∧ conn_limits c' = conn_limits c ∧
    out_stream c' = out_stream c ++ written OPCODE_PONG (f_payload fr)).
Proof using All.
  intros (Hc & Hfwd & Hf) Hfr.
  eapply wp_mono; [by apply (ping_answered SHA1 fnmatch e server Hg)|].
  intros c' (Hc' & Ectx & ? & ?). unfold carrying. by rewrite Ectx.
Qed.

Lemma carrying_read fresh host sent f c n D taken d ds :
  carrying host sent f c → placed fresh n D taken f → server_reads fresh (d :: ds) → d `prefix_of` zdrop n R →
  wp e (server_read d c) (λ c', ∃ f' D' taken',
    carrying host sent f' c' ∧ placed false (n + zlen d) D' (taken ++ taken') f' ∧ conn_limits c' = conn_limits c ∧
    out_stream c' = out_stream c ++ concat (part_frame <$> (slice R <$> taken'))).
Proof using All.
  intros Hc Hf (Hd0 & Hrst & _) Hd. eapply wp_mono.
  { eapply (server_read_spec x inv e Hg Hx Hr); [by eapply carrying_relaying| |done|done].
    unfold placed in *. destruct fresh; [destruct Hf as (Hf & -> & -> & ->); by apply fresh_ready|].
    unfold ready. destruct Hrst as [?|E]; [done|]. rewrite E. apply Hf. }
  intros c' (D' & f' & taken' & Hc' & Hf' & El & Hsame & Hout).
  destruct (relaying_carrying _ _ _ _ _ _ Hc Hc' (fr_rel_whole _ _ _ _ _ _ Hf') Hsame) as [? ?].
  by exists f', D', taken'.
Qed.

Lemma traffic_spec fresh evs host sent f c n D taken :
  carrying host sent f c → placed fresh n D taken f → 0 <= n → Forall (text_transfer (conn_limits c)) (from_browser evs) →
  Forall (ping_fits (conn_limits c)) (browser_pings evs) →
  server_reads fresh (from_server evs) → concat (from_server evs) `prefix_of` zdrop n R →
  wp e (traffic_run evs c) (λ c', ∃ f' D' taken' os,
    carrying host (sent ++ texts (from_browser evs)) f' c' ∧
    placed (if from_server evs is [] then fresh else false)
      (n + zlen (concat (from_server evs))) D' (taken ++ taken') f' ∧
    out_stream c' = out_stream c ++ concat (item_bytes <$> os) ∧ conn_limits c' = conn_limits c ∧
    written_parts os = slice R <$> taken' ∧ written_pongs os = f_payload <$> browser_pings evs).
Proof using All.
  revert fresh sent f c n D taken.
  induction evs as [|[t|fr|d] evs IH]; intros fresh sent f c n D taken Hc Hf Hn Hts Hps Hds Hp.
  { apply wp_ret. exists f, D, [], []. cbn. by rewrite Z.add_0_r, !app_nil_r. }
  - change (from_browser (FromBrowser t :: evs)) with (t :: from_browser evs) in *.
    change (from_server (FromBrowser t :: evs)) with (from_server evs) in *.
    apply Forall_cons_iff in Hts as [Ht Hts]. cbn [traffic_run]. wstep.
    eapply wp_mono; [by apply carrying_message|]. intros c1 (Hc1 & Hl1 & Hout1).
    eapply wp_mono; [apply (IH fresh (sent ++ message t) f c1 n D taken); try done; by rewrite Hl1|].
    intros c' (f' & D' & taken' & os & Hc' & Hf' & Hout' & Hl' & Hos). exists f', D', taken', os.
    rewrite <-app_assoc in Hc'. by rewrite Hout', Hout1, Hl'.
  - change (from_browser (FromBrowserPing fr :: evs)) with (from_browser evs) in *.
    change (browser_pings (FromBrowserPing fr :: evs)) with (fr :: browser_pings evs) in *.
    change (from_server (FromBrowserPing fr :: evs)) with (from_server evs) in *.
    apply Forall_cons_iff in Hps as [Hfr Hps]. cbn [traffic_run]. wstep.
    eapply wp_mono; [by apply carrying_ping|]. intros c1 (Hc1 & Hl1 & Hout1).
    eapply wp_mono; [apply (IH fresh sent f c1 n D taken); try done; by rewrite Hl1|].
    intros c' (f' & D' & taken' & os & Hc' & Hf' & Hout' & Hl' & Hparts & Hpongs).
    exists f', D', taken', (Pong (f_payload fr) :: os). split; [done|]. split; [done|].
    rewrite Hout', Hout1, Hl', <-app_assoc, !fmap_cons, <-Hpongs. done.
  - change (from_browser (FromServer d :: evs)) with (from_browser evs) in *.
    change (browser_pings (FromServer d :: evs)) with (browser_pings evs) in *.
    change (from_server (FromServer d :: evs)) with (d :: from_server evs) in *.
    cbn [traffic_run concat] in *. destruct Hp as [later Hp]. rewrite <-app_assoc in Hp.
    pose proof (zlen_nonneg d). wstep.
    eapply wp_mono; [eapply carrying_read; [done|done|done|by eexists]|].
    intros c1 (f1 & D1 & t1 & Hc1 & Hf1 & Hl1 & Hout1).
    eapply wp_mono; [apply (IH false sent f1 c1 (n + zlen d) D1 (taken ++ t1)); try done|].
    + lia.
    + by rewrite Hl1.
    + by rewrite Hl1.
    + by eapply server_reads_tail.
    + exists later. rewrite <-zdrop_zdrop, Hp by lia. by apply zdrop_app_exact.
    + intros c' (f' & D' & t2 & os & Hc' & Hf' & Hout' & Hl' & Hparts & Hpongs).
      destruct (written_only_parts (slice R <$> t1)) as [E1 E2].
      exists f', D', (t1 ++ t2), ((Part <$> (slice R <$> t1)) ++ os). split; [done|]. split.
      { rewrite zlen_app, Z.add_assoc, app_assoc. by destruct (from_server evs). }
      rewrite Hout', Hout1, Hl', written_parts_app, written_pongs_app, E1, E2, Hparts, Hpongs, !fmap_app, concat_app, app_assoc.
      split; [|done]. do 3 f_equal. by rewrite <-!list_fmap_compose.
Qed.

(** ** From the accepted socket on *)

Definition gateway_session (reads : list (list Z)) (header early : list transfer)
    (evs : list traffic) : M (option (wsconn_t manager B)) :=
  r ← handshake_session SHA1 fnmatch e server reads;
  match r with
  | Some c =>
      c ← upstream_open SHA1 fnmatch e conf header early c;
      c ← traffic_run evs c;
      mret (Some c)
  | None => mret None
  end.

(** The request is well-formed, and [response] accepts it. *)
Record accepted (lines reads : list (list Z)) (response : list Z) : Prop := {
  ac_lines : Forall (λ l, line_ok l ∧ (10 ∉ l)) lines;
  ac_reads : Forall (λ d, d ≠ []) reads ∧ concat reads = request_text lines;
  ac_parsed : ∃ p, parse_request lines p_init = Some p ∧ p_error p = false ∧
    spec_analyze SHA1 fnmatch (p_req p) conf = (true, response)
}.

(** The browser's messages are text within the configured limits, the first of
    them name the server, and its pings fit. *)
Record browser_ok (host : list Z) (header early : list transfer) (evs : list traffic) : Prop := {
  bo_opens : opens (P := P) (conf_limits conf) host header early;
  bo_messages : Forall (text_transfer (conf_limits conf)) (from_browser evs);
  bo_pings : Forall (ping_fits (conf_limits conf)) (browser_pings evs)
}.

(** The server sends the stream [x], or its beginning, and no part of it is too
    long for a frame. *)
Record server_ok (ds : list (list Z)) : Prop := {
  so_reads : server_reads true ds;
  so_stream : concat ds `prefix_of` R;
  so_parts : Forall (λ s, zlen s <= 65535) (parts x)
}.

Lemma fresh_greets : greets e server cm_fresh.
Proof using Hg.
  split.
  - intros ctx Hc. apply Hc.
  - eapply wp_mono; [by apply (cm_create_ok e)|]. intros r (cm & -> & Hcm). exact Hcm.
  - intros mb ctx Hc. by apply wp_ret.
Qed.

Lemma placed_parts fresh n D taken f : placed fresh n D taken f →
  (slice R <$> taken) `prefix_of` parts x ∧
  (expat_prompt (toks x) inv → fresh = false → n = zlen R → slice R <$> taken = parts x).
Proof using Hx.
  unfold placed. destruct fresh; [intros (_ & _ & _ & ->); split; [apply prefix_nil|done]|].
  intros [Hf El]. destruct (fr_rel_parts x inv Hx _ _ _ _ Hf El) as [? Hall]. split; [done|].
  intros Hprompt _ Hn. by apply Hall.
Qed.

Lemma pongs_short pings : conf_small conf → Forall (ping_fits (conf_limits conf)) pings →
  Forall (λ p, zlen p <= 65535) (f_payload <$> pings).
Proof using.
  intros [[? ?] _] Hp. apply Forall_fmap. eapply Forall_impl; [|exact Hp].
  intros f [[_ [Hz|Hl]] _ _ _]; cbn in *; lia.
Qed.

(** The gateway carries traffic: which server it is connected to, and what each side has
    been sent. *)
Definition carried (host response : list Z) (header : list transfer) (evs : list traffic) c : Prop :=
  ∃ os, between e server c ∧ forwarding host (texts header ++ texts (from_browser evs)) (c_ctx c) ∧
    out_stream c = response ++ wire (item_frame <$> os) ∧
    written_pongs os = f_payload <$> browser_pings evs ∧ written_parts os `prefix_of` parts x ∧
    (expat_prompt (toks x) inv → from_server evs ≠ [] → concat (from_server evs) = R →
     written_parts os = parts x).

Lemma gateway_spec lines reads response header early evs host :
  sha1_ok SHA1 → conf_small conf → accepted lines reads response →
  browser_ok host header early evs → server_ok (from_server evs) →
  wp e (gateway_session reads header early evs) (λ r, ∃ c, r = Some c ∧
    conn_limits c = conf_limits conf ∧ carried host response header evs c).
Proof using All.
  intros Hsha Hconf [Hlines [Hne Hcat] (p & Hp & Herr & Hspec)] [Hopens Hmsgs Hpings] [Hds Hpre Hsmall].
  unfold gateway_session. wstep. eapply wp_mono.
  { apply (handshake_session_spec SHA1 fnmatch Hsha e server Hg cm_fresh fresh_greets lines p); done. }
  intros r (c0 & c & -> & Hout0 & Hq0 & Hl0 & Hh). unfold handshaken in Hh.
  change (ss_conf server) with conf in *. rewrite Hspec, Herr, Hout0 in Hh.
  destruct Hh as (Hout & Hrec & Hw & Hfresh).
  assert (between e server c) as Hc by (split; [done|exists 0; unfold conn_asm in *; by rewrite Hw]).
  assert (conn_limits c = conf_limits conf) as Hl by (unfold conn_limits in *; by rewrite Hw).
  wstep. eapply wp_mono; [eapply upstream_open_spec; try done; by rewrite Hl|].
  intros c1 (Hc1 & Hfwd1 & (f & Ef & Hf) & Hl1 & Hout1).
  wstep. eapply wp_mono.
  { apply (traffic_spec true evs host (texts header) f c1 0 [] []); try done; by rewrite Hl1, Hl. }
  intros c2 (f2 & D2 & taken & os & (Hc2 & Hfwd2 & _) & Hf2 & Hout2 & Hl2 & Eparts & Epongs). apply wp_ret.
  destruct (placed_parts _ _ _ _ _ Hf2) as [Hparts Hall]. cbn [app] in *. rewrite <-Eparts in Hparts, Hall.
  exists c2. split; [done|]. split; [by rewrite Hl2, Hl1|]. exists os. do 2 (split; [done|]).
  split; [|split; [done|split; [done|]]].
  - rewrite Hout2, Hout1, Hout, items_wire; [done| |rewrite Epongs; by apply pongs_short].
    destruct Hparts as [later Hparts]. rewrite Hparts in Hsmall. by apply Forall_app in Hsmall as [? _].
  - intros Hprompt Hsome Hraw. apply Hall; [done|by destruct (from_server evs)|by rewrite Hraw].
Qed.

(** ** The end *)

(** Either side closes: the browser with a close frame, or the connection with the
    server fails ([BEV_EVENT_ERROR]).  An end of file from the server is none. *)
Inductive goodbye := BrowserCloses (f : frame) | ServerLost.

Definition say_goodbye (g : goodbye) c : M (wsconn_t manager B) :=
  match g with
  | BrowserCloses f => conn_run SHA1 fnmatch e server [EvRead (encode_frame f)] c
  | ServerLost => cm_eventcb (Events false true false) c
  end.

(** The frame the browser gets. *)
Definition goodbye_frame (g : goodbye) : list Z :=
  match g with
  | BrowserCloses f => written OPCODE_CLOSE (close_echo (f_payload f))
  | ServerLost => server_gone_frame
  end.

(** An end of file that the server sends changes nothing. *)
Lemma server_eof_ignored c : cm_freed (c_ctx c) = false → wp e (cm_eventcb (Events false false true) c) (eq c).
Proof using. intros Hc. unfold cm_eventcb, cm_alive. rewrite Hc. wstep. apply wp_ret. by apply wp_ret. Qed.

Definition goodbye_ok (l : limits) (g : goodbye) : Prop :=
  match g with
  | BrowserCloses f => frame_fits (lim_frame l) f ∧ f_fin f = true ∧ f_opcode f = OPCODE_CLOSE ∧
      zlen (encode_frame f) <= lim_in l
  | ServerLost => True
  end.

Lemma goodbye_spec g c : between e server c → goodbye_ok (conn_limits c) g →
  wp e (say_goodbye g c) (λ c', closing_down e server c' ∧ out_stream c' = out_stream c ++ goodbye_frame g).
Proof using All.
  intros Hc Hg'. pose proof (between_caught_up e server c Hc) as Hup. destruct Hc as [Hrec _].
  pose proof Hrec as ([Hf Hs _ _ _ _] & Hws & Hcm & Hopen & _). destruct g as [f|]; cbn [say_goodbye goodbye_frame].
  - destruct Hg' as (? & ? & ? & Hroom). destruct (conn_limits_small e server _ _ Hrec) as [_ Hli].
    cbn [conn_run]. wstep. eapply wp_mono.
    { eapply (close_begins SHA1 fnmatch e server Hg 0 c (EvRead (encode_frame f))); [done| |by constructor].
      pose proof (zlen_nonneg (encode_frame f)). cbn [ev_received]. split; lia. }
    intros c' ?. by apply wp_ret.
  - pose proof (close_begins SHA1 fnmatch e server Hg 0 c EvServerGone _ Hrec ltac:(split; cbn; lia)
      (xmpp_server_gone c)) as Hgone.
    unfold conn_do in Hgone. rewrite Hf, Hcm in Hgone. cbv zeta in Hgone.
    rewrite bool_decide_eq_true_2 in Hgone by done. unfold cm_eventcb, cm_alive.
    rewrite (co_live _ Hopen). wstep. apply wp_ret. exact Hgone.
Qed.

(** A whole life: the traffic, the end, and the output going out in pieces of any
    sizes.  The connection is shown before it says goodbye, after it, and in the
    end. *)
Definition gateway_life reads header early evs (g : goodbye) (sizes : list Z)
    : M (option (wsconn_t manager B * wsconn_t manager B * wsconn_t manager B)) :=
  r ← gateway_session reads header early evs;
  match r with
  | Some c0 =>
      c1 ← say_goodbye g c0;
      c2 ← conn_run SHA1 fnmatch e server (EvWritten <$> sizes) c1;
      mret (Some (c0, c1, c2))
  | None => mret None
  end.

Lemma gateway_life_spec lines reads response header early evs host g sizes :
  sha1_ok SHA1 → conf_small conf → logged conf LOG_INFO = false → accepted lines reads response →
  browser_ok host header early evs → server_ok (from_server evs) →
  goodbye_ok (conf_limits conf) g → Forall (λ n, 0 <= n) sizes → sizes ≠ [] →
  wp e (gateway_life reads header early evs g sizes) (λ r, ∃ c0 c1 c2, r = Some (c0, c1, c2) ∧
    carried host response header evs c0 ∧ out_stream c1 = out_stream c0 ++ goodbye_frame g ∧
    closing_down e server c1 ∧ (zlen (out_stream c1) <= total sizes → c_freed c2 = true)).
Proof using All.
  intros Hsha Hconf Hlog Hreq Hbr Hsrv Hend Hsz Hne. unfold gateway_life. wstep.
  eapply wp_mono; [by eapply gateway_spec|]. intros r (c0 & -> & Hl & Hc0).
  pose proof Hc0 as (os & Hbetween & _). wstep.
  eapply wp_mono; [apply goodbye_spec; [done|by rewrite Hl]|]. intros c1 [Hdown Hout]. wstep.
  eapply wp_mono; [by apply (drains SHA1 fnmatch e server Hlog)|]. intros c2 [_ Hfreed]. apply wp_ret.
  exists c0, c1, c2. split; [done|]. split; [done|]. split; [done|]. split; [done|]. by apply Hfreed.
Qed.
End gateway.

(** C1: the gateway.  A browser is accepted, whatever memory holds; its request,
    cut into reads in any way, is answered with the upgrade; its first messages
    name an XMPP server, and the gateway asks for a connection with that server's port
    5222; once it is up, messages and pings of the browser and reads from the server
    arrive in any order.  Nothing is undefined, at any log level.  The server that has
    been named is sent the first messages and those that follow its answer, whole,
    unmasked and in order; the browser is sent the response to its request and then a
    stream of frames: the parts of the server's stream, each in one text message, in
    order, and all of them once the stream is complete, and between them the answers
    to its pings, in order.  Neither direction disturbs the other.

    What may arrive ([browser_ok], [server_ok]): text messages within the configured
    limits, in any fragments, each in reads of its own that are cut anywhere into pieces of
    at most [max_frame_size - 13] bytes; pings, each in one read; the server's one stream,
    with no part longer than 65535 bytes, in reads of any size of which none but the
    first begins with "<?xml" or "<stream:stream".  Allocations succeed. *)
Theorem gateway_correct {P B} `{Expat P} `{!ExpatSmall P} `{EvbufferLaws B} SHA1 fnmatch e `{!Granted e}
    conf x inv lines reads response header early evs host :
  sha1_ok SHA1 → conf_small conf → stream_ok x → expat_reads (toks x) inv →
  accepted SHA1 fnmatch conf lines reads response →
  browser_ok (P := P) conf host header early evs → server_ok x (from_server evs) →
  wp e (gateway_session (B := B) SHA1 fnmatch e conf reads header early evs) (λ r, ∃ c,
    r = Some c ∧ carried e conf x inv host response header evs c).
Proof.
  intros. eapply wp_mono; [by eapply (gateway_spec (B := B) SHA1 fnmatch e conf)|].
  intros r (c & -> & _ & ?). by exists c.
Qed.

(** ** A session *)

Definition hello_open : list Z := bs "<stream:stream to='example.org'>".
Definition talk : xstream :=
  XStream [] (in_ns STREAM_NS STREAM) [(bs "to", bs "example.org")] hello_open
    [Stanza [XOpen (in_ns CLIENT (bs "message")) [] (bs "<message>"); XText (bs "hi");
             XClose (in_ns CLIENT (bs "message")) (bs "</message>")]]
    (bs "</stream:stream>").

#[export] Instance talk_small : ExpatSmall (H := script (toks talk)) Z.
Proof. apply script_small. each; split; try decided; each; decided. Qed.

(** The browser and the server talk at the same time; the server's stream is cut in the
    middle of its stanza, and a ping arrives there. *)
Definition talk_traffic : list traffic :=
  [FromServer (ztake 45 (raw (toks talk))); FromBrowser (one_read (bs "<a/>")); FromBrowserPing sample_ping;
   FromServer (zdrop 45 (raw (toks talk))); FromBrowser (one_read (bs "<b/>"))].

Local Abbreviation upgrade := (switching (bs "keep-alive, Upgrade") (bs "s3pPLMBiTxaQ9kYGzzhZRbK+xOo=")).
Local Abbreviation talk_open := [one_read hello_open].
Local Abbreviation talk_early := [one_read (bs "<lost/>")].

Lemma talk_accepted : accepted sample_sha no_fnmatch small_conf sample_request sample_reads upgrade.
Proof.
  split.
  - unfold line_ok, cstring, no_percent. decided.
  - split; [each; done|by vm_compute].
  - exists sample_parse. split; [by vm_compute|]. split; [done|by vm_compute].
Qed.

Lemma sample_control_fits f : f = sample_ping ∨ f = sample_close →
  frame_fits 64 f ∧ f_fin f = true ∧ zlen (encode_frame f) <= 128.
Proof.
  intros [-> | ->]; (split; [|done]);
    (split; [split; simpl; try done|right; done]; try (intros key [= <-]; split; [done|]); decided).
Qed.

Lemma talk_browser :
  browser_ok (H := script (toks talk)) small_conf (bs "example.org") talk_open talk_early talk_traffic.
Proof.
  split; [split; [each; apply one_read_ok; decided| |decided]|each; apply one_read_ok; decided|].
  - eapply (names_last (H := script (toks talk))); [decided|reflexivity|by vm_compute].
  - each. destruct (sample_control_fits sample_ping) as (? & ? & ?); [by left|done].
Qed.

Lemma talk_server : server_ok talk (from_server talk_traffic).
Proof.
  split; [split; [by vm_compute|split; [by left|each; split; [done|by vm_compute]]]| |decided].
  exists []. vm_compute. reflexivity.
Qed.

Example gateway_correct_witness :
  wp Garbage (gateway_session (H := script (toks talk)) (B := list Z) sample_sha no_fnmatch Garbage small_conf
      sample_reads talk_open talk_early talk_traffic)
    (λ r, ∃ c os, r = Some c ∧
       forwarding (bs "example.org") (hello_open ++ bs "<a/><b/>") (c_ctx c) ∧
       out_stream c = upgrade ++ wire (item_frame <$> os) ∧ written_pongs os = [[7; 8]] ∧
       written_parts os = [hello_open; bs "<message>hi</message>"; bs "</stream:stream>"]).
Proof.
  eapply wp_mono.
  { apply (gateway_correct (H := script (toks talk)) sample_sha no_fnmatch Garbage small_conf talk
      (script_inv (toks talk)) sample_request sample_reads upgrade talk_open talk_early talk_traffic
      (bs "example.org")).
    - apply sample_sha1_ok.
    - apply small_conf_ok.
    - split; decided.
    - apply script_reads. decided.
    - apply talk_accepted.
    - apply talk_browser.
    - apply talk_server. }
  intros r (c & -> & os & _ & Hfwd & Hout & Hpongs & _ & Hall). exists c, os. split; [done|].
  rewrite Hall; [|apply script_prompt|done|vm_compute; reflexivity]. split; [|split; [exact Hout|done]].
  replace (hello_open ++ bs "<a/><b/>") with (texts talk_open ++ texts (from_browser talk_traffic))
    by (vm_compute; reflexivity).
  exact Hfwd.
Defined.

(** C3: the end of a session, with log messages of priority [LOG_INFO] masked.  After the
    traffic of C1, when the browser sends a close frame or libevent reports an error on the
    connection with the server, the browser is sent one more frame, a close frame, with
    its own status and reason or with status 1001, and once the output has gone out,
    in pieces of any sizes, the connection is freed.  An end of file from the
    server is no end of the session: [server_eof_ignored].  Allocations succeed. *)
Theorem gateway_ends {P B} `{Expat P} `{!ExpatSmall P} `{EvbufferLaws B} SHA1 fnmatch e `{!Granted e}
    conf x inv lines reads response header early evs host g sizes :
  sha1_ok SHA1 → conf_small conf → logged conf LOG_INFO = false →
  stream_ok x → expat_reads (toks x) inv →
  accepted SHA1 fnmatch conf lines reads response →
  browser_ok (P := P) conf host header early evs → server_ok x (from_server evs) →
  goodbye_ok (conf_limits conf) g → Forall (λ n, 0 <= n) sizes → sizes ≠ [] →
  wp e (gateway_life (B := B) SHA1 fnmatch e conf reads header early evs g sizes) (λ r, ∃ c0 c1 c2,
    r = Some (c0, c1, c2) ∧ carried e conf x inv host response header evs c0 ∧
    out_stream c1 = out_stream c0 ++ goodbye_frame g ∧ closing_down e (cm_wsserver conf) c1 ∧
    (zlen (out_stream c1) <= total sizes → c_freed c2 = true)).
Proof. intros. by eapply (gateway_life_spec (B := B) SHA1 fnmatch e conf). Qed.

Example gateway_ends_witness :
  wp Garbage (gateway_life (H := script (toks talk)) (B := list Z) sample_sha no_fnmatch Garbage small_conf
      sample_reads talk_open talk_early talk_traffic (BrowserCloses sample_close) [100; 1000])
    (λ r, ∃ c0 c1 c2, r = Some (c0, c1, c2) ∧
       out_stream c1 = out_stream c0 ++ [0x88; 5; 3; 232; 98; 121; 101] ∧
       (zlen (out_stream c1) <= 1100 → c_freed c2 = true)).
Proof.
  eapply wp_mono.
  { apply (gateway_ends (H := script (toks talk)) sample_sha no_fnmatch Garbage small_conf talk
      (script_inv (toks talk)) sample_request sample_reads upgrade talk_open talk_early talk_traffic
      (bs "example.org") (BrowserCloses sample_close) [100; 1000]).
    - apply sample_sha1_ok.
    - apply small_conf_ok.
    - done.
    - split; decided.
    - apply script_reads. decided.
    - apply talk_accepted.
    - apply talk_browser.
    - apply talk_server.
    - destruct (sample_control_fits sample_close) as (? & ? & ?); [by right|done].
    - decided.
    - done. }
  intros r (c0 & c1 & c2 & -> & _ & Hout & _ & Hfreed). by exists c0, c1, c2.
Defined.
