(* ===== verification/Main.v ===== *)
(** The program's entry (main.c): options, configuration, and a server whose
    client is the connection manager; and the program as a whole, from its
    command line to the end of a browser's connection. *)

From S2P Require Import Prelude CString Str Config ConfigProps Buffer WsMessage WsFrameSpec WsMessageSpec Rfc6455 Assembly WsMessageProps WsFrame RqParser RqSpec RqProps Expat StreamParse Framer FramerSpec FramerProps Libevent WsServer CManager WsConn WsReads WsHandshake ManagerClient WsConnProps Upstream Relay RelayProps Gateway.

Record params_t := Params { pa_config : list Z; pa_nodaemon : bool }.

(** The process exits with a code, or goes on. *)
Inductive outcome (A : Type) := Exited (code : Z) | Running (a : A).
Arguments Exited {A} code.
Arguments Running {A} a.

(** What [getopt_long] yields before it yields -1: an option's character, '?' for
    an invalid one, and [optarg]. *)
Definition getopt_result : Type := Z * list Z.

Definition usage : Z := 0.
Definition version : Z := 0.

Fixpoint parse_loop (opts : list getopt_result) (params : params_t) : outcome params_t :=
  match opts with
  | [] => Running params
  | (c, optarg) :: opts =>
      if c =? 118 then Exited version
      else if c =? 104 then Exited usage
      else if c =? 110 then parse_loop opts (Params (pa_config params) true)
      else if c =? 99 then parse_loop opts (Params optarg (pa_nodaemon params))
      else if c =? 63 then Exited usage
      else parse_loop opts params
  end.

Definition parse_params (opts : list getopt_result) : outcome params_t :=
  parse_loop opts (Params (bs "/etc/jabsocket.conf") false).

Section main.
Context {P B A : Type} `{Expat P} `{Evbuffer B}.

(** A file as libyaml's scanner reads it, the resolver, and whether a listener
    can be bound to an address. *)
Variable fopen : list Z → option (list yaml_token).
Variable getaddrinfo : option (list Z) → option (list Z) → option A.
Variable bind : A → bool.

(** Up to [event_base_dispatch].  The message about an address that cannot be
    resolved prints [conf->cidr], a null pointer when it is not configured. *)
Definition main (opts : list getopt_result) : M (outcome (wsserver_t (cmanager_t P B))) :=
  match parse_params opts with
  | Exited code => mret (Exited code)
  | Running params =>
      conf ← config_create;
      match conf with None => mret (Exited (-1)) | Some conf =>
      '(res, conf) ← config_parse conf (fopen (pa_config params));
      if negb res then mret (Exited (-1)) else
      match getaddrinfo (cidr conf) (port conf) with
      | None => _ ← opt (cidr conf); mret (Exited (-1))
      | Some answer =>
          base ← malloc_ok 1;
          if negb base then mret (Exited (-1)) else
          wsserver ← ws_create conf (bind answer);
          match wsserver with
          | None => mret (Exited (-1))
          | Some wsserver =>
              let wsserver := ws_set_config conf wsserver in
              mret (Running (ws_set_cb cm_create (λ cm, _ ← cm_delete cm; mret ()) (Some cmanager) wsserver))
          end
      end
      end
  end.
End main.

(** ** What the command line means *)

Definition exits (opt : getopt_result) : bool := bool_decide (opt.1 ∈ bs "vh?").
Definition config_args (opts : list getopt_result) : list (list Z) :=
  omap (λ '(c, arg), if bool_decide (c = 99) then Some arg else None) opts.

(** An option that prints and exits decides; otherwise the last configuration file
    counts. *)
Definition spec_params (opts : list getopt_result) : outcome params_t :=
  if existsb exits opts then Exited 0
  else Running (Params (default (bs "/etc/jabsocket.conf") (list.last (config_args opts)))
                  (existsb (λ opt, opt.1 =? 110) opts)).

Lemma parse_loop_spec opts config nodaemon :
  parse_loop opts (Params config nodaemon) =
    if existsb exits opts then Exited 0
    else Running (Params (default config (list.last (config_args opts)))
                    (nodaemon || existsb (λ opt, opt.1 =? 110) opts)).
Proof.
  revert config nodaemon. induction opts as [|[c arg] opts IH]; intros config nodaemon.
  { cbn. by rewrite orb_false_r. }
  assert (exits (c, arg) = ((c =? 118) || (c =? 104) || (c =? 63))) as Hexit.
  { apply eq_true_iff_eq. unfold exits. rewrite bool_decide_eq_true, !orb_true_iff, !Z.eqb_eq.
    change (bs "vh?") with [118; 104; 63]. cbn [fst]. rewrite !elem_of_cons, elem_of_nil. tauto. }
  cbn [parse_loop existsb config_args omap list_omap fst]. rewrite Hexit.
  destruct (Z.eqb_spec c 118); [done|]. destruct (Z.eqb_spec c 104); [done|]. cbn [orb].
  destruct (Z.eqb_spec c 110) as [->|]; [rewrite IH; cbn [orb]; by rewrite orb_true_r|].
  destruct (Z.eqb_spec c 99) as [->|].
  - rewrite bool_decide_eq_true_2 by done. rewrite IH. cbn [orb]. change (99 =? 63) with false. cbn [orb].
    fold (config_args opts). destruct (existsb exits opts); [done|]. do 2 f_equal.
    destruct (config_args opts) as [|a l]; [done|]. change (list.last (arg :: a :: l)) with (list.last (a :: l)).
    destruct (list.last (a :: l)) eqn:E; [done|]. by apply last_None in E.
  - rewrite bool_decide_eq_false_2 by done. fold (config_args opts). destruct (Z.eqb_spec c 63); [done|]. by rewrite IH.
Qed.

Lemma parse_params_spec opts : parse_params opts = spec_params opts.
Proof. apply parse_loop_spec. Qed.

(** ** What starting the program does *)

Section start.
Context {P B A : Type} `{Expat P} `{Evbuffer B}.
Context (files : list Z → option (list entry)).
Context (getaddrinfo : option (list Z) → option (list Z) → option A) (bind : A → bool).

(** The files as token sequences. *)
Definition scanned (path : list Z) : option (list yaml_token) := doc_tokens <$> files path.

(** The configuration a command line leads to; [None]: no file, or a number in it
    is out of range. *)
Definition configured (params : params_t) : option jsconf_t :=
  doc ← files (pa_config params); spec_doc doc config_zero.

Definition files_ok : Prop := ∀ path doc, files path = Some doc →
  Forall entry_ok doc ∧ is_Some (spec_doc doc config_zero).

(** [None]: the address cannot be resolved and there is nothing to print. *)
Definition started (conf : jsconf_t) : option (outcome (wsserver_t (cmanager_t P B))) :=
  match getaddrinfo (cidr conf) (port conf) with
  | Some a => Some (if bind a then Running (cm_wsserver conf) else Exited (-1))
  | None => if cidr conf is Some _ then Some (Exited (-1)) else None
  end.

Definition main_result (opts : list getopt_result) : option (outcome (wsserver_t (cmanager_t P B))) :=
  match spec_params opts with
  | Exited code => Some (Exited code)
  | Running params => from_option started (Some (Exited (-1))) (configured params)
  end.

Lemma main_spec e opts r : e ≠ Hostile → files_ok → main_result opts = Some r →
  wp e (main (P := P) (B := B) scanned getaddrinfo bind opts) (λ r', r' = r).
Proof using.
  intros He Hfiles Hr. unfold main, main_result in *. rewrite parse_params_spec. destruct (spec_params opts) as [code|params].
  { apply wp_ret. by simplify_eq. }
  unfold config_create. wstep. wstep. apply wp_alloc_ok; [done|done|]. apply wp_ret.
  unfold configured, scanned in *. destruct (files (pa_config params)) as [doc|] eqn:Ef.
  2: { cbn. wstep. apply wp_ret. cbn [negb]. apply wp_ret. by simplify_eq/=. }
  destruct (Hfiles _ _ Ef) as [Hok [conf Hconf]]. cbn [fmap option_fmap option_map].
  wstep. eapply wp_mono; [by apply (config_parse_spec e doc config_zero conf)|]. intros r' ->. cbn [negb].
  cbn [mbind option_bind] in Hr. rewrite Hconf in Hr. cbn [from_option] in Hr. unfold started in Hr.
  destruct (getaddrinfo (cidr conf) (port conf)) as [a|].
  - wstep. apply wp_alloc_ok; [done|done|]. cbn [negb]. wstep. unfold ws_create. wstep.
    apply wp_alloc_ok; [done|done|]. cbn [negb]. injection Hr as <-. destruct (bind a); cbn [negb].
    + wstep. apply wp_LOG; [by left|]. apply wp_ret. by apply wp_ret.
    + apply wp_ret. by apply wp_ret.
  - destruct (cidr conf); simplify_eq. wstep. apply wp_ret. by apply wp_ret.
Qed.
End start.

(** C25: the start of the program.  Whatever the options, and with configuration files that
    cannot be opened or hold well-formed documents of entries ([files_ok]), the
    program exits with the code [main_result] says, or listens with a server that
    has the document's values and the connection manager as its client; the last
    configuration file of the command line counts, and [-n] changes nothing.
    Allocations succeed. *)
Theorem main_correct {P B A} `{Expat P} `{Evbuffer B} e files getaddrinfo bind opts r :
  e ≠ Hostile → files_ok files → main_result (A := A) files getaddrinfo bind opts = Some r →
  wp e (main (P := P) (B := B) (scanned files) getaddrinfo bind opts) (λ r', r' = r).
Proof. intros. by apply main_spec. Qed.

(** ** The whole program *)

(** C2: the program as a whole.  Its command line names a configuration document that
    sets the limits within the safe ones, a port and an address that can be resolved and
    bound.  Then [main] reaches the event loop with a server that has the document's
    values, and a browser that this server accepts is served as C1 says, under its
    conditions on what arrives: upgrade, then both directions at once.  When
    the document's log level masks messages of priority [LOG_INFO], the session also ends as C3
    says, with a close frame and the connection freed.  Allocations succeed. *)
Theorem jabsocket_correct {P B A} `{Expat P} `{!ExpatSmall P} `{EvbufferLaws B} SHA1 fnmatch e `{!Granted e}
    files getaddrinfo bind opts params conf (addr : A) x inv lines reads response header early evs host :
  files_ok files → spec_params opts = Running params → configured files params = Some conf →
  getaddrinfo (cidr conf) (port conf) = Some addr → bind addr = true →
  sha1_ok SHA1 → conf_small conf → stream_ok x → expat_reads (toks x) inv →
  accepted SHA1 fnmatch conf lines reads response →
  browser_ok (P := P) conf host header early evs → server_ok x (from_server evs) →
  wp e (main (P := P) (B := B) (scanned files) getaddrinfo bind opts) (λ r,
    ∃ server, r = Running server ∧ server = cm_wsserver conf ∧
    wp e (gateway_session SHA1 fnmatch e (ss_conf server) reads header early evs) (λ r, ∃ c,
      r = Some c ∧ carried e conf x inv host response header evs c) ∧
    (logged conf LOG_INFO = false → ∀ g sizes,
     goodbye_ok (conf_limits conf) g → Forall (λ n, 0 <= n) sizes → sizes ≠ [] →
     wp e (gateway_life SHA1 fnmatch e (ss_conf server) reads header early evs g sizes) (λ r, ∃ c0 c1 c2,
       r = Some (c0, c1, c2) ∧ carried e conf x inv host response header evs c0 ∧
       out_stream c1 = out_stream c0 ++ goodbye_frame g ∧
       (zlen (out_stream c1) <= total sizes → c_freed c2 = true)))).
Proof.
  intros Hfiles Hopts Hconf Haddr Hbind. intros. eapply wp_mono.
  { apply (main_spec files getaddrinfo bind e opts (Running (cm_wsserver conf))); [done|done|].
    unfold main_result. rewrite Hopts, Hconf. cbn [from_option]. unfold started. by rewrite Haddr, Hbind. }
  intros r ->. eexists. split; [done|]. split; [done|]. split.
  { eapply wp_mono; [by eapply (gateway_spec (B := B) SHA1 fnmatch e conf)|].
    intros r (c & -> & _ & ?). by exists c. }
  intros Hlog g sizes ? ? ?. eapply wp_mono; [by eapply (gateway_life_spec (B := B) SHA1 fnmatch e conf)|].
  intros r (c0 & c1 & c2 & -> & ? & ? & _ & ?). by exists c0, c1, c2.
Qed.

(** ** A run of the program *)

Definition talk_config : list entry :=
  [EScalar (bs "port") (bs "5000"); EScalar (bs "listen") (bs "127.0.0.1");
   EScalar (bs "max_message_size") (bs "4096"); EScalar (bs "max_frame_size") (bs "64")].
Definition talk_files (path : list Z) : option (list entry) :=
  if bool_decide (path = bs "talk.conf") then Some talk_config else None.
Definition talk_conf : jsconf_t :=
  Jsconf (Some (bs "5000")) [] (Some (bs "127.0.0.1")) None None LOG_ERR 4096 64.
Definition talk_options : list getopt_result := [(99, bs "other.conf"); (110, []); (99, bs "talk.conf")].
(** Numeric addresses with a port resolve to themselves. *)
Definition numeric (node service : option (list Z)) : option (list Z * list Z) :=
  n ← node; s ← service; Some (n, s).

Lemma talk_files_ok : files_ok talk_files.
Proof.
  intros path doc. unfold talk_files. case_bool_decide; [|done]. intros [= <-].
  split; [|by eexists]. each; simpl; unfold scalar_ok, cstring; split_and!; try done; decided.
Qed.

Example main_correct_witness :
  wp Garbage (main (H := silent) (B := list Z) (scanned talk_files) numeric (λ _, true) talk_options)
    (λ r, r = Running (cm_wsserver (H := silent) talk_conf)) ∧
  wp Garbage (main (H := silent) (B := list Z) (scanned talk_files) numeric (λ _, true) [(99, bs "none.conf")])
    (λ r, r = Exited (-1)).
Proof.
  split; apply (main_correct (H := silent) Garbage talk_files numeric (λ _, true)); try done; apply talk_files_ok.
Defined.

Example jabsocket_correct_witness :
  wp Garbage (main (H := script (toks talk)) (B := list Z) (scanned talk_files) numeric (λ _, true) talk_options)
    (λ r, ∃ server, r = Running server ∧ server = cm_wsserver (H := script (toks talk)) talk_conf ∧
      wp Garbage (gateway_life (H := script (toks talk)) (B := list Z) sample_sha no_fnmatch Garbage (ss_conf server)
          sample_reads [one_read hello_open] [one_read (bs "<lost/>")] talk_traffic ServerLost [1000])
        (λ r, ∃ c0 c1 c2, r = Some (c0, c1, c2) ∧
           carried (H := script (toks talk)) Garbage talk_conf talk (script_inv (toks talk)) (bs "example.org")
             (switching (bs "keep-alive, Upgrade") (bs "s3pPLMBiTxaQ9kYGzzhZRbK+xOo="))
             [one_read hello_open] talk_traffic c0 ∧
           out_stream c1 = out_stream c0 ++ goodbye_frame ServerLost ∧
           (zlen (out_stream c1) <= total [1000] → c_freed c2 = true))).
Proof.
  eapply wp_mono.
  { apply (jabsocket_correct (H := script (toks talk)) sample_sha no_fnmatch Garbage talk_files numeric (λ _, true)
      talk_options (Params (bs "talk.conf") true) talk_conf (bs "127.0.0.1", bs "5000") talk
      (script_inv (toks talk)) sample_request sample_reads
      (switching (bs "keep-alive, Upgrade") (bs "s3pPLMBiTxaQ9kYGzzhZRbK+xOo="))
      [one_read hello_open] [one_read (bs "<lost/>")] talk_traffic (bs "example.org")).
    - apply talk_files_ok.
    - by vm_compute.
    - by vm_compute.
    - done.
    - done.
    - apply sample_sha1_ok.
    - by split; split.
    - split; decided.
    - apply script_reads. decided.
    - split; [apply talk_accepted|apply talk_accepted|].
      exists sample_parse. split; [by vm_compute|]. split; [done|by vm_compute].
    - destruct talk_browser. by split.
    - apply talk_server. }
  intros r (server & -> & -> & _ & Hlife). eexists. split; [done|]. split; [done|]. apply Hlife; [done|done|decided|done].
Defined.
