(* ===== verification/Heap.v ===== *)
(** The heap of the C program and a separation logic for it.

    The other files treat a structure as a value.  Here it is a block of the
    heap that holds pointers: [malloc] takes a free address, [free] of an address
    that is not allocated is undefined, and so is reading a block that has been
    freed or never written.  An assertion [hprop] describes a part of the heap
    exactly, so that what is not mentioned has been freed: it is a linear logic
    of bunched implications, an instance of Iris's [bi], and the proof
    mode works on it.  [hwp e m Φ] is the weakest precondition of a computation. *)

From iris.proofmode Require Import proofmode.
From S2P Require Import Prelude.

Definition loc : Type := positive.
(** A pointer; [None] is the null pointer. *)
Definition pointer : Type := option loc.

(** A block that has not been written since it was allocated is [None]. *)
Abbreviation heap V := (gmap loc (option V)).

(** The allocator takes an address that is free. *)
Class Allocator (V : Type) := {
  pick : heap V → loc;
  pick_free h : h !! pick h = None
}.

(** The smallest free address. *)
#[export, refine] Instance first_fit {V} : Allocator V := {| pick h := base.fresh (dom h : gset loc) |}.
Proof. intros h. apply (not_elem_of_dom (D := gset loc)), is_fresh. Defined.

(** ** Computations on the heap *)

Definition H (V A : Type) : Type := heap V → M (A * heap V).

#[export] Instance H_ret V : MRet (H V) := λ A a h, mret (a, h).
#[export] Instance H_bind V : MBind (H V) := λ A B f m h, '(a, h) ← m h; f a h.

Section operations.
Context {V : Type} `{!Allocator V}.

Definition h_ub {A} : H V A := λ _, ub.

Definition h_malloc (n : Z) : H V pointer := λ h,
  ok ← malloc_ok n;
  mret (if (ok : bool) then (Some (pick h), <[pick h := None]> h) else (None, h)).

Definition h_free (p : pointer) : H V () :=
  match p with
  | None => mret ()
  | Some l => λ h, match h !! l with Some _ => mret ((), delete l h) | None => ub end
  end.

(** [realloc] may move the block; on failure the old one stays. *)
Definition h_realloc (l : loc) (n : Z) : H V pointer := λ h,
  match h !! l with
  | None => ub
  | Some v =>
      ok ← malloc_ok n;
      let h' := delete l h in
      mret (if (ok : bool) then (Some (pick h'), <[pick h' := v]> h') else (None, h))
  end.

Definition h_load (l : loc) : H V V := λ h,
  match h !! l with Some (Some v) => mret (v, h) | _ => ub end.
Definition h_store (l : loc) (v : V) : H V () := λ h,
  match h !! l with Some _ => mret ((), <[l := Some v]> h) | None => ub end.

(** [strdup] and [strndup]: a block that holds [v]. *)
Definition h_new (n : Z) (v : V) : H V pointer :=
  p ← h_malloc n;
  match p with Some l => (_ ← h_store l v; mret p) | None => mret None end.

(** A loop over the blocks of the heap, none of which it visits twice: the number of
    blocks is enough fuel. *)
Definition h_loop {A} (body : nat → H V A) : H V A := λ h, body (S (size h)) h.
End operations.

(** ** Assertions *)

Record hprop (V : Type) : Type := Hprop { holds : heap V → Prop }.
Arguments Hprop {V} _.
Arguments holds {V} _ _.
Bind Scope bi_scope with hprop.

Section bi.
Context {V : Type}.
Implicit Types (P Q R : hprop V) (h : heap V).

Local Instance hprop_equiv : Equiv (hprop V) := λ P Q, ∀ h, holds P h ↔ holds Q h.
Local Instance hprop_equivalence : Equivalence (≡@{hprop V}).
Proof. split; [by intros P h|intros P Q E h; specialize (E h); tauto|intros P Q R E E' h; specialize (E h); specialize (E' h); tauto]. Qed.
Canonical Structure hpropO : ofe := discreteO (hprop V).

Record hp_entails P Q : Prop := HpEntails { hp_holds : ∀ h, holds P h → holds Q h }.
Arguments hp_holds {P Q} _ h.
Definition hp_emp : hprop V := Hprop (λ h, h = ∅).
Definition hp_pure (φ : Prop) : hprop V := Hprop (λ _, φ).
Definition hp_and P Q : hprop V := Hprop (λ h, holds P h ∧ holds Q h).
Definition hp_or P Q : hprop V := Hprop (λ h, holds P h ∨ holds Q h).
Definition hp_impl P Q : hprop V := Hprop (λ h, holds P h → holds Q h).
Definition hp_forall A (Φ : A → hprop V) : hprop V := Hprop (λ h, ∀ x, holds (Φ x) h).
Definition hp_exist A (Φ : A → hprop V) : hprop V := Hprop (λ h, ∃ x, holds (Φ x) h).
Definition hp_sep P Q : hprop V :=
  Hprop (λ h, ∃ h1 h2, h = h1 ∪ h2 ∧ h1 ##ₘ h2 ∧ holds P h1 ∧ holds Q h2).
Definition hp_wand P Q : hprop V :=
  Hprop (λ h, ∀ h', h ##ₘ h' → holds P h' → holds Q (h ∪ h')).
Definition hp_persistently P : hprop V := hp_pure (hp_entails hp_emp P).

Lemma hprop_bi_mixin :
  BiMixin hp_entails hp_emp hp_pure hp_and hp_or hp_impl hp_forall hp_exist hp_sep hp_wand.
Proof.
  split.
  - split; [by intros P; split|]. intros P Q R [HPQ] [HQR]. split. auto.
  - intros P Q. split; [intros E; split; split; intros h; apply E|intros [[?] [?]] h; split; auto].
  - by intros n φ1 φ2 E h.
  - intros n P P' E Q Q' E' h. simpl. by rw (E h) (E' h).
  - intros n P P' E Q Q' E' h. simpl. by rw (E h) (E' h).
  - intros n P P' E Q Q' E' h. simpl. by rw (E h) (E' h).
  - intros A n Φ Ψ E h. simpl. split; intros HΦ x; by apply (E x h).
  - intros A n Φ Ψ E h. simpl. split; intros [x HΦ]; exists x; by apply (E x h).
  - intros n P P' E Q Q' E' h. simpl. split; intros (h1 & h2 & -> & ? & ? & ?);
      exists h1, h2; (split_and!; [done|done|by apply (E h1)|by apply (E' h2)]).
  - intros n P P' E Q Q' E' h. simpl. split; intros Hw h' ? ?; apply (E' (h ∪ h')), Hw; try done;
      by apply (E h').
  - by intros φ P; split.
  - intros φ P HP. split. intros h Hφ. by apply (HP Hφ).
  - intros P Q. by split; intros h [? _].
  - intros P Q. by split; intros h [_ ?].
  - intros P Q R [?] [?]. split. simpl. auto.
  - intros P Q. split. by left.
  - intros P Q. split. by right.
  - intros P Q R [?] [?]. split. intros h [?|?]; auto.
  - intros P Q R [HR]. split. intros h ? ?. by apply HR.
  - intros P Q R [HR]. split. intros h [? ?]. by apply (HR h).
  - intros A P Ψ HΨ. split. intros h ? x. by apply (HΨ x).
  - intros A Ψ x. split. intros h HΨ. apply HΨ.
  - intros A Ψ x. split. intros h ?. by exists x.
  - intros A Φ Q HQ. split. intros h [x ?]. by eapply HQ.
  - intros P P' Q Q' [HP] [HQ]. split. intros h (h1 & h2 & -> & ? & ? & ?). exists h1, h2. auto.
  - intros P. split. intros h ?. exists ∅, h.
    split_and!; [by rw left_id_L|apply map_disjoint_empty_l|done|done].
  - intros P. split. intros h (h1 & h2 & -> & ? & -> & ?). by rw left_id_L.
  - intros P Q. split. intros h (h1 & h2 & -> & ? & ? & ?). exists h2, h1.
    split_and!; [by apply map_union_comm|by symmetry|done|done].
  - intros P Q R. split. intros h (h12 & h3 & -> & Hd & (h1 & h2 & -> & ? & ? & ?) & ?).
    apply map_disjoint_union_l in Hd as [? ?]. exists h1, (h2 ∪ h3).
    split_and!; [by rw assoc_L|by apply map_disjoint_union_r_2|done|by exists h2, h3].
  - intros P Q R [HR]. split. intros h ? h' ? ?. apply HR. by exists h, h'.
  - intros P Q R [HR]. split. intros h (h1 & h2 & -> & ? & ? & ?). by apply HR.
Qed.

Lemma hprop_persistently_mixin :
  BiPersistentlyMixin hp_entails hp_emp hp_and hp_exist hp_sep hp_persistently.
Proof.
  eapply bi_persistently_mixin_discrete, hprop_bi_mixin; [done| |done].
  intros A Φ [HΦ]. destruct (HΦ ∅ eq_refl) as [x Hx]. exists x. by split; intros h ->.
Qed.

Lemma hprop_later_mixin :
  BiLaterMixin hp_entails hp_pure hp_or hp_impl hp_forall hp_exist hp_sep hp_persistently (λ P, P).
Proof. eapply bi_later_mixin_id, hprop_bi_mixin. done. Qed.

Canonical Structure hpropI : bi :=
  {| bi_ofe_mixin := ofe_mixin_of (hprop V);
     bi_bi_mixin := hprop_bi_mixin;
     bi_bi_persistently_mixin := hprop_persistently_mixin;
     bi_bi_later_mixin := hprop_later_mixin |}.
End bi.
Arguments hpropI : clear implicits.

(** ** The weakest precondition

    [hwp e m Φ]: run in any heap that extends the described one, [m] has no
    undefined behaviour, returns, leaves the rest of the heap alone, and its
    result and what it makes of its own part satisfy [Φ]. *)

Definition hwp {V A} (e : env) (m : H V A) (Φ : A → hprop V) : hprop V := Hprop (λ h,
  ∀ hf, h ##ₘ hf → wp e (m (h ∪ hf)) (λ '(a, h'), ∃ h1, h' = h1 ∪ hf ∧ h1 ##ₘ hf ∧ holds (Φ a) h1)).

Definition points_to {V} (l : loc) (v : option V) : hprop V := Hprop (λ h, h = {[ l := v ]}).
Notation "l ↦ v" := (points_to l (Some v)) (at level 20) : bi_scope.
(** A block with any contents. *)
Definition owned {V} (l : loc) : hprop V := (∃ v, points_to l v)%I.

(** A fact, which needs no block. *)
Notation "⌈ φ ⌉" := (<affine> ⌜φ⌝)%I (at level 0, φ at level 200) : bi_scope.

Section rules.
Context {V : Type} `{!Allocator V} (e : env).
Implicit Types (P Q R : hprop V) (h : heap V).

Lemma hprop_entails P Q : (∀ h, holds P h → holds Q h) → P ⊢ Q.
Proof. by intros; split. Qed.
Lemma entails_holds P Q h : (P ⊢ Q) → holds P h → holds Q h.
Proof. intros HPQ. apply HPQ. Qed.

Lemma hwp_ret {A} (a : A) (Φ : A → hprop V) : Φ a ⊢ hwp e (mret a) Φ.
Proof. apply hprop_entails. intros h HΦ hf Hd. apply wp_ret. by exists h. Qed.

Lemma hwp_bind {A B} (m : H V A) (f : A → H V B) Φ :
  hwp e m (λ a, hwp e (f a) Φ) ⊢ hwp e (m ≫= f) Φ.
Proof.
  apply hprop_entails. intros h Hm hf Hd. apply wp_bind. eapply wp_mono; [by apply Hm|].
  intros [a h'] (h1 & -> & Hd1 & Hf). by apply Hf.
Qed.

Lemma hwp_wand {A} (m : H V A) (Φ Ψ : A → hprop V) :
  hwp e m Φ ⊢ (∀ a, Φ a -∗ Ψ a) -∗ hwp e m Ψ.
Proof.
  apply hprop_entails. intros h1 Hm h2 Hd HΨ hf Hdf.
  apply map_disjoint_union_l in Hdf as [Hd1 Hd2]. rw -(assoc_L (∪)).
  eapply wp_mono; [by apply Hm, map_disjoint_union_r_2|].
  intros [a h'] (h3 & -> & Hd3 & HΦ). apply map_disjoint_union_r in Hd3 as [Hd32 Hd3f].
  exists (h2 ∪ h3). rw (map_union_comm h2 h3) //. split_and!.
  - by rw assoc_L.
  - by apply map_disjoint_union_l_2.
  - rw (map_union_comm h3 h2) //. by apply HΨ.
Qed.

(** Of an assertion about one block: the heap splits into it and the rest. *)
Lemma hwp_block {A} l v (m : H V A) P (Φ : A → hprop V) :
  (∀ h hf, h ##ₘ hf → {[ l := v ]} ##ₘ h → {[ l := v ]} ##ₘ hf → holds P h →
    wp e (m (<[l := v]> (h ∪ hf))) (λ '(a, h'), ∃ h1, h' = h1 ∪ hf ∧ h1 ##ₘ hf ∧ holds (Φ a) h1)) →
  points_to l v ⊢ P -∗ hwp e m Φ.
Proof.
  intros Hm. apply hprop_entails. intros ? -> h Hd HP hf Hdf.
  apply map_disjoint_union_l in Hdf as [Hd1 Hd2]. rw -assoc_L -insert_union_singleton_l. by apply Hm.
Qed.

Lemma hwp_load l v (Φ : V → hprop V) : l ↦ v ⊢ (l ↦ v -∗ Φ v) -∗ hwp e (h_load l) Φ.
Proof.
  apply hwp_block. intros h hf Hd Hh Hhf HΦ. unfold h_load. rw lookup_insert_eq. apply wp_ret.
  exists ({[ l := Some v ]} ∪ h). rw -assoc_L insert_union_singleton_l.
  split_and!; [done|by apply map_disjoint_union_l_2|]. rw map_union_comm //. by apply HΦ.
Qed.

Lemma hwp_store l v w (Φ : () → hprop V) : points_to l v ⊢ (l ↦ w -∗ Φ ()) -∗ hwp e (h_store l w) Φ.
Proof.
  apply hwp_block. intros h hf Hd Hh Hhf HΦ. unfold h_store. rw lookup_insert_eq insert_insert_eq.
  apply wp_ret. apply map_disjoint_singleton_l in Hh, Hhf.
  exists ({[ l := Some w ]} ∪ h). rw -assoc_L insert_union_singleton_l.
  assert ({[ l := Some w ]} ##ₘ h) by by apply map_disjoint_singleton_l.
  split_and!; [done| |].
  - apply map_disjoint_union_l_2; [by apply map_disjoint_singleton_l|done].
  - rw map_union_comm //. by apply HΦ.
Qed.

Lemma hwp_free l v (Φ : () → hprop V) : points_to l v ⊢ Φ () -∗ hwp e (h_free (Some l)) Φ.
Proof.
  apply hwp_block. intros h hf Hd Hh Hhf HΦ. unfold h_free. rw lookup_insert_eq. apply wp_ret.
  apply map_disjoint_singleton_l in Hh, Hhf. exists h. rw delete_insert_id //.
  by apply lookup_union_None.
Qed.
Lemma hwp_free_null (Φ : () → hprop V) : Φ () ⊢ hwp e (h_free None) Φ.
Proof. apply hwp_ret. Qed.

(** A new block: [v] at a free address. *)
Lemma holds_new l v h hf (Q : hprop V) : h ##ₘ hf → (h ∪ hf) !! l = None →
  holds (points_to l v -∗ Q)%I h → ∃ h1, <[l := v]> (h ∪ hf) = h1 ∪ hf ∧ h1 ##ₘ hf ∧ holds Q h1.
Proof.
  intros Hd [Hl Hlf]%lookup_union_None HQ. exists (h ∪ {[l := v]}).
  assert (h ##ₘ {[l := v]}) as Hdl by by apply map_disjoint_singleton_r.
  rw insert_union_singleton_l assoc_L (map_union_comm h) //. split_and!; [done| |].
  - apply map_disjoint_union_l_2; [|done]. by apply map_disjoint_singleton_l.
  - rw map_union_comm //. by apply HQ.
Qed.

Lemma hwp_malloc n (Φ : pointer → hprop V) : 0 <= n →
  (⌜e = Hostile ∨ PTRDIFF_MAX < n⌝ → Φ None) ∧ (∀ l, points_to l None -∗ Φ (Some l)) ⊢
  hwp e (h_malloc n) Φ.
Proof.
  intros Hn. apply hprop_entails. intros h [HN HS] hf Hd. unfold h_malloc. apply wp_bind.
  apply wp_malloc_ok; [done|intros ?|]; apply wp_ret.
  - exists h. split_and!; [done|done|by apply HN].
  - by apply holds_new; [|apply pick_free|].
Qed.

Lemma hwp_realloc l v n (Φ : pointer → hprop V) : 0 <= n → points_to l v ⊢
  ((⌜e = Hostile ∨ PTRDIFF_MAX < n⌝ → points_to l v -∗ Φ None) ∧
   (∀ l', points_to l' v -∗ Φ (Some l'))) -∗ hwp e (h_realloc l n) Φ.
Proof.
  intros Hn. apply hwp_block. intros h hf Hd Hh Hhf [HN HS]. unfold h_realloc.
  rw lookup_insert_eq. apply wp_bind. pose proof Hh as Hl. pose proof Hhf as Hlf.
  apply map_disjoint_singleton_l in Hl, Hlf.
  apply wp_malloc_ok; [done|intros ?|]; apply wp_ret.
  - exists ({[ l := v ]} ∪ h). rw -assoc_L insert_union_singleton_l.
    split_and!; [done|by apply map_disjoint_union_l_2|]. rw map_union_comm //. by apply HN.
  - rw delete_insert_id; [|by apply lookup_union_None]. by apply holds_new; [|apply pick_free|].
Qed.

Lemma hwp_new n v (Φ : pointer → hprop V) : 0 <= n →
  (⌜e = Hostile ∨ PTRDIFF_MAX < n⌝ → Φ None) ∧ (∀ l, l ↦ v -∗ Φ (Some l)) ⊢ hwp e (h_new n v) Φ.
Proof.
  iIntros (Hn) "HΦ". iApply hwp_bind. iApply hwp_malloc; [done|]. iSplit.
  - iIntros (HN). iApply hwp_ret. iDestruct "HΦ" as "[HΦ _]". by iApply "HΦ".
  - iIntros (l) "Hl". iApply hwp_bind. iApply (hwp_store with "Hl"). iIntros "Hl".
    iApply hwp_ret. iDestruct "HΦ" as "[_ HΦ]". by iApply "HΦ".
Qed.

(** ** Loops *)

(** An assertion that needs at least [n] blocks. *)
Definition covers (n : nat) P : Prop := ∀ h, holds P h → (n <= size h)%nat.

Lemma hwp_loop {A} (body : nat → H V A) n P (Φ : A → hprop V) :
  covers n P → (∀ fuel, (n < fuel)%nat → P ⊢ hwp e (body fuel) Φ) → P ⊢ hwp e (h_loop body) Φ.
Proof.
  intros Hn Hb. apply hprop_entails. intros h HP hf Hd. unfold h_loop.
  refine (entails_holds _ _ _ (Hb _ _) HP hf Hd).
  pose proof (Hn _ HP). rw map_size_disj_union //. lia.
Qed.

(** The same with the loop's context. *)
Lemma hwp_loop' {A} (body : nat → H V A) n P (Φ : A → hprop V) : covers n P →
  P ⊢ (∀ fuel, ⌜(n < fuel)%nat⌝ → P -∗ hwp e (body fuel) Φ) -∗ hwp e (h_loop body) Φ.
Proof.
  intros Hn. apply bi.wand_intro_r, (hwp_loop _ n).
  - intros h (h1 & h2 & -> & Hd & H1 & _). pose proof (Hn _ H1). rw map_size_disj_union //. lia.
  - iIntros (fuel Hf) "[HP Hb]". by iApply ("Hb" with "[//] HP").
Qed.

Lemma covers_emp P : covers 0 P.
Proof. intros h _. lia. Qed.
Lemma covers_points_to l v : covers 1 (points_to l v).
Proof. intros h ->. rw map_size_singleton. done. Qed.
Lemma covers_sep n m P Q : covers n P → covers m Q → covers (n + m) (P ∗ Q)%I.
Proof.
  intros HP HQ h (h1 & h2 & -> & Hd & H1%HP & H2%HQ). rw map_size_disj_union //. lia.
Qed.
Lemma covers_exist {A} n (Φ : A → hprop V) : (∀ x, covers n (Φ x)) → covers n (∃ x, Φ x)%I.
Proof. intros HΦ h [x Hx]. by eapply HΦ. Qed.
Lemma covers_mono n P Q : (P ⊢ Q) → covers n Q → covers n P.
Proof. intros HPQ HQ h HP. by apply HQ, (entails_holds _ _ _ HPQ). Qed.

(** ** Adequacy *)

Lemma holds_fact (φ : Prop) P h : holds (⌈φ⌉ ∗ P)%I h → φ ∧ holds P h.
Proof.
  intros HP. refine (entails_holds (⌈φ⌉ ∗ P)%I (⌜φ⌝ ∧ P)%I h _ HP). iIntros "[% HP]". by iSplit.
Qed.
Lemma holds_sep P Q h : holds (P ∗ Q)%I h → ∃ h1 h2, h = h1 ∪ h2 ∧ h1 ##ₘ h2 ∧ holds P h1 ∧ holds Q h2.
Proof. done. Qed.
Lemma holds_emp h : holds emp%I h → h = ∅.
Proof. done. Qed.

(** What holds of the described part holds of the run in the whole heap. *)
Lemma hwp_adequate {A} (m : H V A) P (Φ : A → hprop V) h hf : (P ⊢ hwp e m Φ) → holds P h → h ##ₘ hf →
  wp e (m (h ∪ hf)) (λ '(a, h'), ∃ h1, h' = h1 ∪ hf ∧ h1 ##ₘ hf ∧ holds (Φ a) h1).
Proof. intros Hm HP Hd. by apply (entails_holds _ _ _ Hm HP). Qed.

Lemma hwp_adequate_emp {A} (m : H V A) (Φ : A → hprop V) h : (⊢ hwp e m Φ) →
  wp e (m h) (λ '(a, h'), ∃ h1, h' = h1 ∪ h ∧ h1 ##ₘ h ∧ holds (Φ a) h1).
Proof.
  intros Hm. rw -{1}(left_id_L ∅ (∪) h). eapply hwp_adequate; [done|done|apply map_disjoint_empty_l].
Qed.
End rules.
