(* ===== verification/Memory.v ===== *)
(** The program's use of the heap: the structures it allocates with their
    pointers, and every function that allocates, links or frees.

    The data that these functions compute with is modelled in the other files; what
    decides about an allocation (a length, a key, a stream's tag) is
    an argument here.  A structure is a block with the pointers it holds; an array
    of bytes is a block that this file never reads.  The expat parser, the
    bufferevents, the resolver and the listener are blocks of their
    libraries, [External]. *)

From S2P Require Import Prelude CString Config RqParser RqSpec Expat StreamParse Framer Libevent WsServer CManager WsFrame Heap.

Record buffer_s := Buffer_s { bu_data : loc; bu_length : Z; bu_capacity : Z; bu_max_length : Z }.
Record request_s := Request_s { rs_line : loc; rs_head : pointer; rs_count : Z }.
Record strlist_s := Strlist_s { sl_str : list Z; sl_next : pointer }.
Record wsmsg_s := Wsmsg_s { ms_frame_buffer : pointer; ms_message_buffer : pointer; ms_frame_data : pointer }.
Record frame_s := Frame_s { fs_frame : frame_t; fs_next : pointer }.
Record framer_s := Framer_s {
  fm_parser : pointer; fm_buffer : pointer; fm_head : pointer; fm_tail : pointer; fm_buffer_index : Z }.
Record streamparser_s := Streamparser_s { ps_parser : pointer; ps_error : bool; ps_server : pointer }.
Record cmanager_s := Cmanager_s {
  cs_state : cm_phase; cs_parser : pointer; cs_server : pointer; cs_bev : pointer;
  cs_dnsbase : pointer; cs_buffer : pointer; cs_framer : pointer }.
Record origin_s := Origin_s { os_url : loc; os_next : pointer }.
(** The four strings of [jsconf_t]: [port], [cidr], [host] and [resource]. *)
Inductive conf_field := F_PORT | F_CIDR | F_HOST | F_RESOURCE.
#[export] Instance conf_field_eq_dec : EqDecision conf_field.
Proof. solve_decision. Defined.
Record jsconf_s := Jsconf_s { js_origins : pointer; js_str : conf_field → pointer }.
Record wsconn_s := Wsconn_s {
  cn_bev : loc; cn_req : pointer; cn_wsmsg : pointer; cn_message_buffer : pointer; cn_ctx : pointer;
  cn_ws_state : ws_state_t; cn_cm_state : cm_state_t; cn_fl_closing : bool; cn_fl_closed : bool }.

Inductive block :=
  | Chars (s : list Z)
  | External
  | Buffer (b : buffer_s)
  | Request (r : request_s)
  | Strlist (x : strlist_s)
  | Wsmsg (w : wsmsg_s)
  | FrameNode (x : frame_s)
  | Framer (f : framer_s)
  | Streamparser (p : streamparser_s)
  | Cmanager (c : cmanager_s)
  | Origin (o : origin_s)
  | Jsconf (j : jsconf_s)
  | Wsconn (c : wsconn_s)
  | Wsserver (listener : pointer).

(** A block read as a structure of a type. *)
Class Struct (T : Type) := { to_block : T → block; of_block : block → option T;
                             of_to_block x : of_block (to_block x) = Some x }.
#[global] Arguments to_block : simpl never.
#[export, refine] Instance buffer_struct : Struct buffer_s :=
  {| to_block := Buffer; of_block b := match b with Buffer x => Some x | _ => None end |}.
Proof. done. Defined.
#[export, refine] Instance request_struct : Struct request_s :=
  {| to_block := Request; of_block b := match b with Request x => Some x | _ => None end |}.
Proof. done. Defined.
#[export, refine] Instance strlist_struct : Struct strlist_s :=
  {| to_block := Strlist; of_block b := match b with Strlist x => Some x | _ => None end |}.
Proof. done. Defined.
#[export, refine] Instance wsmsg_struct : Struct wsmsg_s :=
  {| to_block := Wsmsg; of_block b := match b with Wsmsg x => Some x | _ => None end |}.
Proof. done. Defined.
#[export, refine] Instance frame_struct : Struct frame_s :=
  {| to_block := FrameNode; of_block b := match b with FrameNode x => Some x | _ => None end |}.
Proof. done. Defined.
#[export, refine] Instance framer_struct : Struct framer_s :=
  {| to_block := Framer; of_block b := match b with Framer x => Some x | _ => None end |}.
Proof. done. Defined.
#[export, refine] Instance streamparser_struct : Struct streamparser_s :=
  {| to_block := Streamparser; of_block b := match b with Streamparser x => Some x | _ => None end |}.
Proof. done. Defined.
#[export, refine] Instance cmanager_struct : Struct cmanager_s :=
  {| to_block := Cmanager; of_block b := match b with Cmanager x => Some x | _ => None end |}.
Proof. done. Defined.
#[export, refine] Instance origin_struct : Struct origin_s :=
  {| to_block := Origin; of_block b := match b with Origin x => Some x | _ => None end |}.
Proof. done. Defined.
#[export, refine] Instance jsconf_struct : Struct jsconf_s :=
  {| to_block := Jsconf; of_block b := match b with Jsconf x => Some x | _ => None end |}.
Proof. done. Defined.
#[export, refine] Instance wsconn_struct : Struct wsconn_s :=
  {| to_block := Wsconn; of_block b := match b with Wsconn x => Some x | _ => None end |}.
Proof. done. Defined.

Section memory.
Context `{!Allocator block}.
Local Abbreviation HB := (H block).

(** [p->...] of a structure: undefined for the null pointer. *)
Definition deref (p : pointer) : HB loc := match p with Some l => mret l | None => h_ub end.
Definition get {T} `{!Struct T} (l : loc) : HB T :=
  b ← h_load l; match of_block b with Some x => mret x | None => h_ub end.
Definition put {T} `{!Struct T} (l : loc) (x : T) : HB () := h_store l (to_block x).

(** [strdup] and [strndup]. *)
Definition heap_strdup (s : list Z) : HB pointer := h_new (zlen s + 1) (Chars s).

(** ** Buffers (util.c) *)

Definition heap_buffer_create (max_length : Z) : HB pointer :=
  let init_capacity := if (0 <? max_length) && (max_length <? 128) then max_length else 128 in
  buffer ← h_malloc 32;
  match buffer with
  | None => mret None
  | Some b =>
      data ← h_malloc init_capacity;
      match data with
      | Some d => _ ← put b (Buffer_s d 0 init_capacity max_length); mret (Some b)
      | None => _ ← h_free data; _ ← h_free (Some b); mret None
      end
  end.

Definition buffer_delete (b : loc) : HB () :=
  x ← get b; _ ← h_free (Some (bu_data x)); h_free (Some b).

(** The end of [buffer_append], where the copying is: [length] bytes fit. *)
Definition buffer_grown (b : loc) (data : loc) (capacity length : Z) (x : buffer_s) : HB bool :=
  _ ← put b (Buffer_s data (szt (bu_length x + length)) capacity (bu_max_length x)); mret true.

Definition heap_buffer_append (b : loc) (length : Z) : HB bool :=
  if length =? 0 then mret true else
  x ← get b;
  if bu_max_length x =? 0 then
    if bu_capacity x <? szt (bu_length x + length) then
      let new_cap := szt (bu_length x + length + 1024) in
      new_buff ← h_realloc (bu_data x) new_cap;
      match new_buff with
      | None => mret false
      | Some d =>
          buffer_grown b d new_cap
            (if new_cap <? szt (bu_length x + length) then szt (new_cap - bu_length x) else length) x
      end
    else buffer_grown b (bu_data x) (bu_capacity x) length x
  else
    let length := if bu_max_length x <? szt (bu_length x + length)
                  then szt (bu_max_length x - bu_length x) else length in
    if length =? 0 then mret false else
    if bu_capacity x <? szt (bu_length x + length) then
      let new_cap := Z.min (szt (bu_length x + length + 1024)) (bu_max_length x) in
      new_buff ← h_realloc (bu_data x) new_cap;
      match new_buff with
      | None => mret false
      | Some d => buffer_grown b d new_cap length x
      end
    else buffer_grown b (bu_data x) (bu_capacity x) length x.

Definition heap_buffer_clear (b : loc) : HB () :=
  x ← get b; put b (Buffer_s (bu_data x) 0 (bu_capacity x) (bu_max_length x)).
Definition heap_buffer_set_data (b : loc) (length : Z) : HB bool :=
  _ ← heap_buffer_clear b; heap_buffer_append b length.
Definition heap_buffer_remove_data (b : loc) (length : Z) : HB () :=
  x ← get b; put b (Buffer_s (bu_data x) (szt (bu_length x - length)) (bu_capacity x) (bu_max_length x)).

(** ** The request (rqparser.c) *)

Definition heap_rq_create : HB pointer :=
  h ← h_malloc 1248;
  match h with
  | None => mret None
  | Some h =>
      line ← h_malloc LINE_BUFFER_SIZE;
      match line with
      | None => _ ← h_free (Some h); mret None
      | Some line => _ ← put h (Request_s line None 0); mret (Some h)
      end
  end.

Fixpoint delete_strlist (fuel : nat) (current : pointer) : HB () :=
  match fuel, current with
  | O, _ => h_ub
  | S _, None => mret ()
  | S fuel, Some c => x ← get c; _ ← h_free current; delete_strlist fuel (sl_next x)
  end.

Definition rq_delete (h : loc) : HB () :=
  r ← get h;
  _ ← h_loop (λ fuel, delete_strlist fuel (rs_head r));
  h_free (Some h).

Definition heap_rq_clear (h : loc) : HB () :=
  r ← get h; put h (Request_s (rs_line r) None 0).

Definition heap_parse_request_line (line : list Z) : HB bool :=
  line_copy ← heap_strdup line;
  match line_copy with
  | None => mret false
  | Some _ => _ ← h_free line_copy; mret true
  end.

(** The loop of [_get_protocols] over the trimmed tokens; RqParser.v has the width of the
    counter. *)
Fixpoint heap_get_protocols (h : loc) (tokens : list (list Z)) : HB () :=
  match tokens with
  | [] => mret ()
  | token :: tokens =>
      new_protocol ← h_malloc 48;
      _ ← (match new_protocol with
           | None => mret ()
           | Some p =>
               r ← get h;
               _ ← put p (Strlist_s token (rs_head r));
               put h (Request_s (rs_line r) new_protocol (rs_count r + 1))
           end);
      heap_get_protocols h tokens
  end.

Definition known_headers : list (list Z) :=
  [bs "host"; bs "upgrade"; bs "connection"; bs "Sec-WebSocket-Key"; bs "Sec-WebSocket-Protocol";
   bs "Sec-WebSocket-Version"; bs "Origin"].

(** [_process]: the copy of the value belongs to nobody. *)
Definition heap_process (h : loc) (key : list Z) (key_copy value_copy : pointer) (value : list Z) : HB () :=
  _ ← (if existsb (strcasecmp_eq key) known_headers then deref value_copy else mret h);
  _ ← (if strcasecmp_eq key (bs "Sec-WebSocket-Protocol")
       then heap_get_protocols h (elements (cut ws_protocol_str (skip_space value)))
       else mret ());
  h_free key_copy.

(** A header line of [rq_add_line]. *)
Definition heap_header (h : loc) (key value : list Z) : HB bool :=
  key_copy ← heap_strdup key;
  match key_copy with
  | None => mret false
  | Some _ =>
      value_copy ← heap_strdup value;
      _ ← heap_process h key key_copy value_copy value;
      mret true
  end.

Fixpoint nth_protocol (i : nat) (x : pointer) : HB loc :=
  match i with
  | O => deref x
  | S i => l ← deref x; s ← get l; nth_protocol i (sl_next s)
  end.

Definition heap_rq_get_protocol (h : loc) (index : Z) : HB (option (list Z)) :=
  r ← get h;
  if (index <? 0) || (rs_count r <=? index) then mret None
  else (l ← nth_protocol (Z.to_nat index) (rs_head r); s ← get l; mret (Some (sl_str s))).

Fixpoint find_protocol (fuel : nat) (x : pointer) (protocol : list Z) : HB bool :=
  match fuel, x with
  | O, _ => h_ub
  | S _, None => mret false
  | S fuel, Some l =>
      s ← get l;
      if strcmp_eq (sl_str s) protocol then mret true else find_protocol fuel (sl_next s) protocol
  end.
Definition heap_rq_protocols_contains (h : loc) (protocol : list Z) : HB bool :=
  r ← get h; h_loop (λ fuel, find_protocol fuel (rs_head r) protocol).

(** [trim_beginning]: the copy replaces the string. *)
Definition trim_beginning (str : loc) : HB pointer :=
  b ← h_load str;
  match b with
  | Chars s => pch ← heap_strdup (skip_space s); _ ← h_free (Some str); mret pch
  | _ => h_ub
  end.

(** ** Messages (wsmessage.c) *)

Definition delete_nonnull (b : pointer) : HB () :=
  match b with Some l => buffer_delete l | None => mret () end.

Definition wsmsg_delete (wsmsg : pointer) : HB () :=
  match wsmsg with
  | None => mret ()
  | Some l =>
      w ← get l;
      _ ← delete_nonnull (ms_frame_data w);
      _ ← delete_nonnull (ms_message_buffer w);
      _ ← delete_nonnull (ms_frame_buffer w);
      h_free wsmsg
  end.

(** The path to [Error] does what [wsmsg_delete] does. *)
Definition heap_wsmsg_create (conf : jsconf_t) : HB pointer :=
  wsmsg ← h_malloc 96;
  match wsmsg with
  | None => mret None
  | Some l =>
      let twice := 2 * max_frame_size conf in
      if negb ((- INT_MAX - 1 <=? twice) && (twice <=? INT_MAX)) then h_ub else
      frame_buffer ← heap_buffer_create (szt twice);
      _ ← put l (Wsmsg_s frame_buffer None None);
      if frame_buffer is None then (_ ← wsmsg_delete wsmsg; mret None) else
      message_buffer ← heap_buffer_create (szt (max_message_size conf));
      _ ← put l (Wsmsg_s frame_buffer message_buffer None);
      if message_buffer is None then (_ ← wsmsg_delete wsmsg; mret None) else
      frame_data ← heap_buffer_create (szt (max_frame_size conf));
      _ ← put l (Wsmsg_s frame_buffer message_buffer frame_data);
      if frame_data is None then (_ ← wsmsg_delete wsmsg; mret None) else
      mret wsmsg
  end.

(** ** The framer (framer.c) *)

Definition heap_XML_ParserCreateNS : HB pointer := h_new 1 External.
Definition heap_XML_ParserFree (p : pointer) : HB () := h_free p.
(** A use of a library's object, which must be there. *)
Definition use (p : pointer) : HB () := l ← deref p; _ ← h_load l; mret ().

Definition heap_framer_create : HB pointer :=
  framer ← h_malloc 64;
  match framer with
  | None => mret None
  | Some l =>
      parser ← heap_XML_ParserCreateNS;
      _ ← put l (Framer_s parser None None None 0);
      if parser is None then mret None else
      buffer ← heap_buffer_create 0;
      _ ← put l (Framer_s parser buffer None None 0);
      match buffer with
      | None => _ ← heap_XML_ParserFree parser; mret None
      | Some _ => mret framer
      end
  end.

Fixpoint delete_frames (fuel : nat) (current : pointer) : HB () :=
  match fuel, current with
  | O, _ => h_ub
  | S _, None => mret ()
  | S fuel, Some c => x ← get c; _ ← h_free current; delete_frames fuel (fs_next x)
  end.

(** [head] and [tail] keep pointing at what has been freed. *)
Definition heap_framer_cleanup (framer : loc) : HB () :=
  f ← get framer;
  _ ← heap_XML_ParserFree (fm_parser f);
  _ ← delete_nonnull (fm_buffer f);
  _ ← put framer (Framer_s None None (fm_head f) (fm_tail f) (fm_buffer_index f));
  h_loop (λ fuel, delete_frames fuel (fm_head f)).

Definition heap_framer_delete (framer : loc) : HB () :=
  _ ← heap_framer_cleanup framer; h_free (Some framer).

Definition heap_framer_initialize (framer : loc) : HB bool :=
  _ ← heap_framer_cleanup framer;
  parser ← heap_XML_ParserCreateNS;
  if parser is None then mret false else
  buffer ← heap_buffer_create 0;
  _ ← put framer (Framer_s parser buffer None None 0);
  if buffer is None then (_ ← heap_XML_ParserFree parser; mret false) else mret true.

Definition heap_framer_add_frame (framer : loc) (index size : Z) : HB () :=
  new_frame ← h_malloc 16;
  match new_frame with
  | None => mret ()
  | Some n =>
      _ ← put n (Frame_s (Span index size) None);
      f ← get framer;
      match fm_tail f with
      | Some t =>
          x ← get t;
          _ ← put t (Frame_s (fs_frame x) new_frame);
          put framer (Framer_s (fm_parser f) (fm_buffer f) (fm_head f) new_frame (fm_buffer_index f))
      | None => put framer (Framer_s (fm_parser f) (fm_buffer f) new_frame new_frame (fm_buffer_index f))
      end
  end.

Definition heap_framer_remove_frame (framer : loc) : HB () :=
  f ← get framer;
  match fm_head f with
  | None => mret ()
  | Some tmp =>
      x ← get tmp;
      _ ← put framer (Framer_s (fm_parser f) (fm_buffer f) (fs_next x)
                        (if fs_next x is None then None else fm_tail f) (fm_buffer_index f));
      h_free (Some tmp)
  end.

Fixpoint heap_add_frames (framer : loc) (frames : list frame_t) : HB () :=
  match frames with
  | [] => mret ()
  | fr :: frames =>
      _ ← heap_framer_add_frame framer (fr_index fr) (fr_size fr); heap_add_frames framer frames
  end.

(** [frames]: what the handlers find in the data, [status]: what [XML_Parse] returns. *)
Definition heap_framer_add (framer : loc) (frames : list frame_t) (status : bool) (length : Z) : HB bool :=
  f ← get framer;
  _ ← use (fm_parser f);
  _ ← heap_add_frames framer frames;
  if negb status then mret false else
  f ← get framer;
  buffer ← deref (fm_buffer f);
  _ ← heap_buffer_append buffer length;
  mret true.

Definition heap_framer_has_frame (framer : loc) : HB bool :=
  f ← get framer; mret (if fm_head f is None then false else true).

(** The frame that is taken. *)
Definition heap_framer_get_frame2 (framer : loc) : HB frame_t :=
  f ← get framer;
  head ← deref (fm_head f);
  x ← get head;
  buffer ← deref (fm_buffer f);
  let tmp_index := fr_index (fs_frame x) in
  _ ← (if fm_buffer_index f <? tmp_index then
         _ ← heap_buffer_remove_data buffer (tmp_index - fm_buffer_index f);
         put framer (Framer_s (fm_parser f) (fm_buffer f) (fm_head f) (fm_tail f) tmp_index)
       else mret ());
  let tmp_size := fr_size (fs_frame x) in
  _ ← heap_buffer_remove_data buffer (szt tmp_size);
  _ ← heap_framer_remove_frame framer;
  f ← get framer;
  _ ← put framer (Framer_s (fm_parser f) (fm_buffer f) (fm_head f) (fm_tail f)
                    (to_int (szt (fm_buffer_index f + tmp_size))));
  mret (fs_frame x).

(** ** The stream parser (streamparse.c) *)

Definition heap_streamparser_start (p : loc) (el : list Z) (attr : list (list Z * list Z)) : HB () :=
  match strchr el SEPARATOR with
  | None => mret ()
  | Some before =>
      x ← get p;
      if ps_server x is Some _ then mret () else
      let ns := ztake before el in
      let name := zdrop (before + 1) el in
      namespace ← heap_strdup ns;
      element ← heap_strdup name;
      _ ← deref namespace;
      _ ← (if strcmp_eq ns STREAM_NS then
             _ ← deref element;
             if strcmp_eq name STREAM then
               match find_to attr with
               | Some v =>
                   server ← heap_strdup v; put p (Streamparser_s (ps_parser x) (ps_error x) server)
               | None => mret ()
               end
             else mret ()
           else mret ());
      _ ← h_free namespace;
      h_free element
  end.

Fixpoint heap_streamparser_events (p : loc) (evs : list xml_event) : HB () :=
  match evs with
  | [] => mret ()
  | StartElement el attr _ _ :: evs => _ ← heap_streamparser_start p el attr; heap_streamparser_events p evs
  | EndElement _ _ _ :: evs => heap_streamparser_events p evs
  end.

Definition heap_streamparser_initialize (p : loc) : HB bool :=
  x ← get p;
  _ ← h_free (ps_parser x);
  parser ← heap_XML_ParserCreateNS;
  _ ← put p (Streamparser_s parser (if parser is None then ps_error x else false) (ps_server x));
  mret (if parser is None then false else true).

Definition heap_streamparser_create : HB pointer :=
  p ← h_malloc 24;
  match p with
  | None => mret None
  | Some l =>
      _ ← put l (Streamparser_s None false None);
      ok ← heap_streamparser_initialize l;
      if (ok : bool) then mret p else (_ ← h_free p; mret None)
  end.

Definition heap_streamparser_delete (p : loc) : HB () :=
  x ← get p; _ ← heap_XML_ParserFree (ps_parser x); _ ← h_free (ps_server x); h_free (Some p).

(** [evs] and [status]: what [XML_Parse] reports of the text. *)
Definition heap_streamparser_add (p : loc) (data : pointer) (evs : list xml_event) (status : bool) : HB bool :=
  _ ← use data;
  x ← get p;
  _ ← use (ps_parser x);
  _ ← heap_streamparser_events p evs;
  if status then mret true
  else (x ← get p; _ ← put p (Streamparser_s (ps_parser x) true (ps_server x)); mret false).

(** ** The connection manager (cmanager.c) *)

(** [memset] comes before the null test; the path to [Error] frees the three
    structures and not what they own. *)
Definition heap_cm_create : HB pointer :=
  cm ← h_malloc 64;
  l ← deref cm;
  let error (parser buffer framer : pointer) : HB pointer :=
    _ ← h_free framer; _ ← h_free buffer; _ ← h_free parser; _ ← h_free cm; mret None in
  parser ← heap_streamparser_create;
  _ ← put l (Cmanager_s CM_START parser None None None None None);
  if parser is None then error None None None else
  buffer ← heap_buffer_create 0;
  _ ← put l (Cmanager_s CM_START parser None None None buffer None);
  if buffer is None then error parser None None else
  framer ← heap_framer_create;
  _ ← put l (Cmanager_s CM_START parser None None None buffer framer);
  if framer is None then error parser buffer None else mret cm.

Definition heap_cm_close (cm : loc) : HB () :=
  c ← get cm;
  _ ← (match cs_framer c with Some f => heap_framer_delete f | None => mret () end);
  _ ← delete_nonnull (cs_buffer c);
  _ ← (match cs_parser c with Some p => heap_streamparser_delete p | None => mret () end);
  _ ← h_free (cs_bev c);
  _ ← h_free (cs_dnsbase c);
  _ ← h_free (cs_server c);
  put cm (Cmanager_s (cs_state c) None None None None None None).

Definition heap_cm_delete (cm : loc) : HB () := _ ← heap_cm_close cm; h_free (Some cm).

Definition heap_cm_connect (cm : loc) : HB () :=
  bev ← h_new 1 External;
  c ← get cm;
  _ ← put cm (Cmanager_s (cs_state c) (cs_parser c) (cs_server c) bev (cs_dnsbase c) (cs_buffer c) (cs_framer c));
  if bev is None then mret () else
  dnsbase ← h_new 1 External;
  put cm (Cmanager_s (cs_state c) (cs_parser c) (cs_server c) bev dnsbase (cs_buffer c) (cs_framer c)).

(** [evs] and [status]: what [XML_Parse] reports of the message. *)
Definition heap_cm_onmessage (cm : loc) (message : list Z) (evs : list xml_event) (status : bool) : HB () :=
  c ← get cm;
  match cs_state c with
  | CM_START =>
      message_str ← heap_strdup (default message (until_nul message));
      parser ← deref (cs_parser c);
      _ ← heap_streamparser_add parser message_str evs status;
      _ ← h_free message_str;
      p ← get parser;
      if ps_error p then mret () else
      buffer ← deref (cs_buffer c);
      _ ← heap_buffer_append buffer (zlen message);
      match ps_server p with
      | None => mret ()
      | Some s =>
          name ← h_load s;
          server ← (match name with Chars name => heap_strdup name | _ => h_ub end);
          _ ← put cm (Cmanager_s (cs_state c) (cs_parser c) server (cs_bev c) (cs_dnsbase c) (cs_buffer c) (cs_framer c));
          _ ← heap_cm_connect cm;
          c ← get cm;
          put cm (Cmanager_s CM_CONNECT (cs_parser c) (cs_server c) (cs_bev c) (cs_dnsbase c) (cs_buffer c) (cs_framer c))
      end
  | CM_CONNECT => mret ()
  | CM_FORWARD => use (cs_bev c)
  end.

(** ** Connections (wsserver.c) *)

Definition set_ws_state st (c : wsconn_s) : wsconn_s :=
  Wsconn_s (cn_bev c) (cn_req c) (cn_wsmsg c) (cn_message_buffer c) (cn_ctx c) st (cn_cm_state c) (cn_fl_closing c) (cn_fl_closed c).
Definition set_cm_state st (c : wsconn_s) : wsconn_s :=
  Wsconn_s (cn_bev c) (cn_req c) (cn_wsmsg c) (cn_message_buffer c) (cn_ctx c) (cn_ws_state c) st (cn_fl_closing c) (cn_fl_closed c).
Definition set_fl_closing (c : wsconn_s) : wsconn_s :=
  Wsconn_s (cn_bev c) (cn_req c) (cn_wsmsg c) (cn_message_buffer c) (cn_ctx c) (cn_ws_state c) (cn_cm_state c) true (cn_fl_closed c).
Definition set_fl_closed v (c : wsconn_s) : wsconn_s :=
  Wsconn_s (cn_bev c) (cn_req c) (cn_wsmsg c) (cn_message_buffer c) (cn_ctx c) (cn_ws_state c) (cn_cm_state c) (cn_fl_closing c) v.

(** The configuration, with the level of the log. *)
Context (conf : jsconf_t).

(** The client is the connection manager.  The path to [Error] leaves the
    bufferevent alone. *)
Definition heap_wsconn_create : HB pointer :=
  conn ← h_malloc 400;
  match conn with
  | None => mret None
  | Some l =>
      bev ← h_new 1 External;
      req ← heap_rq_create;
      match req with None => (_ ← h_free conn; mret None) | Some r =>
      wsmsg ← heap_wsmsg_create conf;
      if wsmsg is None then (_ ← rq_delete r; _ ← h_free conn; mret None) else
      message_buffer ← heap_buffer_create 0;
      if message_buffer is None then
        (_ ← wsmsg_delete wsmsg; _ ← rq_delete r; _ ← h_free conn; mret None) else
      ctx ← heap_cm_create;
      if ctx is None then
        (_ ← delete_nonnull message_buffer; _ ← wsmsg_delete wsmsg; _ ← rq_delete r; _ ← h_free conn; mret None) else
      b ← deref bev;
      _ ← put l (Wsconn_s b req wsmsg message_buffer ctx WS_ST_START CM_ST_CREATED false true);
      mret conn
      end
  end.

(** The last message reads the names in the structure that has been freed. *)
Definition heap_wsconn_delete (conn : loc) : HB () :=
  c ← get conn;
  _ ← h_free (Some (cn_bev c));
  _ ← (match cn_req c with Some r => rq_delete r | None => mret () end);
  _ ← delete_nonnull (cn_message_buffer c);
  _ ← wsmsg_delete (cn_wsmsg c);
  ctx ← deref (cn_ctx c);
  _ ← heap_cm_delete ctx;
  _ ← h_free (Some conn);
  if logged conf LOG_INFO then (_ ← h_load conn; mret ()) else mret ().

(** The message of [wsconn_event_cb], whose format is not one. *)
Definition heap_log_event : HB () := if logged conf LOG_INFO then h_ub else mret ().

(** The result of a handler: [false] when it has freed the connection. *)
Definition heap_wsconn_close (conn : loc) : HB bool :=
  c ← get conn;
  let c := set_ws_state WS_ST_CLOSED c in
  _ ← put conn c;
  if bool_decide (cn_cm_state c = CM_ST_CREATED) then
    ctx ← deref (cn_ctx c);
    _ ← heap_cm_close ctx;
    _ ← put conn (set_cm_state CM_ST_CLOSING c);
    mret true
  else if cn_fl_closed c then (_ ← heap_wsconn_delete conn; mret false)
  else mret true.

(** The buffer the frame is built in; an append that fails ends the function. *)
Fixpoint append_all (buffer : loc) (sizes : list Z) : HB bool :=
  match sizes with
  | [] => mret true
  | n :: sizes =>
      res ← heap_buffer_append buffer n;
      if (res : bool) then append_all buffer sizes else mret false
  end.

Definition heap_wsconn_write_frame (size : Z) : HB () :=
  buffer ← heap_buffer_create 0;
  match buffer with
  | None => mret ()
  | Some b =>
      let block1_size := if size <=? 125 then 1 else if size <? 2 ^ 17 - 1 then 3 else 9 in
      res ← append_all b [1; block1_size; size];
      _ ← (if (res : bool) then heap_buffer_remove_data b (1 + block1_size + size) else mret ());
      buffer_delete b
  end.

Definition heap_wsconn_initiate_close (conn : loc) (status reason_size : Z) : HB () :=
  c ← get conn;
  if cn_fl_closing c then mret () else
  buffer ← heap_buffer_create 0;
  _ ← (match buffer with
       | None => mret ()
       | Some b =>
           res ← append_all b (if 0 <? status then (if 0 <? reason_size then [2; reason_size] else [2]) else []);
           if negb res then mret () else
           x ← get b;
           _ ← heap_wsconn_write_frame (bu_length x);
           _ ← heap_buffer_remove_data b (bu_length x);
           if bool_decide (cn_cm_state c = CM_ST_CREATED) then
             ctx ← deref (cn_ctx c);
             _ ← heap_cm_close ctx;
             put conn (set_cm_state CM_ST_CLOSING c)
           else mret ()
       end);
  _ ← delete_nonnull buffer;
  c ← get conn;
  put conn (set_fl_closing (set_ws_state WS_ST_CLOSING c)).

Definition heap_wsconn_onclosed (conn : loc) : HB bool :=
  c ← get conn;
  let c := set_fl_closed true (set_cm_state CM_ST_CLOSED c) in
  _ ← put conn c;
  match cn_ws_state c with
  | WS_ST_RECEIVING => _ ← heap_wsconn_initiate_close conn 1001 (zlen CLOSED_REASON); mret true
  | WS_ST_CLOSED => _ ← heap_wsconn_delete conn; mret false
  | _ => mret true
  end.

(** ** The request on a connection *)

(** A line of [wsconn_read_cb], which libevent allocates: the request line, a line that ends
    a header [key: value], or one that ends none. *)
Inductive rq_step :=
  | RqLine (line : list Z)
  | RqHeader (line key value : list Z)
  | RqOther (line : list Z).

Definition rq_text (st : rq_step) : list Z :=
  match st with RqLine line | RqHeader line _ _ | RqOther line => line end.

Definition heap_rq_add_line (req : loc) (st : rq_step) : HB () :=
  match st with
  | RqLine line => _ ← heap_parse_request_line line; mret ()
  | RqHeader _ key value => _ ← heap_header req key value; mret ()
  | RqOther _ => mret ()
  end.

Fixpoint heap_read_lines (conn : loc) (steps : list rq_step) : HB () :=
  match steps with
  | [] => mret ()
  | st :: steps =>
      line ← heap_strdup (rq_text st);
      if line is None then mret () else
      c ← get conn;
      req ← deref (cn_req c);
      _ ← heap_rq_add_line req st;
      _ ← h_free line;
      heap_read_lines conn steps
  end.

(** [res]: what [rq_analyze] returns; the client does nothing when it is told
    [WSCB_CONNECTED]. *)
Definition heap_wsconn_handshake (conn : loc) (res : bool) : HB bool :=
  if res then
    c ← get conn;
    _ ← put conn (set_fl_closed false (set_ws_state WS_ST_RECEIVING c));
    mret true
  else heap_wsconn_close conn.

(** ** Frames on a connection *)

(** What wsmessage.c does to its three buffers and to that of the connection. *)
Inductive which := FrameBuffer | MessageBuffer | FrameData | ConnBuffer.
Inductive buffer_op := BAppend (n : Z) | BSet (n : Z) | BRemove (n : Z).

Definition buffer_of (c : wsconn_s) (w : wsmsg_s) (b : which) : pointer :=
  match b with
  | FrameBuffer => ms_frame_buffer w
  | MessageBuffer => ms_message_buffer w
  | FrameData => ms_frame_data w
  | ConnBuffer => cn_message_buffer c
  end.

Definition heap_buffer_op (b : loc) (op : buffer_op) : HB () :=
  match op with
  | BAppend n => _ ← heap_buffer_append b n; mret ()
  | BSet n => _ ← heap_buffer_set_data b n; mret ()
  | BRemove n => heap_buffer_remove_data b n
  end.

Fixpoint heap_buffer_ops (conn : loc) (ops : list (which * buffer_op)) : HB () :=
  match ops with
  | [] => mret ()
  | (b, op) :: ops =>
      c ← get conn;
      wsmsg ← deref (cn_wsmsg c);
      w ← get wsmsg;
      buffer ← deref (buffer_of c w b);
      _ ← heap_buffer_op buffer op;
      heap_buffer_ops conn ops
  end.

(** What a pass of the loop of [wsconn_process_frame] meets: an error of the input, a
    close frame with its size and status, a ping, a pong, a text message with
    what [XML_Parse] makes of it, a binary message. *)
Inductive pass :=
  | PassError
  | PassClose (size status : Z)
  | PassPing (size : Z)
  | PassPong (size : Z)
  | PassText (message : list Z) (evs : list xml_event) (status : bool)
  | PassBinary.

(** The buffer of the reason belongs to nobody. [None]: it could not be created. *)
Definition heap_on_close_frame (conn : loc) (size status : Z) : HB bool :=
  reason ← heap_buffer_create 0;
  match reason with
  | None => mret false
  | Some r =>
      _ ← (if 2 <? size then (_ ← heap_buffer_set_data r (szt (size - 2)); mret ()) else mret ());
      x ← get r;
      _ ← heap_wsconn_initiate_close conn (if size <? 2 then 1001 else status) (bu_length x);
      mret true
  end.

(** The results: the loop goes round again; the connection is still there. *)
Definition heap_frame_step (conn buffer : loc) (p : pass) : HB (bool * bool) :=
  match p with
  | PassError | PassBinary => alive ← heap_wsconn_close conn; mret (false, alive)
  | PassClose size status =>
      _ ← heap_buffer_set_data buffer size;
      ok ← heap_on_close_frame conn size status;
      if (ok : bool) then mret (false, true)
      else (alive ← heap_wsconn_close conn; mret (false, alive))
  | PassPing size =>
      _ ← heap_buffer_set_data buffer size; _ ← heap_wsconn_write_frame size; mret (false, true)
  | PassPong size => _ ← heap_buffer_set_data buffer size; mret (true, true)
  | PassText message evs status =>
      c ← get conn;
      ctx ← deref (cn_ctx c);
      _ ← heap_cm_onmessage ctx message evs status;
      mret (true, true)
  end.

Fixpoint heap_frame_loop (conn buffer : loc) (passes : list (list (which * buffer_op) * pass)) : HB bool :=
  match passes with
  | [] => mret true
  | (ops, p) :: passes =>
      _ ← heap_buffer_ops conn ops;
      '(again, alive) ← heap_frame_step conn buffer p;
      if (again : bool) then heap_frame_loop conn buffer passes else mret alive
  end.

(** [length] bytes are read; [ops]: what [wsmsg_add] does to its buffers. *)
Definition heap_wsconn_process_frame (conn : loc) (length : Z) (ops : list (which * buffer_op))
    (passes : list (list (which * buffer_op) * pass)) : HB bool :=
  buffer ← heap_buffer_create 0;
  match buffer with
  | None => mret true
  | Some b =>
      input_buffer ← h_malloc length;
      if input_buffer is None then (_ ← buffer_delete b; mret true) else
      _ ← heap_buffer_ops conn ops;
      _ ← h_free input_buffer;
      alive ← heap_frame_loop conn b passes;
      _ ← buffer_delete b;
      mret alive
  end.

(** ** Events of both sockets *)

(** A read of [cm_readcb]: whether a stream starts again, the frames the handlers
    find, what [XML_Parse] returns and the number of bytes. *)
Record chunk := Chunk { ck_restart : bool; ck_frames : list frame_t; ck_status : bool; ck_length : Z }.

(** Events on an established connection, as [conn_event] has them. *)
Inductive step :=
  | StepRead (length : Z) (ops : list (which * buffer_op)) (passes : list (list (which * buffer_op) * pass))
  | StepWritten
  | StepLost
  | StepServerUp
  | StepServerRead (chunks : list chunk)
  | StepServerLost.

Fixpoint heap_readcb_loop (framer : loc) (chunks : list chunk) : HB bool :=
  match chunks with
  | [] => mret true
  | ck :: chunks =>
      _ ← (if ck_restart ck then (_ ← heap_framer_initialize framer; mret ()) else mret ());
      res ← heap_framer_add framer (ck_frames ck) (ck_status ck) (ck_length ck);
      if (res : bool) then heap_readcb_loop framer chunks else mret false
  end.

Fixpoint heap_forward_loop (fuel : nat) (framer : loc) : HB () :=
  match fuel with
  | O => h_ub
  | S fuel =>
      more ← heap_framer_has_frame framer;
      if (more : bool) then
        fr ← heap_framer_get_frame2 framer;
        _ ← heap_wsconn_write_frame (Z.min (szt (fr_size fr)) DATA_BUFFER_SIZE);
        heap_forward_loop fuel framer
      else mret ()
  end.

Definition heap_cm_readcb (cm : loc) (chunks : list chunk) : HB () :=
  c ← get cm;
  framer ← deref (cs_framer c);
  ok ← heap_readcb_loop framer chunks;
  if (ok : bool) then h_loop (λ fuel, heap_forward_loop fuel framer) else mret ().

Definition heap_cm_connected (cm : loc) : HB () :=
  c ← get cm;
  buffer ← deref (cs_buffer c);
  x ← get buffer;
  _ ← use (cs_bev c);
  _ ← heap_buffer_remove_data buffer (bu_length x);
  put cm (Cmanager_s CM_FORWARD (cs_parser c) (cs_server c) (cs_bev c) (cs_dnsbase c) (cs_buffer c) (cs_framer c)).

(** [wsconn_onclosed] and then [cm_close], even if the former has freed the manager. *)
Definition heap_cm_lost (conn cm : loc) : HB bool :=
  alive ← heap_wsconn_onclosed conn; _ ← heap_cm_close cm; mret alive.

(** The callbacks of the manager's bufferevent: none when there is none. *)
Definition heap_server_event (conn : loc) (f : loc → HB bool) : HB bool :=
  c ← get conn;
  ctx ← deref (cn_ctx c);
  cm ← get ctx;
  if cs_bev cm is None then mret true else f ctx.

Definition heap_conn_do (conn : loc) (st : step) : HB bool :=
  match st with
  | StepRead length ops passes =>
      c ← get conn;
      match cn_ws_state c with
      | WS_ST_RECEIVING => heap_wsconn_process_frame conn length ops passes
      | _ => mret true
      end
  | StepWritten =>
      c ← get conn;
      if bool_decide (cn_ws_state c = WS_ST_CLOSING) then (_ ← heap_wsconn_delete conn; mret false)
      else mret true
  | StepLost => _ ← heap_log_event; heap_wsconn_close conn
  | StepServerUp => heap_server_event conn (λ cm, _ ← heap_cm_connected cm; mret true)
  | StepServerRead chunks => heap_server_event conn (λ cm, _ ← heap_cm_readcb cm chunks; mret true)
  | StepServerLost => heap_server_event conn (λ cm, heap_cm_lost conn cm)
  end.

Fixpoint heap_conn_run (conn : loc) (steps : list step) : HB bool :=
  match steps with
  | [] => mret true
  | st :: steps =>
      alive ← heap_conn_do conn st;
      if (alive : bool) then heap_conn_run conn steps else mret false
  end.

(** A connection from its acceptance on: the address it still has at the end. *)
Definition heap_connection (request : list rq_step) (res : bool) (steps : list step) : HB pointer :=
  conn ← heap_wsconn_create;
  match conn with
  | None => mret None
  | Some l =>
      _ ← heap_read_lines l request;
      alive ← heap_wsconn_handshake l res;
      if negb alive then mret None else
      alive ← heap_conn_run l steps;
      mret (if (alive : bool) then conn else None)
  end.

(** ** The configuration (parseconfig.c) *)

Definition heap_config_create : HB pointer :=
  conf ← h_malloc 64;
  match conf with
  | None => mret None
  | Some l => _ ← put l (Jsconf_s None (λ _, None)); mret conf
  end.

(** An entry of the list of origins; [false]: the parser gives up. *)
Definition heap_config_origin (conf : loc) (value : list Z) : HB bool :=
  new_origin ← h_malloc 16;
  match new_origin with
  | None => mret false
  | Some o =>
      url ← heap_strdup value;
      u ← deref url;
      j ← get conf;
      _ ← put o (Origin_s u (js_origins j));
      _ ← put conf (Jsconf_s new_origin (js_str j));
      mret true
  end.

(** An assignment of one of the strings: the old one belongs to nobody. *)
Definition heap_config_set (conf : loc) (f : conf_field) (value : list Z) : HB () :=
  new_value ← heap_strdup value;
  match new_value with
  | None => mret ()
  | Some _ =>
      j ← get conf;
      put conf (Jsconf_s (js_origins j) (λ g, if decide (g = f) then new_value else js_str j g))
  end.

Fixpoint delete_origins (fuel : nat) (current : pointer) : HB () :=
  match fuel, current with
  | O, _ => h_ub
  | S _, None => mret ()
  | S fuel, Some c =>
      x ← get c; _ ← h_free (Some (os_url x)); _ ← h_free current; delete_origins fuel (os_next x)
  end.

Definition config_delete (conf : loc) : HB () :=
  j ← get conf;
  _ ← h_loop (λ fuel, delete_origins fuel (js_origins j));
  _ ← h_free (js_str j F_CIDR);
  _ ← h_free (js_str j F_PORT);
  _ ← h_free (js_str j F_HOST);
  _ ← h_free (js_str j F_RESOURCE);
  h_free (Some conf).

Inductive conf_step := ConfOrigin (url : list Z) | ConfSet (f : conf_field) (value : list Z).

(** [false]: the parser gives up, and the rest of the file is not read. *)
Fixpoint heap_config_run (conf : loc) (steps : list conf_step) : HB bool :=
  match steps with
  | [] => mret true
  | ConfOrigin url :: steps =>
      ok ← heap_config_origin conf url;
      if (ok : bool) then heap_config_run conf steps else mret false
  | ConfSet f v :: steps => _ ← heap_config_set conf f v; heap_config_run conf steps
  end.

Definition heap_config (steps : list conf_step) : HB bool :=
  conf ← heap_config_create;
  match conf with
  | None => mret false
  | Some l => ok ← heap_config_run l steps; _ ← config_delete l; mret ok
  end.

(** ** The listener *)

(** [bound]: libevent could bind it.  [memset] comes before the null test. *)
Definition heap_ws_create (bound : bool) : HB pointer :=
  wss ← h_malloc 56;
  l ← deref wss;
  _ ← h_store l (Wsserver None);
  if negb bound then (_ ← h_free wss; mret None) else
  listener ← h_new 1 External;
  _ ← h_store l (Wsserver listener);
  if listener is None then (_ ← h_free wss; mret None) else mret wss.

Definition ws_delete (ws : loc) : HB () :=
  b ← h_load ws;
  match b with Wsserver listener => (_ ← h_free listener; h_free (Some ws)) | _ => h_ub end.
End memory.
