(* ===== verification/MemorySpec.v ===== *)
(** Who owns what: for each structure an assertion that covers it and all it
    owns, and for each function of Memory.v what it makes of them. *)

From iris.proofmode Require Import proofmode.
From S2P Require Import Prelude CString Config RqParser RqSpec Expat StreamParse Framer Libevent WsServer CManager WsFrame Heap Memory.

Section access.
Context `{!Allocator block} (e : env).

Lemma hwp_get {T} `{!Struct T} l (x : T) (Ψ : T → hprop block) :
  l ↦ to_block x ⊢ (l ↦ to_block x -∗ Ψ x) -∗ hwp e (get l) Ψ.
Proof.
  iIntros "Hl HΨ". iApply hwp_bind. iApply (hwp_load with "Hl"). iIntros "Hl".
  rw of_to_block. iApply hwp_ret. by iApply "HΨ".
Qed.

Lemma hwp_put {T} `{!Struct T} l v (x : T) (Ψ : () → hprop block) :
  points_to l v ⊢ (l ↦ to_block x -∗ Ψ ()) -∗ hwp e (put l x) Ψ.
Proof. apply hwp_store. Qed.

End access.

(** Steps of [hwp]: run the next operation, on the block of a hypothesis. *)
Tactic Notation "hload" constr(H) := iApply hwp_bind; iApply (hwp_get with H); iIntros H.
Tactic Notation "hput" constr(H) := iApply hwp_bind; iApply (hwp_put with H); iIntros H.
Tactic Notation "hret" := iApply hwp_bind; iApply hwp_ret.
Tactic Notation "hfree" constr(H) := iApply hwp_bind; iApply (hwp_free with H).

Section spec.
Context `{!Allocator block} (e : env).
Implicit Types (Φ : pointer → hprop block) (l : loc).

(** ** Buffers *)

Definition buffer_own l : hprop block :=
  ∃ b : buffer_s, ⌈0 <= bu_max_length b⌉ ∗ l ↦ to_block b ∗ owned (bu_data b).
Definition opt_own (P : loc → hprop block) (p : pointer) : hprop block :=
  match p with Some l => P l | None => emp end.

(** What an allocation yields: null only when memory runs out. *)
Definition made (P : loc → hprop block) (p : pointer) : hprop block :=
  match p with Some l => P l | None => ⌈e = Hostile⌉ end.

Lemma heap_buffer_create_spec n Φ : 0 <= n →
  (∀ p, made buffer_own p -∗ Φ p) ⊢ hwp e (heap_buffer_create n) Φ.
Proof.
  iIntros (Hn) "HΦ". unfold heap_buffer_create. iApply hwp_bind. iApply hwp_malloc; [done|]. iSplit.
  { iIntros ([->|?]); [|done]. iApply hwp_ret. by iApply ("HΦ" $! None). }
  iIntros (b) "Hb". iApply hwp_bind.
  assert (0 <= (if (0 <? n) && (n <? 128) then n else 128) <= 128) as Hc.
  { destruct (Z.ltb_spec 0 n), (Z.ltb_spec n 128); simpl; lia. }
  iApply hwp_malloc; [lia|]. iSplit.
  - iIntros ([->|?]); [|by unfold PTRDIFF_MAX in *; lia].
    iApply hwp_bind. iApply hwp_free_null. hfree "Hb". iApply hwp_ret. by iApply ("HΦ" $! None).
  - iIntros (d) "Hd". hput "Hb". iApply hwp_ret. iApply ("HΦ" $! (Some b)).
    iExists _. iFrame "Hb". iSplit; [done|]. by iExists _.
Qed.

Lemma buffer_own_intro l b : 0 <= bu_max_length b →
  l ↦ to_block b ⊢ owned (bu_data b) -∗ buffer_own l.
Proof. iIntros (?) "Hl Hd". iExists b. by iFrame. Qed.

Lemma buffer_delete_spec l (Ψ : () → hprop block) :
  buffer_own l ⊢ Ψ () -∗ hwp e (buffer_delete l) Ψ.
Proof.
  iIntros "(%b & _ & Hl & %v & Hd) HΨ". unfold buffer_delete. hload "Hl". hfree "Hd".
  by iApply (hwp_free with "Hl").
Qed.

Lemma buffer_grown_spec l d cap n b (Ψ : bool → hprop block) : 0 <= bu_max_length b →
  l ↦ to_block b ⊢ owned d -∗ (∀ r, buffer_own l -∗ Ψ r) -∗ hwp e (buffer_grown l d cap n b) Ψ.
Proof.
  iIntros (Hm) "Hl Hd HΨ". unfold buffer_grown. hput "Hl". iApply hwp_ret. iApply "HΨ".
  by iApply (buffer_own_intro with "Hl").
Qed.

Lemma buffer_realloc_spec l cap n m b (Ψ : bool → hprop block) : 0 <= bu_max_length b → 0 <= cap →
  l ↦ to_block b ⊢ owned (bu_data b) -∗ (∀ r, buffer_own l -∗ Ψ r) -∗
  hwp e (new_buff ← h_realloc (bu_data b) cap;
         match new_buff with None => mret false | Some d => buffer_grown l d n m b end) Ψ.
Proof.
  iIntros (Hm Hc) "Hl (%v & Hd) HΨ". iApply hwp_bind. iApply (hwp_realloc with "Hd"); [done|]. iSplit.
  - iIntros "_ Hd". iApply hwp_ret. iApply "HΨ". iApply (buffer_own_intro with "Hl"); [done|]. by iExists v.
  - iIntros (d) "Hd". iApply (buffer_grown_spec with "Hl [Hd]"); [done|by iExists v|done].
Qed.

Lemma heap_buffer_append_spec l n (Ψ : bool → hprop block) :
  buffer_own l ⊢ (∀ r, buffer_own l -∗ Ψ r) -∗ hwp e (heap_buffer_append l n) Ψ.
Proof.
  iIntros "Hb HΨ". unfold heap_buffer_append. destruct (n =? 0); [iApply hwp_ret; by iApply "HΨ"|].
  iDestruct "Hb" as "(%b & %Hm & Hl & Hd)". hload "Hl". cbv zeta.
  assert (∀ z, 0 <= szt z) as Hsz by (intros z; apply Z.mod_pos_bound; done).
  destruct (bu_max_length b =? 0).
  - destruct (_ <? _); [iApply (buffer_realloc_spec with "Hl Hd")|iApply (buffer_grown_spec with "Hl Hd")]; auto.
  - destruct (_ =? 0).
    { iApply hwp_ret. iApply "HΨ". by iApply (buffer_own_intro with "Hl"). }
    destruct (bu_capacity b <? _);
      [iApply (buffer_realloc_spec with "Hl Hd")|iApply (buffer_grown_spec with "Hl Hd")]; auto.
    pose proof (Hsz (bu_length b +
       (if bu_max_length b <? szt (bu_length b + n) then szt (bu_max_length b - bu_length b) else n) + 1024)). lia.
Qed.

Lemma heap_buffer_clear_spec l (Ψ : () → hprop block) :
  buffer_own l ⊢ (buffer_own l -∗ Ψ ()) -∗ hwp e (heap_buffer_clear l) Ψ.
Proof.
  iIntros "(%b & %Hm & Hl & Hd) HΨ". unfold heap_buffer_clear. hload "Hl".
  iApply (hwp_put with "Hl"). iIntros "Hl". iApply "HΨ". iApply (buffer_own_intro with "Hl Hd"). done.
Qed.

Lemma heap_buffer_set_data_spec l n (Ψ : bool → hprop block) :
  buffer_own l ⊢ (∀ r, buffer_own l -∗ Ψ r) -∗ hwp e (heap_buffer_set_data l n) Ψ.
Proof.
  iIntros "Hb HΨ". iApply hwp_bind. iApply (heap_buffer_clear_spec with "Hb"). iIntros "Hb".
  by iApply (heap_buffer_append_spec with "Hb").
Qed.

Lemma heap_buffer_remove_data_spec l n (Ψ : () → hprop block) :
  buffer_own l ⊢ (buffer_own l -∗ Ψ ()) -∗ hwp e (heap_buffer_remove_data l n) Ψ.
Proof.
  iIntros "(%b & %Hm & Hl & Hd) HΨ". unfold heap_buffer_remove_data. hload "Hl".
  iApply (hwp_put with "Hl"). iIntros "Hl". iApply "HΨ". iApply (buffer_own_intro with "Hl Hd"). done.
Qed.

Lemma heap_buffer_op_spec l op (Ψ : () → hprop block) :
  buffer_own l ⊢ (buffer_own l -∗ Ψ ()) -∗ hwp e (heap_buffer_op l op) Ψ.
Proof.
  iIntros "Hb HΨ". destruct op; cbn [heap_buffer_op].
  - iApply hwp_bind. iApply (heap_buffer_append_spec with "Hb"). iIntros (r) "Hb". iApply hwp_ret. by iApply "HΨ".
  - iApply hwp_bind. iApply (heap_buffer_set_data_spec with "Hb"). iIntros (r) "Hb". iApply hwp_ret. by iApply "HΨ".
  - by iApply (heap_buffer_remove_data_spec with "Hb").
Qed.

Lemma append_all_spec l ns (Ψ : bool → hprop block) :
  buffer_own l ⊢ (∀ r, buffer_own l -∗ Ψ r) -∗ hwp e (append_all l ns) Ψ.
Proof.
  iIntros "Hb HΨ". iInduction ns as [|n ns] "IH"; cbn [append_all].
  { iApply hwp_ret. by iApply "HΨ". }
  iApply hwp_bind. iApply (heap_buffer_append_spec with "Hb"). iIntros ([]) "Hb".
  - iApply ("IH" with "Hb HΨ").
  - iApply hwp_ret. by iApply "HΨ".
Qed.

(** ** The list of protocols

    [strs p xs]: the list that starts at [p] has the texts [xs]. *)
Fixpoint strs (p : pointer) (xs : list (list Z)) : hprop block :=
  match xs with
  | [] => ⌈p = None⌉
  | x :: xs => ∃ l q, ⌈p = Some l⌉ ∗ l ↦ to_block (Strlist_s x q) ∗ strs q xs
  end.

Lemma strs_covers p xs : covers (length xs) (strs p xs).
Proof.
  revert p. induction xs as [|x xs IH]; intros p; [apply covers_emp|].
  apply covers_exist. intros l. apply covers_exist. intros q.
  apply (covers_sep 0 (S (length xs))); [apply covers_emp|].
  by apply (covers_sep 1); [apply covers_points_to|].
Qed.

Lemma strs_null xs : strs None xs ⊢ ⌈xs = []⌉.
Proof. destruct xs; cbn [strs]; [auto|]. by iIntros "(%a & %q & %E & H)". Qed.

Lemma strs_next l xs : strs (Some l) xs ⊢
  ∃ x xs' q, ⌈xs = x :: xs'⌉ ∗ l ↦ to_block (Strlist_s x q) ∗ strs q xs'.
Proof.
  destruct xs as [|x xs]; cbn [strs]; [by iIntros (?)|].
  iIntros "(%l' & %q & %E & Hl & Hq)". simplify_eq. iExists x, xs, q. by iFrame.
Qed.

Lemma delete_strlist_spec fuel p xs (Ψ : () → hprop block) : (length xs < fuel)%nat →
  strs p xs ⊢ Ψ () -∗ hwp e (delete_strlist fuel p) Ψ.
Proof.
  iIntros (Hf) "Hp HΨ". iInduction fuel as [|fuel] "IH" forall (p xs Hf); [lia|].
  destruct p as [l|]; cbn [delete_strlist].
  - iDestruct (strs_next with "Hp") as "(%x & %xs' & %q & -> & Hl & Hq)". hload "Hl". hfree "Hl".
    iApply ("IH" with "[] Hq HΨ"). iPureIntro. simpl in Hf. lia.
  - iDestruct (strs_null with "Hp") as %->. by iApply hwp_ret.
Qed.

Definition request_own l (line : loc) (protocols : list (list Z)) : hprop block :=
  ∃ head, l ↦ to_block (Request_s line head (zlen protocols)) ∗ strs head protocols ∗ owned line.

Lemma heap_rq_create_spec Φ :
  (∀ p, made (λ l, ∃ line, request_own l line []) p -∗ Φ p) ⊢ hwp e heap_rq_create Φ.
Proof.
  iIntros "HΦ". unfold heap_rq_create. iApply hwp_bind. iApply hwp_malloc; [done|]. iSplit.
  { iIntros ([->|?]); [|done]. iApply hwp_ret. by iApply ("HΦ" $! None). }
  iIntros (h) "Hh". iApply hwp_bind. iApply hwp_malloc; [done|]. iSplit.
  - iIntros ([->|?]); [|done]. hfree "Hh". iApply hwp_ret. by iApply ("HΦ" $! None).
  - iIntros (line) "Hline". hput "Hh". iApply hwp_ret. iApply ("HΦ" $! (Some h)).
    iExists line, None. iFrame "Hh". iSplit; [done|]. by iExists _.
Qed.

(** The line of the request stays behind. *)
Lemma rq_delete_spec l line protocols (Ψ : () → hprop block) :
  request_own l line protocols ⊢ (owned line -∗ Ψ ()) -∗ hwp e (rq_delete l) Ψ.
Proof.
  iIntros "(%head & Hl & Hp & Hline) HΨ". unfold rq_delete. hload "Hl". iApply hwp_bind.
  iApply (hwp_loop' with "Hp"); [apply strs_covers|]. iIntros (fuel Hf) "Hp".
  iApply (delete_strlist_spec with "Hp"); [done|].
  iApply (hwp_free with "Hl"). by iApply "HΨ".
Qed.

(** A push that finds no memory is left out. *)
Lemma heap_get_protocols_spec l line toks ps (Ψ : () → hprop block) :
  request_own l line ps ⊢
  (∀ ps', ⌈e ≠ Hostile → ps' = reverse toks ++ ps⌉ -∗ request_own l line ps' -∗ Ψ ()) -∗
  hwp e (heap_get_protocols l toks) Ψ.
Proof.
  iIntros "Hr HΨ". iInduction toks as [|tok toks] "IH" forall (ps); cbn [heap_get_protocols].
  { iApply hwp_ret. by iApply ("HΨ" with "[//] Hr"). }
  iApply hwp_bind. iApply hwp_malloc; [done|]. iSplit.
  - iIntros ([->|?]); [|done]. hret. iApply ("IH" with "Hr"). iIntros (ps') "_ Hr".
    by iApply ("HΨ" with "[%] Hr").
  - iIntros (p) "Hp". iDestruct "Hr" as "(%head & Hl & Hs & Hline)". iApply hwp_bind. hload "Hl".
    hput "Hp". iApply (hwp_put with "Hl"). iIntros "Hl".
    iApply ("IH" $! (tok :: ps) with "[Hl Hs Hline Hp]").
    + iExists (Some p). rw zlen_cons Z.add_comm. iFrame "Hl Hline". iExists p, head. by iFrame.
    + iIntros (ps' Hps) "Hr". iApply ("HΨ" with "[%] Hr"). intros He. rw Hps // reverse_cons. by rw -app_assoc.
Qed.

Lemma heap_strdup_spec s (Φ : pointer → hprop block) :
  (∀ p, ⌈(e = Hostile ∨ PTRDIFF_MAX <= zlen s) ∨ is_Some p⌉ -∗
    opt_own (λ l, l ↦ Chars s) p -∗ Φ p) ⊢ hwp e (heap_strdup s) Φ.
Proof.
  iIntros "HΦ". iApply hwp_new; [zlen_pos; lia|]. iSplit.
  - iIntros (Hn). iApply ("HΦ" $! None with "[%]"); [|done]. left. destruct Hn; [by left|right; lia].
  - iIntros (l) "Hl". iApply ("HΦ" $! (Some l) with "[%] Hl"). by right.
Qed.

(** A copy that memory suffices for. *)
Lemma heap_strdup_ok s (Φ : pointer → hprop block) : e ≠ Hostile → zlen s < PTRDIFF_MAX →
  (∀ l, l ↦ Chars s -∗ Φ (Some l)) ⊢ hwp e (heap_strdup s) Φ.
Proof.
  iIntros (He Hs) "HΦ". iApply heap_strdup_spec. iIntros ([l|] [[?|?]|[? Hsome]]) "Hl"; try done; try lia;
    by iApply "HΦ".
Qed.

Lemma hfree_chars p s (Ψ : () → hprop block) :
  opt_own (λ l, l ↦ Chars s) p ⊢ Ψ () -∗ hwp e (h_free p) Ψ.
Proof.
  iIntros "Hp HΨ". destruct p as [l|]; [by iApply (hwp_free with "Hp")|by iApply hwp_free_null].
Qed.

Lemma heap_parse_request_line_spec line (Ψ : bool → hprop block) :
  (∀ r, Ψ r) ⊢ hwp e (heap_parse_request_line line) Ψ.
Proof.
  iIntros "HΨ". iApply hwp_bind. iApply heap_strdup_spec. iIntros ([l|]) "_ Hl"; [|by iApply hwp_ret].
  hfree "Hl". by iApply hwp_ret.
Qed.

(** Blocks that nothing points to any more, by their contents. *)
Fixpoint leak (vs : list (option block)) : hprop block :=
  match vs with [] => emp | v :: vs => (∃ l, points_to l v) ∗ leak vs end%I.

Lemma leak_0 : ⊢ leak [].
Proof. done. Qed.
Lemma leak_1 l v : points_to l v ⊢ leak [v].
Proof. iIntros "Hl". iSplitL; [by iExists l|done]. Qed.
Lemma leak_add vs ws : leak vs ⊢ leak ws -∗ leak (vs ++ ws).
Proof.
  iIntros "Hvs Hws". iInduction vs as [|v vs] "IH"; [done|]. iDestruct "Hvs" as "[$ Hvs]".
  iApply ("IH" with "Hvs Hws").
Qed.

Definition header_protocols (key value : list Z) : list (list Z) :=
  if strcasecmp_eq key (bs "Sec-WebSocket-Protocol")
  then elements (cut ws_protocol_str (skip_space value)) else [].

Lemma heap_header_spec l line ps key value (Ψ : bool → hprop block) :
  e ≠ Hostile → zlen key < PTRDIFF_MAX → zlen value < PTRDIFF_MAX →
  request_own l line ps ⊢
  (request_own l line (reverse (header_protocols key value) ++ ps) -∗ leak [Some (Chars value)] -∗ Ψ true) -∗
  hwp e (heap_header l key value) Ψ.
Proof.
  iIntros (He Hk Hv) "Hr HΨ". iApply hwp_bind. iApply heap_strdup_ok; [done|done|]. iIntros (k) "Hk".
  iApply hwp_bind. iApply heap_strdup_ok; [done|done|]. iIntros (v) "Hv".
  iApply hwp_bind. unfold heap_process. iApply hwp_bind.
  iAssert (∀ Ψ' : loc → hprop block, (∀ r, Ψ' r) -∗ hwp e (if existsb (strcasecmp_eq key) known_headers
    then deref (Some v) else mret l) Ψ')%I as "Hderef".
  { iIntros (Ψ') "H". destruct (existsb _ _); by iApply hwp_ret. }
  iApply "Hderef". iIntros (_). iApply hwp_bind.
  iApply (hwp_wand _ _ (λ _, request_own l line (reverse (header_protocols key value) ++ ps)) with "[Hr]").
  { unfold header_protocols. destruct (strcasecmp_eq _ _); [|by iApply hwp_ret].
    iApply (heap_get_protocols_spec with "Hr"). iIntros (ps' E) "Hr". by rw E. }
  iIntros (_) "Hr". iApply (hwp_free with "Hk"). iApply hwp_ret.
  iApply ("HΨ" with "Hr"). by iApply leak_1.
Qed.

Lemma nth_protocol_spec i p xs x (Ψ : loc → hprop block) : xs !! i = Some x →
  strs p xs ⊢ (∀ l q, l ↦ to_block (Strlist_s x q) -∗
    (l ↦ to_block (Strlist_s x q) -∗ strs p xs) -∗ Ψ l) -∗ hwp e (nth_protocol i p) Ψ.
Proof.
  iIntros (Hi) "Hp HΨ". iInduction i as [|i] "IH" forall (p xs Hi Ψ); cbn [nth_protocol];
    destruct xs as [|y xs]; simplify_eq/=; iDestruct "Hp" as "(%l & %q & -> & Hl & Hq)".
  - iApply hwp_ret. iApply ("HΨ" with "Hl"). iIntros "Hl". iExists l, q. by iFrame.
  - hret. hload "Hl". iApply ("IH" with "[%//] Hq"). iIntros (l' q') "Hl' Hclose".
    iApply ("HΨ" with "Hl'"). iIntros "Hl'". iExists l, q. iFrame "Hl". iSplit; [done|]. by iApply "Hclose".
Qed.

Lemma heap_rq_get_protocol_spec l line ps i (Ψ : option (list Z) → hprop block) :
  request_own l line ps ⊢
  (request_own l line ps -∗ Ψ (if i <? 0 then None else ps !! Z.to_nat i)) -∗
  hwp e (heap_rq_get_protocol l i) Ψ.
Proof.
  iIntros "(%head & Hl & Hs & Hline) HΨ". unfold heap_rq_get_protocol. hload "Hl". cbn [rs_count rs_head].
  destruct (Z.ltb_spec i 0); cbn [orb].
  { iApply hwp_ret. iApply "HΨ". iExists head. iFrame. }
  destruct (Z.leb_spec (zlen ps) i).
  { iApply hwp_ret. rw lookup_ge_None_2; [|unfold zlen in *; lia]. iApply "HΨ". iExists head. iFrame. }
  destruct (lookup_lt_is_Some_2 ps (Z.to_nat i)) as [x Hx]; [unfold zlen in *; lia|].
  iApply hwp_bind. iApply (nth_protocol_spec with "Hs"); [done|]. iIntros (l' q) "Hl' Hclose".
  hload "Hl'". iApply hwp_ret. rw Hx. iApply "HΨ". iExists head. iFrame "Hl Hline". by iApply "Hclose".
Qed.

Lemma find_protocol_spec fuel p xs protocol (Ψ : bool → hprop block) : (length xs < fuel)%nat →
  strs p xs ⊢ (strs p xs -∗ Ψ (bool_decide (protocol ∈ xs))) -∗ hwp e (find_protocol fuel p protocol) Ψ.
Proof.
  iIntros (Hf) "Hp HΨ". iInduction fuel as [|fuel] "IH" forall (p xs Hf Ψ); [lia|].
  destruct p as [l|]; cbn [find_protocol].
  - iDestruct (strs_next with "Hp") as "(%x & %xs' & %q & -> & Hl & Hq)". hload "Hl". cbn [sl_str sl_next].
    destruct (strcmp_eq x protocol) eqn:E; unfold strcmp_eq in E.
    + apply bool_decide_eq_true in E as ->. iApply hwp_ret.
      rw bool_decide_eq_true_2; [|by left]. iApply "HΨ". iExists l, q. by iFrame.
    + apply bool_decide_eq_false in E. iApply ("IH" with "[%] Hq"); [simpl in *; lia|].
      iIntros "Hq". rw (bool_decide_ext (protocol ∈ xs') (protocol ∈ x :: xs')); [|rw elem_of_cons; intuition congruence].
      iApply "HΨ". iExists l, q. by iFrame.
  - iDestruct (strs_null with "Hp") as %->. iApply hwp_ret. by iApply "HΨ".
Qed.

Lemma heap_rq_protocols_contains_spec l line ps protocol (Ψ : bool → hprop block) :
  request_own l line ps ⊢ (request_own l line ps -∗ Ψ (bool_decide (protocol ∈ ps))) -∗
  hwp e (heap_rq_protocols_contains l protocol) Ψ.
Proof.
  iIntros "(%head & Hl & Hs & Hline) HΨ". unfold heap_rq_protocols_contains. hload "Hl".
  iApply (hwp_loop' with "Hs"); [apply strs_covers|]. iIntros (fuel Hf) "Hs".
  iApply (find_protocol_spec with "Hs"); [done|]. iIntros "Hs". iApply "HΨ". iExists head. iFrame.
Qed.

Lemma trim_beginning_spec l s (Φ : pointer → hprop block) : e ≠ Hostile → zlen s < PTRDIFF_MAX →
  l ↦ Chars s ⊢ (∀ l', l' ↦ Chars (skip_space s) -∗ Φ (Some l')) -∗ hwp e (trim_beginning l) Φ.
Proof.
  iIntros (He Hs) "Hl HΦ". iApply hwp_bind. iApply (hwp_load with "Hl"). iIntros "Hl". iApply hwp_bind.
  iApply heap_strdup_ok; [done| |].
  { assert (zlen (skip_space s) <= zlen s); [|lia]. clear.
    induction s as [|c s IH]; simpl; [done|]. rw zlen_cons. destruct (isspace (schar c)); [lia|]. by rw zlen_cons. }
  iIntros (l') "Hl'". hfree "Hl". iApply hwp_ret. by iApply "HΦ".
Qed.

(** ** Messages *)

Definition wsmsg_own l : hprop block :=
  ∃ a b c : loc, l ↦ to_block (Wsmsg_s (Some a) (Some b) (Some c)) ∗
    buffer_own a ∗ buffer_own b ∗ buffer_own c.

Lemma delete_nonnull_spec p (Ψ : () → hprop block) :
  opt_own buffer_own p ⊢ Ψ () -∗ hwp e (delete_nonnull p) Ψ.
Proof.
  iIntros "Hp HΨ". destruct p as [l|]; [by iApply (buffer_delete_spec with "Hp")|by iApply hwp_ret].
Qed.

Lemma wsmsg_delete_spec l w (Ψ : () → hprop block) :
  l ↦ to_block w ⊢ opt_own buffer_own (ms_frame_buffer w) -∗ opt_own buffer_own (ms_message_buffer w) -∗
  opt_own buffer_own (ms_frame_data w) -∗ Ψ () -∗ hwp e (wsmsg_delete (Some l)) Ψ.
Proof.
  iIntros "Hl Ha Hb Hc HΨ". unfold wsmsg_delete. hload "Hl".
  iApply hwp_bind. iApply (delete_nonnull_spec with "Hc"). iApply hwp_bind. iApply (delete_nonnull_spec with "Hb").
  iApply hwp_bind. iApply (delete_nonnull_spec with "Ha"). by iApply (hwp_free with "Hl").
Qed.

Lemma wsmsg_own_delete l (Ψ : () → hprop block) :
  wsmsg_own l ⊢ Ψ () -∗ hwp e (wsmsg_delete (Some l)) Ψ.
Proof. iIntros "(%a & %b & %c & Hl & Ha & Hb & Hc)". iApply (wsmsg_delete_spec with "Hl Ha Hb Hc"). Qed.

Definition wsmsg_conf_ok (conf : jsconf_t) : Prop := - INT_MAX - 1 <= 2 * max_frame_size conf <= INT_MAX.

Lemma szt_nonneg z : 0 <= szt z.
Proof. by apply Z.mod_pos_bound. Qed.

(** Nothing is left of a message object that could not be made. *)
Lemma heap_wsmsg_create_spec conf Φ : wsmsg_conf_ok conf →
  (∀ p, made wsmsg_own p -∗ Φ p) ⊢ hwp e (heap_wsmsg_create conf) Φ.
Proof.
  iIntros ([Hc1 Hc2]) "HΦ". unfold heap_wsmsg_create. iApply hwp_bind. iApply hwp_malloc; [done|]. iSplit.
  { iIntros ([->|?]); [|done]. iApply hwp_ret. by iApply ("HΦ" $! None). }
  iIntros (l) "Hl". cbv zeta. rw (proj2 (Z.leb_le _ _) Hc1) (proj2 (Z.leb_le _ _) Hc2). cbn [andb negb].
  iApply hwp_bind. iApply heap_buffer_create_spec; [apply szt_nonneg|]. iIntros (a) "Ha". hput "Hl".
  destruct a as [a|].
  2: { iDestruct "Ha" as %He. iApply hwp_bind. iApply (wsmsg_delete_spec with "Hl"); [done..|].
       iApply hwp_ret. by iApply ("HΦ" $! None). }
  iApply hwp_bind. iApply heap_buffer_create_spec; [apply szt_nonneg|]. iIntros (b) "Hb". hput "Hl".
  destruct b as [b|].
  2: { iDestruct "Hb" as %He. iApply hwp_bind. iApply (wsmsg_delete_spec with "Hl Ha"); [done..|].
       iApply hwp_ret. by iApply ("HΦ" $! None). }
  iApply hwp_bind. iApply heap_buffer_create_spec; [apply szt_nonneg|]. iIntros (c) "Hc". hput "Hl".
  destruct c as [c|].
  2: { iDestruct "Hc" as %He. iApply hwp_bind. iApply (wsmsg_delete_spec with "Hl Ha Hb"); [done..|].
       iApply hwp_ret. by iApply ("HΦ" $! None). }
  iApply hwp_ret. iApply ("HΦ" $! (Some l)). iExists a, b, c. iFrame.
Qed.

(** ** The framer: a queue of nodes with a pointer to the last one *)

Definition external l : hprop block := l ↦ External.

Fixpoint frames_seg (p : pointer) (xs : list frame_t) (q : pointer) : hprop block :=
  match xs with
  | [] => ⌈p = q⌉
  | x :: xs => ∃ l p', ⌈p = Some l⌉ ∗ l ↦ to_block (Frame_s x p') ∗ frames_seg p' xs q
  end.

(** The frames [xs] from [head] on; [tail] is the last of them. *)
Definition frames_queue (head tail : pointer) (xs : list frame_t) : hprop block :=
  (⌈xs = [] ∧ head = None ∧ tail = None⌉ ∨
   ∃ ys y l, ⌈xs = ys ++ [y] ∧ tail = Some l⌉ ∗ frames_seg head ys (Some l) ∗ l ↦ to_block (Frame_s y None))%I.

Lemma frames_seg_snoc p xs l x q :
  frames_seg p xs (Some l) ⊢ l ↦ to_block (Frame_s x q) -∗ frames_seg p (xs ++ [x]) q.
Proof.
  iIntros "Hp Hl". iInduction xs as [|y xs] "IH" forall (p); cbn [frames_seg app].
  - iDestruct "Hp" as %->. iExists l, q. by iFrame.
  - iDestruct "Hp" as "(%a & %p' & -> & Ha & Hp)". iExists a, p'. iFrame "Ha". iSplit; [done|].
    by iApply ("IH" with "Hp").
Qed.

Lemma frames_queue_seg head tail xs : frames_queue head tail xs ⊢ frames_seg head xs None.
Proof.
  iIntros "[%Hq|(%ys & %y & %l & %Hq & Hp & Hl)]"; [by destruct Hq as (-> & -> & _)|destruct Hq as [-> ->]].
  by iApply (frames_seg_snoc with "Hp").
Qed.

Lemma frames_seg_covers p xs q : covers (length xs) (frames_seg p xs q).
Proof.
  revert p. induction xs as [|x xs IH]; intros p; [apply covers_emp|].
  apply covers_exist. intros l. apply covers_exist. intros p'.
  apply (covers_sep 0 (S (length xs))); [apply covers_emp|].
  by apply (covers_sep 1); [apply covers_points_to|].
Qed.

Lemma delete_frames_spec fuel p xs (Ψ : () → hprop block) : (length xs < fuel)%nat →
  frames_seg p xs None ⊢ Ψ () -∗ hwp e (delete_frames fuel p) Ψ.
Proof.
  iIntros (Hf) "Hp HΨ". iInduction fuel as [|fuel] "IH" forall (p xs Hf); [lia|].
  destruct xs as [|x xs]; cbn [frames_seg]; [iDestruct "Hp" as %->; by iApply hwp_ret|].
  iDestruct "Hp" as "(%l & %p' & -> & Hl & Hp)". cbn [delete_frames]. hload "Hl". hfree "Hl".
  iApply ("IH" with "[%] Hp HΨ"). simpl in Hf. lia.
Qed.

Definition framer_own l (xs : list frame_t) : hprop block :=
  ∃ (parser buffer : loc) head tail index,
    l ↦ to_block (Framer_s (Some parser) (Some buffer) head tail index) ∗
    external parser ∗ buffer_own buffer ∗ frames_queue head tail xs.

Lemma heap_framer_cleanup_spec l xs (Ψ : () → hprop block) :
  framer_own l xs ⊢
  (∀ head tail index, l ↦ to_block (Framer_s None None head tail index) -∗ Ψ ()) -∗
  hwp e (heap_framer_cleanup l) Ψ.
Proof.
  iIntros "(%parser & %buffer & %head & %tail & %index & Hl & Hp & Hb & Hq) HΨ".
  unfold heap_framer_cleanup. hload "Hl". hfree "Hp". iApply hwp_bind. iApply (delete_nonnull_spec (Some buffer) with "Hb").
  hput "Hl". rw frames_queue_seg. iApply (hwp_loop' with "Hq"); [apply frames_seg_covers|].
  iIntros (fuel Hf) "Hq". iApply (delete_frames_spec with "Hq"); [done|]. by iApply "HΨ".
Qed.

Lemma heap_framer_delete_spec l xs (Ψ : () → hprop block) :
  framer_own l xs ⊢ Ψ () -∗ hwp e (heap_framer_delete l) Ψ.
Proof.
  iIntros "Hf HΨ". iApply hwp_bind. iApply (heap_framer_cleanup_spec with "Hf").
  iIntros (head tail index) "Hl". by iApply (hwp_free with "Hl").
Qed.

Lemma heap_external_spec Φ : (∀ p, made external p -∗ Φ p) ⊢ hwp e (h_new 1 External) Φ.
Proof.
  iIntros "HΦ". iApply hwp_new; [done|]. iSplit.
  - iIntros ([->|?]); [|done]. by iApply ("HΦ" $! None).
  - iIntros (l) "Hl". by iApply ("HΦ" $! (Some l)).
Qed.

(** A framer that could not be made leaves at most its own structure behind. *)
Definition framer_remains (vs : list (option block)) : Prop := vs = [] ∨ ∃ f, vs = [Some (Framer f)].
Definition framer_made (p : pointer) : hprop block :=
  match p with
  | Some l => framer_own l []
  | None => ⌈e = Hostile⌉ ∗ ∃ vs, ⌈framer_remains vs⌉ ∗ leak vs
  end.

Lemma heap_framer_create_spec Φ : (∀ p, framer_made p -∗ Φ p) ⊢ hwp e heap_framer_create Φ.
Proof.
  iIntros "HΦ". unfold heap_framer_create. iApply hwp_bind. iApply hwp_malloc; [done|]. iSplit.
  { iIntros ([->|?]); [|done]. iApply hwp_ret. iApply ("HΦ" $! None). iSplit; [done|].
    iExists []. iSplit; [by iPureIntro; left|]. iApply leak_0. }
  iIntros (l) "Hl". iApply hwp_bind. iApply heap_external_spec. iIntros (parser) "Hp". hput "Hl".
  destruct parser as [parser|].
  2: { iDestruct "Hp" as %->. iApply hwp_ret. iApply ("HΦ" $! None). iSplit; [done|].
       iExists [_]. iSplit; [by iPureIntro; right; eexists|]. iApply (leak_1 with "Hl"). }
  iApply hwp_bind. iApply heap_buffer_create_spec; [done|]. iIntros (buffer) "Hb". hput "Hl".
  destruct buffer as [buffer|].
  - iApply hwp_ret. iApply ("HΦ" $! (Some l)). iExists parser, buffer, None, None, 0. iFrame. by iLeft.
  - iDestruct "Hb" as %->. hfree "Hp". iApply hwp_ret. iApply ("HΦ" $! None). iSplit; [done|].
    iExists [_]. iSplit; [by iPureIntro; right; eexists|]. iApply (leak_1 with "Hl").
Qed.

(** A reset makes an empty framer when there is memory. *)
Lemma heap_framer_initialize_spec l xs (Ψ : bool → hprop block) : e ≠ Hostile →
  framer_own l xs ⊢ (framer_own l [] -∗ Ψ true) -∗ hwp e (heap_framer_initialize l) Ψ.
Proof.
  iIntros (He) "Hf HΨ". iApply hwp_bind. iApply (heap_framer_cleanup_spec with "Hf").
  iIntros (head tail index) "Hl". iApply hwp_bind. iApply heap_external_spec.
  iIntros ([parser|]) "Hp"; [|by iDestruct "Hp" as %?]. iApply hwp_bind.
  iApply heap_buffer_create_spec; [done|]. iIntros ([buffer|]) "Hb"; [|by iDestruct "Hb" as %?].
  hput "Hl". iApply hwp_ret. iApply "HΨ". iExists parser, buffer, None, None, 0. iFrame. by iLeft.
Qed.

(** The queue of nodes is the list of the framer's model. *)
Lemma heap_framer_add_frame_spec l xs i n (Ψ : () → hprop block) :
  framer_own l xs ⊢
  (∀ xs', ⌈xs' = xs ++ [Span i n] ∨ (e = Hostile ∧ xs' = xs)⌉ -∗ framer_own l xs' -∗ Ψ ()) -∗
  hwp e (heap_framer_add_frame l i n) Ψ.
Proof.
  iIntros "Hf HΨ". unfold heap_framer_add_frame. iApply hwp_bind. iApply hwp_malloc; [done|]. iSplit.
  { iIntros ([He|?]); [|done]. iApply hwp_ret. iApply ("HΨ" with "[%] Hf"). auto. }
  iIntros (new) "Hnew". hput "Hnew".
  iDestruct "Hf" as "(%parser & %buffer & %head & %tail & %index & Hl & Hp & Hb & Hq)". hload "Hl". cbn [fm_tail].
  iDestruct "Hq" as "[%Hq|(%ys & %y & %t & %Hq & Hs & Ht)]".
  - destruct Hq as (-> & -> & ->). iApply (hwp_put with "Hl"). iIntros "Hl". iApply ("HΨ" with "[%]"); [by left|].
    iExists parser, buffer, (Some new), (Some new), index. iFrame. iRight. iExists [], (Span i n), new. by iFrame.
  - destruct Hq as [-> ->]. hload "Ht". hput "Ht". iApply (hwp_put with "Hl"). iIntros "Hl". iApply ("HΨ" with "[%]"); [by left|].
    iExists parser, buffer, head, (Some new), index. iFrame. iRight. iExists (ys ++ [y]), (Span i n), new.
    iFrame. iSplit; [done|]. by iApply (frames_seg_snoc with "Hs").
Qed.

Lemma frames_seg_next l xs l' : frames_seg (Some l) xs (Some l') ⊢
  ⌈xs = [] ∧ l = l'⌉ ∨ ∃ x xs' p, ⌈xs = x :: xs'⌉ ∗ l ↦ to_block (Frame_s x p) ∗ frames_seg p xs' (Some l').
Proof.
  destruct xs as [|x xs]; cbn [frames_seg].
  - iIntros (E). simplify_eq. by iLeft.
  - iIntros "(%a & %p & %E & Ha & Hp)". simplify_eq. iRight. iExists x, xs, p. by iFrame.
Qed.

Lemma heap_framer_remove_frame_spec l x xs (Ψ : () → hprop block) :
  framer_own l (x :: xs) ⊢ (framer_own l xs -∗ Ψ ()) -∗ hwp e (heap_framer_remove_frame l) Ψ.
Proof.
  iIntros "(%parser & %buffer & %head & %tail & %index & Hl & Hp & Hb & Hq) HΨ".
  unfold heap_framer_remove_frame. hload "Hl". cbn [fm_head fm_tail fm_parser fm_buffer fm_buffer_index].
  iDestruct "Hq" as "[%Hq|(%ys & %y & %t & %Hq & Hs & Ht)]"; [by destruct Hq|destruct Hq as [E ->]].
  destruct ys as [|z ys]; cbn [frames_seg]; simplify_eq/=.
  - iDestruct "Hs" as %->. hload "Ht". hput "Hl". iApply (hwp_free with "Ht"). iApply "HΨ".
    iExists parser, buffer, None, None, index. iFrame. by iLeft.
  - iDestruct "Hs" as "(%a & %p & -> & Ha & Hs)". hload "Ha". hput "Hl". iApply (hwp_free with "Ha").
    iApply "HΨ". iExists parser, buffer, p, _, index. iFrame "Hl Hp Hb". iRight. iExists ys, y, t.
    destruct p as [p|]; [by iFrame|]. destruct ys; cbn [frames_seg]; [by iDestruct "Hs" as %?|].
    by iDestruct "Hs" as "(% & % & %E & Hs)".
Qed.

Lemma use_spec l v (Ψ : () → hprop block) :
  l ↦ v ⊢ (l ↦ v -∗ Ψ ()) -∗ hwp e (use (Some l)) Ψ.
Proof.
  iIntros "Hl HΨ". hret. iApply hwp_bind. iApply (hwp_load with "Hl"). iIntros "Hl". iApply hwp_ret. by iApply "HΨ".
Qed.

Lemma heap_add_frames_spec l xs frs (Ψ : () → hprop block) :
  framer_own l xs ⊢
  (∀ xs', ⌈e ≠ Hostile → xs' = xs ++ frs⌉ -∗ framer_own l xs' -∗ Ψ ()) -∗ hwp e (heap_add_frames l frs) Ψ.
Proof.
  iIntros "Hf HΨ". iInduction frs as [|[i n] frs] "IH" forall (xs); cbn [heap_add_frames fr_index fr_size].
  { iApply hwp_ret. iApply ("HΨ" with "[%] Hf"). by rw app_nil_r. }
  iApply hwp_bind. iApply (heap_framer_add_frame_spec with "Hf"). iIntros (xs1 H1) "Hf".
  iApply ("IH" with "Hf"). iIntros (xs' H2) "Hf". iApply ("HΨ" with "[%] Hf"). intros He. rw H2 //.
  destruct H1 as [->|[? _]]; [|done]. by rw -app_assoc.
Qed.

Lemma heap_framer_add_spec l xs frs status n (Ψ : bool → hprop block) :
  framer_own l xs ⊢
  (∀ xs', ⌈e ≠ Hostile → xs' = xs ++ frs⌉ -∗ framer_own l xs' -∗ Ψ status) -∗
  hwp e (heap_framer_add l frs status n) Ψ.
Proof.
  iIntros "(%parser & %buffer & %head & %tail & %index & Hl & Hp & Hb & Hq) HΨ".
  unfold heap_framer_add. hload "Hl". iApply hwp_bind. iApply (use_spec with "Hp"). iIntros "Hp".
  iApply hwp_bind. iApply (heap_add_frames_spec l xs frs with "[Hl Hp Hb Hq]").
  { iExists parser, buffer, head, tail, index. iFrame. }
  iIntros (xs' E) "Hf". destruct status; cbn [negb]; [|iApply hwp_ret; by iApply ("HΨ" with "[%] Hf")].
  iDestruct "Hf" as "(%parser' & %buffer' & %head' & %tail' & %index' & Hl & Hp & Hb & Hq)".
  hload "Hl". hret. iApply hwp_bind. iApply (heap_buffer_append_spec with "Hb"). iIntros (r) "Hb".
  iApply hwp_ret. iApply ("HΨ" with "[%]"); [done|]. iExists parser', buffer', head', tail', index'. iFrame.
Qed.

Lemma heap_framer_has_frame_spec l xs (Ψ : bool → hprop block) :
  framer_own l xs ⊢ (framer_own l xs -∗ Ψ (negb (bool_decide (xs = [])))) -∗
  hwp e (heap_framer_has_frame l) Ψ.
Proof.
  iIntros "(%parser & %buffer & %head & %tail & %index & Hl & Hp & Hb & Hq) HΨ".
  unfold heap_framer_has_frame. hload "Hl". iApply hwp_ret. cbn [fm_head].
  iAssert (⌈(head = None ↔ xs = [])⌉ ∗ frames_queue head tail xs)%I with "[Hq]" as "[%E Hq]".
  { iDestruct "Hq" as "[%Hq|(%ys & %y & %t & %Hq & Hs & Ht)]"; destruct_and?; subst.
    - iSplit; [done|]. by iLeft.
    - destruct ys as [|z ys]; cbn [frames_seg].
      + iDestruct "Hs" as %->. iSplit; [done|]. iRight. iExists [], y, t. by iFrame.
      + iDestruct "Hs" as "(%a & %p & -> & Ha & Hs)". iSplit; [done|]. iRight. iExists (z :: ys), y, t.
        iFrame "Ht". iSplit; [done|]. iExists a, p. by iFrame. }
  assert ((if head is None then false else true) = negb (bool_decide (xs = []))) as ->.
  { destruct head, xs; try done; intuition congruence. }
  iApply "HΨ". iExists parser, buffer, head, tail, index. iFrame.
Qed.

Lemma framer_own_head l x xs : framer_own l (x :: xs) ⊢
  ∃ (parser buffer hd : loc) next tail index,
    l ↦ to_block (Framer_s (Some parser) (Some buffer) (Some hd) tail index) ∗
    hd ↦ to_block (Frame_s x next) ∗ buffer_own buffer ∗
    (∀ index', l ↦ to_block (Framer_s (Some parser) (Some buffer) (Some hd) tail index') -∗
       hd ↦ to_block (Frame_s x next) -∗ buffer_own buffer -∗ framer_own l (x :: xs)).
Proof.
  iIntros "(%parser & %buffer & %head & %tail & %index & Hl & Hp & Hb & Hq)".
  iDestruct "Hq" as "[%Hq|(%ys & %y & %t & %Hq & Hs & Ht)]"; [by destruct Hq|destruct Hq as [E ->]].
  destruct ys as [|z ys]; cbn [frames_seg]; simplify_eq/=.
  - iDestruct "Hs" as %->. iExists parser, buffer, t, None, (Some t), index. iFrame "Hl Ht Hb".
    iIntros (index') "Hl Ht Hb". iExists parser, buffer, (Some t), (Some t), index'. iFrame. iRight.
    iExists [], y, t. by iFrame.
  - iDestruct "Hs" as "(%a & %p & -> & Ha & Hs)". iExists parser, buffer, a, p, (Some t), index.
    iFrame "Hl Ha Hb". iIntros (index') "Hl Ha Hb". iExists parser, buffer, (Some a), (Some t), index'.
    iFrame "Hl Hp Hb". iRight. iExists (z :: ys), y, t. iFrame "Ht". iSplit; [done|].
    iExists a, p. by iFrame.
Qed.

Lemma heap_framer_get_frame2_spec l x xs (Ψ : frame_t → hprop block) :
  framer_own l (x :: xs) ⊢ (framer_own l xs -∗ Ψ x) -∗ hwp e (heap_framer_get_frame2 l) Ψ.
Proof.
  iIntros "Hf HΨ". iDestruct (framer_own_head with "Hf")
    as "(%parser & %buffer & %hd & %next & %tail & %index & Hl & Hx & Hb & Hclose)".
  unfold heap_framer_get_frame2. hload "Hl". hret. hload "Hx". hret. cbv zeta. iApply hwp_bind.
  cbn [fm_buffer_index fm_parser fm_buffer fm_head fm_tail fs_frame].
  iApply (hwp_wand _ _ (λ _, ∃ i, l ↦ to_block (Framer_s (Some parser) (Some buffer) (Some hd) tail i) ∗
    buffer_own buffer)%I with "[Hl Hb]").
  { destruct (_ <? _).
    - iApply hwp_bind. iApply (heap_buffer_remove_data_spec with "Hb"). iIntros "Hb".
      iApply (hwp_put with "Hl"). iIntros "Hl". iExists _. iFrame.
    - iApply hwp_ret. iExists _. iFrame. }
  iIntros (_) "(%i & Hl & Hb)". iApply hwp_bind. iApply (heap_buffer_remove_data_spec with "Hb"). iIntros "Hb".
  iApply hwp_bind. iApply (heap_framer_remove_frame_spec l x xs with "[Hl Hx Hb Hclose]").
  { by iApply ("Hclose" with "Hl Hx Hb"). }
  iIntros "(%parser' & %buffer' & %head' & %tail' & %index' & Hl & Hp & Hb & Hq)". hload "Hl". hput "Hl".
  iApply hwp_ret. iApply "HΨ". iExists parser', buffer', head', tail', _. iFrame.
Qed.

(** ** The stream parser *)

Definition text l : hprop block := ∃ s, ⌈zlen s < PTRDIFF_MAX⌉ ∗ l ↦ Chars s.

Definition stream_own l (server : pointer) : hprop block :=
  ∃ (parser : loc) error,
    l ↦ to_block (Streamparser_s (Some parser) error server) ∗ external parser ∗ opt_own text server.

Lemma heap_streamparser_start_spec l server el attr (Ψ : () → hprop block) :
  e ≠ Hostile → ev_small (StartElement el attr 0 0) →
  stream_own l server ⊢ (∀ server', stream_own l server' -∗ Ψ ()) -∗
  hwp e (heap_streamparser_start l el attr) Ψ.
Proof.
  iIntros (He [Hel Hattr]) "Hs HΨ". unfold heap_streamparser_start.
  destruct (strchr el SEPARATOR) as [k|] eqn:Ek; [|iApply hwp_ret; by iApply "HΨ"].
  destruct (strchr_split _ _ _ Ek) as [Hk _].
  iDestruct "Hs" as "(%parser & %error & Hl & Hp & Hserver)". hload "Hl". cbn [ps_server].
  destruct server as [server|]; cbv zeta.
  { iApply hwp_ret. iApply "HΨ". iExists parser, error. iFrame. }
  assert (2 ^ 62 < PTRDIFF_MAX) as Hbig by done.
  iApply hwp_bind. iApply heap_strdup_ok; [done|rw zlen_ztake; lia|]. iIntros (ns) "Hns".
  iApply hwp_bind. iApply heap_strdup_ok; [done|rw zlen_zdrop; lia|]. iIntros (name) "Hname".
  hret. iApply hwp_bind.
  iApply (hwp_wand _ _ (λ _, ∃ server', stream_own l server')%I with "[Hl Hp Hserver]").
  { destruct (strcmp_eq _ _); [hret; destruct (strcmp_eq _ STREAM); [destruct (find_to attr) as [v|] eqn:Ev|]|].
    { iApply hwp_bind. iApply heap_strdup_ok; [done|by apply find_to_small in Ev; [lia|]|]. iIntros (s) "Hs".
      iApply (hwp_put with "Hl"). iIntros "Hl". iExists (Some s), parser, error. iFrame.
      iPureIntro. apply find_to_small in Ev; [lia|done]. }
    all: iApply hwp_ret; iExists None, parser, error; iFrame. }
  iIntros (_) "(%server' & Hs)". hfree "Hns". iApply (hwp_free with "Hname"). by iApply "HΨ".
Qed.

Lemma heap_streamparser_events_spec l server evs (Ψ : () → hprop block) :
  e ≠ Hostile → Forall ev_small evs →
  stream_own l server ⊢ (∀ server', stream_own l server' -∗ Ψ ()) -∗
  hwp e (heap_streamparser_events l evs) Ψ.
Proof.
  iIntros (He Hs) "Hl HΨ". iInduction evs as [|ev evs] "IH" forall (server Hs); cbn [heap_streamparser_events].
  { iApply hwp_ret. by iApply "HΨ". }
  apply Forall_cons_iff in Hs as [Hev Hs]. destruct ev as [el attr i n|el i n].
  - iApply hwp_bind. iApply (heap_streamparser_start_spec with "Hl"); [done|done|]. iIntros (server') "Hl".
    by iApply ("IH" with "[%] Hl").
  - by iApply ("IH" with "[%] Hl").
Qed.

Lemma heap_streamparser_add_spec l server data s evs status (Ψ : bool → hprop block) :
  e ≠ Hostile → Forall ev_small evs →
  stream_own l server ⊢ data ↦ s -∗ (∀ server', stream_own l server' -∗ data ↦ s -∗ Ψ status) -∗
  hwp e (heap_streamparser_add l (Some data) evs status) Ψ.
Proof.
  iIntros (He Hs) "(%parser & %error & Hl & Hp & Hserver) Hd HΨ". unfold heap_streamparser_add.
  iApply hwp_bind. iApply (use_spec with "Hd"). iIntros "Hd". hload "Hl".
  iApply hwp_bind. iApply (use_spec with "Hp"). iIntros "Hp". iApply hwp_bind.
  iApply (heap_streamparser_events_spec l server with "[Hl Hp Hserver]"); [done|done| |].
  { iExists parser, error. iFrame. }
  iIntros (server') "Hl". destruct status; [iApply hwp_ret; by iApply ("HΨ" with "Hl")|].
  iDestruct "Hl" as "(%parser' & %error' & Hl & Hp & Hserver)". hload "Hl". hput "Hl". iApply hwp_ret.
  iApply ("HΨ" with "[Hl Hp Hserver]"); [|done]. iExists parser', true. iFrame.
Qed.

Lemma heap_streamparser_create_spec Φ :
  (∀ p, made (λ l, stream_own l None) p -∗ Φ p) ⊢ hwp e heap_streamparser_create Φ.
Proof.
  iIntros "HΦ". unfold heap_streamparser_create. iApply hwp_bind. iApply hwp_malloc; [done|]. iSplit.
  { iIntros ([->|?]); [|done]. iApply hwp_ret. by iApply ("HΦ" $! None). }
  iIntros (l) "Hl". hput "Hl". unfold heap_streamparser_initialize. iApply hwp_bind. hload "Hl".
  iApply hwp_bind. iApply hwp_free_null. iApply hwp_bind. iApply heap_external_spec.
  iIntros ([parser|]) "Hp"; hput "Hl"; iApply hwp_ret.
  - iApply hwp_ret. iApply ("HΦ" $! (Some l)). iExists parser, false. by iFrame.
  - iDestruct "Hp" as %->. hfree "Hl". iApply hwp_ret. by iApply ("HΦ" $! None).
Qed.

Lemma free_opt P p (Ψ : () → hprop block) : (∀ l, P l ⊢ owned l) →
  opt_own P p ⊢ Ψ () -∗ hwp e (h_free p) Ψ.
Proof.
  iIntros (HP) "Hp HΨ". destruct p as [l|]; cbn [opt_own]; [|by iApply hwp_free_null].
  iDestruct (HP with "Hp") as "(%v & Hl)". by iApply (hwp_free with "Hl").
Qed.
Lemma text_owned l : text l ⊢ owned l.
Proof. iIntros "(%s & _ & Hl)". by iExists (Some (Chars s)). Qed.
Lemma external_owned l : external l ⊢ owned l.
Proof. iIntros "Hl". by iExists (Some External). Qed.

Lemma heap_streamparser_delete_spec l server (Ψ : () → hprop block) :
  stream_own l server ⊢ Ψ () -∗ hwp e (heap_streamparser_delete l) Ψ.
Proof.
  iIntros "(%parser & %error & Hl & Hp & Hs) HΨ". unfold heap_streamparser_delete. hload "Hl". hfree "Hp".
  iApply hwp_bind. iApply (free_opt with "Hs"); [apply text_owned|]. by iApply (hwp_free with "Hl").
Qed.

(** ** The manager

    It has all it owns from its creation until it is closed; the
    bufferevent, the resolver and the name only once it connects. *)
Definition cm_own l : hprop block :=
  ∃ (parser buffer framer : loc) state server bev dnsbase sp frames,
    ⌈(state = CM_START → bev = None ∧ dnsbase = None ∧ server = None) ∧
     (state = CM_FORWARD → is_Some bev)⌉ ∗
    l ↦ to_block (Cmanager_s state (Some parser) server bev dnsbase (Some buffer) (Some framer)) ∗
    stream_own parser sp ∗ buffer_own buffer ∗ framer_own framer frames ∗
    opt_own external bev ∗ opt_own external dnsbase ∗ opt_own text server.

Definition cm_shut l : hprop block :=
  ∃ state, l ↦ to_block (Cmanager_s state None None None None None None).

Lemma heap_cm_create_spec Φ : e ≠ Hostile →
  (∀ l, cm_own l -∗ Φ (Some l)) ⊢ hwp e heap_cm_create Φ.
Proof.
  iIntros (He) "HΦ". unfold heap_cm_create. iApply hwp_bind. iApply hwp_malloc; [done|]. iSplit.
  { by iIntros ([?|?]). }
  iIntros (l) "Hl". hret. cbv zeta. iApply hwp_bind. iApply heap_streamparser_create_spec.
  iIntros ([parser|]) "Hp"; [|by iDestruct "Hp" as %?]. hput "Hl".
  iApply hwp_bind. iApply heap_buffer_create_spec; [done|]. iIntros ([buffer|]) "Hb"; [|by iDestruct "Hb" as %?].
  hput "Hl". iApply hwp_bind. iApply heap_framer_create_spec.
  iIntros ([framer|]) "Hf"; [|cbn [framer_made]; by iDestruct "Hf" as "[%E Hf]"]. hput "Hl". iApply hwp_ret. iApply "HΦ".
  iExists parser, buffer, framer, CM_START, None, None, None, None, []. iFrame. iSplit; [|done]. by iPureIntro; split.
Qed.

Lemma heap_cm_close_spec l (Ψ : () → hprop block) :
  cm_own l ⊢ (cm_shut l -∗ Ψ ()) -∗ hwp e (heap_cm_close l) Ψ.
Proof.
  iIntros "(%parser & %buffer & %framer & %state & %server & %bev & %dnsbase & %sp & %frames & _ & Hl & Hp & Hb & Hf & Hbev & Hdns & Hs) HΨ".
  unfold heap_cm_close. hload "Hl". iApply hwp_bind. iApply (heap_framer_delete_spec with "Hf").
  iApply hwp_bind. iApply (buffer_delete_spec with "Hb").
  iApply hwp_bind. iApply (heap_streamparser_delete_spec with "Hp").
  iApply hwp_bind. iApply (free_opt with "Hbev"); [apply external_owned|].
  iApply hwp_bind. iApply (free_opt with "Hdns"); [apply external_owned|].
  iApply hwp_bind. iApply (free_opt with "Hs"); [apply text_owned|].
  iApply (hwp_put with "Hl"). iIntros "Hl". iApply "HΨ". by iExists state.
Qed.

Lemma heap_cm_close_again l (Ψ : () → hprop block) :
  cm_shut l ⊢ (cm_shut l -∗ Ψ ()) -∗ hwp e (heap_cm_close l) Ψ.
Proof.
  iIntros "(%state & Hl) HΨ". unfold heap_cm_close. hload "Hl". hret. hret. hret.
  do 3 (iApply hwp_bind; iApply hwp_free_null). iApply (hwp_put with "Hl"). iIntros "Hl".
  iApply "HΨ". by iExists state.
Qed.

Lemma heap_cm_delete_spec l (Ψ : () → hprop block) :
  (cm_own l ∨ cm_shut l) ⊢ Ψ () -∗ hwp e (heap_cm_delete l) Ψ.
Proof.
  iIntros "[Hl|Hl] HΨ"; iApply hwp_bind;
    [iApply (heap_cm_close_spec with "Hl")|iApply (heap_cm_close_again with "Hl")];
    iIntros "(%state & Hl)"; by iApply (hwp_free with "Hl").
Qed.

Lemma frames_queue_covers head tail xs : covers (length xs) (frames_queue head tail xs).
Proof. eapply covers_mono; [apply frames_queue_seg|apply frames_seg_covers]. Qed.

Lemma framer_own_covers l xs : covers (length xs) (framer_own l xs).
Proof.
  do 5 (apply covers_exist; intros ?).
  apply (covers_sep 0 (length xs)), (covers_sep 0 (length xs)), (covers_sep 0 (length xs));
    apply covers_emp || apply frames_queue_covers.
Qed.

(** The headers of a request, one after the other. *)
Fixpoint heap_headers (l : loc) (headers : list (list Z * list Z)) : H block () :=
  match headers with
  | [] => mret ()
  | (key, value) :: headers => _ ← heap_header l key value; heap_headers l headers
  end.

(** The last offered protocol comes first. *)
Definition offered (headers : list (list Z * list Z)) : list (list Z) :=
  reverse (mjoin ((λ '(key, value), header_protocols key value) <$> headers)).

(** The copies of the headers' values. *)
Definition values_of (headers : list (list Z * list Z)) : list (option block) :=
  (λ '(_, value), Some (Chars value)) <$> headers.

Definition header_ok (kv : list Z * list Z) : Prop := zlen kv.1 < PTRDIFF_MAX ∧ zlen kv.2 < PTRDIFF_MAX.

Lemma heap_headers_spec l line ps headers (Ψ : () → hprop block) : e ≠ Hostile → Forall header_ok headers →
  request_own l line ps ⊢
  (request_own l line (offered headers ++ ps) -∗ leak (values_of headers) -∗ Ψ ()) -∗
  hwp e (heap_headers l headers) Ψ.
Proof.
  iIntros (He Hs) "Hr HΨ". iInduction headers as [|[key value] headers] "IH" forall (ps Hs Ψ); cbn [heap_headers].
  { iApply hwp_ret. iApply ("HΨ" with "Hr"). iApply leak_0. }
  apply Forall_cons_iff in Hs as [[Hk Hv] Hs]. iApply hwp_bind.
  iApply (heap_header_spec with "Hr"); [done|done|done|]. iIntros "Hr Hleak".
  iApply ("IH" with "[//] Hr"). iIntros "Hr Hleak'".
  iApply ("HΨ" with "[Hr] [Hleak Hleak']"); [|by iApply (leak_add with "Hleak")].
  unfold offered. rw fmap_cons /= reverse_app -app_assoc. done.
Qed.
End spec.
