(* ===== verification/MemoryConn.v ===== *)
(** Connections and what they own: the manager's and the server's handlers, from the
    acceptance of a connection to its end, in a log that masks [LOG_INFO]. *)

From iris.proofmode Require Import proofmode.
From S2P Require Import Prelude CString Config RqParser RqSpec Expat StreamParse Framer Libevent WsServer CManager WsFrame Heap Memory MemorySpec.

(** The log's level is such that the two messages that cannot be formatted are not. *)
Section conn.
Context `{!Allocator block} (e : env) (He : e ≠ Hostile) (conf : jsconf_t).
Context (Hlog : logged conf LOG_INFO = false).
Implicit Types (l conn : loc).

Lemma heap_external_ok (Φ : pointer → hprop block) :
  (∀ l, external l -∗ Φ (Some l)) ⊢ hwp e (h_new 1 External) Φ.
Proof using He.
  iIntros "HΦ". iApply heap_external_spec. iIntros ([l|]) "Hl"; [by iApply "HΦ"|by iDestruct "Hl" as %?].
Qed.

(** With no connection under way it asks for one. *)
Lemma heap_cm_connect_spec l state parser server buffer framer (Ψ : () → hprop block) :
  l ↦ to_block (Cmanager_s state parser server None None buffer framer) ⊢
  (∀ bev dnsbase, l ↦ to_block (Cmanager_s state parser server (Some bev) (Some dnsbase) buffer framer) -∗
     external bev -∗ external dnsbase -∗ Ψ ()) -∗
  hwp e (heap_cm_connect l) Ψ.
Proof using He.
  iIntros "Hl HΨ". iApply hwp_bind. iApply heap_external_ok. iIntros (bev) "Hbev". hload "Hl". hput "Hl".
  iApply hwp_bind. iApply heap_external_ok. iIntros (dnsbase) "Hdns". iApply (hwp_put with "Hl"). iIntros "Hl".
  iApply ("HΨ" with "Hl Hbev Hdns").
Qed.

Lemma until_nul_le m : zlen (default m (until_nul m)) <= zlen m.
Proof.
  assert (∀ k, until_nul m = Some k → zlen k <= zlen m) as Hk.
  { induction m as [|c m IH]; intros k; simpl; [done|]. rw zlen_cons. zlen_pos.
    destruct (c =? 0); [intros [= <-]; rw zlen_nil; lia|].
    destruct (until_nul m) as [k'|]; [|done]. simpl. intros [= <-]. rw zlen_cons.
    specialize (IH k' eq_refl). lia. }
  destruct (until_nul m) as [k|] eqn:E; simpl; [by apply Hk|done].
Qed.

Lemma heap_cm_onmessage_spec l m evs status (Ψ : () → hprop block) :
  zlen m < PTRDIFF_MAX → Forall ev_small evs →
  cm_own l ⊢ (cm_own l -∗ Ψ ()) -∗ hwp e (heap_cm_onmessage l m evs status) Ψ.
Proof using He.
  iIntros (Hm Hevs) "(%parser & %buffer & %framer & %state & %server & %bev & %dnsbase & %sp & %frames & [%Hst %Hfw] & Hl & Hp & Hb & Hf & Hbev & Hdns & Hs) HΨ".
  iAssert (∀ sp, l ↦ to_block (Cmanager_s state (Some parser) server bev dnsbase (Some buffer) (Some framer)) -∗
    stream_own parser sp -∗ buffer_own buffer -∗ framer_own framer frames -∗
    opt_own external bev -∗ opt_own external dnsbase -∗ opt_own text server -∗ cm_own l)%I as "Hclose".
  { iIntros (sp') "Hl Hp Hb Hf Hbev Hdns Hs".
    iExists parser, buffer, framer, state, server, bev, dnsbase, sp', frames. by iFrame. }
  unfold heap_cm_onmessage. hload "Hl". cbn [cs_state]. destruct state.
  - destruct (Hst eq_refl) as (-> & -> & ->). iApply hwp_bind. iApply heap_strdup_ok; [done| |].
    { pose proof (until_nul_le m). lia. }
    iIntros (str) "Hstr". hret. iApply hwp_bind.
    iApply (heap_streamparser_add_spec with "Hp Hstr"); [done|done|]. iIntros (sp') "Hp Hstr". hfree "Hstr".
    iDestruct "Hp" as "(%xp & %error & Hp & Hx & Hname)". hload "Hp". cbn [ps_error ps_server].
    destruct error.
    { iApply hwp_ret. iApply "HΨ". iApply ("Hclose" $! sp' with "Hl [Hp Hx Hname] Hb Hf Hbev Hdns Hs").
      iExists xp, true. iFrame. }
    hret. iApply hwp_bind. iApply (heap_buffer_append_spec with "Hb"). iIntros (r) "Hb".
    destruct sp' as [name|].
    2: { iApply hwp_ret. iApply "HΨ". iApply ("Hclose" $! None with "Hl [Hp Hx Hname] Hb Hf Hbev Hdns Hs").
         iExists xp, false. iFrame. }
    iDestruct "Hname" as "(%n & %Hn & Hname)". iApply hwp_bind. iApply (hwp_load with "Hname"). iIntros "Hname".
    iApply hwp_bind. iApply heap_strdup_ok; [done|done|]. iIntros (server) "Hserver".
    hput "Hl". iApply hwp_bind. iApply (heap_cm_connect_spec with "Hl"). iIntros (bev dnsbase) "Hl Hbev' Hdns'".
    hload "Hl". iApply (hwp_put with "Hl"). iIntros "Hl". iApply "HΨ".
    iExists parser, buffer, framer, CM_CONNECT, (Some server), (Some bev), (Some dnsbase), (Some name), frames.
    iFrame "Hl Hb Hf". iSplit; [done|]. iSplitL "Hp Hx Hname".
    { iExists xp, false. iFrame "Hp Hx". iExists n. by iFrame. }
    iSplitL "Hbev'"; [done|]. iSplitL "Hdns'"; [done|]. iExists n. by iFrame.
  - iApply hwp_ret. iApply "HΨ". iApply ("Hclose" with "Hl Hp Hb Hf Hbev Hdns Hs").
  - destruct (Hfw eq_refl) as [b ->]. iApply (use_spec with "Hbev"). iIntros "Hbev". iApply "HΨ".
    iApply ("Hclose" with "Hl Hp Hb Hf Hbev Hdns Hs").
Qed.

(** ** The connection *)

Definition cm_at (open : bool) l : hprop block := if open then cm_own l else cm_shut l.

(** The manager is open as long as the server has not told it to close. *)
Definition conn_own l (c : wsconn_s) : hprop block :=
  ∃ (req wsmsg mb cm line : loc) protocols,
    ⌈cn_req c = Some req ∧ cn_wsmsg c = Some wsmsg ∧ cn_message_buffer c = Some mb ∧ cn_ctx c = Some cm⌉ ∗
    l ↦ to_block c ∗ external (cn_bev c) ∗ request_own req line protocols ∗ wsmsg_own wsmsg ∗
    buffer_own mb ∗ cm_at (bool_decide (cn_cm_state c = CM_ST_CREATED)) cm.

(** While frames are read the manager is open, and an open manager has a connection
    that it can close. *)
Definition conn_sound (c : wsconn_s) : Prop :=
  (cn_ws_state c = WS_ST_RECEIVING → cn_cm_state c = CM_ST_CREATED ∧ cn_fl_closing c = false) ∧
  (cn_cm_state c = CM_ST_CREATED → cn_ws_state c ≠ WS_ST_CLOSED).

(** [b]: it does not read frames any more. *)
Definition conn_alive l (b : bool) : hprop block :=
  ∃ c, ⌈conn_sound c ∧ (b = true → cn_ws_state c ≠ WS_ST_RECEIVING)⌉ ∗ conn_own l c.

Lemma heap_wsconn_create_spec (Φ : pointer → hprop block) : wsmsg_conf_ok conf →
  (∀ l c, ⌈cn_cm_state c = CM_ST_CREATED ∧ cn_fl_closing c = false⌉ -∗ conn_own l c -∗ Φ (Some l)) ⊢
  hwp e (heap_wsconn_create conf) Φ.
Proof using He.
  iIntros (Hconf) "HΦ". unfold heap_wsconn_create. iApply hwp_bind. iApply hwp_malloc; [done|]. iSplit.
  { by iIntros ([?|?]). }
  iIntros (l) "Hl". iApply hwp_bind. iApply heap_external_ok. iIntros (bev) "Hbev".
  iApply hwp_bind. iApply heap_rq_create_spec. iIntros ([req|]) "Hreq"; [|by iDestruct "Hreq" as %?].
  iDestruct "Hreq" as "(%line & Hreq)".
  iApply hwp_bind. iApply heap_wsmsg_create_spec; [done|]. iIntros ([wsmsg|]) "Hw"; [|by iDestruct "Hw" as %?].
  iApply hwp_bind. iApply heap_buffer_create_spec; [done|]. iIntros ([mb|]) "Hmb"; [|by iDestruct "Hmb" as %?].
  iApply hwp_bind. iApply heap_cm_create_spec; [done|]. iIntros (cm) "Hcm". hret. hput "Hl". iApply hwp_ret.
  unfold made. set (c := Wsconn_s _ _ _ _ _ _ _ _ _). iApply ("HΦ" $! l c with "[%]"); [done|].
  iExists req, wsmsg, mb, cm, line, []. iSplit; [done|]. iFrame "Hl Hbev Hreq Hw Hmb". by iFrame "Hcm".
Qed.

(** All but the line of the request is freed. *)
Lemma heap_wsconn_delete_spec l c (Ψ : () → hprop block) :
  conn_own l c ⊢ (∀ line, leak [line] -∗ Ψ ()) -∗ hwp e (heap_wsconn_delete conf l) Ψ.
Proof using Hlog.
  iIntros "(%req & %wsmsg & %mb & %cm & %line & %ps & %Hc & Hl & Hbev & Hreq & Hw & Hmb & Hcm) HΨ".
  destruct Hc as (Hreq & Hw & Hmb & Hcm). unfold heap_wsconn_delete. hload "Hl". hfree "Hbev".
  rw Hreq Hmb Hw Hcm. iApply hwp_bind. iApply (rq_delete_spec with "Hreq"). iIntros "(%v & Hline)".
  iApply hwp_bind. iApply (delete_nonnull_spec _ (Some mb) with "Hmb"). iApply hwp_bind.
  iApply (wsmsg_own_delete with "Hw"). hret. iApply hwp_bind. iApply (heap_cm_delete_spec with "[Hcm]").
  { unfold cm_at. destruct (bool_decide _); [by iLeft|by iRight]. }
  hfree "Hl". rw Hlog. iApply hwp_ret. iApply "HΨ". by iApply leak_1.
Qed.

(** ** The request *)

(** The headers of the lines. *)
Definition rq_headers (steps : list rq_step) : list (list Z * list Z) :=
  omap (λ st, if st is RqHeader _ key value then Some (key, value) else None) steps.
Definition rq_leaks (steps : list rq_step) : list (option block) := values_of (rq_headers steps).

Definition rq_step_ok (st : rq_step) : Prop :=
  zlen (rq_text st) < PTRDIFF_MAX ∧
  match st with
  | RqHeader _ key value => zlen key < PTRDIFF_MAX ∧ zlen value < PTRDIFF_MAX
  | _ => True
  end.

Lemma heap_rq_add_line_spec l line ps st (Ψ : () → hprop block) : rq_step_ok st →
  request_own l line ps ⊢
  (∀ ps', request_own l line ps' -∗ leak (rq_leaks [st]) -∗ Ψ ()) -∗ hwp e (heap_rq_add_line l st) Ψ.
Proof using He.
  iIntros ([_ Hst]) "Hr HΨ". destruct st as [text|text key value|text]; cbn [heap_rq_add_line].
  - iApply hwp_bind. iApply heap_parse_request_line_spec. iIntros (r). iApply hwp_ret.
    iApply ("HΨ" with "Hr"). iApply leak_0.
  - destruct Hst as [Hk Hv]. iApply hwp_bind. iApply (heap_header_spec with "Hr"); [done|done|done|].
    iIntros "Hr Hleak". iApply hwp_ret. by iApply ("HΨ" with "Hr").
  - iApply hwp_ret. iApply ("HΨ" with "Hr"). iApply leak_0.
Qed.

Lemma rq_leaks_cons st steps : rq_leaks (st :: steps) = rq_leaks [st] ++ rq_leaks steps.
Proof. by destruct st. Qed.

Lemma heap_read_lines_spec l c steps (Ψ : () → hprop block) : Forall rq_step_ok steps →
  conn_own l c ⊢ (conn_own l c -∗ leak (rq_leaks steps) -∗ Ψ ()) -∗ hwp e (heap_read_lines l steps) Ψ.
Proof using He.
  iIntros (Hs) "Hc HΨ". iInduction steps as [|st steps] "IH" forall (Hs Ψ); cbn [heap_read_lines].
  { iApply hwp_ret. iApply ("HΨ" with "Hc"). iApply leak_0. }
  apply Forall_cons_iff in Hs as [Hst Hs]. pose proof Hst as [Ht _]. rw rq_leaks_cons.
  iApply hwp_bind. iApply heap_strdup_ok; [done|done|]. iIntros (line) "Hline".
  iDestruct "Hc" as "(%req & %wsmsg & %mb & %cm & %rline & %ps & %Hc & Hl & Hbev & Hreq & Hrest)".
  pose proof Hc as (Hreq & _). hload "Hl". rw Hreq. hret. iApply hwp_bind.
  iApply (heap_rq_add_line_spec with "Hreq"); [done|]. iIntros (ps') "Hreq Hleak". hfree "Hline".
  iApply ("IH" with "[//] [Hl Hbev Hreq Hrest]").
  { iExists req, wsmsg, mb, cm, rline, ps'. by iFrame. }
  iIntros "Hc Hleak'". iApply ("HΨ" with "Hc"). by iApply (leak_add with "Hleak").
Qed.

(** ** Closing *)

(** What is left of a connection after a handler. *)
Definition outcome l (b alive : bool) : hprop block :=
  if alive then conn_alive l b else (∃ line, leak [line])%I.

(** The connection without its own block and its manager. *)
Definition conn_rest (c : wsconn_s) (cm : loc) : hprop block :=
  ∃ (req wsmsg mb line : loc) protocols,
    ⌈cn_req c = Some req ∧ cn_wsmsg c = Some wsmsg ∧ cn_message_buffer c = Some mb ∧ cn_ctx c = Some cm⌉ ∗
    external (cn_bev c) ∗ request_own req line protocols ∗ wsmsg_own wsmsg ∗ buffer_own mb.

Lemma conn_open l c : conn_own l c ⊢
  ∃ cm, ⌈cn_ctx c = Some cm⌉ ∗ l ↦ to_block c ∗ conn_rest c cm ∗
    cm_at (bool_decide (cn_cm_state c = CM_ST_CREATED)) cm.
Proof.
  iIntros "(%req & %wsmsg & %mb & %cm & %line & %ps & %Hc & Hl & Hbev & Hreq & Hw & Hmb & Hcm)".
  iExists cm. iFrame "Hl Hcm". iSplit; [iPureIntro; tauto|]. iExists req, wsmsg, mb, line, ps. by iFrame "Hbev Hreq Hw Hmb".
Qed.

Definition same_parts (c c' : wsconn_s) : Prop :=
  cn_bev c' = cn_bev c ∧ cn_req c' = cn_req c ∧ cn_wsmsg c' = cn_wsmsg c ∧
  cn_message_buffer c' = cn_message_buffer c ∧ cn_ctx c' = cn_ctx c.

Lemma conn_close_up l c c' cm : same_parts c c' →
  l ↦ to_block c' ⊢ conn_rest c cm -∗ cm_at (bool_decide (cn_cm_state c' = CM_ST_CREATED)) cm -∗ conn_own l c'.
Proof.
  iIntros ((E1 & E2 & E3 & E4 & E5)) "Hl (%req & %wsmsg & %mb & %line & %ps & %Hc & Hbev & Hreq & Hw & Hmb) Hcm".
  iExists req, wsmsg, mb, cm, line, ps. rw E1 E2 E3 E4 E5. by iFrame "Hl Hbev Hreq Hw Hmb Hcm".
Qed.

Lemma heap_wsconn_close_spec l c (Ψ : bool → hprop block) :
  conn_own l c ⊢ (∀ alive, outcome l true alive -∗ Ψ alive) -∗ hwp e (heap_wsconn_close conf l) Ψ.
Proof using Hlog.
  iIntros "Hc HΨ". iDestruct (conn_open with "Hc") as "(%cm & %Hcm & Hl & Hrest & Hcm)".
  unfold heap_wsconn_close. hload "Hl". cbv zeta. hput "Hl". cbn [cn_cm_state cn_fl_closed set_ws_state cn_ctx].
  destruct (bool_decide_reflect (cn_cm_state c = CM_ST_CREATED)) as [Hst|Hst].
  - rw Hcm. hret. iApply hwp_bind. iApply (heap_cm_close_spec with "Hcm"). iIntros "Hcm". hput "Hl".
    iApply hwp_ret. iApply "HΨ". iExists _. iSplit; [|iApply (conn_close_up with "Hl Hrest Hcm"); by repeat split]. done.
  - iDestruct (conn_close_up l c (set_ws_state WS_ST_CLOSED c) cm with "Hl Hrest [Hcm]") as "Hc"; [by repeat split| |].
    { cbn. by rw bool_decide_eq_false_2. }
    destruct (cn_fl_closed c).
    + iApply hwp_bind. iApply (heap_wsconn_delete_spec with "Hc"). iIntros (line) "Hleak". iApply hwp_ret. iApply "HΨ".
      by iExists line.
    + iApply hwp_ret. iApply "HΨ". iExists _. iFrame "Hc". iPureIntro. by split.
Qed.

Lemma outcome_weaken l alive : outcome l true alive ⊢ outcome l false alive.
Proof.
  iIntros "Hc". destruct alive; [|done]. iDestruct "Hc" as "(%c & [%Hs _] & Hc)". iExists c. by iFrame.
Qed.

Lemma heap_wsconn_handshake_spec l c res (Ψ : bool → hprop block) :
  cn_cm_state c = CM_ST_CREATED → cn_fl_closing c = false →
  conn_own l c ⊢ (∀ alive, outcome l false alive -∗ Ψ alive) -∗ hwp e (heap_wsconn_handshake conf l res) Ψ.
Proof using Hlog.
  iIntros (Hst Hfl) "Hc HΨ". destruct res; cbn [heap_wsconn_handshake];
    [|iApply (heap_wsconn_close_spec with "Hc"); iIntros (alive) "Hc"; iApply "HΨ"; by iApply outcome_weaken].
  iDestruct (conn_open with "Hc") as "(%cm & %Hcm & Hl & Hrest & Hcm)". hload "Hl". hput "Hl". iApply hwp_ret.
  iApply "HΨ". iExists _. iSplit; [|iApply (conn_close_up with "Hl Hrest Hcm"); by repeat split]. iPureIntro.
  by repeat split; cbn.
Qed.

Lemma heap_wsconn_write_frame_spec n (Ψ : () → hprop block) : Ψ () ⊢ hwp e (heap_wsconn_write_frame n) Ψ.
Proof using.
  iIntros "HΨ". iApply hwp_bind. iApply heap_buffer_create_spec; [done|].
  iIntros ([b|]) "Hb"; [|iDestruct "Hb" as %E; by iApply hwp_ret]. cbv zeta. iApply hwp_bind.
  iApply (append_all_spec with "Hb"). iIntros (r) "Hb". iApply hwp_bind.
  iApply (hwp_wand _ _ (λ _, buffer_own b) with "[Hb]").
  { destruct r; [|by iApply hwp_ret]. iApply (heap_buffer_remove_data_spec with "Hb"). by iIntros "Hb". }
  iIntros (_) "Hb". by iApply (buffer_delete_spec with "Hb").
Qed.

(** The two blocks of the buffer of a reason; none if no close frame has been answered. *)
Definition reason_blocks (answered : bool) (vs : list (option block)) : Prop :=
  if answered then ∃ b data, vs = [Some (Buffer b); data] else vs = [].

Lemma buffer_own_leak l : buffer_own l ⊢ ∃ vs, ⌈reason_blocks true vs⌉ ∗ leak vs.
Proof.
  iIntros "(%b & _ & Hl & %data & Hd)". iExists [Some (Buffer b); data]. iSplit; [iPureIntro; by exists b, data|].
  iApply (leak_add [_] with "[Hl]"); [by iApply (leak_1 with "Hl")|by iApply (leak_1 with "Hd")].
Qed.

(** What answering a close frame, or not, leaves behind. *)
Definition reason_left (answered : bool) : hprop block := ∃ vs, ⌈reason_blocks answered vs⌉ ∗ leak vs.

Lemma no_reason : ⊢ reason_left false.
Proof. iExists []. by iSplit. Qed.

(** The manager, where the connection's state says that it is open. *)
Definition cm_held (st st' : cm_state_t) cm : hprop block :=
  if bool_decide (st = CM_ST_CREATED) then cm_at (bool_decide (st' = CM_ST_CREATED)) cm else emp%I.

Definition closing (c c' : wsconn_s) : Prop :=
  same_parts c c' ∧ cn_fl_closed c' = cn_fl_closed c ∧
  if cn_fl_closing c then c' = c else
  cn_ws_state c' = WS_ST_CLOSING ∧ (cn_cm_state c ≠ CM_ST_CREATED → cn_cm_state c' = cn_cm_state c).

Lemma heap_wsconn_initiate_close_spec l c cm status n (Ψ : () → hprop block) : cn_ctx c = Some cm →
  l ↦ to_block c ⊢ cm_held (cn_cm_state c) (cn_cm_state c) cm -∗
  (∀ c', ⌈closing c c'⌉ -∗ l ↦ to_block c' -∗ cm_held (cn_cm_state c) (cn_cm_state c') cm -∗ Ψ ()) -∗
  hwp e (heap_wsconn_initiate_close l status n) Ψ.
Proof using.
  iIntros (Hcm) "Hl Hcm HΨ". unfold heap_wsconn_initiate_close. hload "Hl".
  destruct (cn_fl_closing c) eqn:Hfl.
  { iApply hwp_ret. iApply ("HΨ" with "[%] Hl Hcm"). unfold closing. rw Hfl. by repeat split. }
  iApply hwp_bind. iApply heap_buffer_create_spec; [done|]. iIntros (buffer) "Hb". iApply hwp_bind.
  iApply (hwp_wand _ _ (λ _, ∃ st, ⌈cn_cm_state c ≠ CM_ST_CREATED → st = cn_cm_state c⌉ ∗
    l ↦ to_block (set_cm_state st c) ∗ cm_held (cn_cm_state c) st cm ∗ opt_own buffer_own buffer)%I
    with "[Hl Hcm Hb]").
  - assert (set_cm_state (cn_cm_state c) c = c) as Hsame by by destruct c.
    destruct buffer as [b|]; cbn [made].
    2: { iDestruct "Hb" as %E. iApply hwp_ret. iExists (cn_cm_state c). rw Hsame. by iFrame. }
    iApply hwp_bind. iApply (append_all_spec with "Hb"). iIntros (r) "Hb". destruct r; cbn [negb].
    2: { iApply hwp_ret. iExists (cn_cm_state c). rw Hsame. by iFrame. }
    iDestruct "Hb" as "(%x & %Hx & Hb & Hd)". hload "Hb".
    iApply hwp_bind. iApply heap_wsconn_write_frame_spec. iApply hwp_bind.
    iApply (heap_buffer_remove_data_spec _ b with "[Hb Hd]"); [by iApply (buffer_own_intro with "Hb")|]. iIntros "Hb".
    unfold cm_held. destruct (bool_decide_reflect (cn_cm_state c = CM_ST_CREATED)) as [Hst|Hst].
    + rw Hcm. hret. iApply hwp_bind. iApply (heap_cm_close_spec with "Hcm").
      iIntros "Hcm". iApply (hwp_put with "Hl"). iIntros "Hl". iExists CM_ST_CLOSING. by iFrame.
    + iApply hwp_ret. iExists (cn_cm_state c). rw Hsame. by iFrame.
  - iIntros (_) "(%st & %Hst & Hl & Hcm & Hb)". iApply hwp_bind. iApply (delete_nonnull_spec with "Hb").
    hload "Hl". iApply (hwp_put with "Hl"). iIntros "Hl". iApply ("HΨ" with "[%] Hl Hcm").
    unfold closing. rw Hfl. by repeat split.
Qed.

(** The server is gone: the connection is told while the manager is still open, and
    then the manager closes itself. *)
Lemma heap_cm_lost_spec l c cm (Ψ : bool → hprop block) :
  conn_sound c → cn_cm_state c = CM_ST_CREATED →
  l ↦ to_block c ⊢ conn_rest c cm -∗ cm_own cm -∗ ⌈cn_ctx c = Some cm⌉ -∗
  (conn_alive l true -∗ Ψ true) -∗ hwp e (heap_cm_lost conf l cm) Ψ.
Proof using.
  iIntros ([Hrec Hcr] Hst) "Hl Hrest Hcm %Hcm HΨ". unfold heap_cm_lost, heap_wsconn_onclosed.
  iApply hwp_bind. hload "Hl". cbv zeta. hput "Hl". set (c1 := set_fl_closed true _).
  change (cn_ws_state c1) with (cn_ws_state c).
  iAssert (∀ c', ⌈same_parts c c' ∧ cn_cm_state c' = CM_ST_CLOSED ∧ cn_ws_state c' ≠ WS_ST_RECEIVING⌉ -∗
    l ↦ to_block c' -∗ hwp e (_ ← heap_cm_close cm; mret true) Ψ)%I with "[Hrest Hcm HΨ]" as "Hend".
  { iIntros (c' (Hsame & Hst' & Hws)) "Hl". iApply hwp_bind. iApply (heap_cm_close_spec with "Hcm"). iIntros "Hcm".
    iApply hwp_ret. iApply "HΨ". iExists c'. iSplit.
    - iPureIntro. split; [split; intros E; [done|by rw Hst' in E]|done].
    - iApply (conn_close_up with "Hl Hrest [Hcm]"); [done|]. by rw Hst'. }
  destruct (cn_ws_state c) eqn:Hws.
  - iApply hwp_ret. iApply ("Hend" $! c1 with "[%] Hl"). by repeat split; cbn; rw ?Hws.
  - destruct (Hrec eq_refl) as [_ Hfl]. iApply hwp_bind.
    iApply (heap_wsconn_initiate_close_spec l c1 cm with "Hl"); [done|by unfold cm_held|].
    iIntros (c' (Hsame & _ & Hc')) "Hl Hheld". change (cn_fl_closing c1) with (cn_fl_closing c) in Hc'.
    rw Hfl in Hc'. destruct Hc' as [Hws' Hst']. iApply hwp_ret.
    iAssert emp%I with "Hheld" as "_". iApply ("Hend" $! c' with "[%] Hl").
    split; [done|]. by rw Hws' Hst'.
  - iApply hwp_ret. iApply ("Hend" $! c1 with "[%] Hl"). by repeat split; cbn; rw ?Hws.
  - by destruct (Hcr Hst).
Qed.

Definition pass_closes (p : pass) : bool := if p is PassClose _ _ then true else false.
Definition pass_ok (p : pass) : Prop :=
  match p with PassText m evs _ => zlen m < PTRDIFF_MAX ∧ Forall ev_small evs | _ => True end.

Lemma heap_on_close_frame_spec l c size status (Ψ : bool → hprop block) :
  conn_sound c → cn_ws_state c = WS_ST_RECEIVING →
  conn_own l c ⊢ (conn_alive l true -∗ reason_left true -∗ Ψ true) -∗ hwp e (heap_on_close_frame l size status) Ψ.
Proof using He.
  iIntros ([Hrec _] Hws) "Hc HΨ". destruct (Hrec Hws) as [Hst Hfl].
  iDestruct (conn_open with "Hc") as "(%cm & %Hcm & Hl & Hrest & Hcm)". unfold heap_on_close_frame.
  iApply hwp_bind. iApply heap_buffer_create_spec; [done|]. iIntros ([r|]) "Hb"; [|by iDestruct "Hb" as %?].
  iApply hwp_bind. iApply (hwp_wand _ _ (λ _, buffer_own r) with "[Hb]").
  { destruct (2 <? size); [|by iApply hwp_ret]. iApply hwp_bind. iApply (heap_buffer_set_data_spec with "Hb").
    iIntros (r') "Hb". by iApply hwp_ret. }
  iIntros (_) "(%x & %Hx & Hb & Hd)". hload "Hb". iApply hwp_bind.
  iApply (heap_wsconn_initiate_close_spec l c cm with "Hl [Hcm]"); [done| |].
  { unfold cm_held. by rw bool_decide_eq_true_2. }
  iIntros (c' (Hsame & _ & Hc')) "Hl Hcm". rw Hfl in Hc'. destruct Hc' as [Hws' _]. iApply hwp_ret.
  iApply ("HΨ" with "[Hl Hrest Hcm]"); [|iApply buffer_own_leak; by iApply (buffer_own_intro with "Hb")].
  iExists c'. unfold cm_held. rw (bool_decide_eq_true_2 (cn_cm_state c = _)) //. iSplit.
  - iPureIntro. unfold conn_sound. rw Hws'. by repeat split.
  - by iApply (conn_close_up with "Hl Hrest Hcm").
Qed.

Lemma conn_own_alive l c (b : bool) : conn_sound c → (b = true → cn_ws_state c ≠ WS_ST_RECEIVING) →
  conn_own l c ⊢ conn_alive l b.
Proof. iIntros (? ?) "Hc". iExists c. by iFrame. Qed.

(** What a pass leaves: [b], whether it has answered a close frame. *)
Definition pass_outcome l c (p : pass) (again alive : bool) : hprop block :=
  if again then conn_own l c
  else (outcome l (pass_closes p) alive ∗ reason_left (pass_closes p))%I.

Lemma heap_frame_step_spec l c buffer p (Ψ : bool * bool → hprop block) :
  conn_sound c → cn_ws_state c = WS_ST_RECEIVING → pass_ok p →
  conn_own l c ⊢ buffer_own buffer -∗
  (∀ again alive, pass_outcome l c p again alive -∗ buffer_own buffer -∗ Ψ (again, alive)) -∗
  hwp e (heap_frame_step conf l buffer p) Ψ.
Proof using He Hlog.
  iIntros (Hs Hws Hp) "Hc Hb HΨ".
  destruct p as [|size status|size|size|m evs status|]; cbn [heap_frame_step pass_outcome pass_closes].
  1, 6: iApply hwp_bind; iApply (heap_wsconn_close_spec with "Hc"); iIntros (alive) "Hc"; iApply hwp_ret;
    iApply ("HΨ" $! false alive with "[Hc] Hb"); iSplitL; [by iApply outcome_weaken|iApply no_reason].
  - iApply hwp_bind. iApply (heap_buffer_set_data_spec with "Hb"). iIntros (r) "Hb". iApply hwp_bind.
    iApply (heap_on_close_frame_spec with "Hc"); [done|done|]. iIntros "Hc Hleak". iApply hwp_ret.
    iApply ("HΨ" $! false true with "[Hc Hleak] Hb"). iFrame.
  - iApply hwp_bind. iApply (heap_buffer_set_data_spec with "Hb"). iIntros (r) "Hb". iApply hwp_bind.
    iApply heap_wsconn_write_frame_spec. iApply hwp_ret. iApply ("HΨ" $! false true with "[Hc] Hb").
    iSplitL; [by iApply (conn_own_alive with "Hc")|iApply no_reason].
  - iApply hwp_bind. iApply (heap_buffer_set_data_spec with "Hb"). iIntros (r) "Hb". iApply hwp_ret.
    iApply ("HΨ" $! true true with "Hc Hb").
  - destruct Hp as [Hm Hevs]. destruct Hs as [Hrec _]. destruct (Hrec Hws) as [Hst _].
    iDestruct (conn_open with "Hc") as "(%cm & %Hcm & Hl & Hrest & Hcm)". hload "Hl". rw Hcm. hret.
    rw bool_decide_eq_true_2 //. iApply hwp_bind. iApply (heap_cm_onmessage_spec with "Hcm"); [done|done|].
    iIntros "Hcm". iApply hwp_ret. iApply ("HΨ" $! true true with "[Hl Hrest Hcm] Hb").
    iApply (conn_close_up with "Hl Hrest [Hcm]"); [by repeat split|]. by rw bool_decide_eq_true_2.
Qed.

Lemma wsmsg_own_intro l (a b c : loc) :
  l ↦ to_block (Wsmsg_s (Some a) (Some b) (Some c)) ⊢
  buffer_own a -∗ buffer_own b -∗ buffer_own c -∗ wsmsg_own l.
Proof. iIntros "Hl Ha Hb Hc". iExists a, b, c. iFrame "Hl Ha Hb Hc". Qed.

Lemma heap_buffer_ops_spec l c ops (Ψ : () → hprop block) :
  conn_own l c ⊢ (conn_own l c -∗ Ψ ()) -∗ hwp e (heap_buffer_ops l ops) Ψ.
Proof using.
  iIntros "Hc HΨ". iInduction ops as [|[b op] ops] "IH"; cbn [heap_buffer_ops].
  { iApply hwp_ret. by iApply "HΨ". }
  iDestruct "Hc" as "(%req & %wsmsg & %mb & %cm & %line & %ps & %Hc & Hl & Hbev & Hreq & Hw & Hmb & Hcm)".
  pose proof Hc as (_ & Hw & Hmb & _). hload "Hl". rw Hw. hret.
  iDestruct "Hw" as "(%b1 & %b2 & %b3 & Hw & H1 & H2 & H3)". hload "Hw".
  iAssert (∀ bl, ⌈buffer_of c (Wsmsg_s (Some b1) (Some b2) (Some b3)) b = Some bl⌉ -∗ buffer_own bl -∗
    (buffer_own bl -∗ conn_own l c) -∗
    (conn_own l c -∗ Ψ ()) -∗ hwp e (buffer ← deref (buffer_of c (Wsmsg_s (Some b1) (Some b2) (Some b3)) b);
      _ ← heap_buffer_op buffer op; heap_buffer_ops l ops) Ψ)%I as "Hop".
  { iIntros (bl E) "Hb Hclose HΨ". rw E. hret. iApply hwp_bind. iApply (heap_buffer_op_spec with "Hb"). iIntros "Hb".
    iApply ("IH" with "[Hclose Hb] HΨ"). by iApply "Hclose". }
  iAssert (wsmsg_own wsmsg -∗ buffer_own mb -∗ conn_own l c)%I with "[Hl Hbev Hreq Hcm]" as "Hclose".
  { iIntros "Hw Hmb". iExists req, wsmsg, mb, cm, line, ps. by iFrame "Hl Hbev Hreq Hw Hmb Hcm". }
  destruct b; cbn [buffer_of ms_frame_buffer ms_message_buffer ms_frame_data].
  - iApply ("Hop" with "[//] H1 [-HΨ] HΨ"). iIntros "H1". iApply ("Hclose" with "[Hw H1 H2 H3] Hmb").
    iApply (wsmsg_own_intro with "Hw H1 H2 H3").
  - iApply ("Hop" with "[//] H2 [-HΨ] HΨ"). iIntros "H2". iApply ("Hclose" with "[Hw H1 H2 H3] Hmb").
    iApply (wsmsg_own_intro with "Hw H1 H2 H3").
  - iApply ("Hop" with "[//] H3 [-HΨ] HΨ"). iIntros "H3". iApply ("Hclose" with "[Hw H1 H2 H3] Hmb").
    iApply (wsmsg_own_intro with "Hw H1 H2 H3").
  - iApply ("Hop" with "[%] Hmb [-HΨ] HΨ"); [done|]. iIntros "Hmb". iApply ("Hclose" with "[Hw H1 H2 H3] Hmb").
    iApply (wsmsg_own_intro with "Hw H1 H2 H3").
Qed.

Definition passes_close (passes : list (list (which * buffer_op) * pass)) : bool :=
  existsb (λ '(_, p), pass_closes p) passes.

(** What the loop leaves: [b], whether it has answered a close frame. *)
Definition loop_outcome l (close alive : bool) : hprop block :=
  ∃ b : bool, ⌈b = true → close = true⌉ ∗ outcome l b alive ∗ reason_left b.

Lemma heap_frame_loop_spec l c buffer passes (Ψ : bool → hprop block) :
  conn_sound c → cn_ws_state c = WS_ST_RECEIVING → Forall (λ '(_, p), pass_ok p) passes →
  conn_own l c ⊢ buffer_own buffer -∗
  (∀ alive, loop_outcome l (passes_close passes) alive -∗ buffer_own buffer -∗ Ψ alive) -∗
  hwp e (heap_frame_loop conf l buffer passes) Ψ.
Proof using He Hlog.
  iIntros (Hs Hws Hp) "Hc Hb HΨ".
  iInduction passes as [|[ops p] passes] "IH" forall (Hp); cbn [heap_frame_loop passes_close existsb].
  { iApply hwp_ret. iApply ("HΨ" $! true with "[Hc] Hb"). iExists false. iSplit; [done|].
    iSplitL; [by iApply (conn_own_alive with "Hc")|iApply no_reason]. }
  apply Forall_cons_iff in Hp as [Hp Hps]. iApply hwp_bind. iApply (heap_buffer_ops_spec with "Hc"). iIntros "Hc".
  iApply hwp_bind. iApply (heap_frame_step_spec with "Hc Hb"); [done|done|done|].
  iIntros ([] alive) "Hc Hb"; cbn [pass_outcome].
  - iApply ("IH" with "[//] Hc Hb"). iIntros (alive') "(%b & %Hb & Hc)". iApply "HΨ". iExists b. iFrame. iPureIntro.
    intros Ht. fold (passes_close passes). by rw Hb // orb_true_r.
  - iDestruct "Hc" as "[Hc Hleak]". iApply hwp_ret. iApply ("HΨ" with "[Hc Hleak] Hb").
    iExists (pass_closes p). iFrame. iPureIntro. by intros ->.
Qed.

Lemma heap_wsconn_process_frame_spec l c n ops passes (Ψ : bool → hprop block) :
  conn_sound c → cn_ws_state c = WS_ST_RECEIVING → Forall (λ '(_, p), pass_ok p) passes → 0 <= n →
  conn_own l c ⊢ (∀ alive, loop_outcome l (passes_close passes) alive -∗ Ψ alive) -∗
  hwp e (heap_wsconn_process_frame conf l n ops passes) Ψ.
Proof using He Hlog.
  iIntros (Hs Hws Hp Hn) "Hc HΨ". iApply hwp_bind. iApply heap_buffer_create_spec; [done|].
  iIntros ([b|]) "Hb"; [|by iDestruct "Hb" as %?]. iApply hwp_bind. iApply hwp_malloc; [done|]. iSplit.
  - iIntros (_). iApply hwp_bind. iApply (buffer_delete_spec with "Hb"). iApply hwp_ret. iApply ("HΨ" $! true).
    iExists false. iSplit; [done|]. iSplitL; [by iApply (conn_own_alive with "Hc")|iApply no_reason].
  - iIntros (input) "Hin". iApply hwp_bind. iApply (heap_buffer_ops_spec with "Hc"). iIntros "Hc". hfree "Hin".
    iApply hwp_bind. iApply (heap_frame_loop_spec with "Hc Hb"); [done|done|done|]. iIntros (alive) "Hc Hb".
    iApply hwp_bind. iApply (buffer_delete_spec with "Hb"). iApply hwp_ret. by iApply "HΨ".
Qed.

(** ** The server's side *)

Lemma heap_readcb_loop_spec l xs chunks (Ψ : bool → hprop block) :
  framer_own l xs ⊢ (∀ ok xs', framer_own l xs' -∗ Ψ ok) -∗ hwp e (heap_readcb_loop l chunks) Ψ.
Proof using He.
  iIntros "Hf HΨ". iInduction chunks as [|ck chunks] "IH" forall (xs); cbn [heap_readcb_loop].
  { iApply hwp_ret. by iApply ("HΨ" with "Hf"). }
  iApply hwp_bind. iApply (hwp_wand _ _ (λ _, ∃ xs', framer_own l xs')%I with "[Hf]").
  { destruct (ck_restart ck); [|iApply hwp_ret; by iExists xs]. iApply hwp_bind.
    iApply (heap_framer_initialize_spec with "Hf"); [done|]. iIntros "Hf". iApply hwp_ret. by iExists []. }
  iIntros (_) "(%xs' & Hf)". iApply hwp_bind. iApply (heap_framer_add_spec with "Hf"). iIntros (xs'' _) "Hf".
  destruct (ck_status ck); [by iApply ("IH" with "Hf")|iApply hwp_ret; by iApply ("HΨ" with "Hf")].
Qed.

Lemma heap_forward_loop_spec fuel l xs (Ψ : () → hprop block) : (length xs < fuel)%nat →
  framer_own l xs ⊢ (framer_own l [] -∗ Ψ ()) -∗ hwp e (heap_forward_loop fuel l) Ψ.
Proof using.
  iIntros (Hf) "Hf HΨ". iInduction fuel as [|fuel] "IH" forall (xs Hf); [lia|]. cbn [heap_forward_loop].
  iApply hwp_bind. iApply (heap_framer_has_frame_spec with "Hf"). iIntros "Hf".
  destruct xs as [|x xs]; cbn [bool_decide negb].
  - rw bool_decide_eq_true_2 //. iApply hwp_ret. by iApply "HΨ".
  - rw bool_decide_eq_false_2 //. iApply hwp_bind. iApply (heap_framer_get_frame2_spec with "Hf"). iIntros "Hf".
    iApply hwp_bind. iApply heap_wsconn_write_frame_spec. iApply ("IH" with "[%] Hf HΨ"). simpl in Hf. lia.
Qed.

(** An open manager with a bufferevent. *)
Definition cm_connected l : hprop block :=
  ∃ (parser buffer framer bev : loc) state server dnsbase sp frames,
    ⌈state ≠ CM_START⌉ ∗
    l ↦ to_block (Cmanager_s state (Some parser) server (Some bev) dnsbase (Some buffer) (Some framer)) ∗
    stream_own parser sp ∗ buffer_own buffer ∗ framer_own framer frames ∗
    external bev ∗ opt_own external dnsbase ∗ opt_own text server.

Lemma cm_connected_own l : cm_connected l ⊢ cm_own l.
Proof.
  iIntros "(%parser & %buffer & %framer & %bev & %state & %server & %dnsbase & %sp & %frames & %Hst & Hl & Hp & Hb & Hf & Hbev & Hdns & Hs)".
  iExists parser, buffer, framer, state, server, (Some bev), dnsbase, sp, frames.
  iFrame "Hl Hp Hb Hf Hbev Hdns Hs". iPureIntro. split; [done|by eauto].
Qed.

Lemma cm_own_read l : cm_own l ⊢
  ∃ c : cmanager_s, l ↦ to_block c ∗
    (l ↦ to_block c -∗ if cs_bev c is None then cm_own l else cm_connected l).
Proof.
  iIntros "(%parser & %buffer & %framer & %state & %server & %bev & %dnsbase & %sp & %frames & [%Hst %Hfw] & Hl & Hp & Hb & Hf & Hbev & Hdns & Hs)".
  iExists _. iFrame "Hl". iIntros "Hl". cbn [cs_bev]. destruct bev as [bev|].
  - iExists parser, buffer, framer, bev, state, server, dnsbase, sp, frames.
    iFrame "Hl Hp Hb Hf Hbev Hdns Hs". iPureIntro. intros E. by destruct (Hst E).
  - iExists parser, buffer, framer, state, server, None, dnsbase, sp, frames.
    iFrame "Hl Hp Hb Hf Hbev Hdns Hs". by iPureIntro.
Qed.

Lemma heap_server_event_spec l c f (Ψ : bool → hprop block) :
  conn_own l c ⊢
  ((conn_own l c -∗ Ψ true) ∧
   (∀ cm, ⌈cn_ctx c = Some cm ∧ cn_cm_state c = CM_ST_CREATED⌉ -∗ l ↦ to_block c -∗ conn_rest c cm -∗
      cm_connected cm -∗ hwp e (f cm) Ψ)) -∗
  hwp e (heap_server_event l f) Ψ.
Proof using.
  iIntros "Hc HΨ". iDestruct (conn_open with "Hc") as "(%cm & %Hcm & Hl & Hrest & Hcm)".
  unfold heap_server_event. hload "Hl". rw Hcm. hret.
  destruct (bool_decide_reflect (cn_cm_state c = CM_ST_CREATED)) as [Hst|Hst]; cbn [cm_at].
  - iDestruct (cm_own_read with "Hcm") as "(%cs & Hcm & Hclose)". hload "Hcm".
    iDestruct ("Hclose" with "Hcm") as "Hcm". destruct (cs_bev cs).
    + iDestruct "HΨ" as "[_ HΨ]". by iApply ("HΨ" with "[%] Hl Hrest Hcm").
    + iDestruct "HΨ" as "[HΨ _]". iApply hwp_ret. iApply "HΨ".
      iApply (conn_close_up with "Hl Hrest [Hcm]"); [by repeat split|]. by rw bool_decide_eq_true_2.
  - iDestruct "Hcm" as "(%st & Hcm)". hload "Hcm". iDestruct "HΨ" as "[HΨ _]". iApply hwp_ret. iApply "HΨ".
    iApply (conn_close_up with "Hl Hrest [Hcm]"); [by repeat split|].
    rw bool_decide_eq_false_2 //. by iExists st.
Qed.

Lemma heap_cm_connected_spec l (Ψ : () → hprop block) :
  cm_connected l ⊢ (cm_own l -∗ Ψ ()) -∗ hwp e (heap_cm_connected l) Ψ.
Proof using.
  iIntros "(%parser & %buffer & %framer & %bev & %state & %server & %dnsbase & %sp & %frames & %Hst & Hl & Hp & Hb & Hf & Hbev & Hdns & Hs) HΨ".
  unfold heap_cm_connected. hload "Hl". hret. iDestruct "Hb" as "(%x & %Hx & Hb & Hd)". hload "Hb".
  iApply hwp_bind. iApply (use_spec with "Hbev"). iIntros "Hbev". iApply hwp_bind.
  iApply (heap_buffer_remove_data_spec _ buffer with "[Hb Hd]"); [by iApply (buffer_own_intro with "Hb")|].
  iIntros "Hb". iApply (hwp_put with "Hl"). iIntros "Hl". iApply "HΨ". iApply cm_connected_own.
  iExists parser, buffer, framer, bev, CM_FORWARD, server, dnsbase, sp, frames.
  by iFrame "Hl Hp Hb Hf Hbev Hdns Hs".
Qed.

Lemma heap_cm_readcb_spec l chunks (Ψ : () → hprop block) :
  cm_connected l ⊢ (cm_own l -∗ Ψ ()) -∗ hwp e (heap_cm_readcb l chunks) Ψ.
Proof using He.
  iIntros "(%parser & %buffer & %framer & %bev & %state & %server & %dnsbase & %sp & %frames & %Hst & Hl & Hp & Hb & Hf & Hbev & Hdns & Hs) HΨ".
  unfold heap_cm_readcb. hload "Hl". hret. iApply hwp_bind. iApply (heap_readcb_loop_spec with "Hf").
  iIntros (ok xs) "Hf". iApply (hwp_wand _ _ (λ _, ∃ xs', framer_own framer xs')%I with "[Hf]").
  { destruct ok; [|iApply hwp_ret; by iExists xs].
    iApply (hwp_loop' with "Hf"); [apply framer_own_covers|]. iIntros (fuel Hfu) "Hf".
    iApply (heap_forward_loop_spec with "Hf"); [done|]. iIntros "Hf". by iExists []. }
  iIntros ([]) "(%xs' & Hf)". iApply "HΨ". iApply cm_connected_own.
  iExists parser, buffer, framer, bev, state, server, dnsbase, sp, xs'. by iFrame "Hl Hp Hb Hf Hbev Hdns Hs".
Qed.

(** ** Any sequence of events *)

Definition step_ok (st : step) : Prop :=
  match st with
  | StepRead n _ passes => 0 <= n ∧ Forall (λ '(_, p), pass_ok p) passes
  | _ => True
  end.
Definition step_closes (st : step) : bool :=
  match st with StepRead _ _ passes => passes_close passes | _ => false end.

(** [b]: a close frame has been answered before, [b']: now. *)
Definition step_outcome l (b close alive : bool) : hprop block :=
  ∃ b' : bool, ⌈(b = true → b' = true) ∧ (b' = true → b = true ∨ close = true)⌉ ∗ outcome l b' alive ∗
    reason_left (negb b && b').

Lemma step_outcome_same l b close alive : outcome l b alive ⊢ step_outcome l b close alive.
Proof.
  iIntros "Hc". iExists b. iFrame "Hc". iSplit; [by iPureIntro; auto|].
  destruct b; iApply no_reason.
Qed.

(** A close frame is answered once. *)
Lemma reason_add (b b1 b2 : bool) : (b = true → b1 = true) → (b1 = true → b2 = true) →
  reason_left (negb b && b1) ⊢ reason_left (negb b1 && b2) -∗ reason_left (negb b && b2).
Proof.
  iIntros (Hb Hb1) "(%vs & %Hvs & Hvs) (%ws & %Hws & Hws)". iExists (vs ++ ws).
  iSplit; [|by iApply (leak_add with "Hvs")]. iPureIntro.
  destruct b, b1, b2; simpl in *; subst; try done;
    first [by rw app_nil_r|by specialize (Hb eq_refl)|by specialize (Hb1 eq_refl)].
Qed.

Lemma outcome_true l b alive : outcome l true alive ⊢ outcome l b alive.
Proof. destruct b; [done|apply outcome_weaken]. Qed.

Lemma heap_conn_do_spec l b st (Ψ : bool → hprop block) : step_ok st →
  conn_alive l b ⊢ (∀ alive, step_outcome l b (step_closes st) alive -∗ Ψ alive) -∗
  hwp e (heap_conn_do conf l st) Ψ.
Proof using He Hlog.
  iIntros (Hst) "(%c & [%Hs %Hb] & Hc) HΨ".
  assert (conn_own l c ⊢ step_outcome l b (step_closes st) true) as Hsame.
  { etrans; [by apply (conn_own_alive _ _ b)|apply (step_outcome_same _ _ _ true)]. }
  destruct st as [n ops passes| | | |chunks|]; cbn [heap_conn_do step_closes] in *.
  - iDestruct (conn_open with "Hc") as "(%cm & %Hcm & Hl & Hrest & Hcm)". hload "Hl".
    iDestruct (conn_close_up l c c cm with "Hl Hrest Hcm") as "Hc"; [by repeat split|].
    destruct (cn_ws_state c) eqn:Hws; try (iApply hwp_ret; iApply "HΨ"; by iApply Hsame).
    destruct Hst as [Hn Hps]. iApply (heap_wsconn_process_frame_spec with "Hc"); [done..|].
    iIntros (alive) "(%b' & %Hb' & Hc & Hleak)". iApply "HΨ". iExists b'.
    assert (b = false) as -> by (destruct b; [by destruct Hb|done]). iFrame "Hc". iSplit; [by iPureIntro; split; [done|auto]|].
    by destruct b'.
  - iDestruct (conn_open with "Hc") as "(%cm & %Hcm & Hl & Hrest & Hcm)". hload "Hl".
    iDestruct (conn_close_up l c c cm with "Hl Hrest Hcm") as "Hc"; [by repeat split|].
    destruct (bool_decide _); [|iApply hwp_ret; iApply "HΨ"; by iApply Hsame].
    iApply hwp_bind. iApply (heap_wsconn_delete_spec with "Hc"). iIntros (line) "Hleak". iApply hwp_ret.
    iApply "HΨ". iApply (step_outcome_same _ _ _ false). by iExists line.
  - unfold heap_log_event. rw Hlog. hret.
    iApply (heap_wsconn_close_spec with "Hc"). iIntros (alive) "Hc". iApply "HΨ".
    iApply step_outcome_same. by iApply outcome_true.
  - iApply (heap_server_event_spec with "Hc"). iSplit; [iIntros "Hc"; iApply "HΨ"; by iApply Hsame|].
    iIntros (cm [Hcm Hcs]) "Hl Hrest Hcm". iApply hwp_bind. iApply (heap_cm_connected_spec with "Hcm").
    iIntros "Hcm". iApply hwp_ret. iApply "HΨ". iApply Hsame.
    iApply (conn_close_up with "Hl Hrest [Hcm]"); [by repeat split|]. by rw bool_decide_eq_true_2.
  - iApply (heap_server_event_spec with "Hc"). iSplit; [iIntros "Hc"; iApply "HΨ"; by iApply Hsame|].
    iIntros (cm [Hcm Hcs]) "Hl Hrest Hcm". iApply hwp_bind. iApply (heap_cm_readcb_spec with "Hcm").
    iIntros "Hcm". iApply hwp_ret. iApply "HΨ". iApply Hsame.
    iApply (conn_close_up with "Hl Hrest [Hcm]"); [by repeat split|]. by rw bool_decide_eq_true_2.
  - iApply (heap_server_event_spec with "Hc"). iSplit; [iIntros "Hc"; iApply "HΨ"; by iApply Hsame|].
    iIntros (cm [Hcm Hcs]) "Hl Hrest Hcm". rw cm_connected_own.
    iApply (heap_cm_lost_spec with "Hl Hrest Hcm [//]"); [done|done|]. iIntros "Hc". iApply "HΨ".
    iApply step_outcome_same. iApply (outcome_true _ _ true with "Hc").
Qed.

Lemma heap_conn_run_spec l b steps (Ψ : bool → hprop block) : Forall step_ok steps →
  conn_alive l b ⊢ (∀ alive, step_outcome l b (existsb step_closes steps) alive -∗ Ψ alive) -∗
  hwp e (heap_conn_run conf l steps) Ψ.
Proof using He Hlog.
  iIntros (Hs) "Hc HΨ". iInduction steps as [|st steps] "IH" forall (b Hs Ψ); cbn [heap_conn_run existsb].
  { iApply hwp_ret. iApply "HΨ". by iApply (step_outcome_same _ _ _ true). }
  apply Forall_cons_iff in Hs as [Hst Hs]. iApply hwp_bind. iApply (heap_conn_do_spec with "Hc"); [done|].
  iIntros ([]) "(%b1 & [%Hb1 %Hb1'] & Hc & Hleak)".
  - iApply ("IH" with "[//] Hc"). iIntros (alive) "(%b2 & [%Hb2 %Hb2'] & Hc & Hleak')". iApply "HΨ".
    iExists b2. iFrame "Hc". iSplit.
    { iPureIntro. split; [by auto|]. intros Ht. destruct (Hb2' Ht) as [?| ->]; [|rw orb_true_r; by right].
      destruct Hb1' as [?| ->]; auto. }
    iDestruct (reason_add b b1 b2 with "Hleak Hleak'") as "Hleak"; done.
  - iApply hwp_ret. iApply "HΨ". iExists b1. iFrame. iPureIntro. split; [done|].
    intros Ht. destruct (Hb1' Ht) as [?| ->]; auto.
Qed.

(** A connection from its acceptance on. *)
Lemma heap_connection_spec request res steps (Φ : pointer → hprop block) :
  wsmsg_conf_ok conf → Forall rq_step_ok request → Forall step_ok steps →
  (∀ r (b : bool), ⌈b = true → existsb step_closes steps = true⌉ -∗
     match r with Some l => conn_alive l b | None => ∃ line, leak [line] end -∗
     leak (rq_leaks request) -∗ reason_left b -∗ Φ r) ⊢
  hwp e (heap_connection conf request res steps) Φ.
Proof using He Hlog.
  iIntros (Hconf Hrq Hs) "HΦ". iApply hwp_bind. iApply heap_wsconn_create_spec; [done|].
  iIntros (l c [Hst Hfl]) "Hc". iApply hwp_bind. iApply (heap_read_lines_spec with "Hc"); [done|].
  iIntros "Hc Hleak". iApply hwp_bind. iApply (heap_wsconn_handshake_spec with "Hc"); [done|done|].
  iIntros ([]) "Hc"; cbn [negb outcome].
  - iApply hwp_bind. iApply (heap_conn_run_spec with "Hc"); [done|].
    iIntros (alive) "(%b & [_ %Hb] & Hc & Hreason)". iApply hwp_ret.
    iApply ("HΦ" $! _ b with "[%] [Hc] Hleak Hreason"); [|by destruct alive].
    intros Ht. by destruct (Hb Ht).
  - iApply hwp_ret. iApply ("HΦ" $! None false with "[//] Hc Hleak"). iApply no_reason.
Qed.
End conn.
