(* ===== verification/MemoryProps.v ===== *)
(** * The heap: properties

    What the program leaves behind: a connection, a configuration file, a request,
    a framer, and objects that could not be made.  [blocks] lists what the blocks of a
    heap hold. *)

From iris.proofmode Require Import proofmode.
From S2P Require Import Prelude CString Config RqParser RqSpec Expat StreamParse Framer Libevent WsServer CManager WsFrame Heap Memory MemorySpec MemoryConn.

(** What the blocks of a heap hold. *)
Definition blocks (h : heap block) : list (option block) := (map_to_list h).*2.

Lemma leak_blocks vs (h : heap block) : holds (leak vs) h → blocks h ≡ₚ vs.
Proof.
  revert h. induction vs as [|v vs IH]; intros h Hh; cbn [leak] in Hh.
  { apply holds_emp in Hh as ->. unfold blocks. by rw map_to_list_empty. }
  apply holds_sep in Hh as (h1 & h2 & -> & Hd & [l ->] & Hvs). apply map_disjoint_singleton_l in Hd.
  unfold blocks. rw -insert_union_singleton_l map_to_list_insert // fmap_cons. by apply perm_skip, IH.
Qed.

Lemma blocks_nil (h : heap block) : blocks h = [] → h = ∅.
Proof. intros E%fmap_nil_inv. by apply map_to_list_empty_iff. Qed.

(** [left] is what a computation has added to the heap [h] it started in. *)
Definition adds (h h' left : heap block) : Prop := h' = left ∪ h ∧ left ##ₘ h.

Section props.
Context `{!Allocator block} (e : env).

Lemma adds_wp {A} (m : H block A) (Q : A → heap block → Prop) Φ h :
  (⊢ hwp e m Φ) → (∀ a h1, holds (Φ a) h1 → Q a h1) →
  wp e (m h) (λ '(a, h'), ∃ left, adds h h' left ∧ Q a left).
Proof.
  intros Hm HQ. eapply wp_mono; [by apply hwp_adequate_emp|].
  intros [a h'] (h1 & -> & Hd & HΦ). exists h1. split; [by split|by apply HQ].
Qed.

(** What a run leaves when it is described by the contents of blocks. *)
Lemma leak_wp {A} (m : H block A) (Q : A → heap block → Prop) h :
  (⊢ hwp e m (λ a, ∃ vs, ⌈∀ left, blocks left ≡ₚ vs → Q a left⌉ ∗ leak vs)%I) →
  wp e (m h) (λ '(a, h'), ∃ left, adds h h' left ∧ Q a left).
Proof.
  intros Hm. eapply adds_wp; [done|]. intros a h1 [vs Hvs]. apply holds_fact in Hvs as [Hvs Hl].
  by apply Hvs, leak_blocks.
Qed.
End props.

(** ** Connections *)

(** C6: the memory of a connection, when the log's level is below the one of the message
    about the deletion, which reads the structure that has been freed.  From its
    acceptance on, whatever the browser and the server send and in whatever order, each
    block is used only while it is allocated and freed at most once; and once
    the connection has been freed, what remains is: the array of the request's line, the copy
    of each header's value, and, if a close frame has been answered, the buffer of
    its reason with its data.  Allocations succeed. *)
Theorem connection_memory `{!Allocator block} e conf request res steps h :
  e ≠ Hostile → logged conf LOG_INFO = false → wsmsg_conf_ok conf → Forall rq_step_ok request → Forall step_ok steps →
  wp e (heap_connection conf request res steps h) (λ '(r, h'), ∃ left, adds h h' left ∧
    (r = None → ∃ line answered reason, (answered = true → existsb step_closes steps = true) ∧
      reason_blocks answered reason ∧ blocks left ≡ₚ line :: rq_leaks request ++ reason)).
Proof.
  intros He Hlog Hconf Hrq Hs. apply (adds_wp e _ (λ r left, r = None → ∃ line answered reason,
      (answered = true → existsb step_closes steps = true) ∧
      reason_blocks answered reason ∧ blocks left ≡ₚ line :: rq_leaks request ++ reason)
    (λ r, if r is None then ∃ line answered reason,
      ⌈(answered = true → existsb step_closes steps = true) ∧ reason_blocks answered reason⌉ ∗
      leak (line :: rq_leaks request ++ reason) else True)%I).
  - iApply heap_connection_spec; [done..|].
    iIntros ([l|] b Hb) "Hc Hleak (%reason & %Hreason & Hr)"; [done|]. iDestruct "Hc" as "(%line & Hline)".
    iDestruct (leak_add with "Hleak Hr") as "Hleak". iDestruct (leak_add with "Hline Hleak") as "Hleak".
    iExists line, b, reason. by iFrame "Hleak".
  - intros [l|] h1 Hh Hr; [done|]. destruct Hh as (line & b & reason & Hh).
    apply holds_fact in Hh as [[Hb Hreason] Hl]. exists line, b, reason. split_and!; [done..|by apply leak_blocks].
Qed.

(** A request with two headers, a stream header, a close frame, and the end. *)
Definition sample_lines : list rq_step :=
  [RqLine (bs "GET /xmpp-websocket HTTP/1.1"); RqOther (bs "Host: a"); RqHeader (bs "Upgrade: websocket") (bs "Host") (bs " a");
   RqHeader [] (bs "Upgrade") (bs " websocket")].
Definition sample_steps : list step :=
  [StepRead 20 [(FrameBuffer, BAppend 20)] [([], PassText (bs "<stream:stream to='a'>") [] true)];
   StepRead 8 [(FrameBuffer, BAppend 8)] [([], PassClose 5 1000)]; StepWritten].

Lemma sample_memory_ok : Forall rq_step_ok sample_lines ∧ Forall step_ok sample_steps.
Proof. split; repeat constructor; vm_compute; congruence. Qed.

Example connection_memory_witness :
  (∃ h, heap_connection config_zero sample_lines true sample_steps ∅ [] = Some ((None, h), []) ∧ size h = 5%nat) ∧
  wp Garbage (heap_connection config_zero sample_lines true sample_steps ∅) (λ '(r, h'), ∃ left, adds ∅ h' left ∧
    (r = None → ∃ line answered reason, (answered = true → true = true) ∧ reason_blocks answered reason ∧
      blocks left ≡ₚ line :: [Some (Chars (bs " a")); Some (Chars (bs " websocket"))] ++ reason)).
Proof.
  split; [eexists; split; [by vm_compute|done]|].
  apply (connection_memory Garbage config_zero sample_lines true sample_steps ∅);
    [done|done|by split|apply sample_memory_ok..].
Defined.

(** Where that message is logged, deleting a connection uses it after it has been freed. *)
Example connection_log_ub :
  heap_connection (set_log_level LOG_INFO config_zero) sample_lines true sample_steps ∅ [] = None.
Proof. by vm_compute. Qed.

(** ** Requests *)

Lemma strcasecmp_other k a b :
  strcasecmp_eq k a = true → strcasecmp_eq a b = false → strcasecmp_eq k b = false.
Proof.
  unfold strcasecmp_eq. rw !bool_decide_eq_true !bool_decide_eq_false. by intros ->.
Qed.

(** The list in the heap is the one of the request's model. *)
Lemma header_protocols_spec key value q q' : spec_process key value q = Some q' →
  q_protocols q' = reverse (header_protocols key value) ++ q_protocols q.
Proof.
  unfold spec_process, header_protocols. intros Hq.
  repeat match type of Hq with
  | (if ?b then _ else _) = _ => destruct b eqn:?; [try (erewrite strcasecmp_other; [|eassumption|by vm_compute])|]
  end; simplify_option_eq; done.
Qed.

(** A request object from its creation to its deletion, with a lookup of a protocol by index
    and one by name. *)
Definition request_session `{!Allocator block} (headers : list (list Z * list Z)) (i : Z) (protocol : list Z)
    : H block (option (option (list Z) * bool)) :=
  h ← heap_rq_create;
  match h with
  | None => mret None
  | Some l =>
      _ ← heap_headers l headers;
      got ← heap_rq_get_protocol l i;
      found ← heap_rq_protocols_contains l protocol;
      _ ← rq_delete l;
      mret (Some (got, found))
  end.

(** C18: the linked list of a request, when allocations succeed.  It holds the offered
    protocols, the last one first:
    [rq_get_protocol] and [rq_protocols_contains] find in it what they find in
    a list; [rq_delete] frees all of it, and leaves the array of the line and the
    copy of each header's value behind. *)
Theorem request_memory `{!Allocator block} e headers i protocol h :
  e ≠ Hostile → Forall header_ok headers →
  wp e (request_session headers i protocol h) (λ '(r, h'), ∃ left, adds h h' left ∧
    r = Some (if i <? 0 then None else offered headers !! Z.to_nat i, bool_decide (protocol ∈ offered headers)) ∧
    ∃ line, blocks left ≡ₚ line :: values_of headers).
Proof.
  intros He Hs. apply (leak_wp e _ (λ r left, r = _ ∧ ∃ line, blocks left ≡ₚ line :: values_of headers)).
  iApply hwp_bind. iApply heap_rq_create_spec. iIntros ([l|]) "Hr"; [|by iDestruct "Hr" as %?].
  iDestruct "Hr" as "(%line & Hr)". iApply hwp_bind. iApply (heap_headers_spec with "Hr"); [done|done|].
  rw app_nil_r. iIntros "Hr Hleak". iApply hwp_bind. iApply (heap_rq_get_protocol_spec with "Hr"). iIntros "Hr".
  iApply hwp_bind. iApply (heap_rq_protocols_contains_spec with "Hr"). iIntros "Hr".
  iApply hwp_bind. iApply (rq_delete_spec with "Hr"). iIntros "(%v & Hline)". iApply hwp_ret.
  iExists (v :: values_of headers). iSplit; [iPureIntro; split; [done|by exists v]|].
  iApply (leak_add [v] with "[Hline] Hleak"). by iApply leak_1.
Qed.

Example request_memory_witness :
  wp Garbage (request_session [(bs "Host", bs "a"); (bs "Sec-WebSocket-Protocol", bs "chat, xmpp")] 0 (bs "xmpp") ∅)
    (λ '(r, h'), ∃ left, adds ∅ h' left ∧ r = Some (Some (bs "xmpp"), true) ∧
      ∃ line, blocks left ≡ₚ line :: [Some (Chars (bs "a")); Some (Chars (bs "chat, xmpp"))]).
Proof.
  apply (request_memory Garbage [(bs "Host", bs "a"); (bs "Sec-WebSocket-Protocol", bs "chat, xmpp")] 0 (bs "xmpp") ∅);
    [done|repeat constructor; vm_compute; congruence].
Defined.

(** ** The framer's queue *)

Inductive queue_op := QueueAdd (index size : Z) | QueueTake | QueueReset.

Fixpoint queue_run `{!Allocator block} (l : loc) (ops : list queue_op) : H block (list frame_t) :=
  match ops with
  | [] => mret []
  | QueueAdd i n :: ops => _ ← heap_framer_add_frame l i n; queue_run l ops
  | QueueTake :: ops =>
      more ← heap_framer_has_frame l;
      if (more : bool) then (fr ← heap_framer_get_frame2 l; frs ← queue_run l ops; mret (fr :: frs))
      else queue_run l ops
  | QueueReset :: ops => _ ← heap_framer_initialize l; queue_run l ops
  end.

(** The same on a list, as Framer.v has it. *)
Fixpoint list_run (xs : list frame_t) (ops : list queue_op) : list frame_t :=
  match ops with
  | [] => []
  | QueueAdd i n :: ops => list_run (xs ++ [Span i n]) ops
  | QueueTake :: ops => match xs with [] => list_run [] ops | x :: xs => x :: list_run xs ops end
  | QueueReset :: ops => list_run [] ops
  end.

Definition queue_session `{!Allocator block} (ops : list queue_op) : H block (option (list frame_t)) :=
  f ← heap_framer_create;
  match f with
  | None => mret None
  | Some l => frs ← queue_run l ops; _ ← heap_framer_delete l; mret (Some frs)
  end.

Lemma queue_run_spec `{!Allocator block} e l xs ops (Ψ : list frame_t → hprop block) : e ≠ Hostile →
  framer_own l xs ⊢ (∀ xs', framer_own l xs' -∗ Ψ (list_run xs ops)) -∗ hwp e (queue_run l ops) Ψ.
Proof.
  iIntros (He) "Hf HΨ". iInduction ops as [|[i n| |] ops] "IH" forall (xs Ψ); cbn [queue_run list_run].
  - iApply hwp_ret. by iApply "HΨ".
  - iApply hwp_bind. iApply (heap_framer_add_frame_spec with "Hf"). iIntros (xs' [->|[? _]]) "Hf"; [|done].
    by iApply ("IH" with "Hf").
  - iApply hwp_bind. iApply (heap_framer_has_frame_spec with "Hf"). iIntros "Hf". destruct xs as [|x xs].
    + rw bool_decide_eq_true_2 //. by iApply ("IH" with "Hf").
    + rw bool_decide_eq_false_2 //. iApply hwp_bind. iApply (heap_framer_get_frame2_spec with "Hf"). iIntros "Hf".
      iApply hwp_bind. iApply ("IH" with "Hf"). iIntros (xs') "Hf". iApply hwp_ret. by iApply "HΨ".
  - iApply hwp_bind. iApply (heap_framer_initialize_spec with "Hf"); [done|]. iIntros "Hf". by iApply ("IH" with "Hf").
Qed.

(** C38: the framer's linked list.  Nodes that are appended through [tail] and removed through
    [head], in any order and with resets in between, are, when allocations succeed, the queue that Framer.v
    has as a list; no freed node is used; and when the framer is deleted the heap is what
    it was before it was created. *)
Theorem framer_queue_refines `{!Allocator block} e ops h : e ≠ Hostile →
  wp e (queue_session ops h) (λ '(r, h'), r = Some (list_run [] ops) ∧ h' = h).
Proof.
  intros He. eapply wp_mono.
  - apply (adds_wp e _ (λ r left, r = Some (list_run [] ops) ∧ left = ∅)
      (λ r, ⌈r = Some (list_run [] ops)⌉ ∗ emp)%I).
    + iApply hwp_bind. iApply heap_framer_create_spec.
      iIntros ([l|]) "Hf"; cbn [framer_made]; [|by iDestruct "Hf" as "[%E Hf]"]. iApply hwp_bind.
      iApply (queue_run_spec with "Hf"); [done|]. iIntros (xs') "Hf". iApply hwp_bind.
      iApply (heap_framer_delete_spec with "Hf"). by iApply hwp_ret.
    + intros r h1 Hr. by apply holds_fact in Hr as [-> ?].
  - intros [r h'] (left & [-> _] & -> & ->). by rw left_id_L.
Qed.

Example framer_queue_refines_witness :
  wp Garbage (queue_session [QueueAdd 0 5; QueueAdd 5 3; QueueTake; QueueAdd 8 2; QueueTake; QueueReset; QueueTake] ∅)
    (λ '(r, h'), r = Some [Span 0 5; Span 5 3] ∧ h' = ∅).
Proof.
  by apply (framer_queue_refines Garbage
    [QueueAdd 0 5; QueueAdd 5 3; QueueTake; QueueAdd 8 2; QueueTake; QueueReset; QueueTake] ∅).
Defined.

(** ** Objects that cannot be made *)

(** Created and, if that was possible, deleted. *)
Definition attempt (create : H block pointer) (delete : loc → H block ()) : H block () :=
  p ← create; match p with Some l => delete l | None => mret () end.

(** What an attempt leaves behind. *)
Definition leaves `{!Allocator block} e h create delete (P : list (option block) → Prop) : Prop :=
  wp e (attempt create delete h) (λ '(_, h'), ∃ left, adds h h' left ∧ P (blocks left)).

Lemma attempt_spec `{!Allocator block} e h create delete Q (P : list (option block) → Prop) :
  (∀ Φ, (∀ p, made e Q p -∗ Φ p) ⊢ hwp e create Φ) →
  (∀ l (Ψ : () → hprop block), Q l ⊢ (∀ vs, leak vs -∗ ⌈∀ ws, ws ≡ₚ vs → P ws⌉ -∗ Ψ ()) -∗ hwp e (delete l) Ψ) →
  (e = Hostile → P []) → leaves e h create delete P.
Proof.
  intros Hc Hd HP. apply (leak_wp e _ (λ _ left, P (blocks left))).
  iApply hwp_bind. iApply Hc. iIntros ([l|]) "Hp"; cbn [made].
  - iApply (Hd with "Hp"). iIntros (vs) "Hleak %Hvs". iExists vs. iFrame. iPureIntro. intros left. apply Hvs.
  - iDestruct "Hp" as %He. iApply hwp_ret. iExists []. iSplit; [iPureIntro|iApply leak_0].
    intros left ->%Permutation_nil_r. by apply HP.
Qed.

Lemma H_step {A B C} (m : H block A) (f : A → H block B) (g : B → H block C) h t a h1 t1 :
  m h t = Some ((a, h1), t1) → ((m ≫= f) ≫= g) h t = (f a ≫= g) h1 t1.
Proof. intros E. unfold mbind, H_bind, mbind, M_bind. by rw E. Qed.

Lemma malloc_granted `{!Allocator block} (h : heap block) t : head t ≠ Some None →
  ∃ t1, h_malloc 56 h t = Some ((Some (pick h), <[pick h := None]> h), t1).
Proof. intros Ht. destruct t as [|[f|] t]; [by eexists..|done]. Qed.

(** The structure of the server, when its [malloc] succeeds. *)
Lemma listener_leaves `{!Allocator block} bound (h : heap block) t : head t ≠ Some None →
  ∃ t', attempt (heap_ws_create bound) ws_delete h t = Some (((), h), t').
Proof.
  intros Ht. destruct (malloc_granted h t Ht) as [t1 Hm]. unfold attempt, heap_ws_create. rw (H_step _ _ _ _ _ _ _ _ Hm).
  pose proof (pick_free h) as Hfree. set (l := pick h) in *. rw insert_union_singleton_l.
  match goal with |- ∃ t', ?m _ _ = _ => assert (points_to l None ⊢ hwp Hostile m (λ _, emp)%I) as Hspec end.
  - iIntros "Hl". iApply hwp_bind. hret. iApply hwp_bind. iApply (hwp_store with "Hl"). iIntros "Hl".
    destruct bound; cbn [negb]; [|hfree "Hl"; iApply hwp_ret; by iApply hwp_ret].
    iApply hwp_bind. iApply heap_external_spec. iIntros (listener) "Hlis". iApply hwp_bind.
    iApply (hwp_store with "Hl"). iIntros "Hl". destruct listener as [listener|].
    + iApply hwp_ret. iApply hwp_bind. iApply (hwp_load with "Hl"). iIntros "Hl". hfree "Hlis".
      by iApply (hwp_free with "Hl").
    + iDestruct "Hlis" as "_". hfree "Hl". iApply hwp_ret. by iApply hwp_ret.
  - destruct (hwp_adequate Hostile _ _ _ {[l := None]} h Hspec) with (t := t1) as ([[] h2] & t' & E & h3 & -> & _ & ->%holds_emp);
      [done|by apply map_disjoint_singleton_l|]. exists t'. by rw E left_id_L.
Qed.


(** A framer that cannot get its parser leaves its structure behind. *)
Example framer_create_leaks :
  ∃ h, heap_framer_create ∅ [Some (λ _, 0); None] = Some ((None, h), []) ∧ size h = 1%nat.
Proof. eexists. split; [by vm_compute|done]. Qed.

(** A manager that cannot get its framer leaves the parser of the stream parser and the
    data of its buffer behind. *)
Example cm_create_leaks : let ok := Some (λ _, 0) in
  ∃ h, heap_cm_create ∅ [ok; ok; ok; ok; ok; None] = Some ((None, h), []) ∧ size h = 2%nat.
Proof. eexists. split; [by vm_compute|done]. Qed.


(** ** The configuration *)

(** The four strings while the file is read, and what an assignment makes of them. *)
Definition assigned (held : conf_field → option (list Z)) (f : conf_field) (v : list Z) (g : conf_field)
    : option (list Z) :=
  if decide (g = f) then Some v else held g.

(** The strings that the assignments replace. *)
Fixpoint replaced (held : conf_field → option (list Z)) (steps : list conf_step) : list (list Z) :=
  match steps with
  | [] => []
  | ConfOrigin _ :: steps => replaced held steps
  | ConfSet f v :: steps => option_list (held f) ++ replaced (assigned held f v) steps
  end.

Definition conf_step_ok (st : conf_step) : Prop :=
  match st with ConfOrigin s | ConfSet _ s => zlen s < PTRDIFF_MAX end.

Section config.
Context `{!Allocator block} (e : env) (He : e ≠ Hostile).

Fixpoint origins (p : pointer) (urls : list (list Z)) : hprop block :=
  match urls with
  | [] => ⌈p = None⌉
  | u :: urls => ∃ l q ul, ⌈p = Some l⌉ ∗ l ↦ to_block (Origin_s ul q) ∗ ul ↦ Chars u ∗ origins q urls
  end.

Lemma origins_covers p urls : covers (length urls) (origins p urls).
Proof.
  revert p. induction urls as [|u urls IH]; intros p; [apply covers_emp|].
  do 3 (apply covers_exist; intros ?). apply (covers_sep 0 (S (length urls))); [apply covers_emp|].
  apply (covers_sep 1); [apply covers_points_to|]. apply (covers_sep 0); [apply covers_emp|apply IH].
Qed.

Lemma delete_origins_spec fuel p urls (Ψ : () → hprop block) : (length urls < fuel)%nat →
  origins p urls ⊢ Ψ () -∗ hwp e (delete_origins fuel p) Ψ.
Proof.
  iIntros (Hf) "Hp HΨ". iInduction fuel as [|fuel] "IH" forall (p urls Hf); [lia|].
  destruct urls as [|u urls]; cbn [origins]; [iDestruct "Hp" as %->; by iApply hwp_ret|].
  iDestruct "Hp" as "(%l & %q & %ul & -> & Hl & Hu & Hq)". cbn [delete_origins]. hload "Hl". hfree "Hu". hfree "Hl".
  iApply ("IH" with "[%] Hq HΨ"). simpl in Hf. lia.
Qed.

(** A string of the configuration. *)
Definition string_at (p : pointer) (v : option (list Z)) : hprop block :=
  match p, v with
  | Some l, Some v => l ↦ Chars v
  | None, None => emp
  | _, _ => ⌈False⌉
  end%I.

Definition conf_own l (held : conf_field → option (list Z)) : hprop block :=
  ∃ head urls str, l ↦ to_block (Jsconf_s head str) ∗ origins head urls ∗
    string_at (str F_CIDR) (held F_CIDR) ∗ string_at (str F_PORT) (held F_PORT) ∗
    string_at (str F_HOST) (held F_HOST) ∗ string_at (str F_RESOURCE) (held F_RESOURCE).

Lemma string_at_leak p v : string_at p v ⊢ leak ((Some ∘ Chars) <$> option_list v).
Proof.
  destruct p as [l|], v as [v|]; cbn; [apply leak_1|by iIntros "%"|by iIntros "%"|done].
Qed.

Lemma string_at_free p v (Ψ : () → hprop block) : string_at p v ⊢ Ψ () -∗ hwp e (h_free p) Ψ.
Proof.
  iIntros "Hp HΨ". destruct p as [l|], v as [v|]; cbn [string_at];
    [by iApply (hwp_free with "Hp")|by iDestruct "Hp" as "%"|by iDestruct "Hp" as "%"|by iApply hwp_free_null].
Qed.

Lemma heap_config_set_spec l held f v (Ψ : () → hprop block) : zlen v < PTRDIFF_MAX →
  conf_own l held ⊢
  (conf_own l (assigned held f v) -∗ leak ((Some ∘ Chars) <$> option_list (held f)) -∗ Ψ ()) -∗
  hwp e (heap_config_set l f v) Ψ.
Proof using He.
  iIntros (Hv) "(%head & %urls & %str & Hl & Ho & Hc & Hp & Hh & Hr) HΨ".
  iApply hwp_bind. iApply heap_strdup_ok; [done|done|]. iIntros (new) "Hnew". hload "Hl".
  iApply (hwp_put with "Hl"). iIntros "Hl". set (str' := λ g, if decide (g = f) then Some new else str g).
  iAssert (string_at (str' f) (assigned held f v f)) with "[Hnew]" as "Hnew".
  { unfold str', assigned. rw !decide_True //. }
  destruct f.
  - iApply ("HΨ" with "[-Hp] [Hp]"); [|by iApply string_at_leak]. iExists head, urls, str'. by iFrame "Hl Ho Hc Hnew Hh Hr".
  - iApply ("HΨ" with "[-Hc] [Hc]"); [|by iApply string_at_leak]. iExists head, urls, str'. by iFrame "Hl Ho Hnew Hp Hh Hr".
  - iApply ("HΨ" with "[-Hh] [Hh]"); [|by iApply string_at_leak]. iExists head, urls, str'. by iFrame "Hl Ho Hc Hp Hnew Hr".
  - iApply ("HΨ" with "[-Hr] [Hr]"); [|by iApply string_at_leak]. iExists head, urls, str'. by iFrame "Hl Ho Hc Hp Hh Hnew".
Qed.

Lemma heap_config_origin_spec l held v (Ψ : bool → hprop block) : zlen v < PTRDIFF_MAX →
  conf_own l held ⊢ (conf_own l held -∗ Ψ true) -∗ hwp e (heap_config_origin l v) Ψ.
Proof using He.
  iIntros (Hv) "(%head & %urls & %str & Hl & Ho & Hrest) HΨ". iApply hwp_bind.
  iApply hwp_malloc; [done|]. iSplit; [by iIntros ([?|?])|]. iIntros (o) "Hnew". iApply hwp_bind.
  iApply heap_strdup_ok; [done|done|]. iIntros (u) "Hu". hret. hload "Hl". hput "Hnew". hput "Hl". iApply hwp_ret.
  iApply "HΨ". iExists (Some o), (v :: urls), str. iFrame "Hl Hrest".
  iExists o, head, u. by iFrame.
Qed.

Lemma config_delete_spec l held (Ψ : () → hprop block) :
  conf_own l held ⊢ Ψ () -∗ hwp e (config_delete l) Ψ.
Proof using.
  iIntros "(%head & %urls & %str & Hl & Ho & Hc & Hp & Hh & Hr) HΨ". unfold config_delete. hload "Hl".
  iApply hwp_bind. iApply (hwp_loop' with "Ho"); [apply origins_covers|]. iIntros (fuel Hf) "Ho".
  iApply (delete_origins_spec with "Ho"); [done|]. cbn [js_str].
  iApply hwp_bind. iApply (string_at_free with "Hc").
  iApply hwp_bind. iApply (string_at_free with "Hp").
  iApply hwp_bind. iApply (string_at_free with "Hh").
  iApply hwp_bind. iApply (string_at_free with "Hr").
  by iApply (hwp_free with "Hl").
Qed.

Lemma heap_config_run_spec l held steps (Ψ : bool → hprop block) : Forall conf_step_ok steps →
  conf_own l held ⊢ (∀ held', conf_own l held' -∗ leak ((Some ∘ Chars) <$> replaced held steps) -∗ Ψ true) -∗
  hwp e (heap_config_run l steps) Ψ.
Proof using He.
  iIntros (Hs) "Hc HΨ". iInduction steps as [|[u|f v] steps] "IH" forall (held Hs Ψ); cbn [heap_config_run replaced].
  - iApply hwp_ret. iApply ("HΨ" with "Hc"). iApply leak_0.
  - apply Forall_cons_iff in Hs as [Hu Hs]. iApply hwp_bind. iApply (heap_config_origin_spec with "Hc"); [done|].
    iIntros "Hc". by iApply ("IH" with "[//] Hc").
  - apply Forall_cons_iff in Hs as [Hv Hs]. iApply hwp_bind. iApply (heap_config_set_spec with "Hc"); [done|].
    iIntros "Hc Hleak". iApply ("IH" with "[//] Hc"). iIntros (held') "Hc Hleak'".
    iApply ("HΨ" with "Hc"). rw fmap_app. by iApply (leak_add with "Hleak").
Qed.
End config.

(** C31: the memory of the configuration, when allocations succeed.  Filled with any origins
    and strings and then deleted, it leaves exactly the strings behind that a later
    assignment has replaced. *)
Theorem config_memory `{!Allocator block} e steps h : e ≠ Hostile → Forall conf_step_ok steps →
  wp e (heap_config steps h) (λ '(ok, h'), ∃ left, adds h h' left ∧
    ok = true ∧ blocks left ≡ₚ (Some ∘ Chars) <$> replaced (λ _, None) steps).
Proof.
  intros He Hs.
  apply (leak_wp e _ (λ ok left, ok = true ∧ blocks left ≡ₚ (Some ∘ Chars) <$> replaced (λ _, None) steps)).
  iApply hwp_bind. unfold heap_config_create.
  iApply hwp_bind. iApply hwp_malloc; [done|]. iSplit; [by iIntros ([?|?])|]. iIntros (l) "Hl". hput "Hl".
  iApply hwp_ret. iApply hwp_bind.
  iApply (heap_config_run_spec e He l (λ _, None) with "[Hl]"); [done| |].
  { iExists None, [], (λ _, None). iFrame "Hl". cbn. by iSplit. }
  iIntros (held) "Hc Hleak". iApply hwp_bind. iApply (config_delete_spec with "Hc"). iApply hwp_ret.
  iExists _. by iFrame.
Qed.

Example config_memory_witness :
  wp Garbage (heap_config [ConfSet F_PORT (bs "5280"); ConfOrigin (bs "a"); ConfSet F_PORT (bs "5281")] ∅)
    (λ '(ok, h'), ∃ left, adds ∅ h' left ∧ ok = true ∧ blocks left ≡ₚ [Some (Chars (bs "5280"))]).
Proof.
  apply (config_memory Garbage [ConfSet F_PORT (bs "5280"); ConfOrigin (bs "a"); ConfSet F_PORT (bs "5281")] ∅);
    [done|repeat constructor; vm_compute; congruence].
Defined.
